(** * s3-speed-comparison: the benchmark script and its reporter

    A shallow embedding of the benchmark script (size parsing, object-key
    synthesis, the multipart upload iteration, the adaptive sampling loop)
    and of the reporting script (means, table cells, chart series), with
    the properties of the specification stated over it.

    Conventions of the embedding.
    - A JavaScript [number] is [NaN], one of the two infinities, or the
      rational value of an IEEE 754 double.  The literals read by
      [parseFloat] and the results of multiplication, addition,
      subtraction and division are rounded to the nearest double, ties to
      the even significand, and overflow to an infinity; the remainder
      operator and comparison are exact.  Negative zero is identified
      with zero.
    - Strings are sequences of code units below 256.
    - The outside world (clock, storage service, HTTP transport, file
      system) is an oracle that answers each request from the history of
      the interaction so far; every request is logged with its answer.
    - Loops that the source does not bound take fuel; running out of fuel
      is the outcome [Timeout], distinct from a JavaScript exception.
    - What the script prints is not recorded.  The calls that move the
      cursor exist only when the standard output is a terminal, and the
      summary line reads the samples: both can throw, and that is part of
      the model. *)

From Stdlib Require Import ZArith QArith Qround Qabs String Ascii List Lia.
From stdpp Require Import base gmap strings list pretty.

Local Open Scope Z_scope.

(** ** JavaScript numbers *)

Module Num.

Inductive number : Type :=
| NaN
| Inf (negative : bool)
| Fin (q : Q).

Definition of_Z (z : Z) : number := Fin (inject_Z z).

(** Equality of values ([NaN] is a value here, equal to itself). *)
Definition num_eq (a b : number) : Prop :=
  match a, b with
  | NaN, NaN => True
  | Inf s, Inf t => s = t
  | Fin p, Fin q => (p == q)%Q
  | _, _ => False
  end.

Definition isNaN (a : number) : bool :=
  match a with NaN => true | _ => false end.

Definition Qsign_neg (q : Q) : bool :=
  match (q ?= 0)%Q with Lt => true | _ => false end.

(** The integer nearest to [n / d] for [d > 0], the even one of two. *)
Definition nearest_even (n d : Z) : Z :=
  let q := n / d in
  match 2 * (n mod d) ?= d with
  | Lt => q
  | Gt => q + 1
  | Eq => if Z.even q then q else q + 1
  end.

(** The double nearest to the positive rational [n / d]; [None] when it
    is out of range.  A double is [v * 2 ^ e] with [v < 2 ^ 53] and
    [-1074 <= e], below [2 ^ 1024].  The exponent [e0] is a lower bound
    of the exponent of the result ([n / d] is above
    [2 ^ (log2 n - log2 d - 1)]), [n' / d'] is [n / d] in units of
    [2 ^ e0], and [s] is the number of bits it has above 53. *)
Definition round64_pos (n d : Z) : option Q :=
  let e0 := Z.max (Z.log2 n - Z.log2 d - 53) (-1074) in
  let n' := n * 2 ^ Z.max 0 (- e0) in
  let d' := d * 2 ^ Z.max 0 e0 in
  let s := Z.max 0 (Z.log2 (n' / d') - 52) in
  let v := nearest_even n' (d' * 2 ^ s) * 2 ^ s in
  if 1024 <=? Z.log2 v + e0 then None
  else Some (Qred (v * 2 ^ Z.max 0 e0 # Z.to_pos (2 ^ Z.max 0 (- e0)))).

(** Rounding of an exact result to a double.  An integer of magnitude up
    to [2 ^ 53] is a double. *)
Definition round64 (q : Q) : number :=
  let n := Qnum q in
  let d := Z.pos (Qden q) in
  if (n mod d =? 0) && (Z.abs (n / d) <=? 2 ^ 53)
  then Fin (inject_Z (n / d))
  else
    match round64_pos (Z.abs n) d with
    | Some v => Fin (if n <? 0 then - v else v)
    | None => Inf (n <? 0)
    end.

Definition mul (a b : number) : number :=
  match a, b with
  | NaN, _ | _, NaN => NaN
  | Fin p, Fin q => round64 (p * q)
  | Inf s, Inf t => Inf (xorb s t)
  | Inf s, Fin q | Fin q, Inf s =>
      match (q ?= 0)%Q with
      | Eq => NaN
      | Lt => Inf (negb s)
      | Gt => Inf s
      end
  end.

Definition add (a b : number) : number :=
  match a, b with
  | NaN, _ | _, NaN => NaN
  | Fin p, Fin q => round64 (p + q)
  | Inf s, Inf t => if Bool.eqb s t then Inf s else NaN
  | Inf s, Fin _ | Fin _, Inf s => Inf s
  end.

Definition neg (a : number) : number :=
  match a with
  | NaN => NaN
  | Inf s => Inf (negb s)
  | Fin q => Fin (- q)
  end.

Definition sub (a b : number) : number := add a (neg b).

Definition div (a b : number) : number :=
  match a, b with
  | NaN, _ | _, NaN => NaN
  | Inf _, Inf _ => NaN
  | Inf s, Fin q => Inf (xorb s (Qsign_neg q))
  | Fin _, Inf _ => Fin 0
  | Fin p, Fin q =>
      match (q ?= 0)%Q with
      | Eq => match (p ?= 0)%Q with
              | Eq => NaN
              | Lt => Inf true
              | Gt => Inf false
              end
      | _ => round64 (p / q)
      end
  end.

(** Truncation toward zero, as used by the remainder operator. *)
Definition Qtrunc (q : Q) : Z :=
  if Qsign_neg q then Qceiling q else Qfloor q.

(** [a % b]: the result has the sign of the dividend; it is a double
    whenever the operands are, so nothing is rounded. *)
Definition rem (a b : number) : number :=
  match a, b with
  | NaN, _ | _, NaN => NaN
  | Inf _, _ => NaN
  | Fin p, Inf _ => Fin p
  | Fin p, Fin q =>
      match (q ?= 0)%Q with
      | Eq => NaN
      | _ => Fin (p - q * inject_Z (Qtrunc (p / q)))
      end
  end.

(** Relational comparison; [None] when an operand is [NaN]. *)
Definition cmp (a b : number) : option comparison :=
  match a, b with
  | NaN, _ | _, NaN => None
  | Fin p, Fin q => Some (p ?= q)%Q
  | Inf s, Inf t =>
      Some (if Bool.eqb s t then Eq else if s then Lt else Gt)
  | Inf s, Fin _ => Some (if s then Lt else Gt)
  | Fin _, Inf t => Some (if t then Gt else Lt)
  end.

Definition gt (a b : number) : bool :=
  match cmp a b with Some Gt => true | _ => false end.

Definition ge (a b : number) : bool :=
  match cmp a b with Some Gt | Some Eq => true | _ => false end.

Definition lt (a b : number) : bool :=
  match cmp a b with Some Lt => true | _ => false end.

(** [Math.round]: to the nearest integer, ties toward +infinity. *)
Definition round (a : number) : number :=
  match a with
  | Fin q => of_Z (Qfloor (q + (1 # 2))%Q)
  | _ => a
  end.

End Num.

Export Num.

Declare Scope num_scope.
Delimit Scope num_scope with num.
Bind Scope num_scope with number.
Infix "*" := Num.mul : num_scope.
Infix "-" := Num.sub : num_scope.
Infix "+" := Num.add : num_scope.
Infix "/" := Num.div : num_scope.
Infix "%%" := Num.rem (at level 40, left associativity) : num_scope.
Infix "≃" := Num.num_eq (at level 70, no associativity).

Definition n1024 : number := Num.of_Z 1024.

(** ** Strings and the built-in [parseFloat] *)

Module Js.

(** [s.endsWith(suffix)] *)
Definition endsWith (s suffix : string) : bool :=
  let n := String.length s in
  let k := String.length suffix in
  (k <=? n)%nat && String.eqb (substring (n - k) k s) suffix.

(** [s.startsWith(p)] *)
Definition startsWith (s p : string) : bool := String.prefix p s.

Definition is_digit (c : ascii) : bool :=
  let n := nat_of_ascii c in (48 <=? n)%nat && (n <=? 57)%nat.

Definition digit_val (c : ascii) : Z := Z.of_nat (nat_of_ascii c) - 48.

(** White space skipped in front of a numeric literal, the part of
    StrWhiteSpaceChar below 256: TAB, LF, VT, FF, CR, SP, NBSP. *)
Definition is_space (c : ascii) : bool :=
  let n := nat_of_ascii c in
  ((9 <=? n)%nat && (n <=? 13)%nat) || (n =? 32)%nat || (n =? 160)%nat.

Fixpoint skip_space (s : string) : string :=
  match s with
  | String c r => if is_space c then skip_space r else s
  | EmptyString => s
  end.

(** Longest run of decimal digits in front of [s], and the rest. *)
Fixpoint take_digits (s : string) : string * string :=
  match s with
  | String c r =>
      if is_digit c
      then let '(d, rest) := take_digits r in (String c d, rest)
      else (EmptyString, s)
  | EmptyString => (EmptyString, EmptyString)
  end.

(** Value of a run of decimal digits, most significant first. *)
Fixpoint dec_val_from (acc : Z) (d : string) : Z :=
  match d with
  | String c r => dec_val_from (10 * acc + digit_val c) r
  | EmptyString => acc
  end.

Definition dec_val (d : string) : Z := dec_val_from 0 d.

Definition take_sign (s : string) : bool * string :=
  match s with
  | String "-" r => (true, r)
  | String "+" r => (false, r)
  | _ => (false, s)
  end.

(** Optional exponent part: [e] or [E], an optional sign, digits.  Without
    digits there is no exponent part and the characters are not consumed. *)
Definition take_exponent (s : string) : Z :=
  match s with
  | String c r =>
      if (Ascii.eqb c "e" || Ascii.eqb c "E")%bool
      then let '(sg, r1) := take_sign r in
           let '(ed, _) := take_digits r1 in
           match ed with
           | EmptyString => 0
           | _ => if sg then - dec_val ed else dec_val ed
           end
      else 0
  | EmptyString => 0
  end.

(** Value of [ip.fp]: integer digits [ip], fraction digits [fp]. *)
Definition decimal_value (ip fp : string) : Q :=
  (inject_Z (dec_val ip)
   + inject_Z (dec_val fp) / inject_Z (10 ^ Z.of_nat (String.length fp)))%Q.

(** [parseFloat(s)]: the double nearest to the value of the longest
    prefix of [s], after leading white space, that is a decimal literal;
    [NaN] when there is none. *)
Definition parseFloat (s : string) : number :=
  let '(sg, s1) := take_sign (skip_space s) in
  if String.prefix "Infinity" s1 then Inf sg
  else
    let '(ip, s2) := take_digits s1 in
    let '(fp, s3) :=
      match s2 with
      | String "." r => take_digits r
      | _ => (EmptyString, s2)
      end in
    match ip, fp with
    | EmptyString, EmptyString => NaN
    | _, _ =>
        let v := (decimal_value ip fp * Qpower 10 (take_exponent s3))%Q in
        Num.round64 (if sg then (- v)%Q else v)
    end.

Definition pad3 (n : Z) : string :=
  let d := pretty (Z.to_N n) in
  match String.length d with
  | 1%nat => "00" +:+ d
  | 2%nat => "0" +:+ d
  | _ => d
  end.

(** The numeral [s * 10 ^ p] denotes the double [x]. *)
Definition denotes (x s p : Z) : bool :=
  match Num.round64 (inject_Z (s * 10 ^ p)) with
  | Fin q => Qeq_bool q (inject_Z x)
  | _ => false
  end.

(** Of two significands the one whose numeral is nearer to [x], the even
    one when they are as near. *)
Definition nearer (x p s t : Z) : Z :=
  match Z.abs (s * 10 ^ p - x) ?= Z.abs (t * 10 ^ p - x) with
  | Lt => s
  | Gt => t
  | Eq => if Z.even s then s else t
  end.

(** The significands of [k] digits that denote [x], a double of [D]
    decimal digits, with the number [n] of digits in front of the
    decimal point of the numeral. *)
Definition significand (x D k : Z) : option (Z * Z) :=
  let p := D - k in
  let s := x / 10 ^ p in
  if (k =? 1) && denotes x 1 D then Some (D + 1, 1)
  else
    match denotes x s p, (s + 1 <? 10 ^ k) && denotes x (s + 1) p with
    | true, true => Some (D, nearer x p s (s + 1))
    | true, false => Some (D, s)
    | false, true => Some (D, s + 1)
    | false, false => None
    end.

Fixpoint shortest (x D k : Z) (fuel : nat) : Z * Z :=
  match fuel with
  | O => (D, x)
  | S fuel' =>
      match significand x D k with
      | Some r => r
      | None => shortest x D (k + 1) fuel'
      end
  end.

(** [String(x)] for a double [x >= 10^21], which is an integer: the
    fewest significant digits that denote [x], in exponent notation. *)
Definition toString_large (x : Z) : string :=
  let D := Z.of_nat (String.length (pretty (Z.to_N x))) in
  let '(n, s) := shortest x D 1 17 in
  let digits := pretty (Z.to_N s) in
  match digits with
  | String c EmptyString =>
      String c EmptyString +:+ "e+" +:+ pretty (Z.to_N (n - 1))
  | String c r => String c ("." +:+ r) +:+ "e+" +:+ pretty (Z.to_N (n - 1))
  | EmptyString => EmptyString
  end.

(** [x.toFixed(3)]: below 10^21 in magnitude the nearest multiple of
    1/1000, the larger of two, written with exactly three decimals; from
    10^21 on the text of [String(x)]; in front of either the sign of [x].
    A value that is not finite is written by name. *)
Definition toFixed3 (x : number) : string :=
  match x with
  | NaN => "NaN"
  | Inf s => if s then "-Infinity" else "Infinity"
  | Fin q =>
      let body :=
        if Qle_bool (inject_Z (10 ^ 21)) (Qabs q)
        then toString_large (Qfloor (Qabs q))
        else
          let n := Qfloor (Qabs q * 1000 + (1 # 2))%Q in
          pretty (Z.to_N (n / 1000)) +:+ "." +:+ pad3 (n mod 1000) in
      if Qsign_neg q then "-" +:+ body else body
  end.

(** [s.split('-')] *)
Fixpoint split_dash_from (cur : string) (s : string) : list string :=
  match s with
  | String c r =>
      if Ascii.eqb c "-"
      then String.rev cur :: split_dash_from EmptyString r
      else split_dash_from (String c cur) r
  | EmptyString => [String.rev cur]
  end.

Definition split_dash (s : string) : list string :=
  split_dash_from EmptyString s.

End Js.

(** ** The benchmark script *)

(** Exceptions: [new Error(message)] raised by the script itself, the
    errors of the runtime, and a rejection coming from the storage client
    or the HTTP client. *)
Inductive exn : Type :=
| Error (message : string)
| RangeError
| TypeError
| Rejected (reason : string).

(** The error kinds of the specification, as predicates on exceptions. *)
Definition InvalidSizeFormat (e : exn) : Prop :=
  exists size : string, e = Error ("Invalid size " +:+ size).


(** [sizeToBytes] *)
Definition sizeToBytes (size : string) : exn + number :=
  if Js.endsWith size "k" then
    inr (Js.parseFloat size * n1024)%num
  else if Js.endsWith size "m" then
    inr (Js.parseFloat size * n1024 * n1024)%num
  else if Js.endsWith size "g" then
    inr (Js.parseFloat size * n1024 * n1024 * n1024)%num
  else inl (Error ("Invalid size " +:+ size)).

(** The contract of the size parser in the words of the specification:
    [round(numericPrefix * 1024^n)] for the suffixes k, m, g. *)
Definition unit_exponent (c : ascii) : option Z :=
  if Ascii.eqb c "k" then Some 1
  else if Ascii.eqb c "m" then Some 2
  else if Ascii.eqb c "g" then Some 3
  else None.

Definition spec_sizeToBytes (prefix_value : Q) (n : Z) : number :=
  Num.round (Fin (prefix_value * inject_Z (1024 ^ n))).


(** *** The world: measurement store and interaction history *)

(** A [Buffer] from [Buffer.allocUnsafe]: only its length is determined. *)
Record Buffer : Type := { byteLength : Z }.

(** The fields of a [CreateMultipartUpload] output that the script reads. *)
Record InitiateOutput : Type :=
  { UploadId : option string; Key : option string }.

(** The part of a PUT response that the script reads:
    [headers.get('ETag')], [None] when the header is absent. *)
Record PutResponse : Type := { ETag : option string }.

(** One request to the outside world, with the answer it got. *)
Inductive Event : Type :=
| DateNow (t : Z)
| Hrtime (sec nsec : N)
| CreateBucket (r : exn + unit)
| DeleteBucket (r : exn + unit)
| SignPutObject (key : string) (r : exn + string)
| SignUploadPart (key uploadId : string) (partNumber : Z) (r : exn + string)
| CreateMultipartUpload (key : string) (r : exn + InitiateOutput)
| CompleteMultipartUpload (key uploadId : string) (parts : list (string * Z))
    (r : exn + unit)
| HttpPut (url : string) (body : Buffer) (r : exn + PutResponse)
| ListObjectsV2 (r : exn + option (list string))
| DeleteObjects (objects : list string) (r : exn + unit)
| WriteFile (path : string) (data : gmap string (list Z)) (r : exn + unit).

(** The outside world answers from the history of the interaction. *)
Record Env : Type :=
  { now : list Event -> Z;
    hrtime : list Event -> N * N;
    createBucket : list Event -> exn + unit;
    deleteBucket : list Event -> exn + unit;
    signPutObject : list Event -> string -> exn + string;
    signUploadPart : list Event -> string -> string -> Z -> exn + string;
    createMultipartUpload : list Event -> string -> exn + InitiateOutput;
    completeMultipartUpload :
      list Event -> string -> string -> list (string * Z) -> exn + unit;
    httpPut : list Event -> string -> Buffer -> exn + PutResponse;
    listObjectsV2 : list Event -> exn + option (list string);
    deleteObjects : list Event -> list string -> exn + unit;
    writeFile : list Event -> string -> gmap string (list Z) -> exn + unit;
    (** [buffer.constants.MAX_LENGTH] of the runtime *)
    kMaxLength : Z;
    (** the standard output is a terminal: [process.stdout.isTTY] *)
    isTTY : bool }.

(** [measures] is the process-wide [Record<string, number[]>]. *)
Record World : Type :=
  { measures : gmap string (list Z);
    history : list Event }.

Inductive Outcome (A : Type) : Type :=
| Done (a : A) (w : World)
| Throw (e : exn) (w : World)
| Timeout.

Arguments Done {A} a w.
Arguments Throw {A} e w.
Arguments Timeout {A}.

Definition M (A : Type) : Type := World -> Outcome A.

Definition ret {A} (a : A) : M A := fun w => Done a w.

Definition throw {A} (e : exn) : M A := fun w => Throw e w.

Definition timeout {A} : M A := fun _ => Timeout.

Definition bind {A B} (m : M A) (k : A -> M B) : M B :=
  fun w =>
    match m w with
    | Done a w' => k a w'
    | Throw e w' => Throw e w'
    | Timeout => Timeout
    end.

Notation "'let!' x ':=' m 'in' k" := (bind m (fun x => k))
  (at level 10, x name, m at level 100, k at level 200,
   format "'[v' 'let!'  x  ':='  m  'in' '/' k ']'").
Notation "m ';;' k" := (bind m (fun _ => k))
  (at level 100, k at level 200, right associativity).

(** A pure computation that may throw. *)
Definition lift {A} (r : exn + A) : M A :=
  match r with
  | inl e => throw e
  | inr a => ret a
  end.

Definition record (ev : Event) (w : World) : World :=
  {| measures := measures w; history := history w ++ [ev] |}.

(** A request that always answers. *)
Definition ask {R} (oracle : list Event -> R) (ev : R -> Event) : M R :=
  fun w => let r := oracle (history w) in Done r (record (ev r) w).

(** An awaited request: the promise resolves or rejects. *)
Definition await {R} (oracle : list Event -> exn + R)
    (ev : exn + R -> Event) : M R :=
  fun w =>
    let r := oracle (history w) in
    match r with
    | inl e => Throw e (record (ev r) w)
    | inr a => Done a (record (ev r) w)
    end.

(** What [measures], a plain object, inherits from [Object.prototype]
    under a name: a function, with its [length], or under [__proto__] the
    prototype itself, which has no [length]. *)
Definition inherited (name : string) : option (option nat) :=
  let among := existsb (String.eqb name) in
  if among ["toString"; "toLocaleString"; "valueOf"] then Some (Some 0%nat)
  else if among ["constructor"; "hasOwnProperty"; "isPrototypeOf";
                 "propertyIsEnumerable"; "__lookupGetter__";
                 "__lookupSetter__"] then Some (Some 1%nat)
  else if among ["__defineGetter__"; "__defineSetter__"] then Some (Some 2%nat)
  else if String.eqb name "__proto__" then Some None
  else None.

(** The samples of [measures[name]], for a method of arrays to be called
    on them ([push], [reduce]): on a value that is not an array, inherited
    or [undefined], the call is a TypeError. *)
Definition samples (name : string) : M (list Z) :=
  fun w =>
    match measures w !! name with
    | Some l => Done l w
    | None => Throw TypeError w
    end.

(** [measures[name].length]: of the samples or of an inherited value,
    [None] standing for [undefined]; reading a property of [undefined] is
    a TypeError. *)
Definition samples_length (name : string) : M (option nat) :=
  fun w =>
    match measures w !! name with
    | Some l => Done (Some (length l)) w
    | None =>
        match inherited name with
        | Some len => Done len w
        | None => Throw TypeError w
        end
    end.

(** [measures[name] = l] *)
Definition assign (name : string) (l : list Z) : M unit :=
  fun w =>
    Done tt {| measures := <[name := l]> (measures w);
               history := history w |}.

(** [measures[name].push(x)] *)
Definition push (name : string) (x : Z) : M unit :=
  let! l := samples name in assign name (l ++ [x]).

(** [getFileOfSize]: [Buffer.allocUnsafe] rejects a size that is not a
    number in the range 0..MAX_LENGTH; a fractional size is truncated. *)
Definition getFileOfSize (maxLength : Z) (sizeBytes : number) : exn + Buffer :=
  match sizeBytes with
  | Fin q =>
      if Qle_bool 0 q && Qle_bool q (inject_Z maxLength)
      then inr {| byteLength := Qfloor q |}
      else inl RangeError
  | _ => inl RangeError
  end.

(** The string built by [getKey] from the seconds of one reading of
    [process.hrtime()] and the nanoseconds of the next one. *)
Definition key_of (base : string) (sec nsec : N) : string :=
  base +:+ "/" +:+ pretty sec +:+ pretty nsec.

(** A missing or empty identifier is falsy. *)
Definition truthy (s : option string) : option string :=
  match s with
  | Some (String c r) => Some (String c r)
  | _ => None
  end.

Section Benchmark.

Variable E : Env.

Definition Date_now : M Z := ask (now E) DateNow.

(** [process.stdout.clearLine(0); process.stdout.cursorTo(0)]: the two
    methods exist only on a terminal, so that off a terminal the first
    call is a TypeError. *)
Definition stdout_clear : M unit :=
  if isTTY E then ret tt else throw TypeError.

Definition process_hrtime : M (N * N) :=
  ask (hrtime E) (fun t => Hrtime (fst t) (snd t)).

Definition getKey (base : string) : M string :=
  let! t0 := process_hrtime in
  let! t1 := process_hrtime in
  ret (key_of base (fst t0) (snd t1)).

Definition getTraditionalPresignedUrl (prefix : string) : M string :=
  let! key := getKey prefix in
  await (fun h => signPutObject E h key) (SignPutObject key).

Definition initiateMultipart (prefix : string) : M InitiateOutput :=
  let! key := getKey prefix in
  await (fun h => createMultipartUpload E h key) (CreateMultipartUpload key).

Definition getMultipartPresignedUrl (key uploadId : string) (partNumber : Z)
  : M string :=
  await (fun h => signUploadPart E h key uploadId partNumber)
        (SignUploadPart key uploadId partNumber).

(** [eTags.map((ETag, index) => ({ ETag, PartNumber: index + 1 }))] *)
Definition parts_of (eTags : list string) : list (string * Z) :=
  imap (fun index tag => (tag, Z.of_nat index + 1)) eTags.

Definition completeMultipart (uploadId key : string) (eTags : list string)
  : M unit :=
  let parts := parts_of eTags in
  await (fun h => completeMultipartUpload E h key uploadId parts)
        (CompleteMultipartUpload key uploadId parts).

Definition ky_put (url : string) (body : Buffer) : M PutResponse :=
  await (fun h => httpPut E h url body) (HttpPut url body).

Definition traditionalUpload (prefix : string) (file : Buffer) : M unit :=
  let! url := getTraditionalPresignedUrl prefix in
  ky_put url file ;;
  ret tt.

(** [headers.get('ETag') ?? ''] *)
Definition multipartUpload (uploadId key : string) (partNumber : Z)
    (file : Buffer) : M string :=
  let! url := getMultipartPresignedUrl key uploadId partNumber in
  let! response := ky_put url file in
  ret (default EmptyString (ETag response)).

(** [Contents?.map(({ Key }) => ({ Key })) ?? []] *)
Definition listObjects : M (list string) :=
  let! contents := await (listObjectsV2 E) ListObjectsV2 in
  ret (default [] contents).

Fixpoint cleanup_loop (fuel : nat) (objects : list string) : M unit :=
  match objects with
  | [] => ret tt
  | _ =>
      match fuel with
      | O => timeout
      | S fuel' =>
          await (fun h => deleteObjects E h objects) (DeleteObjects objects) ;;
          let! objects' := listObjects in
          cleanup_loop fuel' objects'
      end
  end.

Definition cleanup (fuel : nat) : M unit :=
  let! objects := listObjects in
  cleanup_loop fuel objects.

(** *** The sampler *)

(** The two shapes of the [run] argument of [measure]. *)
Inductive Run : Type :=
| WithSetup {T R : Type} (setup : M T) (fn : T -> M R)
| NoSetup {R : Type} (fn : M R).

(** The loop condition
    [measures[name].length < 3 || Date.now() - overallStart < maxTimeMs];
    the clock is read only when three samples are in. *)
Definition keep_sampling (name : string) (overallStart maxTimeMs : Z) : M bool :=
  let! len := samples_length name in
  if match len with Some n => (n <? 3)%nat | None => false end then ret true
  else
    let! t := Date_now in
    ret (t - overallStart <? maxTimeMs).

(** One pass through the body of the loop; the line that reports the
    sample is written once the cursor has been moved. *)
Definition sample_once {R} (name : string) (action : M R) : M unit :=
  let! start := Date_now in
  action ;;
  let! stop := Date_now in
  push name (stop - start) ;;
  stdout_clear.

Fixpoint sampling {R} (fuel : nat) (name : string) (action : M R)
    (overallStart maxTimeMs : Z) : M unit :=
  let! continue := keep_sampling name overallStart maxTimeMs in
  if continue then
    match fuel with
    | O => timeout
    | S fuel' =>
        sample_once name action ;;
        sampling fuel' name action overallStart maxTimeMs
    end
  else ret tt.

(** [measures[name] = measures[name] ?? []]: an inherited value is not
    nullish and stays what is found under the name. *)
Definition init_samples (name : string) : M unit :=
  fun w =>
    match measures w !! name, inherited name with
    | None, Some _ => Done tt w
    | _, _ => assign name (default [] (measures w !! name)) w
    end.

(** The summary after the loop: the cursor is moved, then the line with
    the mean, [measures[name].reduce(...)], is written. *)
Definition summary (name : string) : M unit :=
  stdout_clear ;;
  samples name ;;
  ret tt.

(** The part of [measure] up to the summary. *)
Definition measure_samples (fuel : nat) (name : string) (run : Run)
    (maxTimeMs : Z) : M unit :=
  init_samples name ;;
  let! overallStart := Date_now in
  match run with
  | WithSetup setup fn =>
      let! res := setup in
      sampling fuel name (fn res) overallStart maxTimeMs ;;
      summary name
  | NoSetup fn =>
      sampling fuel name fn overallStart maxTimeMs ;;
      summary name
  end.

(** The end of [measure]: clean the bucket, persist the store. *)
Definition flush (fuel : nat) : M unit :=
  cleanup fuel ;;
  fun w => await (fun h => writeFile E h "results.json" (measures w))
                 (WriteFile "results.json" (measures w)) w.

Definition measure (fuel : nat) (name : string) (run : Run) (maxTimeMs : Z)
  : M unit :=
  measure_samples fuel name run maxTimeMs ;;
  flush fuel.

(** *** Multipart scenarios *)

(** What the [setup] of a multipart scenario hands to every iteration. *)
Record Fixture : Type :=
  { chunkData : Buffer;
    lastChunkData : Buffer;
    uploadMeasure : string;
    completeMeasure : string }.

Definition total_name (size chunk : string) : string :=
  "upload-multipart-total-" +:+ size +:+ "-" +:+ chunk.

Definition upload_name (size chunk : string) : string :=
  "upload-multipart-upload-" +:+ size +:+ "-" +:+ chunk.

Definition complete_name (size chunk : string) : string :=
  "upload-multipart-complete-" +:+ size +:+ "-" +:+ chunk.

Definition multipart_setup (size chunk : string) : M Fixture :=
  let! chunkBytes := lift (sizeToBytes chunk) in
  let! chunkData := lift (getFileOfSize (kMaxLength E) chunkBytes) in
  let! sizeBytes := lift (sizeToBytes size) in
  let! chunkBytes' := lift (sizeToBytes chunk) in
  let! lastChunkData :=
    lift (getFileOfSize (kMaxLength E) (sizeBytes %% chunkBytes')%num) in
  assign (upload_name size chunk) [] ;;
  assign (complete_name size chunk) [] ;;
  ret {| chunkData := chunkData;
         lastChunkData := lastChunkData;
         uploadMeasure := upload_name size chunk;
         completeMeasure := complete_name size chunk |}.

(** The loop [while (remainingBytes > chunkSize)]; its state is
    [(remainingBytes, partNumber, eTags)]. *)
Fixpoint upload_chunks (fuel : nat) (chunk uploadId key : string)
    (data : Buffer) (chunkSize remainingBytes : number) (partNumber : Z)
    (eTags : list string) : M (number * Z * list string) :=
  if Num.gt remainingBytes chunkSize then
    match fuel with
    | O => timeout
    | S fuel' =>
        let! tag := multipartUpload uploadId key partNumber data in
        let! step := lift (sizeToBytes chunk) in
        upload_chunks fuel' chunk uploadId key data chunkSize
          (remainingBytes - step)%num (partNumber + 1) (eTags ++ [tag])
    end
  else ret (remainingBytes, partNumber, eTags).

(** The branch [if (remainingBytes > 0)] after the loop. *)
Definition upload_last (uploadId key : string) (data : Buffer)
    (remainingBytes : number) (partNumber : Z) (eTags : list string)
  : M (list string) :=
  if Num.gt remainingBytes (Num.of_Z 0) then
    let! tag := multipartUpload uploadId key partNumber data in
    ret (eTags ++ [tag])
  else ret eTags.

(** The iteration once the session identifiers are known: the part-upload
    phase and the finalize phase, each timed into its own bucket. *)
Definition multipart_session (fuel : nat) (chunk : string) (fx : Fixture)
    (remainingBytes chunkSize : number) (uploadId key : string) : M unit :=
  let! start := Date_now in
  let! st := upload_chunks fuel chunk uploadId key (chunkData fx)
               chunkSize remainingBytes 1 [] in
  let! eTags := upload_last uploadId key (lastChunkData fx)
                  (fst (fst st)) (snd (fst st)) (snd st) in
  let! stop := Date_now in
  push (uploadMeasure fx) (stop - start) ;;
  let! start' := Date_now in
  completeMultipart uploadId key eTags ;;
  let! stop' := Date_now in
  push (completeMeasure fx) (stop' - start').

Definition multipart_fn (fuel : nat) (size chunk : string) (fx : Fixture)
  : M unit :=
  let! remainingBytes := lift (sizeToBytes size) in
  let! chunkSize := lift (sizeToBytes chunk) in
  let! out := initiateMultipart ("multipart-upload-" +:+ size +:+ "-" +:+ chunk) in
  match truthy (UploadId out), truthy (Key out) with
  | Some uploadId, Some key =>
      multipart_session fuel chunk fx remainingBytes chunkSize uploadId key
  | _, _ => throw (Error "UploadId or Key is undefined")
  end.

Fixpoint for_each {A} (l : list A) (body : A -> M unit) : M unit :=
  match l with
  | [] => ret tt
  | x :: rest => body x ;; for_each rest body
  end.

Definition multipart_budget (size : string) : exn + Z :=
  match sizeToBytes size, sizeToBytes "1g" with
  | inl e, _ | inr _, inl e => inl e
  | inr s, inr g => inr (if Num.ge s g then 10000 else 2000)
  end.

Definition multipart_run (fuel : nat) (size chunk : string) : Run :=
  WithSetup (multipart_setup size chunk) (multipart_fn fuel size chunk).

Definition measureMultipartUploadCases (fuel : nat) (sizes chunks : list string)
  : M unit :=
  for_each sizes (fun size =>
    for_each chunks (fun chunk =>
      let! budget := lift (multipart_budget size) in
      measure fuel (total_name size chunk) (multipart_run fuel size chunk)
        budget)).

Definition traditional_setup (size : string) : M Buffer :=
  let! bytes := lift (sizeToBytes size) in
  lift (getFileOfSize (kMaxLength E) bytes).

Definition measureTraditionalUploadCases (fuel : nat) (sizes : list string)
  : M unit :=
  for_each sizes (fun size =>
    measure fuel ("traditional-upload-" +:+ size)
      (WithSetup (traditional_setup size)
         (fun file => traditionalUpload ("traditional-upload-" +:+ size) file))
      2000).

(** *** The sweep *)

Definition presign_setup : M (string * string) :=
  let! out := initiateMultipart "multipart-presigned-url-only" in
  match truthy (Key out), truthy (UploadId out) with
  | Some key, Some uploadId => ret (key, uploadId)
  | _, _ => throw (Error "Key or UploadId is undefined")
  end.

Definition traditional_sizes : list string :=
  ["512k"; "5m"; "10m"; "25m"; "50m"; "100m"; "1g"; "1.5g"].

Definition multipart_sizes : list string :=
  ["512k"; "5m"; "10m"; "25m"; "50m"; "100m"].

Definition multipart_chunks : list string := ["5m"; "25m"; "50m"; "100m"].

Definition multipart_big_sizes : list string := ["1g"; "2g"; "5g"].

Definition multipart_big_chunks : list string :=
  ["5m"; "25m"; "50m"; "100m"; "200m"; "500m"].

Definition initiate_only : Run :=
  NoSetup (initiateMultipart "initiate-multipart-only").

Definition run (fuel : nat) : M unit :=
  await (createBucket E) CreateBucket ;;
  measure fuel "get-traditional-presigned-url"
    (NoSetup (getTraditionalPresignedUrl "traditional-presigned-url-only"))
    1000 ;;
  measure fuel "initiate-multipart-only" initiate_only 1000 ;;
  measure fuel "get-multipart-presigned-url-only"
    (WithSetup presign_setup
       (fun s => getMultipartPresignedUrl (fst s) (snd s) 1))
    1000 ;;
  measureTraditionalUploadCases fuel traditional_sizes ;;
  measureMultipartUploadCases fuel multipart_sizes multipart_chunks ;;
  measureMultipartUploadCases fuel multipart_big_sizes multipart_big_chunks ;;
  cleanup fuel ;;
  await (deleteBucket E) DeleteBucket.

End Benchmark.

(** *** Concrete environments

    A storage service that always answers, with a clock that advances by
    one millisecond per request, and variations of it. *)

Definition tick (h : list Event) : Z := Z.of_nat (length h).

Definition env0 : Env :=
  {| now := tick;
     hrtime := fun h => (7%N, N.of_nat (length h));
     createBucket := fun _ => inr tt;
     deleteBucket := fun _ => inr tt;
     signPutObject := fun _ key => inr ("http://localhost:9000/" +:+ key);
     signUploadPart := fun _ key uploadId partNumber =>
       inr ("http://localhost:9000/" +:+ key +:+ "?partNumber="
            +:+ pretty (Z.to_N partNumber));
     createMultipartUpload := fun _ key =>
       inr {| UploadId := Some "session"; Key := Some key |};
     completeMultipartUpload := fun _ _ _ _ => inr tt;
     httpPut := fun h _ _ =>
       inr {| ETag := Some ("tag" +:+ pretty (N.of_nat (length h))) |};
     listObjectsV2 := fun _ => inr (Some []);
     deleteObjects := fun _ _ => inr tt;
     writeFile := fun _ _ _ => inr tt;
     kMaxLength := 4294967296;
     isTTY := true |}.

(** The same service, but PUT responses carry no [ETag] header. *)
Definition env_no_etag : Env :=
  {| now := now env0;
     hrtime := hrtime env0;
     createBucket := createBucket env0;
     deleteBucket := deleteBucket env0;
     signPutObject := signPutObject env0;
     signUploadPart := signUploadPart env0;
     createMultipartUpload := createMultipartUpload env0;
     completeMultipartUpload := completeMultipartUpload env0;
     httpPut := fun _ _ _ => inr {| ETag := None |};
     listObjectsV2 := listObjectsV2 env0;
     deleteObjects := deleteObjects env0;
     writeFile := writeFile env0;
     kMaxLength := kMaxLength env0;
     isTTY := isTTY env0 |}.

(** The same service, with a high-resolution timer stuck at [t]. *)
Definition env_at (t : N * N) : Env :=
  {| now := now env0;
     hrtime := fun _ => t;
     createBucket := createBucket env0;
     deleteBucket := deleteBucket env0;
     signPutObject := signPutObject env0;
     signUploadPart := signUploadPart env0;
     createMultipartUpload := createMultipartUpload env0;
     completeMultipartUpload := completeMultipartUpload env0;
     httpPut := httpPut env0;
     listObjectsV2 := listObjectsV2 env0;
     deleteObjects := deleteObjects env0;
     writeFile := writeFile env0;
     kMaxLength := kMaxLength env0;
     isTTY := isTTY env0 |}.

(** A service whose clock advances by a second per request and which
    leaves out the [UploadId] exactly in the answers to the bare
    initiation micro-benchmark. *)
Definition env_bare_no_session : Env :=
  {| now := fun h => 1000 * tick h;
     hrtime := hrtime env0;
     createBucket := createBucket env0;
     deleteBucket := deleteBucket env0;
     signPutObject := signPutObject env0;
     signUploadPart := signUploadPart env0;
     createMultipartUpload := fun _ key =>
       inr {| UploadId :=
                if Js.startsWith key "initiate-multipart-only/"
                then None else Some "session";
              Key := Some key |};
     completeMultipartUpload := completeMultipartUpload env0;
     httpPut := httpPut env0;
     listObjectsV2 := listObjectsV2 env0;
     deleteObjects := deleteObjects env0;
     writeFile := writeFile env0;
     kMaxLength := kMaxLength env0;
     isTTY := isTTY env0 |}.

(** The service of [env0] with the standard output redirected to a file
    or a pipe. *)
Definition env_piped : Env :=
  {| now := now env0;
     hrtime := hrtime env0;
     createBucket := createBucket env0;
     deleteBucket := deleteBucket env0;
     signPutObject := signPutObject env0;
     signUploadPart := signUploadPart env0;
     createMultipartUpload := createMultipartUpload env0;
     completeMultipartUpload := completeMultipartUpload env0;
     httpPut := httpPut env0;
     listObjectsV2 := listObjectsV2 env0;
     deleteObjects := deleteObjects env0;
     writeFile := writeFile env0;
     kMaxLength := kMaxLength env0;
     isTTY := false |}.

(** The service of [env0] under a clock that is set back by 40 ms right
    after its first reading. *)
Definition env_set_back : Env :=
  {| now := fun h => match h with [] => 0 | _ => tick h - 40 end;
     hrtime := hrtime env0;
     createBucket := createBucket env0;
     deleteBucket := deleteBucket env0;
     signPutObject := signPutObject env0;
     signUploadPart := signUploadPart env0;
     createMultipartUpload := createMultipartUpload env0;
     completeMultipartUpload := completeMultipartUpload env0;
     httpPut := httpPut env0;
     listObjectsV2 := listObjectsV2 env0;
     deleteObjects := deleteObjects env0;
     writeFile := writeFile env0;
     kMaxLength := kMaxLength env0;
     isTTY := isTTY env0 |}.

Definition world0 : World := {| measures := ∅; history := [] |}.

(** The fixture and the world that the setup of a multipart scenario
    leaves behind when it starts from [world0]. *)
Definition fixture_of (size chunk : string) (chunkLength lastLength : Z)
  : Fixture :=
  {| chunkData := {| byteLength := chunkLength |};
     lastChunkData := {| byteLength := lastLength |};
     uploadMeasure := upload_name size chunk;
     completeMeasure := complete_name size chunk |}.

Definition world_of (size chunk : string) : World :=
  {| measures :=
       <[complete_name size chunk := []]> (<[upload_name size chunk := []]> ∅);
     history := [] |}.

(** The value returned by a computation that finished normally. *)
Definition result_of {A} (o : Outcome A) : option A :=
  match o with
  | Done a _ => Some a
  | _ => None
  end.

(** ** The reporting script *)

Module Chart.

(** The parsed [results.json]: an object from scenario name to samples,
    in the order of its keys. *)
Definition Results : Type := list (string * list Z).

(** [results[key]] *)
Fixpoint get (results : Results) (key : string) : option (list Z) :=
  match results with
  | [] => None
  | (k, v) :: rest => if String.eqb k key then Some v else get rest key
  end.

(** A sample as [JSON.parse] reads it: the double nearest to the integer
    of the file. *)
Definition sample (x : Z) : number := Num.round64 (inject_Z x).

(** [new Stats().push(samples).amean()]: the samples are added up one
    after the other and the sum is divided by their number, in JavaScript
    arithmetic, so that no samples give 0/0; pushing [undefined] poisons
    the sum. *)
Definition amean (samples : option (list Z)) : number :=
  match samples with
  | Some xs =>
      (fold_left Num.add (map sample xs) (Num.of_Z 0)
       / Num.of_Z (Z.of_nat (length xs)))%num
  | None => NaN
  end.

(** [array[i]] used as a property name or inside a template literal. *)
Definition at_index (l : list string) (i : nat) : string :=
  default "undefined" (l !! i).

(** A chart series: label and data, [None] standing for [null]. *)
Definition Series : Type := string * list (option number).

Definition row_label (chunkSize : string) : string :=
  "multipart-" +:+ chunkSize +:+ "-chunks".

Definition chunk_sizes : list string :=
  ["5m"; "25m"; "50m"; "100m"; "200m"; "500m"].

Module FullUploadStats.

Definition labels : list string :=
  ["512k"; "5m"; "10m"; "25m"; "50m"; "100m"; "1g"; "1.5g"; "2g"; "5g"].

(** [byType] as initialised: seven empty rows. *)
Definition byType0 : gmap string (gmap string number) :=
  <["traditional" := ∅]>
    (foldr (fun c m => <[row_label c := ∅]> m) ∅ chunk_sizes).

(** [byType[row][size] = v]; assigning into a missing row is a TypeError. *)
Definition set_cell (row size : string) (v : number)
    (byType : gmap string (gmap string number))
  : exn + gmap string (gmap string number) :=
  match byType !! row with
  | Some cells => inr (<[row := <[size := v]> cells]> byType)
  | None => inl TypeError
  end.

(** The body of [for (const key in results)]. *)
Definition visit (results : Results) (key : string)
    (byType : gmap string (gmap string number))
  : exn + gmap string (gmap string number) :=
  let parts := Js.split_dash key in
  let after_traditional :=
    if Js.startsWith key "traditional-upload"
    then set_cell "traditional" (at_index parts 2)
           (amean (get results key)) byType
    else inr byType in
  match after_traditional with
  | inl e => inl e
  | inr byType' =>
      if Js.startsWith key "upload-multipart-total"
      then set_cell (row_label (at_index parts 4)) (at_index parts 3)
             (amean (get results key)) byType'
      else inr byType'
  end.

Fixpoint visit_all (results : Results) (keys : list string)
    (byType : gmap string (gmap string number))
  : exn + gmap string (gmap string number) :=
  match keys with
  | [] => inr byType
  | key :: rest =>
      match visit results key byType with
      | inl e => inl e
      | inr byType' => visit_all results rest byType'
      end
  end.

(** [dataFromRow]: [v ?? null] turns a missing cell into [null]. *)
Definition dataFromRow (row : gmap string number) : list (option number) :=
  map (fun size => row !! size) labels.

(** [tableFromRow]: [v?.toFixed(3) ?? ''] *)
Definition tableFromRow (row : gmap string number) : list string :=
  map (fun v => match v with
                | Some x => Js.toFixed3 x
                | None => EmptyString
                end)
      (dataFromRow row).

Definition row_of (byType : gmap string (gmap string number)) (name : string)
  : gmap string number :=
  default ∅ (byType !! name).

Definition table_title (chunkSize : string) : string :=
  "Multipart (" +:+ chunkSize +:+ " chunks)".

Record Report : Type :=
  { tableValues : list (list string);
    upload_stats : list Series;
    upload_stats_detailed : list Series }.

Definition report (byType : gmap string (gmap string number)) : Report :=
  {| tableValues :=
       ("Upload type" :: labels)
       :: ("Traditional" :: tableFromRow (row_of byType "traditional"))
       :: map (fun c => table_title c :: tableFromRow (row_of byType (row_label c)))
              chunk_sizes;
     upload_stats :=
       ("Traditional", dataFromRow (row_of byType "traditional"))
       :: map (fun c => (table_title c, dataFromRow (row_of byType (row_label c))))
              chunk_sizes;
     upload_stats_detailed :=
       ("Traditional", take 6 (dataFromRow (row_of byType "traditional")))
       :: map (fun c => (table_title c,
                         take 6 (dataFromRow (row_of byType (row_label c)))))
              (take 4 chunk_sizes) |}.

(** [fullUploadStats]: what goes to the table printer and to the two
    line charts. *)
Definition fullUploadStats (results : Results) : exn + Report :=
  match visit_all results (map fst results) byType0 with
  | inl e => inl e
  | inr byType => inr (report byType)
  end.

End FullUploadStats.

Module DetailedMultipartStats.

Definition labels : list string :=
  ["512k"; "5m"; "10m"; "25m"; "50m"; "100m"; "1g"; "2g"; "5g"].

Definition phase_key (type size chunkSize : string) : string :=
  "upload-multipart-" +:+ type +:+ "-" +:+ size +:+ "-" +:+ chunkSize.

(** [dataFromRow(chunkSize, type)]: one mean per size. *)
Definition dataFromRow (results : Results) (chunkSize type : string)
  : list number :=
  map (fun size => amean (get results (phase_key type size chunkSize))) labels.

(** [isNaN(x) ? '' : x.toFixed(3)] *)
Definition cell (x : number) : string :=
  if Num.isNaN x then EmptyString else Js.toFixed3 x.

Record Report : Type :=
  { datasets : list (string * list number);
    tableData : list (list string) }.

(** [processDetailedMultipartStats]: the stacked bar chart has, for each
    chunk size, the upload series and then the reconcile series; the
    table has the same rows, after its header. *)
Definition processDetailedMultipartStats (results : Results) : Report :=
  {| datasets :=
       concat (map (fun c =>
         [ (c +:+ " chunks upload time", dataFromRow results c "upload");
           (c +:+ " chunks reconcile time", dataFromRow results c "complete") ])
         chunk_sizes);
     tableData :=
       ("Chunk size" :: "Stage" :: labels)
       :: concat (map (fun c =>
            [ c :: "Upload" :: map cell (dataFromRow results c "upload");
              c :: "Reconcile" :: map cell (dataFromRow results c "complete") ])
            chunk_sizes) |}.

End DetailedMultipartStats.

End Chart.

(** ** Vocabulary of the statements *)

(** A non-empty run of decimal digits. *)
Fixpoint all_digits (s : string) : bool :=
  match s with
  | String c r =>
      Js.is_digit c && match r with EmptyString => true | _ => all_digits r end
  | EmptyString => false
  end.

(** A numeric prefix: the integer [ip], or the decimal [ip.fp]. *)
Definition numeral (ip fp : string) : string :=
  match fp with
  | EmptyString => ip
  | _ => ip +:+ "." +:+ fp
  end.

Definition well_formed_prefix (ip fp : string) : Prop :=
  all_digits ip = true /\ (fp = EmptyString \/ all_digits fp = true).

(** The input ends in one of the three unit letters. *)
Definition has_unit (size : string) : bool :=
  Js.endsWith size "k" || Js.endsWith size "m" || Js.endsWith size "g".

(** [x * 1024 * ... * 1024] with [n] factors 1024, in JavaScript
    arithmetic. *)
Fixpoint times_1024 (n : nat) (x : number) : number :=
  match n with
  | O => x
  | S k => (times_1024 k x * n1024)%num
  end.

(** A computation that does not run out of fuel, whatever the world
    answers. *)
Definition terminates {A} (m : M A) : Prop := forall w, m w <> Timeout.

(** The clock never goes back while the interaction goes on. *)
Definition monotone_clock (E : Env) : Prop :=
  forall h seg, now E h <= now E (h ++ seg).

(** An action that, wherever [I] holds of the store and [name] has an
    entry, ends normally, keeps [I] and that entry, and only adds to the
    history. *)
Definition ends_normally {A} (I : gmap string (list Z) -> Prop)
    (name : string) (m : M A) : Prop :=
  forall w l,
    I (measures w) -> measures w !! name = Some l ->
    exists a w' seg,
      m w = Done a w'
      /\ I (measures w') /\ measures w' !! name = Some l
      /\ history w' = history w ++ seg.

(** A scenario whose setup ends normally and establishes [I], and whose
    action ends normally under [I]; without a setup, [I] holds from the
    start. *)
Definition run_ends (I : gmap string (list Z) -> Prop) (name : string)
    (run : Run) : Prop :=
  match run with
  | WithSetup setup fn =>
      forall w l,
        measures w !! name = Some l ->
        exists res w' seg,
          setup w = Done res w'
          /\ I (measures w') /\ measures w' !! name = Some l
          /\ history w' = history w ++ seg
          /\ ends_normally I name (fn res)
  | NoSetup fn =>
      (forall m, is_Some (m !! name) -> I m) /\ ends_normally I name fn
  end.

(** A condition on the store that does not depend on the entry of
    [name]. *)
Definition apart_from (name : string) (I : gmap string (list Z) -> Prop)
  : Prop :=
  forall m l, I m -> I (<[name := l]> m).

(** The entry of [name] is empty, or there is none and nothing is
    inherited under the name. *)
Definition fresh_entry (name : string) (w : World) : Prop :=
  measures w !! name = Some []
  \/ (measures w !! name = None /\ inherited name = None).

(** What [measure] does before the scenario runs: the entry is put in
    place, unless a value is inherited under the name, and the clock is
    read. *)
Definition started (E : Env) (name : string) (w : World) : World :=
  record (DateNow (now E (history w)))
    match measures w !! name, inherited name with
    | None, Some _ => w
    | _, _ =>
        {| measures := <[name := default [] (measures w !! name)]> (measures w);
           history := history w |}
    end.

(** An action during which the clock advances by more than [budget]. *)
Definition takes_longer {A} (E : Env) (budget : Z) (m : M A) : Prop :=
  forall w a w', m w = Done a w' ->
    now E (history w) + budget < now E (history w').

Definition run_slow (E : Env) (budget : Z) (run : Run) : Prop :=
  match run with
  | WithSetup _ fn => forall res, takes_longer E budget (fn res)
  | NoSetup fn => takes_longer E budget fn
  end.

(** The continuation rule of the specification. *)
Definition spec_continue (collected : nat) (elapsed maxBudgetMs : Z) : bool :=
  (collected <? 3)%nat || (elapsed <? maxBudgetMs).

(** The three buckets of a multipart scenario hold the same number of
    samples. *)
Definition balanced (size chunk : string) (m : gmap string (list Z)) : Prop :=
  exists lt lu lc,
    m !! total_name size chunk = Some lt
    /\ m !! upload_name size chunk = Some lu
    /\ m !! complete_name size chunk = Some lc
    /\ length lu = length lt /\ length lc = length lt.

(** The store changes at most under the given names. *)
Definition touches_only (names : list string) (m m' : gmap string (list Z))
  : Prop :=
  forall k, k ∉ names -> m' !! k = m !! k.

(** A computation that, when it ends normally, has changed the store at
    most under the given names. *)
Definition frame {A} (names : list string) (m : M A) : Prop :=
  forall w a w', m w = Done a w' -> touches_only names (measures w) (measures w').

Definition run_frame (names : list string) (run : Run) : Prop :=
  match run with
  | WithSetup setup fn =>
      frame names setup
      /\ forall w res w', setup w = Done res w' -> frame names (fn res)
  | NoSetup fn => frame names fn
  end.

(** The buckets of a multipart scenario, and the scenarios of the sweep
    in the order in which [run] goes through them. *)
Definition bucket_names (pair : string * string) : list string :=
  [ total_name (fst pair) (snd pair); upload_name (fst pair) (snd pair);
    complete_name (fst pair) (snd pair) ].

Definition pairs_of (sizes chunks : list string) : list (string * string) :=
  flat_map (fun size => map (fun chunk => (size, chunk)) chunks) sizes.

Definition sweep_pairs : list (string * string) :=
  pairs_of multipart_sizes multipart_chunks
  ++ pairs_of multipart_big_sizes multipart_big_chunks.

Definition sweep_names : list string :=
  [ "get-traditional-presigned-url"; "initiate-multipart-only";
    "get-multipart-presigned-url-only" ]
  ++ map (fun size => "traditional-upload-" +:+ size) traditional_sizes
  ++ flat_map bucket_names sweep_pairs.

(** One multipart scenario of the sweep: the body of the inner loop of
    [measureMultipartUploadCases]. *)
Definition multipart_scenario (E : Env) (fuel : nat) (pair : string * string)
  : M unit :=
  let! budget := lift (multipart_budget (fst pair)) in
  measure E fuel (total_name (fst pair) (snd pair))
    (multipart_run E fuel (fst pair) (snd pair)) budget.

(** No string occurs twice. *)
Fixpoint distinct (l : list string) : bool :=
  match l with
  | [] => true
  | x :: rest => negb (existsb (String.eqb x) rest) && distinct rest
  end.

(** An initiation answer in which [UploadId] or [Key] is missing or
    empty. *)
Definition lacks_session (out : InitiateOutput) : bool :=
  match truthy (UploadId out), truthy (Key out) with
  | Some _, Some _ => false
  | _, _ => true
  end.

(** The two requests of one successful part upload: the presigned URL for
    the part, then the PUT of the body to that URL. *)
Record PartUpload : Type :=
  { part_number : Z;
    part_body : Buffer;
    part_url : string;
    part_response : PutResponse }.

Definition part_events (key uploadId : string) (p : PartUpload) : list Event :=
  [ SignUploadPart key uploadId (part_number p) (inr (part_url p));
    HttpPut (part_url p) (part_body p) (inr (part_response p)) ].

(** The completion tag that [multipartUpload] returns for the part. *)
Definition part_tag (p : PartUpload) : string :=
  default EmptyString (ETag (part_response p)).

(** What a stretch of history contains: the part numbers for which an
    upload URL was requested, the bodies that were PUT, the [ETag]
    headers of the PUT responses, the part lists of the finalize calls,
    and the initiation requests. *)
Definition signed_parts (h : list Event) : list Z :=
  omap (fun ev => match ev with
                  | SignUploadPart _ _ n _ => Some n
                  | _ => None
                  end) h.

Definition put_bodies (h : list Event) : list Buffer :=
  omap (fun ev => match ev with
                  | HttpPut _ body _ => Some body
                  | _ => None
                  end) h.

Definition put_etags (h : list Event) : list (option string) :=
  omap (fun ev => match ev with
                  | HttpPut _ _ (inr response) => Some (ETag response)
                  | _ => None
                  end) h.

Definition finalize_calls (h : list Event) : list (list (string * Z)) :=
  omap (fun ev => match ev with
                  | CompleteMultipartUpload _ _ parts _ => Some parts
                  | _ => None
                  end) h.

Definition initiation_outputs (h : list Event) : list InitiateOutput :=
  omap (fun ev => match ev with
                  | CreateMultipartUpload _ (inr out) => Some out
                  | _ => None
                  end) h.

Definition initiations (h : list Event) : list string :=
  omap (fun ev => match ev with
                  | CreateMultipartUpload key _ => Some key
                  | _ => None
                  end) h.

(** The history written by one successful multipart session: the clock,
    the part uploads [ps], the clock twice, the finalize call with the
    tags of [ps], the clock. *)
Definition session_events (key uploadId : string) (ps : list PartUpload)
    (t0 t1 t2 t3 : Z) : list Event :=
  [DateNow t0] ++ concat (map (part_events key uploadId) ps)
  ++ [ DateNow t1; DateNow t2;
       CompleteMultipartUpload key uploadId (parts_of (map part_tag ps)) (inr tt);
       DateNow t3 ].

(** The history written by one successful iteration of a multipart
    scenario: the initiation, then the session. *)
Definition iteration_events (prefix : string) (h0 h1 : N * N)
    (out : InitiateOutput) (key uploadId : string) (ps : list PartUpload)
    (t0 t1 t2 t3 : Z) : list Event :=
  [ Hrtime (fst h0) (snd h0); Hrtime (fst h1) (snd h1);
    CreateMultipartUpload (key_of prefix (fst h0) (snd h1)) (inr out) ]
  ++ session_events key uploadId ps t0 t1 t2 t3.

(** The scenario names of the reporting script's type [Key]. *)
Definition phase_keys (sizes chunks : list string) : list string :=
  flat_map (fun type =>
    flat_map (fun size =>
      map (fun chunk => Chart.DetailedMultipartStats.phase_key type size chunk)
          chunks) sizes)
    ["total"; "upload"; "complete"].

Definition chart_keys : list string :=
  [ "get-traditional-presigned-url"; "get-multipart-presigned-url-only";
    "initiate-multipart-only" ]
  ++ map (fun size => "traditional-upload-" +:+ size) traditional_sizes
  ++ phase_keys multipart_sizes multipart_chunks
  ++ phase_keys multipart_big_sizes multipart_big_chunks.

(** The cell of [byType] that [fullUploadStats] assigns for a key: its row
    and its size. *)
Definition cell_of (key : string) : option (string * string) :=
  let parts := Js.split_dash key in
  if Js.startsWith key "traditional-upload"
  then Some ("traditional", Chart.at_index parts 2)
  else if Js.startsWith key "upload-multipart-total"
  then Some (Chart.row_label (Chart.at_index parts 4), Chart.at_index parts 3)
  else None.

(** [byType[row][size]] *)
Definition cell_value (byType : gmap string (gmap string number))
    (row size : string) : option number :=
  match byType !! row with
  | Some cells => cells !! size
  | None => None
  end.

(** The rows of [byType], in the order of the table and of the charts. *)
Definition upload_rows : list string :=
  "traditional" :: map Chart.row_label Chart.chunk_sizes.

Definition rows_present (byType : gmap string (gmap string number)) : Prop :=
  forall row, row ∈ upload_rows -> is_Some (byType !! row).

(** Entry [j] of series [i] of a line chart; cell [j] of row [i] of a
    table, header row and leading columns apart. *)
Definition series_entry {A} (series : list (string * list A)) (i j : nat)
  : option A :=
  match series !! i with
  | Some s => snd s !! j
  | None => None
  end.

Definition table_cell (table : list (list string)) (lead i j : nat)
  : option string :=
  match table !! S i with
  | Some row => row !! (lead + j)%nat
  | None => None
  end.

Definition string_eq_dec_pair (a b : option (string * string)) : bool :=
  match a, b with
  | Some (r, c), Some (r', c') => String.eqb r r' && String.eqb c c'
  | None, None => true
  | _, _ => false
  end.

(** No two names of [Key] are reported in the same cell, and every cell
    lies in a row that [byType] has. *)
Definition cells_checked : bool :=
  forallb (fun k0 =>
    match cell_of k0 with
    | Some (row, _) =>
        existsb (String.eqb row) upload_rows
        && forallb (fun k =>
             implb (string_eq_dec_pair (cell_of k) (cell_of k0))
                   (String.eqb k k0)) chart_keys
    | None => true
    end) chart_keys.

(** Every sample of the store is a finite double, as every integer of
    magnitude below 2^1023 is. *)
Definition is_finite (a : number) : bool :=
  match a with Fin _ => true | _ => false end.

Definition finite_samples (results : Chart.Results) : Prop :=
  Forall (fun entry =>
            Forall (fun x => is_finite (Chart.sample x) = true) (snd entry))
         results.

(** A store for the reporter in which three scenarios have no samples. *)
Definition results_with_gaps : Chart.Results :=
  [ ("traditional-upload-5m", []);
    ("traditional-upload-10m", [3; 4; 4]);
    ("upload-multipart-total-5m-25m", []);
    ("upload-multipart-upload-5m-25m", []);
    ("upload-multipart-complete-5m-25m", [1; 2]) ].

(** ** Vocabulary of the further properties *)

(** An action during which the clock advances by at least [d]. *)
Definition takes_at_least {A} (E : Env) (d : Z) (m : M A) : Prop :=
  forall w a w', m w = Done a w' ->
    now E (history w) + d <= now E (history w').

Definition run_at_least (E : Env) (d : Z) (run : Run) : Prop :=
  match run with
  | WithSetup _ fn => forall res, takes_at_least E d (fn res)
  | NoSetup fn => takes_at_least E d fn
  end.

(** One round of [cleanup]: a listing that is not empty, and the request
    to delete what it lists. *)
Definition cleanup_round (contents : option (list string)) : list Event :=
  [ ListObjectsV2 (inr contents);
    DeleteObjects (default [] contents) (inr tt) ].

(** The history of a [cleanup] that ends normally: its rounds, then the
    listing that ends it. *)
Definition cleanup_events (rounds : list (option (list string)))
    (final : option (list string)) : list Event :=
  flat_map cleanup_round rounds ++ [ListObjectsV2 (inr final)].

(** The stores that a stretch of history has written to a file. *)
Definition written (h : list Event) : list (gmap string (list Z)) :=
  omap (fun ev => match ev with
                  | WriteFile _ data (inr _) => Some data
                  | _ => None
                  end) h.

(** A computation that only adds to the history. *)
Definition appends {A} (m : M A) : Prop :=
  forall w a w', m w = Done a w' -> exists seg, history w' = history w ++ seg.

(** The service of [env0] under a clock that stands still. *)
Definition env_frozen : Env :=
  {| now := fun _ => 0;
     hrtime := hrtime env0;
     createBucket := createBucket env0;
     deleteBucket := deleteBucket env0;
     signPutObject := signPutObject env0;
     signUploadPart := signUploadPart env0;
     createMultipartUpload := createMultipartUpload env0;
     completeMultipartUpload := completeMultipartUpload env0;
     httpPut := httpPut env0;
     listObjectsV2 := listObjectsV2 env0;
     deleteObjects := deleteObjects env0;
     writeFile := writeFile env0;
     kMaxLength := kMaxLength env0;
     isTTY := isTTY env0 |}.

Definition run_appends (run : Run) : Prop :=
  match run with
  | WithSetup _ fn => forall res, appends (fn res)
  | NoSetup fn => appends fn
  end.

(** A service in whose bucket one object is left until a deletion has been
    requested; after that its listings carry no [Contents]. *)
Definition env_leftover : Env :=
  {| now := now env0;
     hrtime := hrtime env0;
     createBucket := createBucket env0;
     deleteBucket := deleteBucket env0;
     signPutObject := signPutObject env0;
     signUploadPart := signUploadPart env0;
     createMultipartUpload := createMultipartUpload env0;
     completeMultipartUpload := completeMultipartUpload env0;
     httpPut := httpPut env0;
     listObjectsV2 := fun h =>
       if existsb (fun ev => match ev with
                             | DeleteObjects _ _ => true
                             | _ => false
                             end) h
       then inr None
       else inr (Some ["initiate-multipart-only/71"]);
     deleteObjects := deleteObjects env0;
     writeFile := writeFile env0;
     kMaxLength := kMaxLength env0;
     isTTY := isTTY env0 |}.

(** The service of [env0] under a clock that advances by a second per
    request. *)
Definition env_coarse : Env :=
  {| now := fun h => 1000 * tick h;
     hrtime := hrtime env0;
     createBucket := createBucket env0;
     deleteBucket := deleteBucket env0;
     signPutObject := signPutObject env0;
     signUploadPart := signUploadPart env0;
     createMultipartUpload := createMultipartUpload env0;
     completeMultipartUpload := completeMultipartUpload env0;
     httpPut := httpPut env0;
     listObjectsV2 := listObjectsV2 env0;
     deleteObjects := deleteObjects env0;
     writeFile := writeFile env0;
     kMaxLength := kMaxLength env0;
     isTTY := isTTY env0 |}.

(** The store holds three samples or more under the name. *)
Definition sampled (name : string) (m : gmap string (list Z)) : Prop :=
  exists l, m !! name = Some l /\ (3 <= length l)%nat.

(** The last write to a file put down the store as it is. *)
Definition persisted (w : World) : Prop :=
  last (written (history w)) = Some (measures w).

(** The parts that [S] bytes make in chunks of [C] bytes: [S / C],
    rounded up. *)
Definition parts_needed (S C : Z) : Z := (S + C - 1) / C.

(** The bytes that a stretch of history has PUT, all bodies together. *)
Definition bytes_sent (h : list Event) : Z :=
  foldr Z.add 0 (map byteLength (put_bodies h)).


(** Sample by sample, the two phases of a multipart scenario took no
    negative time and together no longer than the whole iteration. *)
Definition phases_within_total (size chunk : string)
    (m : gmap string (list Z)) : Prop :=
  exists lt lu lc,
    m !! total_name size chunk = Some lt
    /\ m !! upload_name size chunk = Some lu
    /\ m !! complete_name size chunk = Some lc
    /\ Forall3 (fun total upload complete =>
                  0 <= upload /\ 0 <= complete /\ upload + complete <= total)
         lt lu lc.

(** A computation that, however it ends, only adds to the history, and
    only events of the given kind. *)
Definition emits {A} (P : Event -> Prop) (m : M A) : Prop :=
  forall w,
    match m w with
    | Done _ w' | Throw _ w' =>
        exists seg, history w' = history w ++ seg /\ Forall P seg
    | Timeout => True
    end.

(** The events of the script apart from the PUT of a body, the
    initiation of a multipart upload and the requests to create and to
    delete the bucket. *)
Definition plain (ev : Event) : Prop :=
  match ev with
  | HttpPut _ _ _ | CreateMultipartUpload _ _
  | CreateBucket _ | DeleteBucket _ => False
  | _ => True
  end.






(** The scenarios of [run], between the creation and the deletion of the
    bucket. *)
Definition scenarios (E : Env) (fuel : nat) : M unit :=
  measure E fuel "get-traditional-presigned-url"
    (NoSetup (getTraditionalPresignedUrl E "traditional-presigned-url-only"))
    1000 ;;
  measure E fuel "initiate-multipart-only" (initiate_only E) 1000 ;;
  measure E fuel "get-multipart-presigned-url-only"
    (WithSetup (presign_setup E)
       (fun s => getMultipartPresignedUrl E (fst s) (snd s) 1))
    1000 ;;
  measureTraditionalUploadCases E fuel traditional_sizes ;;
  measureMultipartUploadCases E fuel multipart_sizes multipart_chunks ;;
  measureMultipartUploadCases E fuel multipart_big_sizes multipart_big_chunks ;;
  cleanup E fuel.

(** [run] up to the request that deletes the bucket. *)
Definition sweep (E : Env) (fuel : nat) : M unit :=
  await (createBucket E) CreateBucket ;; scenarios E fuel.

(** The bucket is still there. *)
Definition keeps_bucket (ev : Event) : Prop := ev <> DeleteBucket (inr tt).

(** A service whose clock advances by a second per request and whose
    initiation answers carry no [UploadId]. *)
Definition env_coarse_no_session : Env :=
  {| now := fun h => 1000 * tick h;
     hrtime := hrtime env0;
     createBucket := createBucket env0;
     deleteBucket := deleteBucket env0;
     signPutObject := signPutObject env0;
     signUploadPart := signUploadPart env0;
     createMultipartUpload := fun _ key =>
       inr {| UploadId := None; Key := Some key |};
     completeMultipartUpload := completeMultipartUpload env0;
     httpPut := httpPut env0;
     listObjectsV2 := listObjectsV2 env0;
     deleteObjects := deleteObjects env0;
     writeFile := writeFile env0;
     kMaxLength := kMaxLength env0;
     isTTY := isTTY env0 |}.

(** A service in whose bucket an object stays whatever is deleted. *)
Definition env_stuck : Env :=
  {| now := now env0;
     hrtime := hrtime env0;
     createBucket := createBucket env0;
     deleteBucket := deleteBucket env0;
     signPutObject := signPutObject env0;
     signUploadPart := signUploadPart env0;
     createMultipartUpload := createMultipartUpload env0;
     completeMultipartUpload := completeMultipartUpload env0;
     httpPut := httpPut env0;
     listObjectsV2 := fun _ => inr (Some ["initiate-multipart-only/71"]);
     deleteObjects := deleteObjects env0;
     writeFile := writeFile env0;
     kMaxLength := kMaxLength env0;
     isTTY := isTTY env0 |}.

(** The body of a PUT has the byte count of one of the sizes. *)
Definition sized_by (sizes : list string) (body : Buffer) : Prop :=
  exists size s,
    size ∈ sizes /\ sizeToBytes size = inr (Fin s)
    /\ byteLength body = Qfloor s.


(** A service that answers every request, gives out session identifiers
    that are not empty for keys that are not empty, and lists the bucket
    as empty right after a deletion request. *)
Record answering (E : Env) : Prop :=
  { answers_createBucket : forall h, exists u, createBucket E h = inr u;
    answers_deleteBucket : forall h, exists u, deleteBucket E h = inr u;
    answers_signPutObject :
      forall h key, exists url, signPutObject E h key = inr url;
    answers_signUploadPart :
      forall h key uploadId n,
        exists url, signUploadPart E h key uploadId n = inr url;
    answers_createMultipartUpload :
      forall h key,
        key <> EmptyString ->
        exists out,
          createMultipartUpload E h key = inr out /\ lacks_session out = false;
    answers_completeMultipartUpload :
      forall h key uploadId parts,
        exists u, completeMultipartUpload E h key uploadId parts = inr u;
    answers_httpPut :
      forall h url body, exists response, httpPut E h url body = inr response;
    answers_listObjectsV2 :
      forall h, exists contents, listObjectsV2 E h = inr contents;
    answers_deleteObjects :
      forall h objects, exists u, deleteObjects E h objects = inr u;
    deletion_empties :
      forall h objects r contents,
        listObjectsV2 E (h ++ [DeleteObjects objects r]) = inr contents ->
        default [] contents = [];
    answers_writeFile :
      forall h path data, exists u, writeFile E h path data = inr u }.

(** Every event takes [d] milliseconds or more on the clock. *)
Definition clock_step (E : Env) (d : Z) : Prop :=
  forall h ev, now E h + d <= now E (h ++ [ev]).

(** A computation that ends normally in every world, leaves the store
    alone and adds at least one event to the history. *)
Definition steady {A} (m : M A) : Prop :=
  forall w, exists a w' seg,
    m w = Done a w'
    /\ measures w' = measures w
    /\ history w' = history w ++ seg /\ seg <> [].

(** The sizes of a multipart scenario are whole byte counts, the size up
    to 2^53, such that its setup succeeds with buffers of at most
    [maxLength] bytes and its loop needs at most [passes] passes. *)
Definition scenario_fits (maxLength : Z) (passes : nat)
    (pair : string * string) : bool :=
  match sizeToBytes (fst pair), sizeToBytes (snd pair) with
  | inr (Fin s), inr (Fin c) =>
      (Qden s =? 1)%positive && (Qden c =? 1)%positive
      && (Qnum s <=? 2 ^ 53) && (0 <? Qnum c)
      && (Qnum s <=? (Z.of_nat passes + 1) * Qnum c)
      && match getFileOfSize maxLength (Fin c),
               getFileOfSize maxLength (Fin s %% Fin c)%num with
         | inr _, inr _ => true
         | _, _ => false
         end
  | _, _ => false
  end.

Definition size_fits (maxLength : Z) (size : string) : bool :=
  match sizeToBytes size with
  | inr bytes =>
      match getFileOfSize maxLength bytes with
      | inr _ => true
      | inl _ => false
      end
  | inl _ => false
  end.

(** An action that ends normally wherever [I] holds of the store, keeps
    [I] and the samples of [name], and makes at least one request. *)
Definition action_ok {R} (I : gmap string (list Z) -> Prop) (name : string)
    (action : M R) : Prop :=
  forall w l,
    I (measures w) -> measures w !! name = Some l ->
    exists a w' seg,
      action w = Done a w'
      /\ I (measures w') /\ measures w' !! name = Some l
      /\ history w' = history w ++ seg /\ seg <> [].

(** The world [w'] is the one in which a listing, a deletion request or
    the write of results.json has just been rejected with [e]. *)
Definition rejected_in (E : Env) (e : exn) (w' : World) : Prop :=
  exists h,
    (history w' = h ++ [ListObjectsV2 (inl e)] /\ listObjectsV2 E h = inl e)
    \/ (exists objects,
          history w' = h ++ [DeleteObjects objects (inl e)]
          /\ deleteObjects E h objects = inl e)
    \/ (exists data,
          history w' = h ++ [WriteFile "results.json" data (inl e)]
          /\ writeFile E h "results.json" data = inl e).

(** The TypeError that [measure] can raise itself in the world [w']: the
    cursor cannot be moved off a terminal, and samples cannot be counted,
    pushed or added up where no array of them is. *)
Definition own_TypeError (E : Env) (name : string) (e : exn) (w' : World)
  : Prop :=
  e = TypeError /\ (isTTY E = false \/ measures w' !! name = None).

(** The two phase buckets of a fixture exist. *)
Definition phase_buckets (fx : Fixture) (m : gmap string (list Z)) : Prop :=
  is_Some (m !! uploadMeasure fx) /\ is_Some (m !! completeMeasure fx).

(** * Properties *)

(** ** The size parser *)

Section SizeParser.

Local Open Scope string_scope.

Lemma length_snoc (s : string) (c : ascii) :
  String.length (s +:+ String c "") = S (String.length s).
Proof. induction s as [|a s IH]; simpl; [reflexivity | now rewrite IH]. Qed.

Lemma substring_last (s : string) (c : ascii) :
  substring (String.length s) 1 (s +:+ String c "") = String c "".
Proof. induction s as [|a s IH]; simpl; [reflexivity | exact IH]. Qed.

Lemma endsWith_snoc (s : string) (c d : ascii) :
  Js.endsWith (s +:+ String c "") (String d "") = Ascii.eqb c d.
Proof.
  unfold Js.endsWith. rewrite length_snoc.
  change (String.length (String d "")) with 1%nat.
  replace (S (String.length s) - 1)%nat with (String.length s) by lia.
  rewrite substring_last. simpl.
  destruct (Ascii.eqb c d); reflexivity.
Qed.

Lemma digit_not_space (c : ascii) : Js.is_digit c = true -> Js.is_space c = false.
Proof.
  unfold Js.is_digit, Js.is_space. intros H.
  apply andb_true_iff in H as [H1 H2].
  apply Nat.leb_le in H1. apply Nat.leb_le in H2.
  apply orb_false_iff. split; [apply orb_false_iff; split|].
  - apply andb_false_iff. right. apply Nat.leb_gt. lia.
  - apply Nat.eqb_neq. lia.
  - apply Nat.eqb_neq. lia.
Qed.

(** The three unit letters and their exponents. *)
Lemma unit_letter (c : ascii) (n : Z) :
  unit_exponent c = Some n ->
  (c = "k"%char /\ n = 1) \/ (c = "m"%char /\ n = 2) \/ (c = "g"%char /\ n = 3).
Proof.
  unfold unit_exponent. intros H.
  destruct (Ascii.eqb c "k") eqn:Hk.
  { apply Ascii.eqb_eq in Hk. left. split; congruence. }
  destruct (Ascii.eqb c "m") eqn:Hm.
  { apply Ascii.eqb_eq in Hm. right; left. split; congruence. }
  destruct (Ascii.eqb c "g") eqn:Hg.
  { apply Ascii.eqb_eq in Hg. right; right. split; congruence. }
  discriminate.
Qed.

Lemma take_digits_run (d rest : string) :
  all_digits d = true ->
  match rest with String c _ => Js.is_digit c = false | EmptyString => True end ->
  Js.take_digits (d +:+ rest) = (d, rest).
Proof.
  intros Hd Hrest. induction d as [|a d IH]; [discriminate|].
  simpl in Hd. apply andb_true_iff in Hd as [Ha Hd].
  simpl. rewrite Ha. destruct d as [|b d].
  - simpl. destruct rest as [|c r]; [reflexivity|].
    simpl. rewrite Hrest. reflexivity.
  - rewrite (IH Hd). reflexivity.
Qed.

Lemma all_digits_head (d : string) :
  all_digits d = true -> exists a r, d = String a r /\ Js.is_digit a = true.
Proof.
  destruct d as [|a r]; [discriminate|]. simpl. intros H.
  apply andb_true_iff in H as [Ha _]. eauto.
Qed.

Lemma append_assoc (a b c : string) : (a +:+ b) +:+ c = a +:+ (b +:+ c).
Proof.
  induction a as [|x a IH]; [reflexivity|].
  change (String x ((a +:+ b) +:+ c) = String x (a +:+ (b +:+ c))).
  now rewrite IH.
Qed.

Lemma take_sign_digit (a : ascii) (r : string) :
  Js.is_digit a = true -> Js.take_sign (String a r) = (false, String a r).
Proof.
  intros H.
  destruct a as [[] [] [] [] [] [] [] []];
    first [reflexivity | vm_compute in H; discriminate H].
Qed.

Lemma not_Infinity (a : ascii) (r : string) :
  Js.is_digit a = true -> String.prefix "Infinity" (String a r) = false.
Proof.
  intros H.
  change (String.prefix "Infinity" (String a r))
    with (if ascii_dec "I" a then String.prefix "nfinity" r else false).
  destruct (ascii_dec "I" a) as [<-|_]; [|reflexivity].
  vm_compute in H. discriminate H.
Qed.

Lemma Qfloor_half (z : Z) : Qfloor (inject_Z z + (1 # 2)) = z.
Proof.
  unfold Qfloor, Qplus, inject_Z. cbn [Qnum Qden].
  change (Z.pos (1 * 2)) with 2. symmetry.
  apply (Z.div_unique _ 2 z 1); lia.
Qed.

Lemma Qmult_1_r_eq (v : Q) : (v * 1)%Q = v.
Proof.
  destruct v as [n d]. unfold Qmult. cbn [Qnum Qden].
  now rewrite Z.mul_1_r, Pos.mul_1_r.
Qed.

(** An integer of magnitude up to 2^53 is a double: rounding returns it,
    in whatever way the integer is written as a fraction. *)
Lemma round64_integer (q : Q) (z : Z) :
  (q == inject_Z z)%Q -> Z.abs z <= 2 ^ 53 -> Num.round64 q = Num.of_Z z.
Proof.
  intros Hq Hz. destruct q as [n d]. unfold Qeq, inject_Z in Hq.
  cbn [Qnum Qden] in Hq. rewrite Z.mul_1_r in Hq. subst n.
  unfold Num.round64. cbn [Qnum Qden].
  rewrite Z.mod_mul, Z.div_mul by discriminate.
  rewrite Z.eqb_refl. cbn [andb].
  destruct (Z.leb_spec (Z.abs z) (2 ^ 53)) as [_|Hgt]; [reflexivity | lia].
Qed.

(** Products, sums and differences of integers are exact as long as the
    result has magnitude up to 2^53. *)
Lemma mul_of_Z (a b : Z) :
  Z.abs (a * b) <= 2 ^ 53 -> (Num.of_Z a * Num.of_Z b)%num = Num.of_Z (a * b).
Proof.
  intros H. unfold Num.mul, Num.of_Z. apply round64_integer; [|exact H].
  now rewrite inject_Z_mult.
Qed.

Lemma add_of_Z (a b : Z) :
  Z.abs (a + b) <= 2 ^ 53 -> (Num.of_Z a + Num.of_Z b)%num = Num.of_Z (a + b).
Proof.
  intros H. unfold Num.add, Num.of_Z. apply round64_integer; [|exact H].
  now rewrite inject_Z_plus.
Qed.

Lemma sub_of_Z (a b : Z) :
  Z.abs (a - b) <= 2 ^ 53 -> (Num.of_Z a - Num.of_Z b)%num = Num.of_Z (a - b).
Proof.
  intros H. unfold Num.sub, Num.neg, Num.add, Num.of_Z.
  apply round64_integer; [|exact H].
  unfold Z.sub. rewrite inject_Z_plus, inject_Z_opp. reflexivity.
Qed.

(** On a well-formed prefix followed by a unit letter, [parseFloat] reads
    exactly the prefix, and gives the double nearest to it. *)
Lemma parseFloat_numeral (ip fp : string) (c : ascii) (n : Z) :
  well_formed_prefix ip fp ->
  unit_exponent c = Some n ->
  Js.parseFloat (numeral ip fp +:+ String c "")
  = Num.round64 (Js.decimal_value ip fp).
Proof.
  intros [Hip Hfp] Hc.
  rewrite <- (Qmult_1_r_eq (Js.decimal_value ip fp)).
  assert (Hc' : c = "k"%char \/ c = "m"%char \/ c = "g"%char).
  { destruct (unit_letter c n Hc) as [[-> _]|[[-> _]|[-> _]]]; auto. }
  destruct (all_digits_head ip Hip) as (a & r & -> & Ha).
  assert (Hrun : forall rest,
    match rest with String x _ => Js.is_digit x = false | EmptyString => True end ->
    Js.parseFloat (String a r +:+ rest) =
    let '(fp', s3) :=
      match rest with
      | String "." t => Js.take_digits t
      | _ => (EmptyString, rest)
      end in
    Num.round64
      (Js.decimal_value (String a r) fp' * Qpower 10 (Js.take_exponent s3))).
  { intros rest Hrest. unfold Js.parseFloat.
    change (String a r +:+ rest) with (String a (r +:+ rest)).
    cbn [Js.skip_space]. rewrite (digit_not_space a Ha).
    rewrite (take_sign_digit a _ Ha). rewrite (not_Infinity a _ Ha).
    change (String a (r +:+ rest)) with (String a r +:+ rest).
    rewrite (take_digits_run (String a r) rest Hip Hrest).
    destruct (match rest with String "." t => Js.take_digits t | _ => (EmptyString, rest) end)
      as [fp' s3]. reflexivity. }
  destruct Hfp as [-> | Hfp].
  - simpl numeral. rewrite Hrun.
    + destruct Hc' as [-> | [-> | ->]]; reflexivity.
    + destruct Hc' as [-> | [-> | ->]]; reflexivity.
  - assert (Hnum : numeral (String a r) fp = String a r +:+ "." +:+ fp).
    { destruct fp; [discriminate Hfp | reflexivity]. }
    rewrite Hnum, !append_assoc. rewrite Hrun by reflexivity.
    change ("." +:+ (fp +:+ String c "")) with (String "." (fp +:+ String c "")).
    cbv iota beta.
    rewrite (take_digits_run fp (String c "") Hfp).
    + destruct Hc' as [-> | [-> | ->]]; reflexivity.
    + destruct Hc' as [-> | [-> | ->]]; reflexivity.
Qed.

(** What [sizeToBytes] does with its input depends on the last character
    alone. *)
Lemma sizeToBytes_unit (s : string) (c : ascii) :
  sizeToBytes (s +:+ String c "")
  = match unit_exponent c with
    | Some n =>
        inr (times_1024 (Z.to_nat n) (Js.parseFloat (s +:+ String c "")))
    | None => inl (Error ("Invalid size " +:+ (s +:+ String c "")))
    end.
Proof.
  unfold sizeToBytes, unit_exponent. rewrite !endsWith_snoc.
  destruct (Ascii.eqb c "k"); [reflexivity|].
  destruct (Ascii.eqb c "m"); [reflexivity|].
  destruct (Ascii.eqb c "g"); reflexivity.
Qed.

Lemma string_snoc_inv (s : string) :
  s <> "" -> exists r c, s = r +:+ String c "".
Proof.
  induction s as [|a s IH]; [congruence|]. intros _.
  destruct s as [|b s].
  - exists "", a. reflexivity.
  - destruct IH as (r & c & Hr); [discriminate|].
    exists (String a r), c. rewrite Hr. reflexivity.
Qed.

Lemma has_unit_snoc (s : string) (c : ascii) :
  has_unit (s +:+ String c "") = true <-> is_Some (unit_exponent c).
Proof.
  unfold has_unit, unit_exponent. rewrite !endsWith_snoc.
  destruct (Ascii.eqb c "k"); [cbn; split; eauto|].
  destruct (Ascii.eqb c "m"); [cbn; split; eauto|].
  destruct (Ascii.eqb c "g"); [cbn; split; eauto|].
  cbn. split; [discriminate | intros [x Hx]; discriminate Hx].
Qed.

(** An integer prefix [z] with [z * 1024^n] up to 2^53 is scaled
    exactly. *)
Lemma times_1024_of_Z (n : nat) (z : Z) :
  0 <= z -> z * 1024 ^ Z.of_nat n <= 2 ^ 53 ->
  times_1024 n (Num.of_Z z) = Num.of_Z (z * 1024 ^ Z.of_nat n).
Proof.
  intros Hz. induction n as [|n IH]; intros Hb.
  - cbn [times_1024]. f_equal. change (1024 ^ Z.of_nat 0) with 1. lia.
  - assert (Hpow : 1024 ^ Z.of_nat (S n) = 1024 ^ Z.of_nat n * 1024).
    { rewrite Nat2Z.inj_succ, Z.pow_succ_r by lia. lia. }
    assert (Hpos : 0 < 1024 ^ Z.of_nat n) by (apply Z.pow_pos_nonneg; lia).
    cbn [times_1024]. rewrite IH by nia.
    unfold n1024. rewrite mul_of_Z by (rewrite Z.abs_eq by nia; nia).
    f_equal. rewrite Hpow. lia.
Qed.

Lemma dec_val_from_nonneg (d : string) :
  forall acc, 0 <= acc -> all_digits d = true -> 0 <= Js.dec_val_from acc d.
Proof.
  induction d as [|a d IH]; intros acc Hacc Hd; [discriminate Hd|].
  cbn [all_digits] in Hd. apply andb_true_iff in Hd as [Ha Hd].
  cbn [Js.dec_val_from].
  assert (H0 : 0 <= 10 * acc + Js.digit_val a).
  { unfold Js.is_digit in Ha. apply andb_true_iff in Ha as [H1 _].
    apply Nat.leb_le in H1. unfold Js.digit_val. lia. }
  destruct d as [|b d]; [exact H0 | now apply IH].
Qed.

(** C4, as amended: for a numeric prefix [ip] or [ip.fp] followed by one
    of the letters k, m, g, [sizeToBytes] returns the double nearest to
    the prefix, multiplied n times (n = 1, 2, 3) by 1024 in JavaScript
    arithmetic, and does not round the product to an integer; for an
    integer prefix [z] with [z * 1024^n] up to 2^53 the result is exactly
    [z * 1024^n], which is then also [round(prefix * 1024^n)]. *)
Theorem sizeToBytes_scales (ip fp : string) (c : ascii) (n : Z) :
  well_formed_prefix ip fp ->
  unit_exponent c = Some n ->
  exists r, sizeToBytes (numeral ip fp +:+ String c "") = inr r
    /\ r = times_1024 (Z.to_nat n) (Num.round64 (Js.decimal_value ip fp))
    /\ (fp = "" -> Js.dec_val ip * 1024 ^ n <= 2 ^ 53 ->
        r = Num.of_Z (Js.dec_val ip * 1024 ^ n)
        /\ r ≃ spec_sizeToBytes (Js.decimal_value ip fp) n).
Proof.
  intros Hwf Hc.
  pose proof (sizeToBytes_unit (numeral ip fp) c) as Hr. rewrite Hc in Hr.
  rewrite (parseFloat_numeral ip fp c n Hwf Hc) in Hr.
  eexists. split; [exact Hr|]. split; [reflexivity|].
  intros -> Hb.
  assert (Hn : 0 <= n /\ Z.of_nat (Z.to_nat n) = n).
  { destruct (unit_letter c n Hc) as [[_ ->]|[[_ ->]|[_ ->]]];
      (split; [lia | reflexivity]). }
  destruct Hn as [Hn0 Hn].
  assert (Hz : 0 <= Js.dec_val ip).
  { apply dec_val_from_nonneg; [lia | apply Hwf]. }
  assert (Hv : (Js.decimal_value ip "" == inject_Z (Js.dec_val ip))%Q).
  { unfold Js.decimal_value. cbn [String.length Z.of_nat].
    change (Js.dec_val "") with 0. change (10 ^ 0) with 1.
    unfold inject_Z at 2 3. field. discriminate. }
  assert (Hpos : 0 < 1024 ^ n) by (apply Z.pow_pos_nonneg; lia).
  assert (Hround : Num.round64 (Js.decimal_value ip "") = Num.of_Z (Js.dec_val ip)).
  { apply round64_integer; [exact Hv|]. rewrite Z.abs_eq by exact Hz. nia. }
  rewrite Hround, times_1024_of_Z; rewrite ?Hn; try assumption.
  split; [reflexivity|].
  unfold spec_sizeToBytes, Num.round, Num.of_Z. cbn [Num.num_eq].
  rewrite Hv, <- inject_Z_mult, Qfloor_half. reflexivity.
Qed.

Lemma sizeToBytes_scales_witness :
  exists r, sizeToBytes (numeral "512" "" +:+ "k") = inr r
    /\ r = times_1024 (Z.to_nat 1) (Num.round64 (Js.decimal_value "512" ""))
    /\ ("" = "" -> Js.dec_val "512" * 1024 ^ 1 <= 2 ^ 53 ->
        r = Num.of_Z (Js.dec_val "512" * 1024 ^ 1)
        /\ r ≃ spec_sizeToBytes (Js.decimal_value "512" "") 1).
Proof.
  apply (sizeToBytes_scales "512" "" "k" 1).
  - split; [reflexivity | left; reflexivity].
  - reflexivity.
Defined.

(** C4, as stated, fails: [sizeToBytes "0.3k"] is the double nearest to
    0.3 times 1024, a little under 307.2, and not 307. *)
Lemma sizeToBytes_does_not_round :
  well_formed_prefix "0" "3" /\ unit_exponent "k" = Some 1
  /\ exists r, sizeToBytes (numeral "0" "3" +:+ "k") = inr r
       /\ r ≃ Fin (5404319552844595 # 17592186044416)
       /\ ~ r ≃ spec_sizeToBytes (Js.decimal_value "0" "3") 1.
Proof.
  split; [split; [reflexivity | right; reflexivity]|].
  split; [reflexivity|].
  eexists. split; [vm_compute; reflexivity|]. split.
  - vm_compute. reflexivity.
  - intros H. vm_compute in H. discriminate H.
Qed.

(** C5, as amended: [sizeToBytes] throws exactly when the input does not
    end in k, m or g, and the exception is [Error("Invalid size ...")];
    when the input ends in one of the three letters it returns, whatever
    stands in front of the letter, [parseFloat] of the input multiplied
    n times by 1024 (n = 1, 2, 3 for k, m, g), which is [NaN] when no
    numeric literal starts the input. *)
Theorem sizeToBytes_throws_iff_no_unit (size : string) :
  match sizeToBytes size with
  | inl e =>
      has_unit size = false
      /\ e = Error ("Invalid size " +:+ size) /\ InvalidSizeFormat e
  | inr r =>
      has_unit size = true
      /\ (exists s c n,
            size = s +:+ String c "" /\ unit_exponent c = Some n
            /\ r = times_1024 (Z.to_nat n) (Js.parseFloat size))
      /\ (Js.parseFloat size = NaN -> r = NaN)
  end.
Proof.
  destruct (string_dec size "") as [-> | Hne].
  { cbn. split; [reflexivity|]. split; [reflexivity|]. now exists "". }
  destruct (string_snoc_inv size Hne) as (s & c & ->).
  rewrite sizeToBytes_unit.
  destruct (unit_exponent c) as [n|] eqn:Hc.
  - split; [apply has_unit_snoc; rewrite Hc; eauto|].
    split; [exists s, c, n; auto|].
    intros ->.
    destruct (unit_letter c n Hc) as [[_ ->]|[[_ ->]|[_ ->]]]; reflexivity.
  - split.
    + destruct (has_unit (s +:+ String c "")) eqn:Hu; [|reflexivity].
      apply has_unit_snoc in Hu as [x Hx]. congruence.
    + split; [reflexivity|]. now eexists.
Qed.

(** C5, as stated, fails: a malformed prefix in front of a valid unit
    letter does not make [sizeToBytes] throw. *)
Lemma sizeToBytes_malformed_prefix_returns :
  Js.parseFloat "abck" = NaN /\ sizeToBytes "abck" = inr NaN
  /\ sizeToBytes "k" = inr NaN
  /\ exists r, sizeToBytes "1x2k" = inr r /\ r ≃ Num.of_Z 1024.
Proof.
  repeat split; try reflexivity.
  eexists. split; reflexivity.
Qed.

End SizeParser.

(** ** Object keys *)

(** C8: [getKey] concatenates the decimal seconds of one timer reading
    and the decimal nanoseconds of the next without a separator, so
    distinct readings can give the same key: (1 s, 23 ns) and
    (12 s, 3 ns) both give [p/123]. *)
Theorem getKey_collision :
  (1%N, 23%N) <> (12%N, 3%N)
  /\ result_of (getKey (env_at (1%N, 23%N)) "p" world0) = Some "p/123"
  /\ result_of (getKey (env_at (12%N, 3%N)) "p" world0) = Some "p/123"
  /\ key_of "p" 1 23 = key_of "p" 12 3.
Proof. split; [discriminate|]. repeat split; reflexivity. Qed.

(** ** Reasoning about computations *)

Section Steps.

Variable E : Env.

Lemma bind_Done {A B} (m : M A) (k : A -> M B) (w w' : World) (b : B) :
  bind m k w = Done b w' ->
  exists a w1, m w = Done a w1 /\ k a w1 = Done b w'.
Proof.
  unfold bind. destruct (m w) as [a w1|e w1|]; intros H; try discriminate.
  eauto.
Qed.

Lemma bind_step {A B} (m : M A) (k : A -> M B) (w w1 : World) (a : A) :
  m w = Done a w1 -> bind m k w = k a w1.
Proof. unfold bind. now intros ->. Qed.


Lemma ret_Done {A} (a b : A) (w w' : World) :
  ret a w = Done b w' -> a = b /\ w = w'.
Proof. unfold ret. intros H. injection H as -> ->. auto. Qed.

Lemma lift_Done {A} (r : exn + A) (a : A) (w w' : World) :
  lift r w = Done a w' -> r = inr a /\ w' = w.
Proof.
  destruct r as [e|x]; cbn; intros H; [discriminate|].
  injection H as -> ->. auto.
Qed.

Lemma ask_Done {R} (f : list Event -> R) (ev : R -> Event) (w w' : World) (r : R) :
  ask f ev w = Done r w' -> r = f (history w) /\ w' = record (ev r) w.
Proof. unfold ask. intros H. injection H as <- <-. auto. Qed.

Lemma await_Done {R} (f : list Event -> exn + R) (ev : exn + R -> Event)
    (w w' : World) (r : R) :
  await f ev w = Done r w' ->
  f (history w) = inr r /\ w' = record (ev (inr r)) w.
Proof.
  unfold await. destruct (f (history w)) as [e|x]; intros H; [discriminate|].
  injection H as <- <-. auto.
Qed.

Lemma Date_now_Done (w w' : World) (t : Z) :
  Date_now E w = Done t w' ->
  t = now E (history w) /\ w' = record (DateNow t) w.
Proof. apply ask_Done. Qed.

Lemma push_Done (name : string) (x : Z) (w w' : World) (u : unit) :
  push name x w = Done u w' ->
  exists l, measures w !! name = Some l
    /\ w' = {| measures := <[name := l ++ [x]]> (measures w);
               history := history w |}.
Proof.
  unfold push, bind, samples, assign.
  destruct (measures w !! name) as [l|]; intros H; [|discriminate].
  injection H as <-. eauto.
Qed.

Lemma multipartUpload_Done (uploadId key : string) (n : Z) (file : Buffer)
    (w w' : World) (tag : string) :
  multipartUpload E uploadId key n file w = Done tag w' ->
  exists p : PartUpload,
    part_number p = n /\ part_body p = file /\ tag = part_tag p
    /\ history w' = history w ++ part_events key uploadId p
    /\ measures w' = measures w.
Proof.
  unfold multipartUpload, getMultipartPresignedUrl, ky_put. intros H.
  apply bind_Done in H as (url & w1 & H1 & H).
  apply bind_Done in H as (response & w2 & H2 & H).
  apply ret_Done in H as [<- <-].
  apply await_Done in H1 as [_ ->]. apply await_Done in H2 as [_ ->].
  exists {| part_number := n; part_body := file; part_url := url;
            part_response := response |}.
  cbn. rewrite <- app_assoc. auto.
Qed.

Lemma initiateMultipart_Done (prefix : string) (w w' : World)
    (out : InitiateOutput) :
  initiateMultipart E prefix w = Done out w' ->
  exists t0 t1 : N * N,
    history w' = history w ++
      [ Hrtime (fst t0) (snd t0); Hrtime (fst t1) (snd t1);
        CreateMultipartUpload (key_of prefix (fst t0) (snd t1)) (inr out) ]
    /\ measures w' = measures w.
Proof.
  unfold initiateMultipart, getKey, process_hrtime. intros H.
  apply bind_Done in H as (key & w3 & H & H3).
  apply bind_Done in H as (t0 & w1 & H1 & H).
  apply bind_Done in H as (t1 & w2 & H2 & H).
  apply ret_Done in H as [<- <-].
  apply ask_Done in H1 as [_ ->]. apply ask_Done in H2 as [_ ->].
  apply await_Done in H3 as [_ ->].
  exists t0, t1. cbn. rewrite <- !app_assoc. auto.
Qed.

(** The loop uploads [chunkData] under consecutive part numbers and stops
    at the first state that fails [remainingBytes > chunkSize]. *)
Lemma upload_chunks_Done (fuel : nat) (chunk uploadId key : string)
    (data : Buffer) (chunkSize : number) :
  forall (remaining : number) (n : Z) (eTags : list string) (w w' : World)
         (st : number * Z * list string),
    upload_chunks E fuel chunk uploadId key data chunkSize remaining n eTags w
      = Done st w' ->
    exists ps : list PartUpload,
      history w' = history w ++ concat (map (part_events key uploadId) ps)
      /\ measures w' = measures w
      /\ snd st = eTags ++ map part_tag ps
      /\ snd (fst st) = n + Z.of_nat (length ps)
      /\ (forall i p, ps !! i = Some p ->
            part_number p = n + Z.of_nat i /\ part_body p = data)
      /\ Num.gt (fst (fst st)) chunkSize = false.
Proof.
  induction fuel as [|fuel IH]; intros remaining n eTags w w' st H;
    cbn [upload_chunks] in H;
    destruct (Num.gt remaining chunkSize) eqn:Hgt; try discriminate H.
  - apply ret_Done in H as [<- <-]. exists []. cbn.
    rewrite !app_nil_r, Z.add_0_r. split_and!; auto. intros i p Hp.
    rewrite lookup_nil in Hp. discriminate.
  - apply bind_Done in H as (tag & w1 & H1 & H).
    apply bind_Done in H as (step & w2 & H2 & H).
    apply multipartUpload_Done in H1 as (p & Hn & Hb & -> & Hh1 & Hm1).
    apply lift_Done in H2 as [_ ->].
    apply IH in H as (ps & Hh & Hm & Ht & Hk & Hps & Hstop).
    exists (p :: ps). cbn [map concat length].
    rewrite Hh, Hh1, Hm, Hm1, Ht, Hk, <- !app_assoc.
    split_and!; auto.
    + lia.
    + intros [|i] q Hq; cbn in Hq.
      * injection Hq as <-. rewrite Hn, Hb. split; [lia | reflexivity].
      * apply Hps in Hq as [-> ->]. split; [lia | reflexivity].
  - apply ret_Done in H as [<- <-]. exists []. cbn.
    rewrite !app_nil_r, Z.add_0_r. split_and!; auto. intros i p Hp.
    rewrite lookup_nil in Hp. discriminate.
Qed.

Lemma upload_last_Done (uploadId key : string) (data : Buffer)
    (remaining : number) (n : Z) (eTags eTags' : list string) (w w' : World) :
  upload_last E uploadId key data remaining n eTags w = Done eTags' w' ->
  exists ps : list PartUpload,
    history w' = history w ++ concat (map (part_events key uploadId) ps)
    /\ measures w' = measures w
    /\ eTags' = eTags ++ map part_tag ps
    /\ (forall i p, ps !! i = Some p ->
          part_number p = n + Z.of_nat i /\ part_body p = data)
    /\ length ps = (if Num.gt remaining (Num.of_Z 0) then 1 else 0)%nat.
Proof.
  unfold upload_last. destruct (Num.gt remaining (Num.of_Z 0)); intros H.
  - apply bind_Done in H as (tag & w1 & H1 & H).
    apply ret_Done in H as [<- <-].
    apply multipartUpload_Done in H1 as (p & Hn & Hb & -> & Hh & Hm).
    exists [p]. cbn. rewrite ?app_nil_r. split_and!; auto.
    intros [|i] q Hq; cbn in Hq; [|destruct i; discriminate Hq].
    injection Hq as <-. rewrite Hn, Hb. split; [lia | reflexivity].
  - apply ret_Done in H as [<- <-]. exists []. cbn.
    rewrite !app_nil_r. split_and!; auto. intros i p Hp.
    rewrite lookup_nil in Hp. discriminate.
Qed.

(** The stages of a successful session. *)
Lemma multipart_session_stages (fuel : nat) (chunk : string) (fx : Fixture)
    (remaining chunkSize : number) (uploadId key : string) (w w' : World)
    (u : unit) :
  multipart_session E fuel chunk fx remaining chunkSize uploadId key w
    = Done u w' ->
  exists (t0 t1 t2 t3 : Z) (st : number * Z * list string) (w2 w3 : World)
         (eTags : list string) (l1 l2 : list Z),
    upload_chunks E fuel chunk uploadId key (chunkData fx) chunkSize
      remaining 1 [] (record (DateNow t0) w) = Done st w2
    /\ upload_last E uploadId key (lastChunkData fx) (fst (fst st))
         (snd (fst st)) (snd st) w2 = Done eTags w3
    /\ history w' = history w3 ++
         [ DateNow t1; DateNow t2;
           CompleteMultipartUpload key uploadId (parts_of eTags) (inr tt);
           DateNow t3 ]
    /\ measures w3 !! uploadMeasure fx = Some l1
    /\ <[uploadMeasure fx := l1 ++ [t1 - t0]]> (measures w3)
         !! completeMeasure fx = Some l2
    /\ measures w' =
         <[completeMeasure fx := l2 ++ [t3 - t2]]>
           (<[uploadMeasure fx := l1 ++ [t1 - t0]]> (measures w3)).
Proof.
  unfold multipart_session. intros H.
  apply bind_Done in H as (t0 & w1 & H1 & H).
  apply bind_Done in H as (st & w2 & H2 & H).
  apply bind_Done in H as (eTags & w3 & H3 & H).
  apply bind_Done in H as (t1 & w4 & H4 & H).
  apply bind_Done in H as (u5 & w5 & H5 & H).
  apply bind_Done in H as (t2 & w6 & H6 & H).
  apply bind_Done in H as (u7 & w7 & H7 & H).
  apply bind_Done in H as (t3 & w8 & H8 & H).
  apply Date_now_Done in H1 as [_ ->].
  apply Date_now_Done in H4 as [_ ->].
  apply push_Done in H5 as (l1 & Hl1 & ->).
  apply Date_now_Done in H6 as [_ ->].
  unfold completeMultipart in H7. apply await_Done in H7 as [_ ->].
  destruct u7.
  apply Date_now_Done in H8 as [_ ->].
  apply push_Done in H as (l2 & Hl2 & ->).
  cbn in *.
  exists t0, t1, t2, t3, st, w2, w3, eTags, l1, l2.
  split_and!; auto. rewrite <- !app_assoc. reflexivity.
Qed.

(** A successful session logs its part uploads in order, numbered from 1,
    finalizes with their tags, and pushes one sample to each of its two
    buckets. *)
Lemma multipart_session_Done (fuel : nat) (chunk : string) (fx : Fixture)
    (remaining chunkSize : number) (uploadId key : string) (w w' : World)
    (u : unit) :
  multipart_session E fuel chunk fx remaining chunkSize uploadId key w
    = Done u w' ->
  exists (ps : list PartUpload) (t0 t1 t2 t3 : Z) (l1 l2 : list Z),
    history w' = history w ++ session_events key uploadId ps t0 t1 t2 t3
    /\ (forall i p, ps !! i = Some p -> part_number p = 1 + Z.of_nat i)
    /\ measures w !! uploadMeasure fx = Some l1
    /\ <[uploadMeasure fx := l1 ++ [t1 - t0]]> (measures w)
         !! completeMeasure fx = Some l2
    /\ measures w' =
         <[completeMeasure fx := l2 ++ [t3 - t2]]>
           (<[uploadMeasure fx := l1 ++ [t1 - t0]]> (measures w)).
Proof.
  intros H.
  apply multipart_session_stages in H
    as (t0 & t1 & t2 & t3 & st & w2 & w3 & eTags & l1 & l2
        & H2 & H3 & Hh & Hl1 & Hl2 & Hm).
  apply upload_chunks_Done in H2 as (ps1 & Hh2 & Hm2 & Ht2 & Hn2 & Hp2 & _).
  apply upload_last_Done in H3 as (ps2 & Hh3 & Hm3 & Ht3 & Hp3 & _).
  cbn in *. rewrite Hm3, Hm2 in *.
  exists (ps1 ++ ps2), t0, t1, t2, t3, l1, l2.
  split_and!; auto.
  - rewrite Hh, Hh3, Hh2. unfold session_events.
    rewrite Ht3, Ht2, map_app, concat_app, map_app. cbn.
    rewrite <- !app_assoc. reflexivity.
  - intros i p Hp. apply lookup_app_Some in Hp as [Hp|[Hlen Hp]].
    + apply Hp2 in Hp as [-> _]. reflexivity.
    + apply Hp3 in Hp as [-> _]. rewrite Hn2. lia.
Qed.

Lemma multipart_fn_Done (fuel : nat) (size chunk : string) (fx : Fixture)
    (w w' : World) (u : unit) :
  multipart_fn E fuel size chunk fx w = Done u w' ->
  exists (h0 h1 : N * N) (out : InitiateOutput) (key uploadId : string)
         (ps : list PartUpload) (t0 t1 t2 t3 : Z) (l1 l2 : list Z),
    truthy (UploadId out) = Some uploadId /\ truthy (Key out) = Some key
    /\ history w' = history w ++
         iteration_events ("multipart-upload-" +:+ size +:+ "-" +:+ chunk)
           h0 h1 out key uploadId ps t0 t1 t2 t3
    /\ (forall i p, ps !! i = Some p -> part_number p = 1 + Z.of_nat i)
    /\ measures w !! uploadMeasure fx = Some l1
    /\ <[uploadMeasure fx := l1 ++ [t1 - t0]]> (measures w)
         !! completeMeasure fx = Some l2
    /\ measures w' =
         <[completeMeasure fx := l2 ++ [t3 - t2]]>
           (<[uploadMeasure fx := l1 ++ [t1 - t0]]> (measures w)).
Proof.
  unfold multipart_fn. intros H.
  apply bind_Done in H as (remaining & w1 & H1 & H).
  apply bind_Done in H as (chunkSize & w2 & H2 & H).
  apply bind_Done in H as (out & w3 & H3 & H).
  apply lift_Done in H1 as [_ ->]. apply lift_Done in H2 as [_ ->].
  apply initiateMultipart_Done in H3 as (h0 & h1 & Hh & Hm).
  destruct (truthy (UploadId out)) as [uploadId|] eqn:Hu; [|discriminate H].
  destruct (truthy (Key out)) as [key|] eqn:Hk; [|discriminate H].
  apply multipart_session_Done in H
    as (ps & t0 & t1 & t2 & t3 & l1 & l2 & Hh' & Hn & Hl1 & Hl2 & Hm').
  rewrite Hm in *.
  exists h0, h1, out, key, uploadId, ps, t0, t1, t2, t3, l1, l2.
  split_and!; auto.
  rewrite Hh', Hh. unfold iteration_events. rewrite <- !app_assoc. reflexivity.
Qed.

Lemma upload_chunks_stop (fuel : nat) (chunk uploadId key : string)
    (data : Buffer) (chunkSize remaining : number) (n : Z)
    (eTags : list string) :
  Num.gt remaining chunkSize = false ->
  upload_chunks E fuel chunk uploadId key data chunkSize remaining n eTags
  = ret (remaining, n, eTags).
Proof. intros H. destruct fuel; cbn [upload_chunks]; now rewrite H. Qed.

Lemma upload_chunks_step (fuel : nat) (chunk uploadId key : string)
    (data : Buffer) (chunkSize remaining : number) (n : Z)
    (eTags : list string) :
  Num.gt remaining chunkSize = true ->
  upload_chunks E (S fuel) chunk uploadId key data chunkSize remaining n eTags
  = (let! tag := multipartUpload E uploadId key n data in
     let! step := lift (sizeToBytes chunk) in
     upload_chunks E fuel chunk uploadId key data chunkSize
       (remaining - step)%num (n + 1) (eTags ++ [tag])).
Proof. intros H. cbn [upload_chunks]. now rewrite H. Qed.

Lemma multipart_setup_Done (size chunk : string) (w w' : World) (fx : Fixture) :
  multipart_setup E size chunk w = Done fx w' ->
  exists sizeBytes chunkBytes,
    sizeToBytes size = inr sizeBytes /\ sizeToBytes chunk = inr chunkBytes
    /\ getFileOfSize (kMaxLength E) chunkBytes = inr (chunkData fx)
    /\ getFileOfSize (kMaxLength E) (sizeBytes %% chunkBytes)%num
         = inr (lastChunkData fx)
    /\ uploadMeasure fx = upload_name size chunk
    /\ completeMeasure fx = complete_name size chunk
    /\ history w' = history w
    /\ measures w' =
         <[complete_name size chunk := []]>
           (<[upload_name size chunk := []]> (measures w)).
Proof.
  unfold multipart_setup. intros H.
  apply bind_Done in H as (chunkBytes & w1 & H1 & H).
  apply bind_Done in H as (data & w2 & H2 & H).
  apply bind_Done in H as (sizeBytes & w3 & H3 & H).
  apply bind_Done in H as (chunkBytes' & w4 & H4 & H).
  apply bind_Done in H as (lastData & w5 & H5 & H).
  apply bind_Done in H as (u6 & w6 & H6 & H).
  apply bind_Done in H as (u7 & w7 & H7 & H).
  apply ret_Done in H as [<- <-].
  apply lift_Done in H1 as [H1 ->]. apply lift_Done in H2 as [H2 ->].
  apply lift_Done in H3 as [H3 ->]. apply lift_Done in H4 as [H4 ->].
  apply lift_Done in H5 as [H5 ->].
  unfold assign in H6, H7. injection H6 as _ <-. injection H7 as _ <-.
  assert (chunkBytes' = chunkBytes) as -> by congruence.
  exists sizeBytes, chunkBytes. cbn. split_and!; auto.
Qed.

End Steps.

(** ** Termination *)

Section Termination.

Variable E : Env.

Lemma terminates_ret {A} (a : A) : terminates (ret a).
Proof. intros w. discriminate. Qed.

Lemma terminates_throw {A} (e : exn) : terminates (@throw A e).
Proof. intros w. discriminate. Qed.

Lemma terminates_bind {A B} (m : M A) (k : A -> M B) :
  terminates m -> (forall a, terminates (k a)) -> terminates (bind m k).
Proof.
  intros Hm Hk w. unfold bind. specialize (Hm w).
  destruct (m w) as [a w1|e w1|]; [apply Hk | discriminate | contradiction].
Qed.

Lemma terminates_lift {A} (r : exn + A) : terminates (lift r).
Proof. destruct r; [apply terminates_throw | apply terminates_ret]. Qed.

Lemma terminates_ask {R} (f : list Event -> R) (ev : R -> Event) :
  terminates (ask f ev).
Proof. intros w. discriminate. Qed.

Lemma terminates_await {R} (f : list Event -> exn + R) (ev : exn + R -> Event) :
  terminates (await f ev).
Proof. intros w. unfold await. destruct (f (history w)); discriminate. Qed.

Lemma terminates_push (name : string) (x : Z) : terminates (push name x).
Proof.
  intros w. unfold push, bind, samples, assign.
  destruct (measures w !! name); discriminate.
Qed.

Lemma terminates_multipartUpload (uploadId key : string) (n : Z) (file : Buffer) :
  terminates (multipartUpload E uploadId key n file).
Proof.
  unfold multipartUpload, getMultipartPresignedUrl, ky_put.
  apply terminates_bind; [apply terminates_await|]. intros url.
  apply terminates_bind; [apply terminates_await|]. intros response.
  apply terminates_ret.
Qed.

Lemma terminates_initiateMultipart (prefix : string) :
  terminates (initiateMultipart E prefix).
Proof.
  unfold initiateMultipart, getKey, process_hrtime.
  apply terminates_bind; [|intros key; apply terminates_await].
  apply terminates_bind; [apply terminates_ask|]. intros t0.
  apply terminates_bind; [apply terminates_ask|]. intros t1.
  apply terminates_ret.
Qed.

Lemma terminates_upload_last (uploadId key : string) (data : Buffer)
    (remaining : number) (n : Z) (eTags : list string) :
  terminates (upload_last E uploadId key data remaining n eTags).
Proof.
  unfold upload_last. destruct (Num.gt remaining (Num.of_Z 0)).
  - apply terminates_bind; [apply terminates_multipartUpload|].
    intros tag. apply terminates_ret.
  - apply terminates_ret.
Qed.

(** A session runs out of fuel only inside its loop. *)
Lemma terminates_session (fuel : nat) (chunk : string) (fx : Fixture)
    (remaining chunkSize : number) (uploadId key : string) :
  terminates (upload_chunks E fuel chunk uploadId key (chunkData fx)
                chunkSize remaining 1 []) ->
  terminates (multipart_session E fuel chunk fx remaining chunkSize
                uploadId key).
Proof.
  intros Hloop. unfold multipart_session, completeMultipart.
  apply terminates_bind; [apply terminates_ask|]. intros t0.
  apply terminates_bind; [exact Hloop|]. intros st.
  apply terminates_bind; [apply terminates_upload_last|]. intros eTags.
  apply terminates_bind; [apply terminates_ask|]. intros t1.
  apply terminates_bind; [apply terminates_push|]. intros _.
  apply terminates_bind; [apply terminates_ask|]. intros t2.
  apply terminates_bind; [apply terminates_await|]. intros _.
  apply terminates_bind; [apply terminates_ask|]. intros t3.
  apply terminates_push.
Qed.

Lemma terminates_bind_lift {A B} (r : exn + A) (k : A -> M B) :
  (forall a, r = inr a -> terminates (k a)) -> terminates (bind (lift r) k).
Proof.
  intros Hk. destruct r as [e|a].
  - intros w. discriminate.
  - exact (Hk a eq_refl).
Qed.

Lemma terminates_multipart_fn (fuel : nat) (size chunk : string) (fx : Fixture) :
  (forall remaining chunkSize uploadId key,
     sizeToBytes size = inr remaining -> sizeToBytes chunk = inr chunkSize ->
     terminates (upload_chunks E fuel chunk uploadId key (chunkData fx)
                   chunkSize remaining 1 [])) ->
  terminates (multipart_fn E fuel size chunk fx).
Proof.
  intros Hloop. unfold multipart_fn.
  apply terminates_bind_lift. intros remaining Hsize.
  apply terminates_bind_lift. intros chunkSize Hchunk.
  apply terminates_bind; [apply terminates_initiateMultipart|]. intros out.
  destruct (truthy (UploadId out)); [|apply terminates_throw].
  destruct (truthy (Key out)); [|apply terminates_throw].
  apply terminates_session. now apply Hloop.
Qed.

End Termination.

(** ** What a history contains *)

Section Projections.

Variables (key uploadId : string).

Lemma parts_signed (ps : list PartUpload) :
  signed_parts (concat (map (part_events key uploadId) ps)) = map part_number ps.
Proof. induction ps as [|p ps IH]; cbn; [reflexivity | now rewrite <- IH]. Qed.

Lemma parts_bodies (ps : list PartUpload) :
  put_bodies (concat (map (part_events key uploadId) ps)) = map part_body ps.
Proof. induction ps as [|p ps IH]; cbn; [reflexivity | now rewrite <- IH]. Qed.

Lemma parts_etags (ps : list PartUpload) :
  put_etags (concat (map (part_events key uploadId) ps))
  = map (fun p => ETag (part_response p)) ps.
Proof. induction ps as [|p ps IH]; cbn; [reflexivity | now rewrite <- IH]. Qed.

Lemma parts_no_finalize (ps : list PartUpload) :
  finalize_calls (concat (map (part_events key uploadId) ps)) = [].
Proof. induction ps as [|p ps IH]; cbn; [reflexivity | exact IH]. Qed.

Lemma parts_no_initiation (ps : list PartUpload) :
  initiations (concat (map (part_events key uploadId) ps)) = [].
Proof. induction ps as [|p ps IH]; cbn; [reflexivity | exact IH]. Qed.

Lemma part_tag_default (ps : list PartUpload) :
  map part_tag ps
  = map (default EmptyString) (map (fun p => ETag (part_response p)) ps).
Proof. rewrite map_map. reflexivity. Qed.

(** The contents of the history of one successful iteration. *)
Lemma iteration_contents (prefix : string) (h0 h1 : N * N)
    (out : InitiateOutput) (ps : list PartUpload) (t0 t1 t2 t3 : Z) :
  let seg := iteration_events prefix h0 h1 out key uploadId ps t0 t1 t2 t3 in
  initiations seg = [key_of prefix (fst h0) (snd h1)]
  /\ signed_parts seg = map part_number ps
  /\ put_bodies seg = map part_body ps
  /\ put_etags seg = map (fun p => ETag (part_response p)) ps
  /\ finalize_calls seg = [parts_of (map part_tag ps)].
Proof.
  unfold iteration_events, session_events.
  unfold initiations, signed_parts, put_bodies, put_etags, finalize_calls.
  rewrite !omap_app.
  fold (initiations (concat (map (part_events key uploadId) ps))).
  fold (signed_parts (concat (map (part_events key uploadId) ps))).
  fold (put_bodies (concat (map (part_events key uploadId) ps))).
  fold (put_etags (concat (map (part_events key uploadId) ps))).
  fold (finalize_calls (concat (map (part_events key uploadId) ps))).
  rewrite parts_no_initiation, parts_signed, parts_bodies, parts_etags,
    parts_no_finalize.
  cbn. rewrite !app_nil_r. auto.
Qed.

End Projections.

(** [completeMultipart] numbers the tags from 1 and leaves them as they
    are. *)
Lemma parts_of_tags (eTags : list string) : map fst (parts_of eTags) = eTags.
Proof.
  unfold parts_of. apply list_eq. intros i.
  change (map fst) with (fmap (M := list) (@fst string Z)).
  rewrite list_lookup_fmap, list_lookup_imap.
  destruct (eTags !! i); reflexivity.
Qed.

Lemma parts_of_lookup (eTags : list string) (i : nat) (tag : string) :
  eTags !! i = Some tag -> parts_of eTags !! i = Some (tag, Z.of_nat i + 1).
Proof. intros H. unfold parts_of. now rewrite list_lookup_imap, H. Qed.

(** ** Multipart uploads *)

(** C6: when the response to the PUT of a part has no [ETag] header,
    [multipartUpload] does not throw and returns the empty string as the
    tag of the part; and in every successful iteration the finalize call
    carries the tags of the PUT responses in order, unchanged, the empty
    string standing at the place of every missing header. *)
Theorem missing_ETag_gives_empty_tag (E : Env) (uploadId key url : string)
    (n : Z) (file : Buffer) (w : World) :
  signUploadPart E (history w) key uploadId n = inr url ->
  httpPut E (history w ++ [SignUploadPart key uploadId n (inr url)]) url file
    = inr {| ETag := None |} ->
  multipartUpload E uploadId key n file w
    = Done EmptyString
        {| measures := measures w;
           history := history w ++ part_events key uploadId
             {| part_number := n; part_body := file; part_url := url;
                part_response := {| ETag := None |} |} |}
  /\ forall fuel size chunk fx w0 w1,
       multipart_fn E fuel size chunk fx w0 = Done tt w1 ->
       exists seg parts,
         history w1 = history w0 ++ seg
         /\ finalize_calls seg = [parts]
         /\ map fst parts = map (default EmptyString) (put_etags seg)
         /\ forall i, put_etags seg !! i = Some None ->
                      parts !! i = Some (EmptyString, Z.of_nat i + 1).
Proof.
  intros Hsign Hput. split.
  - unfold multipartUpload, getMultipartPresignedUrl, ky_put, bind, await, ret.
    rewrite Hsign. cbn [record history measures]. rewrite Hput.
    unfold record, part_events. cbn [history measures part_number part_body
      part_url part_response]. rewrite <- app_assoc. reflexivity.
  - intros fuel size chunk fx w0 w1 H.
    apply multipart_fn_Done in H
      as (h0 & h1 & out & k & u & ps & t0 & t1 & t2 & t3 & l1 & l2
          & _ & _ & Hh & _).
    destruct (iteration_contents k u
                ("multipart-upload-" +:+ size +:+ "-" +:+ chunk)
                h0 h1 out ps t0 t1 t2 t3) as (_ & _ & _ & Het & Hfin).
    eexists _, _. split; [exact Hh|]. split; [exact Hfin|].
    rewrite Het, parts_of_tags. split; [apply part_tag_default|].
    intros i Hi. apply parts_of_lookup.
    change (map part_tag ps) with (part_tag <$> ps).
    change (map (fun p => ETag (part_response p)) ps)
      with ((fun p => ETag (part_response p)) <$> ps) in Hi.
    rewrite list_lookup_fmap in Hi. rewrite list_lookup_fmap.
    destruct (ps !! i) as [p|]; [|discriminate Hi].
    cbn in *. injection Hi as Hi. unfold part_tag. now rewrite Hi.
Qed.

Lemma missing_ETag_gives_empty_tag_witness :
  multipartUpload env_no_etag "session" "k/1" 1 {| byteLength := 0 |} world0
    = Done EmptyString
        {| measures := measures world0;
           history := history world0 ++ part_events "k/1" "session"
             {| part_number := 1; part_body := {| byteLength := 0 |};
                part_url := "http://localhost:9000/k/1?partNumber=1";
                part_response := {| ETag := None |} |} |}
  /\ forall fuel size chunk fx w0 w1,
       multipart_fn env_no_etag fuel size chunk fx w0 = Done tt w1 ->
       exists seg parts,
         history w1 = history w0 ++ seg
         /\ finalize_calls seg = [parts]
         /\ map fst parts = map (default EmptyString) (put_etags seg)
         /\ forall i, put_etags seg !! i = Some None ->
                      parts !! i = Some (EmptyString, Z.of_nat i + 1).
Proof.
  apply (missing_ETag_gives_empty_tag env_no_etag "session" "k/1"
           "http://localhost:9000/k/1?partNumber=1" 1
           {| byteLength := 0 |} world0).
  - reflexivity.
  - reflexivity.
Defined.

(** ** The two end-to-end multipart scenarios *)

Lemma sizeToBytes_5m : sizeToBytes "5m" = inr (Num.of_Z 5242880).
Proof. reflexivity. Qed.

Lemma sizeToBytes_10m : sizeToBytes "10m" = inr (Num.of_Z 10485760).
Proof. reflexivity. Qed.

Lemma getFileOfSize_inr (maxLength : Z) (q : Q) (b : Buffer) :
  getFileOfSize maxLength (Fin q) = inr b -> byteLength b = Qfloor q.
Proof.
  unfold getFileOfSize.
  destruct (Qle_bool 0 q && Qle_bool q (inject_Z maxLength));
    intros H; [|discriminate H].
  injection H as <-. reflexivity.
Qed.

(** C2, the code at size "5m" and chunk "5m": the setup allocates a chunk
    buffer of 5242880 bytes and a last-chunk buffer of
    [5242880 % 5242880 = 0] bytes.  An iteration never runs out of fuel;
    its loop [while (remainingBytes > chunkSize)] runs zero times, the
    comparison being strict, so that all 5242880 bytes remain and the
    branch [if (remainingBytes > 0)] is the one that is taken.  A
    successful iteration therefore issues exactly one part upload, numbered
    1, but its body is the last-chunk buffer, of 0 bytes, and not the 5 MiB
    of the object; and exactly one finalize call, which carries the one tag
    of that part. *)
Theorem multipart_5m_5m (E : Env) (fuel : nat) (fx : Fixture)
    (w0 w1 w w' : World) :
  multipart_setup E "5m" "5m" w0 = Done fx w1 ->
  multipart_fn E fuel "5m" "5m" fx w = Done tt w' ->
  terminates (multipart_fn E fuel "5m" "5m" fx)
  /\ byteLength (chunkData fx) = 5242880
  /\ byteLength (lastChunkData fx) = 0
  /\ (forall uploadId key,
        upload_chunks E fuel "5m" uploadId key (chunkData fx)
          (Num.of_Z 5242880) (Num.of_Z 5242880) 1 []
        = ret (Num.of_Z 5242880, 1, []))
  /\ Num.gt (Num.of_Z 5242880) (Num.of_Z 0) = true
  /\ exists seg etag,
       history w' = history w ++ seg
       /\ length (initiations seg) = 1%nat
       /\ signed_parts seg = [1]
       /\ put_bodies seg = [lastChunkData fx]
       /\ map byteLength (put_bodies seg) = [0]
       /\ put_etags seg = [etag]
       /\ finalize_calls seg = [[(default EmptyString etag, 1)]].
Proof.
  intros Hsetup H.
  apply multipart_setup_Done in Hsetup
    as (sizeBytes & chunkBytes & Hs & Hc & Hchunk & Hlast & _).
  rewrite sizeToBytes_5m in Hs, Hc. injection Hs as <-. injection Hc as <-.
  apply getFileOfSize_inr in Hchunk. apply getFileOfSize_inr in Hlast.
  split_and!.
  - apply terminates_multipart_fn. intros remaining chunkSize uploadId key Hs Hc.
    rewrite sizeToBytes_5m in Hs, Hc. injection Hs as <-. injection Hc as <-.
    rewrite upload_chunks_stop by reflexivity. apply terminates_ret.
  - rewrite Hchunk. reflexivity.
  - rewrite Hlast. reflexivity.
  - intros uploadId key. apply upload_chunks_stop. reflexivity.
  - reflexivity.
  - unfold multipart_fn in H. rewrite sizeToBytes_5m in H.
    apply bind_Done in H as (remaining & w2 & H1 & H).
    apply bind_Done in H as (chunkSize & w3 & H2 & H).
    apply bind_Done in H as (out & w4 & H3 & H).
    apply lift_Done in H1 as [H1 ->]. apply lift_Done in H2 as [H2 ->].
    injection H1 as <-. injection H2 as <-.
    apply initiateMultipart_Done in H3 as (h0 & h1 & Hh & Hm).
    destruct (truthy (UploadId out)) as [uploadId|]; [|discriminate H].
    destruct (truthy (Key out)) as [key|]; [|discriminate H].
    apply multipart_session_stages in H
      as (t0 & t1 & t2 & t3 & st & w5 & w6 & eTags & l1 & l2
          & Hloop & Hl & Hh' & _).
    rewrite upload_chunks_stop in Hloop by reflexivity.
    apply ret_Done in Hloop as [<- <-]. cbn [fst snd] in Hl.
    unfold upload_last in Hl.
    change (Num.gt (Num.of_Z 5242880) (Num.of_Z 0)) with true in Hl.
    cbv iota in Hl.
    apply bind_Done in Hl as (tag & w7 & Hp & Hl).
    apply ret_Done in Hl as [<- <-].
    apply multipartUpload_Done in Hp as (p & Hn & Hb & -> & Hhp & _).
    destruct (iteration_contents key uploadId "multipart-upload-5m-5m"
                h0 h1 out [p] t0 t1 t2 t3) as (Hi & Hsg & Hbo & He & Hf).
    eexists _, (ETag (part_response p)).
    split; [|split_and!; [rewrite Hi | rewrite Hsg | rewrite Hbo
                          | rewrite Hbo | rewrite He | rewrite Hf]].
    + rewrite Hh', Hhp. cbn [record history]. rewrite Hh.
      unfold iteration_events, session_events. cbn [map concat].
      rewrite <- !app_assoc. cbn. reflexivity.
    + reflexivity.
    + cbn. now rewrite Hn.
    + cbn. now rewrite Hb.
    + cbn. rewrite Hb, Hlast. reflexivity.
    + reflexivity.
    + reflexivity.
Qed.

Lemma multipart_5m_5m_witness :
  exists fx w',
    multipart_setup env0 "5m" "5m" world0 = Done fx (world_of "5m" "5m")
    /\ multipart_fn env0 0 "5m" "5m" fx (world_of "5m" "5m") = Done tt w'
    /\ byteLength (lastChunkData fx) = 0
    /\ exists seg etag,
         history w' = history (world_of "5m" "5m") ++ seg
         /\ length (initiations seg) = 1%nat
         /\ signed_parts seg = [1]
         /\ put_bodies seg = [lastChunkData fx]
         /\ map byteLength (put_bodies seg) = [0]
         /\ put_etags seg = [etag]
         /\ finalize_calls seg = [[(default EmptyString etag, 1)]].
Proof.
  exists (fixture_of "5m" "5m" 5242880 0).
  assert (Hrun : exists w',
            multipart_fn env0 0 "5m" "5m" (fixture_of "5m" "5m" 5242880 0)
              (world_of "5m" "5m") = Done tt w')
    by (eexists; vm_compute; reflexivity).
  destruct Hrun as [w' Hrun]. exists w'.
  assert (Hsetup : multipart_setup env0 "5m" "5m" world0
                   = Done (fixture_of "5m" "5m" 5242880 0) (world_of "5m" "5m"))
    by (vm_compute; reflexivity).
  split; [exact Hsetup|]. split; [exact Hrun|].
  destruct (multipart_5m_5m env0 0 (fixture_of "5m" "5m" 5242880 0)
              world0 (world_of "5m" "5m") (world_of "5m" "5m") w' Hsetup Hrun)
    as (_ & _ & Hlast & _ & _ & Hseg).
  split; [exact Hlast | exact Hseg].
Defined.

(** C3, the code at size "10m" and chunk "5m": an iteration with fuel for
    one pass through the loop does not run out of fuel; a successful one
    issues exactly two part uploads, numbered 1 and 2, and exactly one
    finalize call, which carries the two tags in part order.  The first
    body has the chunk size, 5242880 bytes.  The second part is sent by the
    branch [if (remainingBytes > 0)], with 5242880 bytes remaining, but its
    body is the last-chunk buffer of the setup, of [size % chunk] bytes,
    which is 0 here: of the 10485760 bytes of the object, 5242880 are
    sent. *)
Theorem multipart_10m_5m (E : Env) (fuel : nat) (fx : Fixture)
    (w0 w1 w w' : World) :
  multipart_setup E "10m" "5m" w0 = Done fx w1 ->
  multipart_fn E (S fuel) "10m" "5m" fx w = Done tt w' ->
  terminates (multipart_fn E (S fuel) "10m" "5m" fx)
  /\ exists seg body1 body2 etag1 etag2,
       history w' = history w ++ seg
       /\ length (initiations seg) = 1%nat
       /\ signed_parts seg = [1; 2]
       /\ put_bodies seg = [body1; body2]
       /\ sizeToBytes "5m" = inr (Num.of_Z (byteLength body1))
       /\ (Num.of_Z 10485760 %% Num.of_Z 5242880)%num
            ≃ Num.of_Z (byteLength body2)
       /\ (Num.of_Z 10485760 - Num.of_Z 5242880)%num = Num.of_Z 5242880
       /\ map byteLength (put_bodies seg) = [5242880; 0]
       /\ put_etags seg = [etag1; etag2]
       /\ finalize_calls seg
          = [[(default EmptyString etag1, 1); (default EmptyString etag2, 2)]].
Proof.
  intros Hsetup H.
  assert (Hstop : Num.gt (Num.of_Z 10485760 - Num.of_Z 5242880)%num
                    (Num.of_Z 5242880) = false) by reflexivity.
  split.
  - apply terminates_multipart_fn. intros remaining chunkSize uploadId key Hs Hc.
    rewrite sizeToBytes_10m in Hs. rewrite sizeToBytes_5m in Hc.
    injection Hs as <-. injection Hc as <-.
    rewrite upload_chunks_step by reflexivity.
    apply terminates_bind; [apply terminates_multipartUpload|]. intros tag.
    rewrite sizeToBytes_5m.
    apply terminates_bind_lift. intros step Hstep. injection Hstep as <-.
    rewrite upload_chunks_stop by exact Hstop. apply terminates_ret.
  - apply multipart_setup_Done in Hsetup
      as (sizeBytes & chunkBytes & Hs & Hc & Hchunk & Hlast & _).
    rewrite sizeToBytes_10m in Hs. rewrite sizeToBytes_5m in Hc.
    injection Hs as <-. injection Hc as <-.
    apply getFileOfSize_inr in Hchunk. apply getFileOfSize_inr in Hlast.
    unfold multipart_fn in H. rewrite sizeToBytes_10m, sizeToBytes_5m in H.
    apply bind_Done in H as (remaining & w2 & H1 & H).
    apply bind_Done in H as (chunkSize & w3 & H2 & H).
    apply bind_Done in H as (out & w4 & H3 & H).
    apply lift_Done in H1 as [H1 ->]. apply lift_Done in H2 as [H2 ->].
    injection H1 as <-. injection H2 as <-.
    apply initiateMultipart_Done in H3 as (h0 & h1 & Hh & Hm).
    destruct (truthy (UploadId out)) as [uploadId|]; [|discriminate H].
    destruct (truthy (Key out)) as [key|]; [|discriminate H].
    apply multipart_session_stages in H
      as (t0 & t1 & t2 & t3 & st & w5 & w6 & eTags & l1 & l2
          & Hloop & Hl & Hh' & _).
    rewrite upload_chunks_step in Hloop by reflexivity.
    apply bind_Done in Hloop as (tag1 & w7 & Hp1 & Hloop).
    rewrite sizeToBytes_5m in Hloop.
    apply bind_Done in Hloop as (step & w8 & Hstep & Hloop).
    apply lift_Done in Hstep as [Hstep ->]. injection Hstep as <-.
    rewrite upload_chunks_stop in Hloop by exact Hstop.
    apply ret_Done in Hloop as [<- <-]. cbn [fst snd] in Hl.
    unfold upload_last in Hl.
    change (Num.gt (Num.of_Z 10485760 - Num.of_Z 5242880)%num (Num.of_Z 0))
      with true in Hl.
    cbv iota in Hl.
    apply bind_Done in Hl as (tag2 & w9 & Hp2 & Hl).
    apply ret_Done in Hl as [<- <-].
    apply multipartUpload_Done in Hp1 as (p1 & Hn1 & Hb1 & -> & Hhp1 & _).
    apply multipartUpload_Done in Hp2 as (p2 & Hn2 & Hb2 & -> & Hhp2 & _).
    destruct (iteration_contents key uploadId "multipart-upload-10m-5m"
                h0 h1 out [p1; p2] t0 t1 t2 t3) as (Hi & Hsg & Hbo & He & Hf).
    eexists _, (part_body p1), (part_body p2),
      (ETag (part_response p1)), (ETag (part_response p2)).
    split; [|split_and!; [rewrite Hi | rewrite Hsg | rewrite Hbo | | | |
                          rewrite Hbo | rewrite He | rewrite Hf]].
    + rewrite Hh', Hhp2, Hhp1. cbn [record history]. rewrite Hh.
      unfold iteration_events, session_events. cbn [map concat].
      rewrite <- !app_assoc. cbn. reflexivity.
    + reflexivity.
    + cbn. now rewrite Hn1, Hn2.
    + reflexivity.
    + rewrite Hb1, Hchunk. reflexivity.
    + rewrite Hb2, Hlast. reflexivity.
    + reflexivity.
    + cbn. rewrite Hb1, Hb2, Hchunk, Hlast. reflexivity.
    + reflexivity.
    + reflexivity.
Qed.

Lemma multipart_10m_5m_witness :
  exists w',
    multipart_fn env0 1 "10m" "5m" (fixture_of "10m" "5m" 5242880 0)
      (world_of "10m" "5m") = Done tt w'
    /\ exists seg body1 body2 etag1 etag2,
         history w' = history (world_of "10m" "5m") ++ seg
         /\ length (initiations seg) = 1%nat
         /\ signed_parts seg = [1; 2]
         /\ put_bodies seg = [body1; body2]
         /\ sizeToBytes "5m" = inr (Num.of_Z (byteLength body1))
         /\ (Num.of_Z 10485760 %% Num.of_Z 5242880)%num
              ≃ Num.of_Z (byteLength body2)
         /\ (Num.of_Z 10485760 - Num.of_Z 5242880)%num = Num.of_Z 5242880
         /\ map byteLength (put_bodies seg) = [5242880; 0]
         /\ put_etags seg = [etag1; etag2]
         /\ finalize_calls seg
            = [[(default EmptyString etag1, 1);
                (default EmptyString etag2, 2)]].
Proof.
  eexists. split; [vm_compute; reflexivity|].
  apply (multipart_10m_5m env0 0 (fixture_of "10m" "5m" 5242880 0)
           world0 (world_of "10m" "5m") (world_of "10m" "5m")).
  - vm_compute. reflexivity.
  - vm_compute. reflexivity.
Defined.

(** ** The sampler *)

Section Sampler.

Variable E : Env.
Variable name : string.

(** The loop condition, evaluated: the clock is consulted only when three
    samples are in, and the verdict is the rule of the specification. *)
Lemma keep_sampling_rule (overallStart maxTimeMs : Z) (w : World) (l : list Z) :
  measures w !! name = Some l ->
  keep_sampling E name overallStart maxTimeMs w
  = Done (spec_continue (length l) (now E (history w) - overallStart) maxTimeMs)
         (if (length l <? 3)%nat then w
          else record (DateNow (now E (history w))) w).
Proof.
  unfold keep_sampling, bind, samples_length, spec_continue. intros ->.
  destruct (length l <? 3)%nat; reflexivity.
Qed.

Lemma sampling_unfold {R} (fuel : nat) (action : M R) (overallStart maxTimeMs : Z) :
  sampling E fuel name action overallStart maxTimeMs
  = (let! continue := keep_sampling E name overallStart maxTimeMs in
     if continue then
       match fuel with
       | O => timeout
       | S fuel' =>
           sample_once E name action ;;
           sampling E fuel' name action overallStart maxTimeMs
       end
     else ret tt).
Proof. destruct fuel; reflexivity. Qed.

Hypothesis terminal : isTTY E = true.

Variable I : gmap string (list Z) -> Prop.
Hypothesis I_name : apart_from name I.

Lemma stdout_clear_Done (w : World) : stdout_clear E w = Done tt w.
Proof. unfold stdout_clear. now rewrite terminal. Qed.

Lemma summary_Done (w : World) (l : list Z) :
  measures w !! name = Some l -> summary E name w = Done tt w.
Proof.
  intros Hl. unfold summary, bind. rewrite stdout_clear_Done.
  unfold samples. now rewrite Hl.
Qed.

(** One pass through the loop body with an action that ends normally. *)
Lemma sample_once_Done {R} (action : M R) (w : World) (l : list Z) :
  ends_normally I name action ->
  I (measures w) -> measures w !! name = Some l ->
  exists (r : R) (wa w' : World) (seg : list Event),
    action (record (DateNow (now E (history w))) w) = Done r wa
    /\ history wa = history w ++ [DateNow (now E (history w))] ++ seg
    /\ sample_once E name action w = Done tt w'
    /\ history w' = history wa ++ [DateNow (now E (history wa))]
    /\ measures w' !! name
       = Some (l ++ [now E (history wa) - now E (history w)])
    /\ I (measures w').
Proof.
  intros Hok HI Hl.
  destruct (Hok (record (DateNow (now E (history w))) w) l HI Hl)
    as (r & wa & seg & Ha & HIa & Hm & Hseg).
  cbn [record history measures] in Hseg.
  exists r, wa, {| measures := <[name := l ++ [now E (history wa) - now E (history w)]]>
                                 (measures wa);
                   history := history wa ++ [DateNow (now E (history wa))] |}, seg.
  split_and!.
  - exact Ha.
  - rewrite Hseg, <- app_assoc. reflexivity.
  - unfold sample_once.
    rewrite (bind_step (Date_now E) _ w (record (DateNow (now E (history w))) w)
               (now E (history w)) eq_refl).
    rewrite (bind_step _ _ _ _ _ Ha).
    rewrite (bind_step (Date_now E) _ wa (record (DateNow (now E (history wa))) wa)
               (now E (history wa)) eq_refl).
    unfold push, bind, samples, assign. cbn [record measures history].
    rewrite Hm. apply stdout_clear_Done.
  - reflexivity.
  - cbn [measures]. apply lookup_insert_eq.
  - cbn [measures]. now apply I_name.
Qed.

(** If the deadline has passed whenever a sample has been taken, the loop
    stops at exactly three samples. *)
Lemma sampling_three {R} (action : M R) (overallStart maxTimeMs : Z)
    (h0 : list Event) :
  ends_normally I name action ->
  (forall w w', (exists seg, history w = h0 ++ seg) ->
     I (measures w) -> is_Some (measures w !! name) ->
     sample_once E name action w = Done tt w' ->
     overallStart + maxTimeMs <= now E (history w')) ->
  forall (fuel : nat) (w : World) (l : list Z),
    I (measures w) -> measures w !! name = Some l ->
    (length l <= 3)%nat -> (3 - length l <= fuel)%nat ->
    (exists seg, history w = h0 ++ seg) ->
    ((1 <= length l)%nat -> overallStart + maxTimeMs <= now E (history w)) ->
    exists w' ss,
      sampling E fuel name action overallStart maxTimeMs w = Done tt w'
      /\ measures w' !! name = Some (l ++ ss)
      /\ length (l ++ ss) = 3%nat.
Proof.
  intros Hok Hlate. induction fuel as [|fuel IH];
    intros w l HI Hl Hlen Hfuel Hext Hpast;
    rewrite sampling_unfold;
    rewrite (bind_step _ _ _ _ _ (keep_sampling_rule overallStart maxTimeMs w l Hl));
    unfold spec_continue.
  - assert (length l = 3%nat) as Hk by lia.
    rewrite Hk in *. cbn [Nat.ltb Nat.leb orb].
    replace (now E (history w) - overallStart <? maxTimeMs) with false
      by (symmetry; apply Z.ltb_ge; specialize (Hpast ltac:(lia)); lia).
    exists (record (DateNow (now E (history w))) w), []. rewrite app_nil_r.
    split_and!; auto.
  - destruct (length l <? 3)%nat eqn:Hlt.
    + apply Nat.ltb_lt in Hlt. cbn [orb].
      destruct (sample_once_Done action w l Hok HI Hl)
        as (r & wa & w1 & seg & Ha & Hwa & Hs & Hw1 & Hm1 & HI1).
      rewrite (bind_step _ _ _ _ _ Hs).
      destruct Hext as [seg0 Hext].
      destruct (IH w1 (l ++ [now E (history wa) - now E (history w)]) HI1 Hm1)
        as (w' & ss & Hrun & Hm' & Hlen').
      * rewrite length_app. cbn. lia.
      * rewrite length_app. cbn. lia.
      * exists (seg0 ++ [DateNow (now E (history w))] ++ seg
                ++ [DateNow (now E (history wa))]).
        rewrite Hw1, Hwa, Hext, <- !app_assoc. reflexivity.
      * intros _. apply (Hlate w w1); eauto.
      * exists w', ([now E (history wa) - now E (history w)] ++ ss).
        rewrite app_assoc. split_and!; auto.
    + apply Nat.ltb_ge in Hlt. assert (length l = 3%nat) as Hk by lia.
      cbn [orb].
      replace (now E (history w) - overallStart <? maxTimeMs) with false
        by (symmetry; apply Z.ltb_ge; specialize (Hpast ltac:(lia)); lia).
      exists (record (DateNow (now E (history w))) w), []. rewrite app_nil_r.
      split_and!; auto.
Qed.

End Sampler.

Lemma measure_samples_run (E : Env) (fuel : nat) (name : string) (run : Run)
    (maxTimeMs : Z) (w : World) :
  measure_samples E fuel name run maxTimeMs w
  = match run with
    | WithSetup setup fn =>
        (let! res := setup in
         sampling E fuel name (fn res) (now E (history w)) maxTimeMs ;;
         summary E name) (started E name w)
    | NoSetup fn =>
        (sampling E fuel name fn (now E (history w)) maxTimeMs ;;
         summary E name) (started E name w)
    end.
Proof.
  unfold measure_samples, started, init_samples, bind at 1.
  destruct (measures w !! name), (inherited name), run; reflexivity.
Qed.

Section SamplerFloor.

Variable E : Env.
Variable name : string.

Lemma stdout_clear_inv (w w' : World) (u : unit) :
  stdout_clear E w = Done u w' -> isTTY E = true /\ w' = w.
Proof.
  unfold stdout_clear. destruct (isTTY E); [|discriminate].
  intros H. apply ret_Done in H as [_ <-]. auto.
Qed.

Lemma summary_inv (w w' : World) (u : unit) :
  summary E name w = Done u w' ->
  isTTY E = true /\ w' = w /\ is_Some (measures w !! name).
Proof.
  unfold summary. intros H.
  apply bind_Done in H as (u1 & w1 & H1 & H).
  apply stdout_clear_inv in H1 as [Ht ->].
  apply bind_Done in H as (l & w2 & H2 & H).
  apply ret_Done in H as [_ <-].
  unfold samples in H2. destruct (measures w !! name) as [l'|] eqn:Hl;
    [|discriminate]. injection H2 as _ <-. eauto.
Qed.

Lemma sample_once_inv {R} (action : M R) (w w' : World) (u : unit) :
  sample_once E name action w = Done u w' ->
  exists (r : R) (wa : World),
    action (record (DateNow (now E (history w))) w) = Done r wa
    /\ history w' = history wa ++ [DateNow (now E (history wa))].
Proof.
  unfold sample_once. intros H.
  apply bind_Done in H as (start & w1 & H1 & H).
  apply bind_Done in H as (r & wa & Ha & H).
  apply bind_Done in H as (stop & w2 & H2 & H).
  apply Date_now_Done in H1 as [-> ->]. apply Date_now_Done in H2 as [-> ->].
  apply bind_Done in H as (u1 & w3 & H3 & H).
  apply stdout_clear_inv in H as [_ ->].
  apply push_Done in H3 as (l & _ & ->).
  exists r, wa. split; [exact Ha | reflexivity].
Qed.

(** The end of a pass: the sample is pushed and the cursor moved. *)
Lemma push_clear_Done (x : Z) (w w' : World) (u : unit) :
  (push name x ;; stdout_clear E) w = Done u w' ->
  exists l,
    measures w !! name = Some l
    /\ w' = {| measures := <[name := l ++ [x]]> (measures w);
               history := history w |}.
Proof.
  intros H. apply bind_Done in H as (u1 & w1 & H1 & H).
  apply stdout_clear_inv in H as [_ ->].
  apply push_Done in H1 as (l & Hl & ->). eauto.
Qed.

(** A [measure] that gets past its summary has, from the world in which
    it [started], run the setup and left the loop, on a terminal, with an
    entry under its name. *)
Lemma measure_samples_start (fuel : nat) (run : Run)
    (maxTimeMs : Z) (w w' : World) (u : unit) :
  measure_samples E fuel name run maxTimeMs w = Done u w' ->
  isTTY E = true /\ is_Some (measures w' !! name)
  /\ match run with
     | WithSetup setup fn =>
         exists res w2, setup (started E name w) = Done res w2
           /\ sampling E fuel name (fn res) (now E (history w)) maxTimeMs w2
              = Done tt w'
     | NoSetup fn =>
         sampling E fuel name fn (now E (history w)) maxTimeMs
           (started E name w) = Done tt w'
     end.
Proof.
  rewrite measure_samples_run. intros H.
  destruct run as [T R setup fn | R fn].
  - apply bind_Done in H as (res & w2 & Hs & H).
    apply bind_Done in H as ([] & w3 & H3 & H).
    apply summary_inv in H as (Ht & -> & Hl). eauto 10.
  - apply bind_Done in H as ([] & w3 & H3 & H).
    apply summary_inv in H as (Ht & -> & Hl). eauto.
Qed.

Lemma started_own (w : World) :
  inherited name = None ->
  started E name w
  = record (DateNow (now E (history w)))
      {| measures := <[name := default [] (measures w !! name)]> (measures w);
         history := history w |}.
Proof.
  unfold started. intros ->. destruct (measures w !! name); reflexivity.
Qed.

(** After a sample the deadline has passed: at once when the budget is
    zero, and because the action alone outlasts the budget when it is
    slow. *)
Lemma deadline_passed {R} (I : gmap string (list Z) -> Prop)
    (action : M R) (maxTimeMs : Z) (h0 : list Event) :
  monotone_clock E ->
  ends_normally I name action ->
  maxTimeMs = 0 \/ takes_longer E maxTimeMs action ->
  forall w w', (exists seg, history w = h0 ++ seg) ->
    I (measures w) -> is_Some (measures w !! name) ->
    sample_once E name action w = Done tt w' ->
    now E h0 + maxTimeMs <= now E (history w').
Proof.
  intros Hclock Hok Hcase w w' [seg0 Hext] HI [l Hl] Hs.
  apply sample_once_inv in Hs as (r & wa & Ha & Hw').
  destruct (Hok (record (DateNow (now E (history w))) w) l HI Hl)
    as (r' & wa' & seg & Ha' & _ & _ & Hseg).
  rewrite Ha in Ha'. injection Ha' as <- <-.
  cbn [record history] in Hseg.
  destruct Hcase as [-> | Hslow].
  - assert (Htail : history w' = h0 ++ (seg0 ++ [DateNow (now E (history w))]
                                         ++ seg ++ [DateNow (now E (history wa))])).
    { rewrite Hw', Hseg, Hext, <- !app_assoc. reflexivity. }
    rewrite Htail. pose proof (Hclock h0 (seg0 ++ [DateNow (now E (history w))]
      ++ seg ++ [DateNow (now E (history wa))])). lia.
  - specialize (Hslow _ _ _ Ha). cbn [record history] in Hslow.
    pose proof (Hclock h0 (seg0 ++ [DateNow (now E (history w))])) as H2.
    pose proof (Hclock (history wa) [DateNow (now E (history wa))]) as H1.
    rewrite <- Hw' in H1. rewrite Hext in Hslow at 1.
    rewrite <- app_assoc in Hslow. lia.
Qed.

Lemma cleanup_loop_measures (fuel : nat) :
  forall (objects : list string) (w w' : World) (u : unit),
    cleanup_loop E fuel objects w = Done u w' -> measures w' = measures w.
Proof.
  induction fuel as [|fuel IH]; intros objects w w' u H;
    destruct objects as [|o objects]; cbn [cleanup_loop] in H;
    try (apply ret_Done in H as [_ <-]; reflexivity); try discriminate H.
  apply bind_Done in H as (u1 & w1 & H1 & H).
  apply bind_Done in H as (objects' & w2 & H2 & H).
  apply await_Done in H1 as [_ ->].
  unfold listObjects in H2.
  apply bind_Done in H2 as (contents & w3 & H3 & H2).
  apply ret_Done in H2 as [_ <-]. apply await_Done in H3 as [_ ->].
  apply IH in H. exact H.
Qed.

(** The end of [measure] leaves the store as it is. *)
Lemma flush_measures (fuel : nat) (w w' : World) (u : unit) :
  flush E fuel w = Done u w' -> measures w' = measures w.
Proof.
  unfold flush, cleanup. intros H.
  apply bind_Done in H as (u1 & w1 & H1 & H).
  apply bind_Done in H1 as (objects & w2 & H2 & H1).
  unfold listObjects in H2.
  apply bind_Done in H2 as (contents & w3 & H3 & H2).
  apply ret_Done in H2 as [_ <-]. apply await_Done in H3 as [_ ->].
  apply cleanup_loop_measures in H1. cbn in H1.
  apply await_Done in H as [_ ->]. cbn. exact H1.
Qed.

End SamplerFloor.

Lemma started_fresh (E : Env) (name : string) (w : World) :
  fresh_entry name w ->
  started E name w
  = record (DateNow (now E (history w)))
      {| measures := <[name := []]> (measures w); history := history w |}.
Proof.
  unfold started. intros [-> | [-> ->]]; reflexivity.
Qed.

(** The statement of C1 for one scenario. *)
Lemma sampler_three_samples (E : Env) (I : gmap string (list Z) -> Prop)
    (name : string) (run : Run) (maxTimeMs : Z) (fuel : nat) (w : World) :
  isTTY E = true ->
  monotone_clock E ->
  apart_from name I ->
  run_ends I name run ->
  fresh_entry name w ->
  (3 <= fuel)%nat ->
  maxTimeMs = 0 \/ run_slow E maxTimeMs run ->
  exists w' s1 s2 s3,
    measure_samples E fuel name run maxTimeMs w = Done tt w'
    /\ measures w' !! name = Some [s1; s2; s3]
    /\ forall w'', measure E fuel name run maxTimeMs w = Done tt w'' ->
         measures w'' !! name = Some [s1; s2; s3].
Proof.
  intros Htty Hclock HI Hrun Hempty Hfuel Hcase.
  set (w1 := started E name w).
  assert (Hw1 : w1 = record (DateNow (now E (history w)))
                  {| measures := <[name := []]> (measures w);
                     history := history w |}) by now apply started_fresh.
  assert (Hl1 : measures w1 !! name = Some [])
    by (rewrite Hw1; apply lookup_insert_eq).
  assert (Hh1 : history w1 = history w ++ [DateNow (now E (history w))])
    by (rewrite Hw1; reflexivity).
  assert (Hmain : forall {T R} (setup : M T) (fn : T -> M R),
    run_ends I name (WithSetup setup fn) ->
    (maxTimeMs = 0 \/ forall res, takes_longer E maxTimeMs (fn res)) ->
    exists w' ss,
      (let! res := setup in
       sampling E fuel name (fn res) (now E (history w)) maxTimeMs ;;
       summary E name) w1
      = Done tt w'
      /\ measures w' !! name = Some ([] ++ ss) /\ length ([] ++ ss) = 3%nat).
  { intros T R setup fn Hsetup Hslow.
    destruct (Hsetup w1 [] Hl1) as (res & w2 & seg & Hs & HI2 & Hm & Hseg & Hfn).
    rewrite (bind_step _ _ _ _ _ Hs).
    assert (Hlate : forall v v', (exists seg, history v = history w ++ seg) ->
              I (measures v) -> is_Some (measures v !! name) ->
              sample_once E name (fn res) v = Done tt v' ->
              now E (history w) + maxTimeMs <= now E (history v')).
    { apply deadline_passed; auto. destruct Hslow as [-> | Hslow]; auto. }
    destruct (sampling_three E name Htty I HI (fn res) (now E (history w))
                maxTimeMs (history w) Hfn Hlate fuel w2 [] HI2 Hm)
      as (w' & ss & Hdone & Hm' & Hlen).
    - cbn. lia.
    - cbn. lia.
    - exists ([DateNow (now E (history w))] ++ seg). rewrite Hseg, Hh1.
      rewrite <- app_assoc. reflexivity.
    - cbn. lia.
    - exists w', ss. rewrite (bind_step _ _ _ _ _ Hdone).
      rewrite (summary_Done E name Htty w' _ Hm'). auto. }
  assert (Hsamples : exists w' ss,
    measure_samples E fuel name run maxTimeMs w = Done tt w'
    /\ measures w' !! name = Some ([] ++ ss) /\ length ([] ++ ss) = 3%nat).
  { rewrite measure_samples_run. fold w1.
    destruct run as [T R setup fn | R fn]; cbn [run_ends run_slow] in Hrun, Hcase.
    - apply Hmain; auto.
    - destruct Hrun as [Hall Hfn].
      destruct (Hmain unit R (ret tt) (fun _ => fn)) as (w' & ss & H & Hm);
        auto.
      + intros w0 l Hl. exists tt, w0, []. rewrite app_nil_r.
        split_and!; eauto.
      + destruct Hcase; auto.
      + exists w', ss. split; [exact H | exact Hm]. }
  destruct Hsamples as (w' & ss & Hdone & Hm & Hlen).
  destruct ss as [|s1 [|s2 [|s3 [|s4 ss]]]]; try discriminate Hlen.
  exists w', s1, s2, s3. split_and!; auto.
  intros w'' Hmeasure. unfold measure in Hmeasure.
  rewrite (bind_step _ _ _ _ _ Hdone) in Hmeasure.
  apply flush_measures in Hmeasure. rewrite Hmeasure. exact Hm.
Qed.

Lemma env0_monotone : monotone_clock env0.
Proof.
  intros h seg. cbn. unfold tick. rewrite length_app. lia.
Qed.

Lemma initiate_only_ends (name : string) :
  run_ends (fun _ => True) name (initiate_only env0).
Proof.
  split; [auto|]. intros w l _ Hl. eexists _, _, _.
  split; [reflexivity|]. split; [exact Logic.I|]. split; [exact Hl|].
  cbn. rewrite <- !app_assoc. reflexivity.
Qed.

Lemma initiate_only_slow : run_slow env0 1 (initiate_only env0).
Proof.
  intros w out w' H.
  apply initiateMultipart_Done in H as (t0 & t1 & Hh & _).
  rewrite Hh. cbn. unfold tick. rewrite length_app. cbn. lia.
Qed.

(** ** The three buckets of a multipart scenario *)

Lemma bucket_names_distinct (size chunk : string) :
  total_name size chunk <> upload_name size chunk
  /\ total_name size chunk <> complete_name size chunk
  /\ upload_name size chunk <> complete_name size chunk.
Proof.
  unfold total_name, upload_name, complete_name.
  split_and!; intros H; cbv [String.append] in H; discriminate H.
Qed.

Section Buckets.

Variable E : Env.

Lemma keep_sampling_measures (name : string) (overallStart maxTimeMs : Z)
    (w w' : World) (continue : bool) :
  keep_sampling E name overallStart maxTimeMs w = Done continue w' ->
  measures w' = measures w.
Proof.
  unfold keep_sampling, bind, samples_length.
  destruct (measures w !! name) as [l|].
  - destruct (length l <? 3)%nat; intros H; injection H as _ <-; reflexivity.
  - destruct (inherited name) as [[n|]|]; try discriminate;
      [destruct (n <? 3)%nat|]; intros H; injection H as _ <-; reflexivity.
Qed.

(** A property of the store that every pass through the loop body keeps
    holds when the loop is left. *)
Lemma sampling_preserves {R} (P : gmap string (list Z) -> Prop)
    (name : string) (action : M R) (overallStart maxTimeMs : Z) :
  (forall w w' u, P (measures w) ->
     sample_once E name action w = Done u w' -> P (measures w')) ->
  forall (fuel : nat) (w w' : World) (u : unit),
    P (measures w) ->
    sampling E fuel name action overallStart maxTimeMs w = Done u w' ->
    P (measures w').
Proof.
  intros Hstep. induction fuel as [|fuel IH]; intros w w' u HP H;
    rewrite sampling_unfold in H;
    apply bind_Done in H as (continue & w1 & Hk & H);
    apply keep_sampling_measures in Hk;
    destruct continue; try discriminate H;
    try (apply ret_Done in H as [_ <-]; rewrite Hk; exact HP).
  apply bind_Done in H as (u1 & w2 & Hs & H).
  apply (IH w2 w' u); [|exact H].
  apply (Hstep w1 w2 u1); [rewrite Hk; exact HP | exact Hs].
Qed.

(** One successful iteration of a multipart scenario: a sample to each of
    the three buckets, the initiation, the part uploads and the finalize
    call lying between the two clock readings of the total sample. *)
Lemma multipart_iteration (fuel : nat) (size chunk : string) (fx : Fixture)
    (w w' : World) (u : unit) :
  uploadMeasure fx = upload_name size chunk ->
  completeMeasure fx = complete_name size chunk ->
  sample_once E (total_name size chunk) (multipart_fn E fuel size chunk fx) w
    = Done u w' ->
  exists (lt lu lc : list Z) (t t' t0 t1 t2 t3 : Z) (h0 h1 : N * N)
         (out : InitiateOutput) (key uploadId : string) (ps : list PartUpload),
    measures w !! total_name size chunk = Some lt
    /\ measures w !! upload_name size chunk = Some lu
    /\ measures w !! complete_name size chunk = Some lc
    /\ measures w' !! total_name size chunk = Some (lt ++ [t' - t])
    /\ measures w' !! upload_name size chunk = Some (lu ++ [t1 - t0])
    /\ measures w' !! complete_name size chunk = Some (lc ++ [t3 - t2])
    /\ history w' = history w ++ [DateNow t]
         ++ iteration_events ("multipart-upload-" +:+ size +:+ "-" +:+ chunk)
              h0 h1 out key uploadId ps t0 t1 t2 t3
         ++ [DateNow t'].
Proof.
  intros Hu Hc H.
  destruct (bucket_names_distinct size chunk) as (Htu & Htc & Huc).
  unfold sample_once in H.
  apply bind_Done in H as (t & w1 & H1 & H).
  apply bind_Done in H as (u2 & w2 & H2 & H).
  apply bind_Done in H as (t' & w3 & H3 & H).
  apply Date_now_Done in H1 as [_ ->].
  apply multipart_fn_Done in H2
    as (h0 & h1 & out & key & uploadId & ps & t0 & t1 & t2 & t3 & lu & lc
        & _ & _ & Hh & _ & Hlu & Hlc & Hm).
  apply Date_now_Done in H3 as [_ ->].
  apply push_clear_Done in H as (lt & Hlt & ->).
  rewrite Hu, Hc in *. cbn [record measures history] in *.
  rewrite Hm in Hlt.
  rewrite lookup_insert_ne in Hlt by congruence.
  rewrite lookup_insert_ne in Hlt by congruence.
  rewrite lookup_insert_ne in Hlc by congruence.
  exists lt, lu, lc, t, t', t0, t1, t2, t3, h0, h1, out, key, uploadId, ps.
  split_and!; auto.
  - apply lookup_insert_eq.
  - rewrite lookup_insert_ne by congruence. rewrite Hm.
    rewrite lookup_insert_ne by congruence. apply lookup_insert_eq.
  - rewrite lookup_insert_ne by congruence. rewrite Hm.
    apply lookup_insert_eq.
  - rewrite Hh. rewrite <- !app_assoc. reflexivity.
Qed.

Lemma multipart_iteration_balanced (fuel : nat) (size chunk : string)
    (fx : Fixture) (w w' : World) (u : unit) :
  uploadMeasure fx = upload_name size chunk ->
  completeMeasure fx = complete_name size chunk ->
  balanced size chunk (measures w) ->
  sample_once E (total_name size chunk) (multipart_fn E fuel size chunk fx) w
    = Done u w' ->
  balanced size chunk (measures w').
Proof.
  intros Hu Hc (lt & lu & lc & Hlt & Hlu & Hlc & Hnu & Hnc) H.
  apply (multipart_iteration fuel size chunk fx w w' u Hu Hc) in H
    as (lt' & lu' & lc' & t & t' & t0 & t1 & t2 & t3 & h0 & h1 & out & key
        & uploadId & ps & Hlt' & Hlu' & Hlc' & Hmt & Hmu & Hmc & _).
  assert (lt' = lt) as -> by congruence.
  assert (lu' = lu) as -> by congruence.
  assert (lc' = lc) as -> by congruence.
  eexists _, _, _. split_and!; eauto; rewrite !length_app; cbn; lia.
Qed.

(** A scenario that starts with an empty or missing total bucket leaves
    the sampling loop with its three buckets in step. *)
Lemma measure_samples_balanced (fuel : nat) (size chunk : string)
    (maxTimeMs : Z) (w w' : World) (u : unit) :
  measures w !! total_name size chunk = None
  \/ measures w !! total_name size chunk = Some [] ->
  measure_samples E fuel (total_name size chunk)
    (multipart_run E fuel size chunk) maxTimeMs w = Done u w' ->
  balanced size chunk (measures w').
Proof.
  intros Hempty H.
  destruct (bucket_names_distinct size chunk) as (Htu & Htc & Huc).
  apply measure_samples_start in H as (_ & _ & fx & w2 & Hs & H).
  rewrite started_own in Hs by reflexivity.
  assert (Hwi : <[total_name size chunk :=
                    default [] (measures w !! total_name size chunk)]>
                  (measures w) !! total_name size chunk = Some []).
  { rewrite lookup_insert_eq. destruct Hempty as [-> | ->]; reflexivity. }
  apply multipart_setup_Done in Hs
    as (sizeBytes & chunkBytes & _ & _ & _ & _ & Hu & Hc & _ & Hm).
  cbn [record measures] in Hm.
  apply (sampling_preserves (balanced size chunk)) in H; [exact H| |].
  - intros wa wb ub Hbal Hstep.
    exact (multipart_iteration_balanced fuel size chunk fx wa wb ub
             Hu Hc Hbal Hstep).
  - exists [], [], []. rewrite Hm. split_and!; auto.
    + rewrite !lookup_insert_ne by congruence. exact Hwi.
    + rewrite lookup_insert_ne by congruence. apply lookup_insert_eq.
    + apply lookup_insert_eq.
Qed.

End Buckets.

(** C10: in a multipart scenario that starts with an empty or missing
    total bucket, the three buckets (total, part-upload phase, finalize
    phase) hold equally many samples when the sampling loop is left, and
    every successful iteration appends exactly one sample to each of
    them, the total sample being the difference of two clock readings
    between which the initiation, all part uploads and the finalize call
    of the iteration lie. *)
Theorem multipart_buckets_in_step (E : Env) (fuel : nat) (size chunk : string)
    (maxTimeMs : Z) (w w' : World) :
  measures w !! total_name size chunk = None
  \/ measures w !! total_name size chunk = Some [] ->
  measure_samples E fuel (total_name size chunk)
    (multipart_run E fuel size chunk) maxTimeMs w = Done tt w' ->
  balanced size chunk (measures w')
  /\ forall fx wa wb,
       uploadMeasure fx = upload_name size chunk ->
       completeMeasure fx = complete_name size chunk ->
       sample_once E (total_name size chunk)
         (multipart_fn E fuel size chunk fx) wa = Done tt wb ->
       (balanced size chunk (measures wa) -> balanced size chunk (measures wb))
       /\ exists (lt lu lc : list Z) (t t' t0 t1 t2 t3 : Z) (h0 h1 : N * N)
                 (out : InitiateOutput) (key uploadId : string)
                 (ps : list PartUpload),
            measures wa !! total_name size chunk = Some lt
            /\ measures wa !! upload_name size chunk = Some lu
            /\ measures wa !! complete_name size chunk = Some lc
            /\ measures wb !! total_name size chunk = Some (lt ++ [t' - t])
            /\ measures wb !! upload_name size chunk = Some (lu ++ [t1 - t0])
            /\ measures wb !! complete_name size chunk = Some (lc ++ [t3 - t2])
            /\ history wb = history wa ++ [DateNow t]
                 ++ iteration_events
                      ("multipart-upload-" +:+ size +:+ "-" +:+ chunk)
                      h0 h1 out key uploadId ps t0 t1 t2 t3
                 ++ [DateNow t'].
Proof.
  intros Hempty H. split.
  - exact (measure_samples_balanced E fuel size chunk maxTimeMs w w' tt
             Hempty H).
  - intros fx wa wb Hu Hc Hstep. split.
    + intros Hbal.
      exact (multipart_iteration_balanced E fuel size chunk fx wa wb tt
               Hu Hc Hbal Hstep).
    + exact (multipart_iteration E fuel size chunk fx wa wb tt Hu Hc Hstep).
Qed.

Lemma multipart_buckets_in_step_witness :
  exists w',
    measure_samples env0 3 (total_name "10m" "5m")
      (multipart_run env0 3 "10m" "5m") 0 world0 = Done tt w'
    /\ balanced "10m" "5m" (measures w').
Proof.
  eexists. split; [vm_compute; reflexivity|].
  apply (multipart_buckets_in_step env0 3 "10m" "5m" 0 world0).
  - left. reflexivity.
  - vm_compute. reflexivity.
Defined.

(** ** The reporter *)

Section Reporter.

Import Chart.

Lemma prefixes_exclusive (key : string) :
  Js.startsWith key "traditional-upload" = true ->
  Js.startsWith key "upload-multipart-total" = false.
Proof.
  unfold Js.startsWith. destruct key as [|c r]; [discriminate|].
  change (String.prefix "traditional-upload" (String c r))
    with (if ascii_dec "t" c then String.prefix "raditional-upload" r else false).
  change (String.prefix "upload-multipart-total" (String c r))
    with (if ascii_dec "u" c then String.prefix "pload-multipart-total" r else false).
  destruct (ascii_dec "t" c) as [<-|]; [|discriminate].
  intros _. destruct (ascii_dec "u" "t") as [H|]; [discriminate H | reflexivity].
Qed.

(** The body of the loop assigns the mean of the key's samples to the
    key's cell, if it has one. *)
Lemma visit_cell (results : Results) (key : string)
    (byType : gmap string (gmap string number)) :
  FullUploadStats.visit results key byType
  = match cell_of key with
    | Some (row, size) =>
        FullUploadStats.set_cell row size (amean (get results key)) byType
    | None => inr byType
    end.
Proof.
  unfold FullUploadStats.visit, cell_of.
  destruct (Js.startsWith key "traditional-upload") eqn:Ht.
  - rewrite (prefixes_exclusive key Ht).
    destruct (FullUploadStats.set_cell _ _ _ byType); reflexivity.
  - destruct (Js.startsWith key "upload-multipart-total"); reflexivity.
Qed.

Lemma set_cell_inr (row size : string) (v : number)
    (byType byType' : gmap string (gmap string number)) :
  FullUploadStats.set_cell row size v byType = inr byType' ->
  cell_value byType' row size = Some v
  /\ (forall row' size', (row', size') <> (row, size) ->
        cell_value byType' row' size' = cell_value byType row' size')
  /\ (forall row', is_Some (byType !! row') -> is_Some (byType' !! row')).
Proof.
  unfold FullUploadStats.set_cell, cell_value.
  destruct (byType !! row) as [cells|] eqn:Hrow; intros H; [|discriminate H].
  injection H as <-. split_and!.
  - rewrite lookup_insert_eq. apply lookup_insert_eq.
  - intros row' size' Hne. destruct (decide (row' = row)) as [->|Hr].
    + rewrite lookup_insert_eq, Hrow. apply lookup_insert_ne. congruence.
    + rewrite lookup_insert_ne by congruence. reflexivity.
  - intros row' Hsome. destruct (decide (row' = row)) as [->|Hr].
    + rewrite lookup_insert_eq. eauto.
    + rewrite lookup_insert_ne by congruence. exact Hsome.
Qed.

Lemma set_cell_total (row size : string) (v : number)
    (byType : gmap string (gmap string number)) :
  is_Some (byType !! row) ->
  exists byType', FullUploadStats.set_cell row size v byType = inr byType'.
Proof.
  intros [cells Hrow]. unfold FullUploadStats.set_cell. rewrite Hrow. eauto.
Qed.

Lemma byType0_rows : rows_present FullUploadStats.byType0.
Proof.
  intros row Hrow. unfold upload_rows in Hrow. cbn in Hrow.
  repeat (apply elem_of_cons in Hrow as [-> | Hrow]; [vm_compute; eauto|]).
  apply elem_of_nil in Hrow. contradiction.
Qed.

Lemma cells_checked_true : cells_checked = true.
Proof. vm_compute. reflexivity. Qed.

(** A name of [Key] with a cell has it in a row of [byType], and shares
    it with no other name of [Key]. *)
Lemma key_cell (k0 : string) (row size : string) :
  k0 ∈ chart_keys -> cell_of k0 = Some (row, size) ->
  row ∈ upload_rows
  /\ forall k, k ∈ chart_keys -> cell_of k = Some (row, size) -> k = k0.
Proof.
  intros Hk0 Hcell. pose proof cells_checked_true as H.
  unfold cells_checked in H. rewrite forallb_forall in H.
  specialize (H k0 (proj1 (list_elem_of_In _ _) Hk0)). rewrite Hcell in H.
  apply andb_true_iff in H as [Hrow Hinj]. split.
  - apply existsb_exists in Hrow as (r & Hr & Heq).
    apply String.eqb_eq in Heq as ->. now apply list_elem_of_In.
  - intros k Hk Hcellk. rewrite forallb_forall in Hinj.
    specialize (Hinj k (proj1 (list_elem_of_In _ _) Hk)).
    rewrite Hcellk in Hinj. cbn in Hinj. rewrite !String.eqb_refl in Hinj.
    cbn in Hinj. now apply String.eqb_eq.
Qed.

Lemma get_Some_key (results : Results) (name : string) (v : list Z) :
  get results name = Some v -> name ∈ map fst results.
Proof.
  induction results as [|[k x] rest IH]; cbn; [discriminate|].
  destruct (String.eqb k name) eqn:Hk.
  - apply String.eqb_eq in Hk as ->. intros _. apply elem_of_cons. now left.
  - intros H. apply elem_of_cons. right. now apply IH.
Qed.

Section Visits.

Variable results : Results.

Lemma visit_all_rows (keys : list string) :
  forall byType,
    rows_present byType ->
    Forall (fun k => k ∈ chart_keys) keys ->
    exists byType',
      FullUploadStats.visit_all results keys byType = inr byType'
      /\ rows_present byType'.
Proof.
  induction keys as [|k keys IH]; intros byType Hrows Hkeys; cbn.
  - eauto.
  - apply Forall_cons in Hkeys as [Hk Hkeys]. rewrite visit_cell.
    destruct (cell_of k) as [[row size]|] eqn:Hcell; [|now apply IH].
    destruct (key_cell k row size Hk Hcell) as [Hrow _].
    destruct (set_cell_total row size (amean (get results k)) byType
                (Hrows row Hrow)) as [byType1 H1].
    rewrite H1. apply IH; [|exact Hkeys].
    intros row' Hrow'.
    apply (set_cell_inr _ _ _ _ _ H1). now apply Hrows.
Qed.

Lemma visit_all_frame (row size : string) (keys : list string) :
  forall byType byType',
    FullUploadStats.visit_all results keys byType = inr byType' ->
    (forall k, k ∈ keys -> cell_of k <> Some (row, size)) ->
    cell_value byType' row size = cell_value byType row size.
Proof.
  induction keys as [|k keys IH]; intros byType byType' H Hother; cbn in H.
  - now injection H as <-.
  - rewrite visit_cell in H.
    assert (Hk : cell_of k <> Some (row, size))
      by (apply Hother, elem_of_cons; now left).
    assert (Hrest : forall k', k' ∈ keys -> cell_of k' <> Some (row, size))
      by (intros k' Hk'; apply Hother, elem_of_cons; now right).
    destruct (cell_of k) as [[row' size']|].
    + destruct (FullUploadStats.set_cell row' size' _ byType)
        as [e|byType1] eqn:H1; [discriminate H|].
      rewrite (IH _ _ H Hrest).
      apply (set_cell_inr _ _ _ _ _ H1). congruence.
    + now apply IH.
Qed.

(** The cell of a key that shares it with no other key of the store holds
    the mean of that key's samples when the loop is over. *)
Lemma visit_all_value (k0 row size : string) (keys : list string) :
  cell_of k0 = Some (row, size) ->
  forall byType byType',
    FullUploadStats.visit_all results keys byType = inr byType' ->
    k0 ∈ keys ->
    (forall k, k ∈ keys -> cell_of k = Some (row, size) -> k = k0) ->
    cell_value byType' row size = Some (amean (get results k0)).
Proof.
  intros Hcell. induction keys as [|k keys IH];
    intros byType byType' H Hin Hinj; cbn in H.
  - apply elem_of_nil in Hin. contradiction.
  - rewrite visit_cell in H.
    assert (Hrest : forall k', k' ∈ keys -> cell_of k' = Some (row, size) -> k' = k0)
      by (intros k' Hk'; apply Hinj, elem_of_cons; now right).
    destruct (decide (k0 ∈ keys)) as [Hlater|Hlast].
    + destruct (cell_of k) as [[row' size']|].
      * destruct (FullUploadStats.set_cell row' size' _ byType)
          as [e|byType1]; [discriminate H|]. now apply (IH byType1).
      * now apply (IH byType).
    + apply elem_of_cons in Hin as [<-|Hin]; [|contradiction].
      rewrite Hcell in H.
      destruct (FullUploadStats.set_cell row size _ byType)
        as [e|byType1] eqn:H1; [discriminate H|].
      rewrite (visit_all_frame row size keys byType1 byType' H).
      * apply (set_cell_inr _ _ _ _ _ H1).
      * intros k' Hk' Hc. apply Hlast. now rewrite <- (Hrest k' Hk' Hc).
Qed.

End Visits.

(** Where the rows and cells sit in the reports. *)
Lemma upload_series (byType : gmap string (gmap string number)) (i j : nat)
    (row : string) :
  upload_rows !! i = Some row ->
  series_entry (FullUploadStats.upload_stats (FullUploadStats.report byType)) i j
  = FullUploadStats.dataFromRow (FullUploadStats.row_of byType row) !! j.
Proof.
  intros H.
  do 7 (destruct i as [|i]; [injection H as <-; reflexivity|]).
  discriminate H.
Qed.

Lemma upload_data_entry (byType : gmap string (gmap string number))
    (row size : string) (j : nat) (v : number) :
  FullUploadStats.labels !! j = Some size ->
  cell_value byType row size = Some v ->
  FullUploadStats.dataFromRow (FullUploadStats.row_of byType row) !! j
  = Some (Some v).
Proof.
  intros Hj Hv. unfold FullUploadStats.dataFromRow.
  change (map ?f ?l) with (f <$> l). rewrite list_lookup_fmap, Hj. cbn.
  unfold cell_value in Hv. unfold FullUploadStats.row_of.
  destruct (byType !! row); [cbn; now rewrite Hv | discriminate Hv].
Qed.

Lemma lookup_pairs {A B} (f g : A -> B) (l : list A) (i : nat) :
  concat (map (fun x => [f x; g x]) l) !! (2 * i)%nat = f <$> l !! i
  /\ concat (map (fun x => [f x; g x]) l) !! (2 * i + 1)%nat = g <$> l !! i.
Proof.
  revert i. induction l as [|x l IH]; intros i.
  - cbn. rewrite !lookup_nil. auto.
  - destruct i as [|i]; [cbn; auto|].
    replace (2 * S i)%nat with (S (S (2 * i))) by lia.
    replace (S (S (2 * i)) + 1)%nat with (S (S (2 * i + 1))) by lia.
    cbn [map concat app lookup list_lookup]. apply IH.
Qed.

End Reporter.

Section ReporterProperties.

Import Chart.

Lemma upload_series_detailed (byType : gmap string (gmap string number))
    (i j : nat) (row : string) :
  upload_rows !! i = Some row -> (i < 5)%nat ->
  series_entry
    (FullUploadStats.upload_stats_detailed (FullUploadStats.report byType)) i j
  = take 6 (FullUploadStats.dataFromRow (FullUploadStats.row_of byType row))
      !! j.
Proof.
  intros H Hi.
  do 5 (destruct i as [|i]; [injection H as <-; reflexivity|]).
  lia.
Qed.

Lemma detailed_places (results : Results) (i j : nat) (chunk : string) :
  chunk_sizes !! i = Some chunk ->
  let report := DetailedMultipartStats.processDetailedMultipartStats results in
  series_entry (DetailedMultipartStats.datasets report) (2 * i) j
  = DetailedMultipartStats.dataFromRow results chunk "upload" !! j
  /\ series_entry (DetailedMultipartStats.datasets report) (2 * i + 1) j
     = DetailedMultipartStats.dataFromRow results chunk "complete" !! j
  /\ table_cell (DetailedMultipartStats.tableData report) 2 (2 * i) j
     = map DetailedMultipartStats.cell
         (DetailedMultipartStats.dataFromRow results chunk "upload") !! j
  /\ table_cell (DetailedMultipartStats.tableData report) 2 (2 * i + 1) j
     = map DetailedMultipartStats.cell
         (DetailedMultipartStats.dataFromRow results chunk "complete") !! j.
Proof.
  intros H.
  do 6 (destruct i as [|i]; [injection H as <-; repeat split; reflexivity|]).
  discriminate H.
Qed.

(** C9, as amended: for a store whose keys are scenario names of the
    sweep and in which a scenario has no samples, the mean of the
    scenario is [NaN]; [fullUploadStats] does not crash and both of its
    line charts carry that [NaN] (not [null]) at the scenario's place;
    the stacked bar chart of [processDetailedMultipartStats] carries
    [NaN] at the scenario's place, and its table has an empty cell
    there. *)
Theorem empty_samples_reported (results : Results) (name : string) :
  Forall (fun k => k ∈ chart_keys) (map fst results) ->
  get results name = Some [] ->
  amean (get results name) = NaN
  /\ (exists report,
        FullUploadStats.fullUploadStats results = inr report
        /\ forall i j row size,
             upload_rows !! i = Some row ->
             FullUploadStats.labels !! j = Some size ->
             cell_of name = Some (row, size) ->
             series_entry (FullUploadStats.upload_stats report) i j
             = Some (Some NaN)
             /\ ((i < 5)%nat -> (j < 6)%nat ->
                 series_entry (FullUploadStats.upload_stats_detailed report) i j
                 = Some (Some NaN)))
  /\ (forall i j chunk size,
        chunk_sizes !! i = Some chunk ->
        DetailedMultipartStats.labels !! j = Some size ->
        let report :=
          DetailedMultipartStats.processDetailedMultipartStats results in
        (name = DetailedMultipartStats.phase_key "upload" size chunk ->
           series_entry (DetailedMultipartStats.datasets report) (2 * i) j
           = Some NaN
           /\ table_cell (DetailedMultipartStats.tableData report) 2 (2 * i) j
              = Some EmptyString)
        /\ (name = DetailedMultipartStats.phase_key "complete" size chunk ->
           series_entry (DetailedMultipartStats.datasets report) (2 * i + 1) j
           = Some NaN
           /\ table_cell (DetailedMultipartStats.tableData report) 2
                (2 * i + 1) j = Some EmptyString)).
Proof.
  intros Hkeys Hget. split_and!.
  - rewrite Hget. reflexivity.
  - destruct (visit_all_rows results (map fst results)
                FullUploadStats.byType0 byType0_rows Hkeys)
      as (byType & Hvisit & _).
    exists (FullUploadStats.report byType). split.
    { unfold FullUploadStats.fullUploadStats. now rewrite Hvisit. }
    intros i j row size Hi Hj Hcell.
    assert (Hname : name ∈ map fst results) by exact (get_Some_key _ _ _ Hget).
    assert (Hvalue : cell_value byType row size = Some NaN).
    { rewrite (visit_all_value results name row size (map fst results) Hcell
                 _ _ Hvisit Hname).
      - now rewrite Hget.
      - intros k Hk Hck.
        assert (Hk' : k ∈ chart_keys)
          by (rewrite Forall_forall in Hkeys; now apply Hkeys).
        assert (Hname' : name ∈ chart_keys)
          by (rewrite Forall_forall in Hkeys; now apply Hkeys).
        exact (proj2 (key_cell name row size Hname' Hcell) k Hk' Hck). }
    pose proof (upload_data_entry byType row size j NaN Hj Hvalue) as Hentry.
    split.
    + rewrite (upload_series byType i j row Hi). exact Hentry.
    + intros Hi5 Hj6.
      rewrite (upload_series_detailed byType i j row Hi Hi5).
      rewrite lookup_take_lt by exact Hj6. exact Hentry.
  - intros i j chunk size Hi Hj report.
    assert (Hdata : forall type,
      name = DetailedMultipartStats.phase_key type size chunk ->
      DetailedMultipartStats.dataFromRow results chunk type !! j = Some NaN).
    { intros type ->. unfold DetailedMultipartStats.dataFromRow.
      change (map ?f ?l) with (f <$> l).
      rewrite list_lookup_fmap, Hj. cbn. now rewrite Hget. }
    assert (Hcell : forall type,
      name = DetailedMultipartStats.phase_key type size chunk ->
      map DetailedMultipartStats.cell
        (DetailedMultipartStats.dataFromRow results chunk type) !! j
      = Some EmptyString).
    { intros type Hname. change (map ?f ?l) with (f <$> l).
      rewrite list_lookup_fmap, (Hdata type Hname). reflexivity. }
    destruct (detailed_places results i j chunk Hi) as (H1 & H2 & H3 & H4).
    unfold report. rewrite H1, H2, H3, H4.
    split; intros Hname; split; auto.
Qed.

End ReporterProperties.

Lemma results_with_gaps_keys :
  Forall (fun k => k ∈ chart_keys) (map fst results_with_gaps).
Proof.
  apply Forall_forall. intros k Hk. apply list_elem_of_In.
  cbn in Hk.
  repeat (apply elem_of_cons in Hk as [-> | Hk]; [vm_compute; tauto|]).
  apply elem_of_nil in Hk. contradiction.
Qed.

Lemma empty_samples_reported_witness :
  exists report,
    Chart.FullUploadStats.fullUploadStats results_with_gaps = inr report
    /\ forall i j row size,
         upload_rows !! i = Some row ->
         Chart.FullUploadStats.labels !! j = Some size ->
         cell_of "traditional-upload-5m" = Some (row, size) ->
         series_entry (Chart.FullUploadStats.upload_stats report) i j
         = Some (Some NaN)
         /\ ((i < 5)%nat -> (j < 6)%nat ->
             series_entry (Chart.FullUploadStats.upload_stats_detailed report)
               i j = Some (Some NaN)).
Proof.
  apply (empty_samples_reported results_with_gaps "traditional-upload-5m").
  - exact results_with_gaps_keys.
  - reflexivity.
Defined.

(** C9, as stated, fails: in the upload-type table the cell of a scenario
    without samples reads "NaN", and the chart series hold [NaN], not
    [null], at its place. *)
Lemma empty_samples_render_NaN :
  Chart.get results_with_gaps "traditional-upload-5m" = Some []
  /\ Chart.get results_with_gaps "upload-multipart-total-5m-25m" = Some []
  /\ Chart.get results_with_gaps "upload-multipart-upload-5m-25m" = Some []
  /\ match Chart.FullUploadStats.fullUploadStats results_with_gaps with
     | inr report =>
         table_cell (Chart.FullUploadStats.tableValues report) 1 0 1
         = Some "NaN"
         /\ table_cell (Chart.FullUploadStats.tableValues report) 1 2 1
            = Some "NaN"
         /\ series_entry (Chart.FullUploadStats.upload_stats report) 0 1
            = Some (Some NaN)
         /\ series_entry (Chart.FullUploadStats.upload_stats report) 2 1
            = Some (Some NaN)
     | inl _ => False
     end
  /\ series_entry
       (Chart.DetailedMultipartStats.datasets
          (Chart.DetailedMultipartStats.processDetailedMultipartStats
             results_with_gaps)) 2 1
     = Some NaN.
Proof. vm_compute. repeat split; reflexivity. Qed.

(** ** The store through the sweep *)

Section Frames.

Variable E : Env.

Lemma touches_only_refl (names : list string) (m : gmap string (list Z)) :
  touches_only names m m.
Proof. intros k _. reflexivity. Qed.

Lemma touches_only_trans (names : list string)
    (m1 m2 m3 : gmap string (list Z)) :
  touches_only names m1 m2 -> touches_only names m2 m3 ->
  touches_only names m1 m3.
Proof. intros H12 H23 k Hk. rewrite (H23 k Hk). exact (H12 k Hk). Qed.

Lemma touches_only_mono (names names' : list string)
    (m m' : gmap string (list Z)) :
  (forall k, k ∈ names -> k ∈ names') ->
  touches_only names m m' -> touches_only names' m m'.
Proof. intros Hsub H k Hk. apply H. intros Hin. apply Hk, Hsub, Hin. Qed.

Lemma touches_only_insert (names : list string) (name : string) (l : list Z)
    (m : gmap string (list Z)) :
  name ∈ names -> touches_only names m (<[name := l]> m).
Proof.
  intros Hin k Hk. apply lookup_insert_ne. intros ->. contradiction.
Qed.

Lemma frame_same {A} (names : list string) (m : M A) :
  (forall w a w', m w = Done a w' -> measures w' = measures w) ->
  frame names m.
Proof. intros H w a w' Hm k _. now rewrite (H w a w' Hm). Qed.

Lemma frame_mono {A} (names names' : list string) (m : M A) :
  (forall k, k ∈ names -> k ∈ names') -> frame names m -> frame names' m.
Proof.
  intros Hsub H w a w' Hm. apply (touches_only_mono names); auto.
  exact (H w a w' Hm).
Qed.

Lemma frame_bind_result {A B} (names : list string) (m : M A) (k : A -> M B) :
  frame names m ->
  (forall w a w', m w = Done a w' -> frame names (k a)) ->
  frame names (bind m k).
Proof.
  intros Hm Hk w b w' H. apply bind_Done in H as (a & w1 & H1 & H2).
  apply (touches_only_trans names _ (measures w1)).
  - exact (Hm w a w1 H1).
  - exact (Hk w a w1 H1 w1 b w' H2).
Qed.

Lemma frame_bind {A B} (names : list string) (m : M A) (k : A -> M B) :
  frame names m -> (forall a, frame names (k a)) -> frame names (bind m k).
Proof. intros Hm Hk. apply frame_bind_result; auto. Qed.

Lemma frame_ret {A} (names : list string) (a : A) : frame names (ret a).
Proof. apply frame_same. intros w b w' H. now apply ret_Done in H as [_ <-]. Qed.

Lemma frame_lift {A} (names : list string) (r : exn + A) :
  frame names (lift r).
Proof. apply frame_same. intros w b w' H. now apply lift_Done in H as [_ ->]. Qed.

Lemma frame_ask {R} (names : list string) (f : list Event -> R)
    (ev : R -> Event) :
  frame names (ask f ev).
Proof. apply frame_same. intros w b w' H. now apply ask_Done in H as [_ ->]. Qed.

Lemma frame_await {R} (names : list string) (f : list Event -> exn + R)
    (ev : exn + R -> Event) :
  frame names (await f ev).
Proof.
  apply frame_same. intros w b w' H. now apply await_Done in H as [_ ->].
Qed.

Lemma frame_push (names : list string) (name : string) (x : Z) :
  name ∈ names -> frame names (push name x).
Proof.
  intros Hin w u w' H. apply push_Done in H as (l & _ & ->). cbn.
  now apply touches_only_insert.
Qed.

Lemma frame_assign (names : list string) (name : string) (l : list Z) :
  name ∈ names -> frame names (assign name l).
Proof.
  intros Hin w u w' H. unfold assign in H. injection H as _ <-. cbn.
  now apply touches_only_insert.
Qed.

Lemma frame_stdout_clear (names : list string) : frame names (stdout_clear E).
Proof.
  apply frame_same. intros w u w' H. now apply stdout_clear_inv in H as [_ ->].
Qed.

Lemma frame_summary (names : list string) (name : string) :
  frame names (summary E name).
Proof.
  apply frame_same. intros w u w' H. now apply summary_inv in H as (_ & -> & _).
Qed.

Lemma frame_init_samples (names : list string) (name : string) :
  name ∈ names -> frame names (init_samples name).
Proof.
  intros Hin w u w' H. unfold init_samples in H.
  destruct (measures w !! name) as [l|] eqn:Hl.
  - exact (frame_assign names name _ Hin w u w' H).
  - destruct (inherited name).
    + injection H as _ <-. apply touches_only_refl.
    + exact (frame_assign names name _ Hin w u w' H).
Qed.

Lemma frame_initiateMultipart (names : list string) (prefix : string) :
  frame names (initiateMultipart E prefix).
Proof.
  apply frame_same. intros w out w' H.
  now apply initiateMultipart_Done in H as (t0 & t1 & _ & Hm).
Qed.

Lemma frame_getTraditionalPresignedUrl (names : list string) (prefix : string) :
  frame names (getTraditionalPresignedUrl E prefix).
Proof.
  unfold getTraditionalPresignedUrl, getKey, process_hrtime.
  apply frame_bind; [|intros key; apply frame_await].
  apply frame_bind; [apply frame_ask|]. intros t0.
  apply frame_bind; [apply frame_ask|]. intros t1. apply frame_ret.
Qed.

Lemma frame_traditionalUpload (names : list string) (prefix : string)
    (file : Buffer) :
  frame names (traditionalUpload E prefix file).
Proof.
  unfold traditionalUpload, ky_put.
  apply frame_bind; [apply frame_getTraditionalPresignedUrl|]. intros url.
  apply frame_bind; [apply frame_await|]. intros _. apply frame_ret.
Qed.

Lemma frame_multipart_fn (fuel : nat) (size chunk : string) (fx : Fixture) :
  uploadMeasure fx = upload_name size chunk ->
  completeMeasure fx = complete_name size chunk ->
  frame (bucket_names (size, chunk)) (multipart_fn E fuel size chunk fx).
Proof.
  intros Hu Hc w u w' H.
  apply multipart_fn_Done in H
    as (h0 & h1 & out & key & uploadId & ps & t0 & t1 & t2 & t3 & l1 & l2
        & _ & _ & _ & _ & _ & _ & ->).
  rewrite Hu, Hc. unfold bucket_names. cbn [fst snd].
  apply (touches_only_trans _ _ (<[upload_name size chunk := l1 ++ [t1 - t0]]>
                                  (measures w)));
    apply touches_only_insert; set_solver.
Qed.

Lemma frame_multipart_setup (size chunk : string) :
  frame (bucket_names (size, chunk)) (multipart_setup E size chunk).
Proof.
  intros w fx w' H.
  apply multipart_setup_Done in H as (s & c & _ & _ & _ & _ & _ & _ & _ & ->).
  unfold bucket_names. cbn [fst snd].
  apply (touches_only_trans _ _ (<[upload_name size chunk := []]> (measures w)));
    apply touches_only_insert; set_solver.
Qed.

(** The sampling loop and the whole of [measure] change the store only
    under the scenario's name and where setup and action do. *)
Lemma frame_sample_once {R} (names : list string) (name : string)
    (action : M R) :
  name ∈ names -> frame names action -> frame names (sample_once E name action).
Proof.
  intros Hin Haction. unfold sample_once.
  apply frame_bind; [apply frame_ask|]. intros start.
  apply frame_bind; [exact Haction|]. intros _.
  apply frame_bind; [apply frame_ask|]. intros stop.
  apply frame_bind; [now apply frame_push|]. intros _.
  apply frame_stdout_clear.
Qed.

Lemma frame_sampling {R} (names : list string) (name : string) (action : M R)
    (fuel : nat) (overallStart maxTimeMs : Z) :
  name ∈ names -> frame names action ->
  frame names (sampling E fuel name action overallStart maxTimeMs).
Proof.
  intros Hin Haction w u w' H.
  apply (sampling_preserves E (touches_only names (measures w)) name action
           overallStart maxTimeMs) with (fuel := fuel) (w := w) (u := u);
    [|apply touches_only_refl | exact H].
  intros wa wb ub Hwa Hs.
  apply (touches_only_trans names _ (measures wa)); [exact Hwa|].
  exact (frame_sample_once names name action Hin Haction wa ub wb Hs).
Qed.

Lemma frame_measure (names : list string) (fuel : nat) (name : string)
    (run : Run) (maxTimeMs : Z) :
  name ∈ names -> run_frame names run ->
  frame names (measure E fuel name run maxTimeMs).
Proof.
  intros Hin Hrun. unfold measure.
  apply frame_bind;
    [|intros _; apply frame_same; intros w u w'; apply flush_measures].
  unfold measure_samples.
  apply frame_bind; [now apply frame_init_samples|].
  intros _. apply frame_bind; [apply frame_ask|]. intros overallStart.
  destruct run as [T R setup fn | R fn]; cbn [run_frame] in Hrun.
  - destruct Hrun as [Hsetup Hfn].
    apply frame_bind_result; [exact Hsetup|]. intros w res w' Hres.
    apply frame_bind; [|intros _; apply frame_summary].
    apply frame_sampling; eauto.
  - apply frame_bind; [|intros _; apply frame_summary].
    apply frame_sampling; auto.
Qed.

End Frames.

Section Loops.

Lemma distinct_NoDup (l : list string) : distinct l = true -> NoDup l.
Proof.
  induction l as [|x rest IH]; cbn; intros H; [constructor|].
  apply andb_true_iff in H as [Hx Hrest]. constructor; [|now apply IH].
  intros Hin. apply negb_true_iff in Hx.
  assert (existsb (String.eqb x) rest = true); [|congruence].
  apply existsb_exists. exists x. split; [|apply String.eqb_refl].
  now apply list_elem_of_In.
Qed.

Lemma for_each_app {A} (l1 l2 : list A) (body : A -> M unit) (w : World) :
  for_each (l1 ++ l2) body w = (for_each l1 body ;; for_each l2 body) w.
Proof.
  revert w. induction l1 as [|x l1 IH]; intros w; [reflexivity|].
  cbn [app for_each]. unfold bind.
  destruct (body x w) as [u w1|e w1|]; [|reflexivity|reflexivity].
  rewrite IH. reflexivity.
Qed.

Lemma for_each_map {A B} (g : A -> B) (l : list A) (body : B -> M unit)
    (w : World) :
  for_each (map g l) body w = for_each l (fun x => body (g x)) w.
Proof.
  revert w. induction l as [|x l IH]; intros w; [reflexivity|].
  cbn [map for_each]. unfold bind.
  destruct (body (g x) w) as [u w1|e w1|]; [apply IH|reflexivity|reflexivity].
Qed.

(** The two nested loops go through the pairs in order. *)
Lemma for_each_pairs (sizes chunks : list string)
    (body : string * string -> M unit) (w : World) :
  for_each sizes (fun size => for_each chunks (fun chunk => body (size, chunk))) w
  = for_each (pairs_of sizes chunks) body w.
Proof.
  revert w. induction sizes as [|size sizes IH]; intros w; [reflexivity|].
  unfold pairs_of. cbn [flat_map for_each]. rewrite for_each_app.
  unfold bind. rewrite for_each_map.
  destruct (for_each chunks (fun chunk => body (size, chunk)) w)
    as [u w1|e w1|]; [apply IH|reflexivity|reflexivity].
Qed.

Lemma frame_for_each {A} (names : list string) (l : list A)
    (body : A -> M unit) :
  (forall x, x ∈ l -> frame names (body x)) -> frame names (for_each l body).
Proof.
  induction l as [|x l IH]; intros Hbody; cbn [for_each].
  - intros w u w' H. apply ret_Done in H as [_ <-]. intros k _. reflexivity.
  - intros w u w' H. apply bind_Done in H as (u1 & w1 & H1 & H2).
    intros k Hk.
    rewrite (IH (fun y Hy => Hbody y (list_elem_of_further _ _ _ Hy)) w1 u w' H2 k Hk).
    exact (Hbody x (list_elem_of_here _ _) w u1 w1 H1 k Hk).
Qed.

(** A loop whose passes work on disjoint parts of the store: what each
    pass establishes about its part is still there at the end. *)
Lemma for_each_post {A} (names : A -> list string)
    (pre post : A -> gmap string (list Z) -> Prop) (body : A -> M unit) :
  (forall x, frame (names x) (body x)) ->
  (forall x w u w', body x w = Done u w' ->
     pre x (measures w) -> post x (measures w')) ->
  (forall x m m', (forall k, k ∈ names x -> m' !! k = m !! k) ->
     pre x m -> pre x m') ->
  (forall x m m', (forall k, k ∈ names x -> m' !! k = m !! k) ->
     post x m -> post x m') ->
  forall (l : list A) (w w' : World) (u : unit),
    NoDup (flat_map names l) ->
    for_each l body w = Done u w' ->
    (forall x, x ∈ l -> pre x (measures w)) ->
    forall x, x ∈ l -> post x (measures w').
Proof.
  intros Hframe Hbody Hpre Hpost.
  induction l as [|y l IH]; intros w w' u Hnodup H Hall x Hx.
  - apply elem_of_nil in Hx. contradiction.
  - cbn [flat_map] in Hnodup. apply NoDup_app in Hnodup as (_ & Hdisj & Hrest).
    cbn [for_each] in H. apply bind_Done in H as (u1 & w1 & H1 & H2).
    assert (Hrest_frame : touches_only (flat_map names l)
                            (measures w1) (measures w')).
    { apply (frame_for_each (flat_map names l) l body) with (w := w1) (a := u);
        [|exact H2].
      intros z Hz. apply (frame_mono (names z)); [|apply Hframe].
      intros k Hk. apply list_elem_of_In, in_flat_map. exists z.
      split; apply list_elem_of_In; assumption. }
    apply elem_of_cons in Hx as [-> | Hx].
    + apply (Hpost y (measures w1)).
      * intros k Hk. apply Hrest_frame. now apply Hdisj.
      * apply (Hbody y w u1 w1 H1). apply Hall. now left.
    + apply (IH w1 w' u Hrest H2); [|exact Hx].
      intros z Hz. apply (Hpre z (measures w)); [|apply Hall; now right].
      intros k Hk. apply (Hframe y w u1 w1 H1). intros Hky.
      apply (Hdisj k Hky). apply list_elem_of_In, in_flat_map. exists z.
      split; apply list_elem_of_In; assumption.
Qed.

End Loops.

Section Sweep.

Variable E : Env.

Lemma cleanup_measures (fuel : nat) (w w' : World) (u : unit) :
  cleanup E fuel w = Done u w' -> measures w' = measures w.
Proof.
  unfold cleanup, listObjects. intros H.
  apply bind_Done in H as (objects & w1 & H1 & H).
  apply bind_Done in H1 as (contents & w2 & H2 & H1).
  apply ret_Done in H1 as [_ <-]. apply await_Done in H2 as [_ ->].
  apply cleanup_loop_measures in H. exact H.
Qed.

Lemma frame_multipart_scenario (fuel : nat) (pair : string * string) :
  frame (bucket_names pair) (multipart_scenario E fuel pair).
Proof.
  unfold multipart_scenario.
  apply frame_bind; [apply frame_lift|]. intros budget.
  apply frame_measure.
  - unfold bucket_names. set_solver.
  - unfold multipart_run. cbn [run_frame]. split.
    + destruct pair as [size chunk]. apply frame_multipart_setup.
    + intros w fx w' Hsetup.
      apply multipart_setup_Done in Hsetup
        as (s & c & _ & _ & _ & _ & Hu & Hc & _).
      destruct pair as [size chunk]. now apply frame_multipart_fn.
Qed.

Lemma multipart_scenario_balanced (fuel : nat) (pair : string * string)
    (w w' : World) (u : unit) :
  multipart_scenario E fuel pair w = Done u w' ->
  measures w !! total_name (fst pair) (snd pair) = None ->
  balanced (fst pair) (snd pair) (measures w').
Proof.
  unfold multipart_scenario, measure. intros H Hfresh.
  apply bind_Done in H as (budget & w0 & H0 & H).
  apply lift_Done in H0 as [_ ->].
  apply bind_Done in H as ([] & w1 & H1 & H).
  apply flush_measures in H. rewrite H.
  apply (measure_samples_balanced E fuel (fst pair) (snd pair) budget w w1 tt);
    auto.
Qed.

Lemma measureMultipartUploadCases_pairs (fuel : nat) (sizes chunks : list string)
    (w : World) :
  measureMultipartUploadCases E fuel sizes chunks w
  = for_each (pairs_of sizes chunks) (multipart_scenario E fuel) w.
Proof.
  unfold measureMultipartUploadCases.
  exact (for_each_pairs sizes chunks (multipart_scenario E fuel) w).
Qed.

Lemma sweep_names_distinct : NoDup sweep_names.
Proof. apply distinct_NoDup. vm_compute. reflexivity. Qed.

Lemma frame_presign_setup (names : list string) :
  frame names (presign_setup E).
Proof.
  unfold presign_setup.
  apply frame_bind; [apply frame_initiateMultipart|]. intros out.
  destruct (truthy (Key out)); [|intros w a w' H; discriminate H].
  destruct (truthy (UploadId out)); [apply frame_ret|].
  intros w a w' H. discriminate H.
Qed.

(** The part of the sweep in front of the multipart scenarios changes the
    store only under the names of its own scenarios. *)
Lemma frame_sweep_head (fuel : nat) (names : list string) :
  (forall k, k ∈ [ "get-traditional-presigned-url"; "initiate-multipart-only";
                   "get-multipart-presigned-url-only" ]
                 ++ map (fun size => "traditional-upload-" +:+ size)
                      traditional_sizes -> k ∈ names) ->
  frame names
    (await (createBucket E) CreateBucket ;;
     measure E fuel "get-traditional-presigned-url"
       (NoSetup (getTraditionalPresignedUrl E "traditional-presigned-url-only"))
       1000 ;;
     measure E fuel "initiate-multipart-only" (initiate_only E) 1000 ;;
     measure E fuel "get-multipart-presigned-url-only"
       (WithSetup (presign_setup E)
          (fun s => getMultipartPresignedUrl E (fst s) (snd s) 1))
       1000 ;;
     measureTraditionalUploadCases E fuel traditional_sizes).
Proof.
  intros Hnames.
  apply frame_bind; [apply frame_await|]. intros _.
  apply frame_bind; [|intros _].
  { apply frame_measure; [apply Hnames; set_solver|].
    apply frame_getTraditionalPresignedUrl. }
  apply frame_bind; [|intros _].
  { apply frame_measure; [apply Hnames; set_solver|].
    apply frame_initiateMultipart. }
  apply frame_bind; [|intros _].
  { apply frame_measure; [apply Hnames; set_solver|]. split.
    - apply frame_presign_setup.
    - intros w res w' _. apply frame_await. }
  unfold measureTraditionalUploadCases. apply frame_for_each.
  intros size Hsize. apply frame_measure.
  - apply Hnames, elem_of_app. right.
    apply list_elem_of_In, in_map, list_elem_of_In, Hsize.
  - split.
    + unfold traditional_setup. apply frame_bind; [apply frame_lift|].
      intros bytes. apply frame_lift.
    + intros w file w' _. apply frame_traditionalUpload.
Qed.

(** In a sweep that runs to its end, every multipart scenario has its
    three buckets in step: the names of the sweep are pairwise distinct,
    so every scenario starts with a missing total bucket and no later
    scenario touches its buckets. *)
Lemma sweep_buckets_balanced (fuel : nat) (w' : World) :
  run E fuel world0 = Done tt w' ->
  forall size chunk, (size, chunk) ∈ sweep_pairs ->
    balanced size chunk (measures w').
Proof.
  intros H size chunk Hpair.
  set (head_names :=
         [ "get-traditional-presigned-url"; "initiate-multipart-only";
           "get-multipart-presigned-url-only" ]
         ++ map (fun size => "traditional-upload-" +:+ size) traditional_sizes).
  pose proof sweep_names_distinct as Hdistinct.
  unfold sweep_names in Hdistinct. rewrite app_assoc in Hdistinct.
  fold head_names in Hdistinct.
  apply NoDup_app in Hdistinct as (_ & Hdisj & Hbuckets).
  unfold run in H.
  apply bind_Done in H as (u1 & w1 & H1 & H).
  apply bind_Done in H as (u2 & w2 & H2 & H).
  apply bind_Done in H as (u3 & w3 & H3 & H).
  apply bind_Done in H as (u4 & w4 & H4 & H).
  apply bind_Done in H as (u5 & w5 & H5 & H).
  apply bind_Done in H as (u6 & w6 & H6 & H).
  apply bind_Done in H as (u7 & w7 & H7 & H).
  apply bind_Done in H as (u8 & w8 & H8 & H).
  apply await_Done in H as [_ ->]. apply cleanup_measures in H8.
  cbn [record measures]. rewrite H8.
  assert (Hhead : touches_only head_names (measures world0) (measures w5)).
  { apply (frame_sweep_head fuel head_names (fun k Hk => Hk) world0 u5 w5).
    unfold bind. rewrite H1, H2, H3, H4. exact H5. }
  rewrite measureMultipartUploadCases_pairs in H6, H7.
  assert (Hloop : for_each sweep_pairs (multipart_scenario E fuel) w5
                  = Done u7 w7).
  { unfold sweep_pairs. rewrite for_each_app. unfold bind. rewrite H6.
    exact H7. }
  apply (for_each_post bucket_names
           (fun pair m => m !! total_name (fst pair) (snd pair) = None)
           (fun pair m => balanced (fst pair) (snd pair) m)
           (multipart_scenario E fuel))
    with (l := sweep_pairs) (w := w5) (w' := w7) (u := u7) (x := (size, chunk));
    auto.
  - intros pair. apply frame_multipart_scenario.
  - intros pair w u w0 Hs Hfresh.
    exact (multipart_scenario_balanced fuel pair w w0 u Hs Hfresh).
  - intros pair m m0 Hsame Hfresh. rewrite Hsame; [exact Hfresh|].
    apply list_elem_of_here.
  - intros pair m m0 Hsame (lt & lu & lc & Ht & Hu & Hc & Hlen).
    exists lt, lu, lc. unfold bucket_names in Hsame.
    rewrite !Hsame
      by (repeat first [apply list_elem_of_here | apply list_elem_of_further]).
    auto.
  - intros pair Hin. rewrite Hhead; [reflexivity|].
    intros Hk. apply (Hdisj _ Hk).
    apply list_elem_of_In, in_flat_map. exists pair.
    split; [now apply list_elem_of_In|]. cbn. now left.
Qed.

End Sweep.

(** * Further properties *)

(** ** The sampler, in general *)

Section SamplerGeneral.

Variable E : Env.
Variable name : string.

Lemma keep_sampling_Done (overallStart maxTimeMs : Z) (w w' : World)
    (continue : bool) :
  keep_sampling E name overallStart maxTimeMs w = Done continue w' ->
  forall l,
    measures w !! name = Some l ->
    continue = spec_continue (length l) (now E (history w) - overallStart)
                 maxTimeMs
    /\ w' = (if (length l <? 3)%nat then w
             else record (DateNow (now E (history w))) w).
Proof.
  intros H l Hl.
  rewrite (keep_sampling_rule E name overallStart maxTimeMs w l Hl) in H.
  injection H as <- <-. eauto.
Qed.

(** The loop is left only with three samples or more, if with any. *)
Lemma sampling_floor {R} (action : M R) (overallStart maxTimeMs : Z)
    (fuel : nat) :
  forall (w w' : World) (u : unit),
    sampling E fuel name action overallStart maxTimeMs w = Done u w' ->
    forall l, measures w' !! name = Some l -> (3 <= length l)%nat.
Proof.
  assert (Hexit : forall w w1 l,
            keep_sampling E name overallStart maxTimeMs w = Done false w1 ->
            measures w1 !! name = Some l -> (3 <= length l)%nat).
  { intros w w1 l Hk Hl.
    rewrite (keep_sampling_measures E _ _ _ _ _ _ Hk) in Hl.
    destruct (keep_sampling_Done _ _ _ _ _ Hk l Hl) as [Hc _].
    unfold spec_continue in Hc. symmetry in Hc.
    apply orb_false_iff in Hc as [Hlt _]. now apply Nat.ltb_ge in Hlt. }
  induction fuel as [|fuel IH]; intros w w' u H;
    rewrite sampling_unfold in H;
    apply bind_Done in H as (continue & w1 & Hk & H);
    destruct continue; try discriminate H.
  - apply ret_Done in H as [_ <-]. eauto.
  - apply bind_Done in H as (u1 & w2 & _ & H). exact (IH w2 w' u H).
  - apply ret_Done in H as [_ <-]. eauto.
Qed.

End SamplerGeneral.


Section SamplerSamples.

Variable E : Env.
Variable name : string.

(** One pass appends one sample: the clock after the action minus the
    clock before it. *)
Lemma sample_once_appends {R} (names : list string) (action : M R)
    (w w' : World) (u : unit) :
  name ∉ names -> frame names action ->
  sample_once E name action w = Done u w' ->
  exists (r : R) (wa : World) (l : list Z),
    action (record (DateNow (now E (history w))) w) = Done r wa
    /\ measures w !! name = Some l
    /\ measures w' !! name
       = Some (l ++ [now E (history wa) - now E (history w)]).
Proof.
  intros Hn Hf H. unfold sample_once in H.
  apply bind_Done in H as (start & w1 & H1 & H).
  apply Date_now_Done in H1 as [-> ->].
  apply bind_Done in H as (r & wa & Ha & H).
  apply bind_Done in H as (stop & w2 & H2 & H).
  apply Date_now_Done in H2 as [-> ->].
  apply push_clear_Done in H as (l & Hl & ->).
  exists r, wa, l. split; [exact Ha|].
  pose proof (Hf _ _ _ Ha name Hn) as Hk. simpl in Hk, Hl.
  split; [congruence|]. simpl. apply lookup_insert_eq.
Qed.

Lemma sampling_appends {R} (Q : Z -> Prop) (action : M R)
    (overallStart maxTimeMs : Z) :
  (forall w w' u, sample_once E name action w = Done u w' ->
     exists x, Q x /\ forall l, measures w !! name = Some l ->
       measures w' !! name = Some (l ++ [x])) ->
  forall (fuel : nat) (w w' : World) (u : unit) (l : list Z),
    measures w !! name = Some l ->
    sampling E fuel name action overallStart maxTimeMs w = Done u w' ->
    exists new, measures w' !! name = Some (l ++ new) /\ Forall Q new.
Proof.
  intros Hstep. induction fuel as [|fuel IH]; intros w w' u l Hl H;
    rewrite sampling_unfold in H;
    apply bind_Done in H as (continue & w1 & Hk & H);
    apply keep_sampling_measures in Hk;
    destruct continue; try discriminate H.
  - apply ret_Done in H as [_ <-]. exists []. rewrite app_nil_r, Hk. auto.
  - apply bind_Done in H as (u1 & w2 & H1 & H).
    destruct (Hstep _ _ _ H1) as (x & Hx & Hp).
    rewrite <- Hk in Hl. specialize (Hp l Hl).
    destruct (IH _ _ _ _ Hp H) as (new & Hnew & HQ).
    exists (x :: new). rewrite <- app_assoc in Hnew. split; [exact Hnew|].
    constructor; assumption.
  - apply ret_Done in H as [_ <-]. exists []. rewrite app_nil_r, Hk. auto.
Qed.

End SamplerSamples.

(** With an action that leaves the entry of the scenario alone, the loop
    cannot make up for a missing entry. *)
Lemma sampling_missing (E : Env) (name : string) {R} (names : list string)
    (action : M R) (overallStart maxTimeMs : Z) :
  name ∉ names -> frame names action ->
  forall (fuel : nat) (w w' : World) (u : unit),
    measures w !! name = None ->
    sampling E fuel name action overallStart maxTimeMs w = Done u w' ->
    measures w' !! name = None.
Proof.
  intros Hn Hf. induction fuel as [|fuel IH]; intros w w' u Hl H;
    rewrite sampling_unfold in H;
    apply bind_Done in H as (continue & w1 & Hk & H);
    apply keep_sampling_measures in Hk;
    destruct continue; try discriminate H;
    try (apply ret_Done in H as [_ <-]; rewrite Hk; exact Hl).
  apply bind_Done in H as (u1 & w2 & H1 & H).
  destruct (sample_once_appends E name names action _ _ _ Hn Hf H1)
    as (r & wa & l & _ & Hl1 & _).
  rewrite Hk in Hl1. congruence.
Qed.

(** A [measure] that gets past its summary, with a setup and an action
    that leave the entry of the scenario alone, has entered its loop with
    the entry that it found, or with the empty one. *)
Lemma measure_samples_entry (E : Env) (fuel : nat) (names : list string)
    (name : string) (run : Run) (maxTimeMs : Z) (w w' : World) (u : unit) :
  name ∉ names -> run_frame names run ->
  measure_samples E fuel name run maxTimeMs w = Done u w' ->
  match run with
  | WithSetup setup fn =>
      exists res w0 w2,
        setup w0 = Done res w2
        /\ history w0 = history w ++ [DateNow (now E (history w))]
        /\ measures w2 !! name = Some (default [] (measures w !! name))
        /\ sampling E fuel name (fn res) (now E (history w)) maxTimeMs w2
           = Done tt w'
  | NoSetup fn =>
      exists w2,
        history w2 = history w ++ [DateNow (now E (history w))]
        /\ measures w2 !! name = Some (default [] (measures w !! name))
        /\ sampling E fuel name fn (now E (history w)) maxTimeMs w2
           = Done tt w'
  end.
Proof.
  intros Hn Hf H.
  apply measure_samples_start in H as (_ & [l Hl] & H).
  assert (Hcase : (measures (started E name w) !! name
                   = Some (default [] (measures w !! name)))
                  \/ measures (started E name w) !! name = None).
  { unfold started. destruct (measures w !! name) as [l0|] eqn:Hl0.
    - left. cbn. apply lookup_insert_eq.
    - destruct (inherited name).
      + right. exact Hl0.
      + left. cbn. apply lookup_insert_eq. }
  assert (Hh : history (started E name w)
               = history w ++ [DateNow (now E (history w))]).
  { unfold started. destruct (measures w !! name), (inherited name);
      reflexivity. }
  destruct run as [T R setup fn | R fn].
  - destruct Hf as [Hfs Hff]. destruct H as (res & w2 & Hs & H).
    pose proof (Hfs _ _ _ Hs name Hn) as Hkeep.
    destruct Hcase as [Hsome | Hnone].
    + exists res, (started E name w), w2. rewrite Hkeep. auto.
    + rewrite Hnone in Hkeep.
      pose proof (sampling_missing E name names (fn res) _ _ Hn (Hff _ _ _ Hs)
                    _ _ _ _ Hkeep H). congruence.
  - destruct Hcase as [Hsome | Hnone].
    + exists (started E name w). auto.
    + pose proof (sampling_missing E name names fn _ _ Hn Hf _ _ _ _ Hnone H).
      congruence.
Qed.

(** X2: [measure] only appends. When its setup and its action leave the
    scenario's entry alone, the entry with which it returns is the entry
    that it found (the empty list when there was none) followed by the
    new samples. *)
Theorem measure_only_appends (E : Env) (fuel : nat) (names : list string)
    (name : string) (run : Run) (maxTimeMs : Z) (w w' : World) :
  name ∉ names -> run_frame names run ->
  measure E fuel name run maxTimeMs w = Done tt w' ->
  exists new,
    measures w' !! name = Some (default [] (measures w !! name) ++ new).
Proof.
  intros Hn Hf H. unfold measure in H.
  apply bind_Done in H as (u1 & w1 & H1 & H).
  apply flush_measures in H. rewrite H. clear H.
  apply (measure_samples_entry E fuel names name run maxTimeMs w w1 u1 Hn Hf)
    in H1.
  assert (Hstep : forall R (action : M R), frame names action ->
            forall w w' u, sample_once E name action w = Done u w' ->
            exists x, True /\ forall l, measures w !! name = Some l ->
              measures w' !! name = Some (l ++ [x])).
  { intros R action Ha v v' u Hs.
    destruct (sample_once_appends E name names action v v' u Hn Ha Hs)
      as (r & wa & l & _ & Hl & Hl').
    exists (now E (history wa) - now E (history v)). split; [exact I|].
    intros l0 Hl0. rewrite Hl'. congruence. }
  destruct run as [T R setup fn | R fn].
  - destruct Hf as [Hfs Hff]. destruct H1 as (res & w0 & w2 & Hs & _ & Hl & H1).
    destruct (sampling_appends E name (fun _ => True) (fn res) _ _
                (Hstep _ _ (Hff _ _ _ Hs)) _ _ _ _ _ Hl H1) as (new & Hnew & _).
    eauto.
  - destruct H1 as (w2 & _ & Hl & H1).
    destruct (sampling_appends E name (fun _ => True) fn _ _
                (Hstep _ _ Hf) _ _ _ _ _ Hl H1) as (new & Hnew & _).
    eauto.
Qed.

Section SamplerClock.

Variable E : Env.
Variable name : string.

Lemma sample_once_nonnegative {R} (names : list string) (action : M R)
    (w w' : World) (u : unit) :
  monotone_clock E -> name ∉ names -> frame names action -> appends action ->
  sample_once E name action w = Done u w' ->
  exists x, 0 <= x /\ forall l, measures w !! name = Some l ->
    measures w' !! name = Some (l ++ [x]).
Proof.
  intros Hm Hn Hf Ha H.
  destruct (sample_once_appends E name names action w w' u Hn Hf H)
    as (r & wa & l & Hr & Hl & Hl').
  exists (now E (history wa) - now E (history w)). split.
  - destruct (Ha _ _ _ Hr) as [seg Hseg]. rewrite Hseg. simpl.
    rewrite <- app_assoc. pose proof (Hm (history w) ([DateNow (now E (history w))] ++ seg)).
    lia.
  - intros l0 Hl0. rewrite Hl'. congruence.
Qed.

Hypothesis terminal : isTTY E = true.

Variable I : gmap string (list Z) -> Prop.
Hypothesis I_name : apart_from name I.

Lemma sample_once_advance {R} (action : M R) (d : Z) (w : World)
    (l : list Z) :
  monotone_clock E -> ends_normally I name action ->
  takes_at_least E d action ->
  I (measures w) -> measures w !! name = Some l ->
  exists w2 x,
    sample_once E name action w = Done tt w2
    /\ I (measures w2)
    /\ measures w2 !! name = Some (l ++ [x])
    /\ now E (history w) + d <= now E (history w2).
Proof.
  intros Hm Hwb Hd HI Hl.
  destruct (sample_once_Done E name terminal I I_name action w l Hwb HI Hl)
    as (r & wa & w2 & seg & Hr & Hwa & Hs & Hw2 & Hl2 & HI2).
  exists w2, (now E (history wa) - now E (history w)).
  split; [exact Hs|]. split; [exact HI2|]. split; [exact Hl2|].
  pose proof (Hd _ _ _ Hr) as Hstep. simpl in Hstep.
  rewrite Hw2.
  pose proof (Hm (history wa) [DateNow (now E (history wa))]).
  pose proof (Hm (history w) [DateNow (now E (history w))]). lia.
Qed.

(** With an action that takes [d] milliseconds or more, the loop ends
    within the iterations that the budget allows. *)
Lemma sampling_bounded {R} (action : M R) (overallStart maxTimeMs d : Z) :
  monotone_clock E -> ends_normally I name action ->
  takes_at_least E d action -> 0 < d ->
  forall (fuel : nat) (w : World) (l : list Z),
    I (measures w) -> measures w !! name = Some l ->
    overallStart + Z.of_nat (length l) * d <= now E (history w) ->
    (3 <= length l + fuel)%nat ->
    maxTimeMs <= Z.of_nat (length l + fuel) * d ->
    exists w' new,
      sampling E fuel name action overallStart maxTimeMs w = Done tt w'
      /\ measures w' !! name = Some (l ++ new)
      /\ (length new <= fuel)%nat
      /\ (3 <= length (l ++ new))%nat
      /\ (new = [] \/ (length (l ++ new) <= 3)%nat
          \/ (Z.of_nat (length (l ++ new)) - 1) * d < maxTimeMs).
Proof.
  intros Hm Hwb Hd Hpos.
  induction fuel as [|fuel IH]; intros w l HI Hl Hnow H3 Hb;
    rewrite sampling_unfold;
    pose proof (keep_sampling_rule E name overallStart maxTimeMs w l Hl) as Hk;
    rewrite (bind_step _ _ _ _ _ Hk); clear Hk;
    set (w1 := if (length l <? 3)%nat then w
               else record (DateNow (now E (history w))) w);
    assert (Hl1 : measures w1 !! name = Some l)
      by (subst w1; destruct (length l <? 3)%nat; exact Hl);
    assert (HI1 : I (measures w1))
      by (subst w1; destruct (length l <? 3)%nat; exact HI);
    assert (Hnow1 : now E (history w) <= now E (history w1))
      by (subst w1; destruct (length l <? 3)%nat;
          [lia | apply (Hm (history w))]);
    clearbody w1;
    destruct (spec_continue (length l) (now E (history w) - overallStart)
                maxTimeMs) eqn:Hc;
    unfold spec_continue in Hc.
  - exfalso. apply orb_true_iff in Hc as [Hc | Hc].
    + apply Nat.ltb_lt in Hc. lia.
    + apply Z.ltb_lt in Hc. rewrite Nat.add_0_r in Hb. lia.
  - apply orb_false_iff in Hc as [Hc _]. apply Nat.ltb_ge in Hc.
    exists w1, []. rewrite app_nil_r. split_and!; simpl; auto with lia.
  - destruct (sample_once_advance action d w1 l Hm Hwb Hd HI1 Hl1)
      as (w2 & x & Hs & HI2 & Hl2 & Hadv).
    rewrite (bind_step _ _ _ _ _ Hs).
    destruct (IH w2 (l ++ [x]) HI2 Hl2)
      as (w' & new & Hrun & Hl' & Hlen & H3' & Hbound).
    { rewrite length_app. simpl. lia. }
    { rewrite length_app. simpl. lia. }
    { rewrite length_app. simpl.
      replace (length l + 1 + fuel)%nat with (length l + S fuel)%nat by lia.
      exact Hb. }
    exists w', (x :: new).
    rewrite <- app_assoc in Hl', H3', Hbound. simpl in Hl', H3', Hbound.
    split_and!; auto.
    + simpl. lia.
    + right. destruct Hbound as [-> | Hbound]; [|exact Hbound].
      rewrite length_app. simpl.
      apply orb_true_iff in Hc as [Hc | Hc].
      * apply Nat.ltb_lt in Hc. left. lia.
      * apply Z.ltb_lt in Hc. right. nia.
  - apply orb_false_iff in Hc as [Hc _]. apply Nat.ltb_ge in Hc.
    exists w1, []. rewrite app_nil_r. split_and!; simpl; auto with lia.
Qed.

(** Under a clock that never gets a budget away from the start, the loop
    has no end. *)
Lemma sampling_never {R} (action : M R) (overallStart maxTimeMs : Z) :
  (forall h, now E h - overallStart < maxTimeMs) ->
  ends_normally I name action ->
  forall (fuel : nat) (w : World) (l : list Z),
    I (measures w) -> measures w !! name = Some l ->
    sampling E fuel name action overallStart maxTimeMs w = Timeout.
Proof.
  intros Hc Hwb. induction fuel as [|fuel IH]; intros w l HI Hl;
    rewrite sampling_unfold;
    pose proof (keep_sampling_rule E name overallStart maxTimeMs w l Hl) as Hk;
    rewrite (bind_step _ _ _ _ _ Hk);
    assert (Hs : spec_continue (length l) (now E (history w) - overallStart)
                   maxTimeMs = true)
      by (unfold spec_continue; apply orb_true_iff; right;
          apply Z.ltb_lt; apply Hc);
    rewrite Hs; [reflexivity|].
  assert (Hl1 : measures (if (length l <? 3)%nat then w
                          else record (DateNow (now E (history w))) w) !! name
                = Some l) by (destruct (length l <? 3)%nat; exact Hl).
  assert (HI1 : I (measures (if (length l <? 3)%nat then w
                             else record (DateNow (now E (history w))) w)))
    by (destruct (length l <? 3)%nat; exact HI).
  destruct (sample_once_Done E name terminal I I_name action _ l Hwb HI1 Hl1)
    as (r & wa & w2 & seg & _ & _ & Hs2 & _ & Hl2 & HI2).
  rewrite (bind_step _ _ _ _ _ Hs2). exact (IH _ _ HI2 Hl2).
Qed.

End SamplerClock.

Lemma initiateMultipart_appends (E : Env) (prefix : string) :
  appends (initiateMultipart E prefix).
Proof.
  intros w out w' H. apply initiateMultipart_Done in H as (t0 & t1 & Hh & _).
  eauto.
Qed.

Lemma frame_initiate_only (E : Env) (names : list string) :
  run_frame names (initiate_only E).
Proof.
  intros w out w' H. apply initiateMultipart_Done in H as (t0 & t1 & _ & Hm).
  intros k _. rewrite Hm. reflexivity.
Qed.

Lemma initiate_only_frozen (name : string) :
  run_ends (fun _ => True) name (initiate_only env_frozen).
Proof.
  split; [auto|]. intros w l _ Hl. eexists _, _, _.
  split; [reflexivity|]. split; [exact Logic.I|]. split; [exact Hl|].
  cbn. rewrite <- !app_assoc. reflexivity.
Qed.

Lemma initiate_only_at_least : run_at_least env0 3 (initiate_only env0).
Proof.
  intros w out w' H.
  apply initiateMultipart_Done in H as (t0 & t1 & Hh & _).
  rewrite Hh. cbn. unfold tick. rewrite length_app. cbn. lia.
Qed.

Lemma measure_only_appends_witness :
  exists w',
    measure env0 3 "initiate-multipart-only" (initiate_only env0) 0
      {| measures := {[ "initiate-multipart-only" := [12; 9] ]}; history := [] |}
      = Done tt w'
    /\ exists new,
         measures w' !! "initiate-multipart-only"
         = Some (default []
                   (measures
                      {| measures := {[ "initiate-multipart-only" := [12; 9] ]};
                         history := [] |} !! "initiate-multipart-only")
                 ++ new).
Proof.
  eexists. split; [vm_compute; reflexivity|].
  apply (measure_only_appends env0 3 [] "initiate-multipart-only"
           (initiate_only env0) 0
           {| measures := {[ "initiate-multipart-only" := [12; 9] ]};
              history := [] |}).
  - apply not_elem_of_nil.
  - apply frame_initiate_only.
  - vm_compute. reflexivity.
Defined.

(** X3: under a clock that never goes back, with a setup and an action
    that leave the scenario's entry alone and an action that only adds to
    the history, no sample that [measure] appends is negative. *)
Theorem samples_never_negative (E : Env) (fuel : nat) (names : list string)
    (name : string) (run : Run) (maxTimeMs : Z) (w w' : World) :
  monotone_clock E ->
  name ∉ names -> run_frame names run -> run_appends run ->
  measure E fuel name run maxTimeMs w = Done tt w' ->
  exists new,
    measures w' !! name = Some (default [] (measures w !! name) ++ new)
    /\ Forall (fun x => 0 <= x) new.
Proof.
  intros Hm Hn Hf Ha H. unfold measure in H.
  apply bind_Done in H as (u1 & w1 & H1 & H).
  apply flush_measures in H. rewrite H. clear H.
  apply (measure_samples_entry E fuel names name run maxTimeMs w w1 u1 Hn Hf)
    in H1.
  destruct run as [T R setup fn | R fn].
  - destruct Hf as [Hfs Hff]. destruct H1 as (res & w0 & w2 & Hs & _ & Hl & H1).
    refine (sampling_appends E name (fun x => 0 <= x) (fn res) _ _ _
              _ _ _ _ _ Hl H1).
    intros v v' u. apply (sample_once_nonnegative E name names); auto.
    exact (Hff _ _ _ Hs).
  - destruct H1 as (w2 & _ & Hl & H1).
    refine (sampling_appends E name (fun x => 0 <= x) fn _ _ _
              _ _ _ _ _ Hl H1).
    intros v v' u. apply (sample_once_nonnegative E name names); auto.
Qed.

Lemma samples_never_negative_witness :
  exists w',
    measure env0 3 "initiate-multipart-only" (initiate_only env0) 0 world0
      = Done tt w'
    /\ exists new,
         measures w' !! "initiate-multipart-only"
         = Some (default [] (measures world0 !! "initiate-multipart-only")
                 ++ new)
         /\ Forall (fun x => 0 <= x) new.
Proof.
  eexists. split; [vm_compute; reflexivity|].
  apply (samples_never_negative env0 3 [] "initiate-multipart-only"
           (initiate_only env0) 0 world0).
  - exact env0_monotone.
  - apply not_elem_of_nil.
  - apply frame_initiate_only.
  - apply initiateMultipart_appends.
  - vm_compute. reflexivity.
Defined.

(** The statement of X4 for one scenario. *)
Lemma sampling_ends (E : Env) (I : gmap string (list Z) -> Prop)
    (name : string) (run : Run) (maxTimeMs d : Z) (fuel : nat) (w : World) :
  isTTY E = true -> monotone_clock E ->
  apart_from name I -> run_ends I name run ->
  run_at_least E d run -> 0 < d ->
  fresh_entry name w ->
  (3 <= fuel)%nat -> maxTimeMs <= Z.of_nat fuel * d ->
  exists w' l,
    measure_samples E fuel name run maxTimeMs w = Done tt w'
    /\ measures w' !! name = Some l
    /\ (3 <= length l <= fuel)%nat
    /\ (length l = 3%nat \/ (Z.of_nat (length l) - 1) * d < maxTimeMs).
Proof.
  intros Htty Hm HI Hok Hd Hpos Hfresh H3 Hb.
  set (wi := started E name w).
  assert (Hwi : wi = record (DateNow (now E (history w)))
                  {| measures := <[name := []]> (measures w);
                     history := history w |}) by now apply started_fresh.
  assert (Hshape : forall R (action : M R) (w2 : World),
            ends_normally I name action -> takes_at_least E d action ->
            I (measures w2) -> measures w2 !! name = Some [] ->
            now E (history w) <= now E (history w2) ->
            exists w' l,
              (sampling E fuel name action (now E (history w)) maxTimeMs ;;
               summary E name) w2 = Done tt w'
              /\ measures w' !! name = Some l
              /\ (3 <= length l <= fuel)%nat
              /\ (length l = 3%nat
                  \/ (Z.of_nat (length l) - 1) * d < maxTimeMs)).
  { intros R action w2 Hwb Hat HI2 Hl Hnow.
    destruct (sampling_bounded E name Htty I HI action (now E (history w))
                maxTimeMs d Hm Hwb Hat Hpos fuel w2 [] HI2 Hl)
      as (w' & new & Hrun & Hl' & Hlen & H3' & Hbound);
      simpl; try lia.
    simpl in Hl', H3', Hbound. exists w', new.
    rewrite (bind_step _ _ _ _ _ Hrun).
    rewrite (summary_Done E name Htty w' _ Hl'). split_and!; auto.
    destruct Hbound as [-> | [Hle | Hlt]]; simpl in *; lia. }
  rewrite measure_samples_run. fold wi.
  destruct run as [T R setup fn | R fn].
  - destruct (Hok wi []) as (res & w2 & seg & Hrun & HI2 & Hkeep & Hseg & Hfn).
    { rewrite Hwi. apply lookup_insert_eq. }
    rewrite (bind_step _ _ _ _ _ Hrun). apply Hshape; auto.
    rewrite Hseg, Hwi. simpl. rewrite <- app_assoc. apply Hm.
  - destruct Hok as [Hall Hfn]. apply Hshape; auto.
    + apply Hall. rewrite Hwi. simpl. rewrite lookup_insert_eq. eauto.
    + rewrite Hwi. apply lookup_insert_eq.
    + rewrite Hwi. simpl. apply Hm.
Qed.

(** X4: the sampling loop ends. On a terminal, under a clock that never
    goes back, with a setup and an action that end normally (given the
    condition [I] on the rest of the store that the setup establishes and
    the action keeps) and leave the entry of the scenario alone, an action
    during which the clock advances by [d > 0] or more, an entry that is
    empty or missing with nothing inherited under the name, and fuel for
    three passes and for [maxTimeMs / d] passes, [measure] reaches the
    end of its loop and prints its summary; it has then collected at
    least three samples and at most as many as it had fuel for, and
    either exactly three, or so few that all passes but the last took
    less than the budget. *)
Theorem sampling_ends_within_budget (E : Env)
    (I : gmap string (list Z) -> Prop) (name : string) (run : Run)
    (maxTimeMs d : Z) (fuel : nat) (w : World) :
  isTTY E = true -> monotone_clock E ->
  apart_from name I -> run_ends I name run ->
  run_at_least E d run -> 0 < d ->
  fresh_entry name w ->
  (3 <= fuel)%nat -> maxTimeMs <= Z.of_nat fuel * d ->
  exists w' l,
    measure_samples E fuel name run maxTimeMs w = Done tt w'
    /\ measures w' !! name = Some l
    /\ (3 <= length l <= fuel)%nat
    /\ (length l = 3%nat \/ (Z.of_nat (length l) - 1) * d < maxTimeMs).
Proof. apply sampling_ends. Qed.

(** The statement of X5 for one scenario. *)
Lemma sampling_stuck (E : Env) (I : gmap string (list Z) -> Prop)
    (name : string) (run : Run) (maxTimeMs : Z) (w : World) :
  (forall h h', now E h' - now E h < maxTimeMs) ->
  isTTY E = true ->
  apart_from name I -> run_ends I name run ->
  is_Some (measures w !! name) \/ inherited name = None ->
  forall fuel, measure E fuel name run maxTimeMs w = Timeout.
Proof.
  intros Hc Htty HI Hok Hown fuel.
  unfold measure, bind at 1. rewrite measure_samples_run.
  set (wi := started E name w).
  assert (Hwi : measures wi !! name = Some (default [] (measures w !! name))).
  { subst wi. unfold started.
    destruct Hown as [[l Hl] | Hn].
    - rewrite Hl. cbn. apply lookup_insert_eq.
    - rewrite Hn. destruct (measures w !! name); cbn; apply lookup_insert_eq. }
  destruct run as [T R setup fn | R fn].
  - destruct (Hok wi _ Hwi) as (res & w2 & seg & Hrun & HI2 & Hkeep & _ & Hfn).
    unfold bind at 1. rewrite Hrun. unfold bind at 1.
    rewrite (sampling_never E name Htty I HI (fn res) _ _ (fun h => Hc _ h) Hfn
               fuel w2 _ HI2 Hkeep). reflexivity.
  - destruct Hok as [Hall Hfn]. unfold bind at 1.
    rewrite (sampling_never E name Htty I HI fn _ _ (fun h => Hc _ h) Hfn
               fuel wi _ (Hall _ (ex_intro _ _ Hwi)) Hwi). reflexivity.
Qed.

(** X5: the loop has no way out but the clock. On a terminal, with an
    entry of its own or a name under which nothing is inherited, and
    with a setup and an action that end normally (given the condition
    [I] on the rest of the store) and leave the entry of the scenario
    alone: if no two readings of the clock are [maxTimeMs] apart,
    [measure] does not return, whatever the fuel. *)
Theorem sampling_needs_the_clock (E : Env) (I : gmap string (list Z) -> Prop)
    (name : string) (run : Run) (maxTimeMs : Z) (w : World) :
  (forall h h', now E h' - now E h < maxTimeMs) ->
  isTTY E = true ->
  apart_from name I -> run_ends I name run ->
  is_Some (measures w !! name) \/ inherited name = None ->
  forall fuel, measure E fuel name run maxTimeMs w = Timeout.
Proof. apply sampling_stuck. Qed.

(** ** Emptying the bucket and persisting the store *)

Section Cleanup.

Variable E : Env.

Lemma listObjects_Done (w w' : World) (objects : list string) :
  listObjects E w = Done objects w' ->
  exists contents,
    objects = default [] contents
    /\ w' = record (ListObjectsV2 (inr contents)) w.
Proof.
  unfold listObjects. intros H.
  apply bind_Done in H as (contents & w1 & H1 & H).
  apply ret_Done in H as [<- <-]. apply await_Done in H1 as [_ ->].
  exists contents. auto.
Qed.

Lemma cleanup_loop_trace (fuel : nat) :
  forall (contents : option (list string)) (w w' : World) (u : unit),
    cleanup_loop E fuel (default [] contents) w = Done u w' ->
    exists rounds final seg,
      history w' = history w ++ seg
      /\ [ListObjectsV2 (inr contents)] ++ seg = cleanup_events rounds final
      /\ Forall (fun c => default [] c <> []) rounds
      /\ default [] final = []
      /\ (length rounds <= fuel)%nat.
Proof.
  induction fuel as [|fuel IH]; intros contents w w' u H;
    destruct (default [] contents) as [|o objects] eqn:Hc; cbn in H.
  - apply ret_Done in H as [_ <-]. exists [], contents, [].
    rewrite app_nil_r. split_and!; auto.
  - discriminate H.
  - apply ret_Done in H as [_ <-]. exists [], contents, [].
    rewrite app_nil_r. split_and!; simpl; auto with lia.
  - apply bind_Done in H as (u1 & w1 & H1 & H).
    apply await_Done in H1 as [_ ->]. destruct u1.
    apply bind_Done in H as (objects' & w2 & H2 & H).
    apply listObjects_Done in H2 as (contents' & -> & ->).
    apply IH in H as (rounds & final & seg & Hh & Hseg & Hall & Hfin & Hlen).
    exists (contents :: rounds), final,
      ([DeleteObjects (o :: objects) (inr tt)]
       ++ [ListObjectsV2 (inr contents')] ++ seg).
    split_and!.
    + rewrite Hh. cbn. rewrite <- !app_assoc. reflexivity.
    + rewrite Hseg. unfold cleanup_events. cbn. rewrite Hc. reflexivity.
    + constructor; [rewrite Hc; discriminate | exact Hall].
    + exact Hfin.
    + simpl. lia.
Qed.

Lemma cleanup_trace (fuel : nat) (w w' : World) (u : unit) :
  cleanup E fuel w = Done u w' ->
  exists rounds final,
    history w' = history w ++ cleanup_events rounds final
    /\ Forall (fun c => default [] c <> []) rounds
    /\ default [] final = []
    /\ (length rounds <= fuel)%nat
    /\ measures w' = measures w.
Proof.
  intros H. pose proof (cleanup_measures E fuel w w' u H) as Hm.
  unfold cleanup in H. apply bind_Done in H as (objects & w1 & H1 & H).
  apply listObjects_Done in H1 as (contents & -> & ->).
  apply cleanup_loop_trace in H
    as (rounds & final & seg & Hh & Hseg & Hall & Hfin & Hlen).
  exists rounds, final. split_and!; auto.
  rewrite Hh, <- Hseg. cbn. rewrite <- app_assoc. reflexivity.
Qed.

Lemma written_cleanup (rounds : list (option (list string)))
    (final : option (list string)) :
  written (cleanup_events rounds final) = [].
Proof.
  unfold cleanup_events, written. rewrite omap_app.
  induction rounds as [|c rounds IH]; [reflexivity|]. exact IH.
Qed.

Lemma measure_trace (fuel : nat) (name : string) (run : Run) (maxTimeMs : Z)
    (w w' : World) (u : unit) :
  measure E fuel name run maxTimeMs w = Done u w' ->
  exists w1 rounds final,
    measure_samples E fuel name run maxTimeMs w = Done tt w1
    /\ history w' = history w1 ++ cleanup_events rounds final
         ++ [WriteFile "results.json" (measures w') (inr tt)]
    /\ Forall (fun c => default [] c <> []) rounds
    /\ default [] final = []
    /\ measures w' = measures w1.
Proof.
  unfold measure, flush. intros H.
  apply bind_Done in H as ([] & w1 & H1 & H).
  apply bind_Done in H as (u2 & w2 & H2 & H).
  apply cleanup_trace in H2 as (rounds & final & Hh & Hall & Hfin & _ & Hm).
  apply await_Done in H as [_ ->]. destruct u.
  exists w1, rounds, final. split_and!; auto.
  cbn. rewrite Hh, <- app_assoc. reflexivity.
Qed.

End Cleanup.

(** X6: a [cleanup] that returns has listed the bucket and then, as long
    as the listing was not empty, requested the deletion of exactly the
    keys listed and listed again; its last listing was empty or had no
    [Contents]; the store is as it was. *)
Theorem cleanup_deletes_what_it_lists (E : Env) (fuel : nat) (w w' : World) :
  cleanup E fuel w = Done tt w' ->
  exists rounds final,
    history w' = history w ++ cleanup_events rounds final
    /\ Forall (fun c => default [] c <> []) rounds
    /\ default [] final = []
    /\ measures w' = measures w.
Proof.
  intros H.
  apply cleanup_trace in H as (rounds & final & Hh & Hall & Hfin & _ & Hm).
  eauto 6.
Qed.

Lemma cleanup_deletes_what_it_lists_witness :
  exists w',
    cleanup env_leftover 1 world0 = Done tt w'
    /\ exists rounds final,
         history w' = history world0 ++ cleanup_events rounds final
         /\ Forall (fun c => default [] c <> []) rounds
         /\ default [] final = []
         /\ measures w' = measures world0.
Proof.
  eexists. split; [vm_compute; reflexivity|].
  apply (cleanup_deletes_what_it_lists env_leftover 1 world0).
  vm_compute. reflexivity.
Defined.

(** X7: a [measure] that returns ends, after its loop, with the rounds of
    [cleanup] and then one write of results.json; the write is its last
    event and carries the store as [measure] leaves it. *)
Theorem measure_writes_the_store_last (E : Env) (fuel : nat) (name : string)
    (run : Run) (maxTimeMs : Z) (w w' : World) :
  measure E fuel name run maxTimeMs w = Done tt w' ->
  exists w1 rounds final,
    measure_samples E fuel name run maxTimeMs w = Done tt w1
    /\ measures w' = measures w1
    /\ history w' = history w1 ++ cleanup_events rounds final
         ++ [WriteFile "results.json" (measures w') (inr tt)].
Proof.
  intros H.
  apply measure_trace in H as (w1 & rounds & final & H1 & Hh & _ & _ & Hm).
  exists w1, rounds, final. auto.
Qed.

Lemma measure_writes_the_store_last_witness :
  exists w',
    measure env_leftover 3 "initiate-multipart-only"
      (initiate_only env_leftover) 0 world0 = Done tt w'
    /\ exists w1 rounds final,
         measure_samples env_leftover 3 "initiate-multipart-only"
           (initiate_only env_leftover) 0 world0 = Done tt w1
         /\ measures w' = measures w1
         /\ history w' = history w1 ++ cleanup_events rounds final
              ++ [WriteFile "results.json" (measures w') (inr tt)].
Proof.
  eexists. split; [vm_compute; reflexivity|].
  apply (measure_writes_the_store_last env_leftover 3
           "initiate-multipart-only" (initiate_only env_leftover) 0 world0).
  vm_compute. reflexivity.
Defined.

(** ** The scenario loops *)

Section Cases.

Variable E : Env.

Lemma measure_floor (fuel : nat) (name : string) (run : Run) (maxTimeMs : Z)
    (w w' : World) (u : unit) :
  measure E fuel name run maxTimeMs w = Done u w' ->
  sampled name (measures w').
Proof.
  unfold measure. intros H.
  apply bind_Done in H as (u1 & w1 & H1 & H).
  apply flush_measures in H. rewrite H. clear H.
  apply measure_samples_start in H1 as (_ & [l Hl] & H1).
  exists l. split; [exact Hl|].
  destruct run as [T R setup fn | R fn].
  - destruct H1 as (res & w3 & _ & H1).
    exact (sampling_floor E name _ _ _ _ _ _ _ H1 l Hl).
  - exact (sampling_floor E name _ _ _ _ _ _ _ H1 l Hl).
Qed.

Lemma measure_persisted (fuel : nat) (name : string) (run : Run)
    (maxTimeMs : Z) (w w' : World) (u : unit) :
  measure E fuel name run maxTimeMs w = Done u w' -> persisted w'.
Proof.
  intros H.
  apply measure_trace in H as (w1 & rounds & final & _ & Hh & _ & _ & _).
  unfold persisted, written. rewrite Hh, !app_assoc, omap_app. cbn.
  apply last_snoc.
Qed.

(** What every pass keeps, the loop keeps; what the last pass establishes
    holds at the end. *)
Lemma for_each_kept {A} (P : World -> Prop) (body : A -> M unit) :
  (forall x w u w', body x w = Done u w' -> P w -> P w') ->
  forall (l : list A) (w w' : World) (u : unit),
    for_each l body w = Done u w' -> P w -> P w'.
Proof.
  intros Hbody. induction l as [|y l IH]; intros w w' u H HP.
  - apply ret_Done in H as [_ <-]. exact HP.
  - cbn [for_each] in H. apply bind_Done in H as (u1 & w1 & H1 & H2).
    exact (IH _ _ _ H2 (Hbody _ _ _ _ H1 HP)).
Qed.

Lemma for_each_last {A} (P : World -> Prop) (body : A -> M unit) :
  (forall x w u w', body x w = Done u w' -> P w') ->
  forall (l : list A) (w w' : World) (u : unit),
    l <> [] -> for_each l body w = Done u w' -> P w'.
Proof.
  intros Hbody. induction l as [|y l IH]; intros w w' u Hne H;
    [contradiction|].
  cbn [for_each] in H. apply bind_Done in H as (u1 & w1 & H1 & H2).
  destruct l as [|z l].
  - apply ret_Done in H2 as [_ <-]. exact (Hbody _ _ _ _ H1).
  - apply (IH w1 w' u); [discriminate | exact H2].
Qed.

Lemma for_each_established {A} (P : A -> World -> Prop) (body : A -> M unit) :
  (forall x w u w', body x w = Done u w' -> P x w') ->
  (forall x y w u w', body y w = Done u w' -> P x w -> P x w') ->
  forall (l : list A) (w w' : World) (u : unit),
    for_each l body w = Done u w' ->
    forall x, x ∈ l -> P x w'.
Proof.
  intros Hest Hkeep. induction l as [|y l IH]; intros w w' u H x Hx.
  - apply elem_of_nil in Hx. contradiction.
  - cbn [for_each] in H. apply bind_Done in H as (u1 & w1 & H1 & H2).
    apply elem_of_cons in Hx as [-> | Hx].
    + apply (for_each_kept (P y) body (fun z => Hkeep y z) l w1 w' u H2).
      exact (Hest _ _ _ _ H1).
    + exact (IH _ _ _ H2 x Hx).
Qed.

Lemma frame_traditional_run (names : list string) (size : string) :
  run_frame names
    (WithSetup (traditional_setup E size)
       (fun file => traditionalUpload E ("traditional-upload-" +:+ size) file)).
Proof.
  split.
  - unfold traditional_setup. apply frame_bind; [apply frame_lift|].
    intros bytes. apply frame_lift.
  - intros w file w' _. apply frame_traditionalUpload.
Qed.

Lemma traditional_cases (fuel : nat) (sizes : list string) (w w' : World)
    (u : unit) :
  measureTraditionalUploadCases E fuel sizes w = Done u w' ->
  (forall size, size ∈ sizes ->
     sampled ("traditional-upload-" +:+ size) (measures w'))
  /\ (sizes <> [] -> persisted w').
Proof.
  unfold measureTraditionalUploadCases. intros H. split.
  - refine (for_each_established
              (fun size w => sampled ("traditional-upload-" +:+ size) (measures w))
              _ _ _ sizes w w' u H).
    + intros size v u0 v' Hm. exact (measure_floor _ _ _ _ _ _ _ Hm).
    + intros size other v u0 v' Hm (l & Hl & H3).
      destruct (decide ("traditional-upload-" +:+ other
                        = "traditional-upload-" +:+ size)) as [Heq | Hne].
      * rewrite <- Heq. exact (measure_floor _ _ _ _ _ _ _ Hm).
      * exists l. split; [|exact H3]. rewrite <- Hl.
        apply (frame_measure E ["traditional-upload-" +:+ other] fuel _ _ 2000
                 (list_elem_of_here _ _) (frame_traditional_run _ other)
                 v u0 v' Hm).
        intros Hin. apply list_elem_of_singleton in Hin. congruence.
  - intros Hne.
    refine (for_each_last persisted _ _ sizes w w' u Hne H).
    intros size v u0 v' Hm. exact (measure_persisted _ _ _ _ _ _ _ Hm).
Qed.

Lemma multipart_scenario_sampled (fuel : nat) (pair : string * string)
    (w w' : World) (u : unit) :
  multipart_scenario E fuel pair w = Done u w' ->
  sampled (total_name (fst pair) (snd pair)) (measures w') /\ persisted w'.
Proof.
  unfold multipart_scenario. intros H.
  apply bind_Done in H as (budget & w0 & H0 & H).
  split.
  - exact (measure_floor _ _ _ _ _ _ _ H).
  - exact (measure_persisted _ _ _ _ _ _ _ H).
Qed.

Lemma pairs_of_nonempty (sizes chunks : list string) :
  sizes <> [] -> chunks <> [] -> pairs_of sizes chunks <> [].
Proof.
  destruct sizes as [|s sizes]; [contradiction|].
  destruct chunks as [|c chunks]; [contradiction|]. discriminate.
Qed.

Lemma elem_of_pairs_of (sizes chunks : list string) (size chunk : string) :
  size ∈ sizes -> chunk ∈ chunks -> (size, chunk) ∈ pairs_of sizes chunks.
Proof.
  intros Hs Hc. apply list_elem_of_In, in_flat_map. exists size.
  split; [now apply list_elem_of_In|].
  apply (in_map (fun chunk => (size, chunk))). now apply list_elem_of_In.
Qed.

Lemma multipart_cases (fuel : nat) (sizes chunks : list string) (w w' : World)
    (u : unit) :
  NoDup (flat_map bucket_names (pairs_of sizes chunks)) ->
  (forall size chunk, size ∈ sizes -> chunk ∈ chunks ->
     measures w !! total_name size chunk = None) ->
  measureMultipartUploadCases E fuel sizes chunks w = Done u w' ->
  (forall size chunk, size ∈ sizes -> chunk ∈ chunks ->
     balanced size chunk (measures w')
     /\ sampled (total_name size chunk) (measures w'))
  /\ (sizes <> [] -> chunks <> [] -> persisted w').
Proof.
  intros Hnodup Hfresh H. rewrite measureMultipartUploadCases_pairs in H.
  split.
  - intros size chunk Hs Hc.
    apply (for_each_post bucket_names
             (fun pair m => m !! total_name (fst pair) (snd pair) = None)
             (fun pair m => balanced (fst pair) (snd pair) m
                            /\ sampled (total_name (fst pair) (snd pair)) m)
             (multipart_scenario E fuel))
      with (l := pairs_of sizes chunks) (w := w) (w' := w') (u := u)
           (x := (size, chunk)); auto.
    + intros pair. apply frame_multipart_scenario.
    + intros pair v u0 v' Hsc Hf. split.
      * exact (multipart_scenario_balanced E fuel pair v v' u0 Hsc Hf).
      * exact (proj1 (multipart_scenario_sampled fuel pair v v' u0 Hsc)).
    + intros pair m m0 Hsame Hf. rewrite Hsame; [exact Hf|].
      apply list_elem_of_here.
    + intros pair m m0 Hsame [(lt & lu & lc & Ht & Hu & Hcm & Hlen) (l & Hl & H3)].
      unfold bucket_names in Hsame. split.
      * exists lt, lu, lc.
        rewrite !Hsame
          by (repeat first [apply list_elem_of_here | apply list_elem_of_further]).
        auto.
      * exists l. rewrite Hsame by apply list_elem_of_here. auto.
    + intros [size0 chunk0] Hin. apply list_elem_of_In, in_flat_map in Hin
        as (s & Hs0 & Hin). apply in_map_iff in Hin as (c & [= <- <-] & Hc0).
      apply Hfresh; now apply list_elem_of_In.
    + now apply elem_of_pairs_of.
  - intros Hs Hc.
    apply (for_each_last persisted (multipart_scenario E fuel))
      with (l := pairs_of sizes chunks) (w := w) (u := u);
      [|now apply pairs_of_nonempty|exact H].
    intros pair v u0 v' Hsc.
    exact (proj2 (multipart_scenario_sampled fuel pair v v' u0 Hsc)).
Qed.

End Cases.

(** X1: whenever [measure] returns, the store holds three samples or more
    under the scenario's name, whatever the action, the budget, the clock
    and the samples that were there before. *)
Theorem measure_never_fewer_than_three (E : Env) (fuel : nat) (name : string)
    (run : Run) (maxTimeMs : Z) (w w' : World) :
  measure E fuel name run maxTimeMs w = Done tt w' ->
  sampled name (measures w').
Proof.
  apply measure_floor.
Qed.

Lemma measure_never_fewer_than_three_witness :
  exists w',
    measure env0 3 "initiate-multipart-only" (initiate_only env0) 0 world0
      = Done tt w'
    /\ sampled "initiate-multipart-only" (measures w').
Proof.
  eexists. split; [vm_compute; reflexivity|].
  apply (measure_never_fewer_than_three env0 3 "initiate-multipart-only"
           (initiate_only env0) 0 world0).
  vm_compute. reflexivity.
Defined.

(** X8: when [measureTraditionalUploadCases] returns, every size of its
    list has three samples or more under its name, also when a size
    occurs twice in the list; and unless the list is empty, the last
    write to results.json holds the store as it is at the end. *)
Theorem traditional_cases_sampled (E : Env) (fuel : nat) (sizes : list string)
    (w w' : World) :
  measureTraditionalUploadCases E fuel sizes w = Done tt w' ->
  (forall size, size ∈ sizes ->
     sampled ("traditional-upload-" +:+ size) (measures w'))
  /\ (sizes <> [] -> persisted w').
Proof.
  apply traditional_cases.
Qed.

Lemma traditional_cases_sampled_witness :
  exists w',
    measureTraditionalUploadCases env_coarse 3 ["512k"; "5m"; "512k"] world0
      = Done tt w'
    /\ (forall size, size ∈ ["512k"; "5m"; "512k"] ->
          sampled ("traditional-upload-" +:+ size) (measures w'))
    /\ (["512k"; "5m"; "512k"] <> [] -> persisted w').
Proof.
  eexists. split; [vm_compute; reflexivity|].
  apply (traditional_cases_sampled env_coarse 3 ["512k"; "5m"; "512k"] world0).
  vm_compute. reflexivity.
Defined.

(** X9: when [measureMultipartUploadCases] returns, with bucket names that
    are pairwise distinct and total buckets that were missing at the
    start, every pair of a size and a chunk size has its three buckets in
    step and three samples or more in its total bucket; and unless one of
    the lists is empty, the last write to results.json holds the store as
    it is at the end. *)
Theorem multipart_cases_sampled (E : Env) (fuel : nat)
    (sizes chunks : list string) (w w' : World) :
  NoDup (flat_map bucket_names (pairs_of sizes chunks)) ->
  (forall size chunk, size ∈ sizes -> chunk ∈ chunks ->
     measures w !! total_name size chunk = None) ->
  measureMultipartUploadCases E fuel sizes chunks w = Done tt w' ->
  (forall size chunk, size ∈ sizes -> chunk ∈ chunks ->
     balanced size chunk (measures w')
     /\ sampled (total_name size chunk) (measures w'))
  /\ (sizes <> [] -> chunks <> [] -> persisted w').
Proof.
  apply multipart_cases.
Qed.

Lemma multipart_cases_sampled_witness :
  exists w',
    measureMultipartUploadCases env_coarse 3 ["5m"; "10m"] ["5m"] world0
      = Done tt w'
    /\ (forall size chunk, size ∈ ["5m"; "10m"] -> chunk ∈ ["5m"] ->
          balanced size chunk (measures w')
          /\ sampled (total_name size chunk) (measures w'))
    /\ (["5m"; "10m"] <> [] -> ["5m"] <> [] -> persisted w').
Proof.
  eexists. split; [vm_compute; reflexivity|].
  apply (multipart_cases_sampled env_coarse 3 ["5m"; "10m"] ["5m"] world0).
  - apply distinct_NoDup. vm_compute. reflexivity.
  - intros size chunk _ _. apply lookup_empty.
  - vm_compute. reflexivity.
Defined.

(** ** Multipart scenarios, in general *)

Section MultipartGeneral.

Variable E : Env.

Lemma getFileOfSize_inr_iff (maxLength : Z) (b : number) (file : Buffer) :
  getFileOfSize maxLength b = inr file ->
  exists q, b = Fin q /\ (0 <= q)%Q /\ (q <= inject_Z maxLength)%Q
            /\ file = {| byteLength := Qfloor q |}.
Proof.
  destruct b as [| |q]; try discriminate. cbn.
  destruct (Qle_bool 0 q) eqn:H0; [|discriminate].
  destruct (Qle_bool q (inject_Z maxLength)) eqn:H1; [|discriminate].
  intros [= <-]. exists q. apply Qle_bool_iff in H0, H1. auto.
Qed.

Lemma rem_Fin (a b : number) (r : Q) :
  (a %% b)%num = Fin r ->
  exists p, a = Fin p
    /\ match b with
       | Fin q => ~ (q == 0)%Q /\ r = (p - q * inject_Z (Num.Qtrunc (p / q)))%Q
       | Inf _ => r = p
       | NaN => False
       end.
Proof.
  destruct a as [| |p]; destruct b as [| |q]; try discriminate; cbn.
  - intros [= <-]. exists p. auto.
  - destruct (q ?= 0)%Q eqn:Hq; try discriminate; intros [= <-]; exists p;
      (split; [reflexivity|]); (split; [|reflexivity]); intros H0;
      apply Qeq_alt in H0; congruence.
Qed.

End MultipartGeneral.

Lemma multipart_setup_sizes (E : Env) (size chunk : string)
    (w w' : World) (fx : Fixture) :
  multipart_setup E size chunk w = Done fx w' ->
  exists s c : Q,
    sizeToBytes size = inr (Fin s) /\ sizeToBytes chunk = inr (Fin c)
    /\ (0 < c)%Q /\ (c <= inject_Z (kMaxLength E))%Q
    /\ (0 <= s - c * inject_Z (Num.Qtrunc (s / c)))%Q
    /\ chunkData fx = {| byteLength := Qfloor c |}
    /\ lastChunkData fx
       = {| byteLength := Qfloor (s - c * inject_Z (Num.Qtrunc (s / c))) |}
    /\ history w' = history w.
Proof.
  intros H.
  apply multipart_setup_Done in H
    as (sb & cb & Hs & Hc & Hfile & Hlast & _ & _ & Hh & _).
  apply getFileOfSize_inr_iff in Hfile as (c & -> & Hc0 & Hcmax & Hfile).
  apply getFileOfSize_inr_iff in Hlast as (r & Hr & Hr0 & _ & Hlast).
  apply rem_Fin in Hr as (s & -> & Hnz & ->).
  exists s, c. split_and!; auto.
  apply Qle_lteq in Hc0 as [Hlt | Heq]; [exact Hlt|].
  exfalso. apply Hnz. symmetry. exact Heq.
Qed.

(** X10: the setup of a multipart scenario succeeds only if both sizes
    are finite numbers, the chunk size is positive and at most the
    maximal buffer length, and [size % chunk] is not negative; the part
    buffer then has [floor chunk] bytes and the last-part buffer
    [floor (size % chunk)] bytes, and no request has been made. *)
Theorem multipart_setup_checks_sizes (E : Env) (size chunk : string)
    (w w' : World) (fx : Fixture) :
  multipart_setup E size chunk w = Done fx w' ->
  exists s c : Q,
    sizeToBytes size = inr (Fin s) /\ sizeToBytes chunk = inr (Fin c)
    /\ (0 < c)%Q /\ (c <= inject_Z (kMaxLength E))%Q
    /\ (0 <= s - c * inject_Z (Num.Qtrunc (s / c)))%Q
    /\ chunkData fx = {| byteLength := Qfloor c |}
    /\ lastChunkData fx
       = {| byteLength := Qfloor (s - c * inject_Z (Num.Qtrunc (s / c))) |}
    /\ history w' = history w.
Proof.
  apply multipart_setup_sizes.
Qed.

Lemma multipart_setup_checks_sizes_witness :
  exists fx w',
    multipart_setup env0 "10m" "5m" world0 = Done fx w'
    /\ exists s c : Q,
         sizeToBytes "10m" = inr (Fin s) /\ sizeToBytes "5m" = inr (Fin c)
         /\ (0 < c)%Q /\ (c <= inject_Z (kMaxLength env0))%Q
         /\ (0 <= s - c * inject_Z (Num.Qtrunc (s / c)))%Q
         /\ chunkData fx = {| byteLength := Qfloor c |}
         /\ lastChunkData fx
            = {| byteLength := Qfloor (s - c * inject_Z (Num.Qtrunc (s / c))) |}
         /\ history w' = history world0.
Proof.
  eexists _, _. split; [vm_compute; reflexivity|].
  apply (multipart_setup_checks_sizes env0 "10m" "5m" world0).
  vm_compute. reflexivity.
Defined.

(** X11: a size that [sizeToBytes] rejects makes both loops throw its
    error, [Error("Invalid size ...")], at their first scenario: the
    multipart loop before anything has happened (the budget is computed
    before [measure] is called), the traditional loop after [measure] has
    created the scenario's entry and read the clock once. *)
Theorem size_without_unit_aborts (E : Env) (fuel : nat) (size chunk : string)
    (sizes chunks : list string) (e : exn) (w : World) :
  sizeToBytes size = inl e ->
  e = Error ("Invalid size " +:+ size)
  /\ measureMultipartUploadCases E fuel (size :: sizes) (chunk :: chunks) w
     = Throw e w
  /\ measureTraditionalUploadCases E fuel (size :: sizes) w
     = Throw e
         {| measures :=
              <["traditional-upload-" +:+ size :=
                  default [] (measures w !! ("traditional-upload-" +:+ size))]>
                (measures w);
            history := history w ++ [DateNow (now E (history w))] |}.
Proof.
  intros He. split_and!.
  - unfold sizeToBytes in He.
    destruct (Js.endsWith size "k"); [discriminate|].
    destruct (Js.endsWith size "m"); [discriminate|].
    destruct (Js.endsWith size "g"); [discriminate|].
    now injection He as <-.
  - unfold measureMultipartUploadCases. cbn [for_each].
    unfold bind, multipart_budget. rewrite He. reflexivity.
  - unfold measureTraditionalUploadCases. cbn [for_each].
    unfold bind at 1, measure, bind at 1. rewrite measure_samples_run.
    rewrite started_own by reflexivity.
    unfold traditional_setup, bind. cbn. rewrite He. reflexivity.
Qed.

Lemma size_without_unit_aborts_witness :
  Error "Invalid size 5" = Error ("Invalid size " +:+ "5")
  /\ measureMultipartUploadCases env0 3 ["5"; "10m"] ["5m"] world0
     = Throw (Error "Invalid size 5") world0
  /\ measureTraditionalUploadCases env0 3 ["5"; "10m"] world0
     = Throw (Error "Invalid size 5")
         {| measures :=
              <["traditional-upload-" +:+ "5" :=
                  default [] (measures world0 !! ("traditional-upload-" +:+ "5"))]>
                (measures world0);
            history := history world0 ++ [DateNow (now env0 (history world0))] |}.
Proof.
  apply (size_without_unit_aborts env0 3 "5" "5m" ["10m"] [] (Error "Invalid size 5")
           world0).
  reflexivity.
Defined.

(** X12: in a successful iteration the part numbers of the finalize call
    are the part numbers for which upload URLs were requested, in the
    same order, and these are 1, 2, ... up to the number of bodies that
    were sent. *)
Theorem finalize_numbers_parts_as_uploaded (E : Env) (fuel : nat)
    (size chunk : string) (fx : Fixture) (w w' : World) :
  multipart_fn E fuel size chunk fx w = Done tt w' ->
  exists seg parts,
    history w' = history w ++ seg
    /\ finalize_calls seg = [parts]
    /\ map snd parts = signed_parts seg
    /\ signed_parts seg = seqZ 1 (Z.of_nat (length (put_bodies seg))).
Proof.
  intros H.
  apply multipart_fn_Done in H
    as (h0 & h1 & out & key & uploadId & ps & t0 & t1 & t2 & t3 & l1 & l2
        & _ & _ & Hh & Hnum & _).
  destruct (iteration_contents key uploadId
              ("multipart-upload-" +:+ size +:+ "-" +:+ chunk)
              h0 h1 out ps t0 t1 t2 t3) as (_ & Hsigned & Hbodies & _ & Hfin).
  eexists _, _. split; [exact Hh|]. split; [exact Hfin|].
  rewrite Hsigned, Hbodies, length_map.
  assert (Hps : map part_number ps = seqZ 1 (Z.of_nat (length ps))).
  { apply list_eq. intros i. rewrite list_lookup_fmap.
    destruct (ps !! i) as [p|] eqn:Hp; cbn.
    - rewrite (Hnum i p Hp). symmetry. apply lookup_seqZ.
      apply lookup_lt_Some in Hp. split; lia.
    - symmetry. apply lookup_seqZ_ge. apply lookup_ge_None in Hp. lia. }
  split; [|exact Hps].
  apply list_eq. intros i. rewrite !list_lookup_fmap.
  unfold parts_of. rewrite list_lookup_imap, list_lookup_fmap.
  destruct (ps !! i) as [p|] eqn:Hp; cbn; [|reflexivity].
  rewrite (Hnum i p Hp). f_equal. lia.
Qed.

Lemma finalize_numbers_parts_as_uploaded_witness :
  exists w',
    multipart_fn env0 3 "10m" "5m" (fixture_of "10m" "5m" 5242880 0)
      (world_of "10m" "5m") = Done tt w'
    /\ exists seg parts,
         history w' = history (world_of "10m" "5m") ++ seg
         /\ finalize_calls seg = [parts]
         /\ map snd parts = signed_parts seg
         /\ signed_parts seg = seqZ 1 (Z.of_nat (length (put_bodies seg))).
Proof.
  eexists. split; [vm_compute; reflexivity|].
  apply (finalize_numbers_parts_as_uploaded env0 3 "10m" "5m"
           (fixture_of "10m" "5m" 5242880 0) (world_of "10m" "5m")).
  vm_compute. reflexivity.
Defined.

Section PartCount.

Variable E : Env.

Lemma gt_Fin (p q : Q) : Num.gt (Fin p) (Fin q) = true <-> (q < p)%Q.
Proof.
  unfold Num.gt, Num.cmp. rewrite Qgt_alt.
  destruct (p ?= q)%Q; split; congruence.
Qed.

Lemma gt_Fin_false (p q : Q) : Num.gt (Fin p) (Fin q) = false <-> (p <= q)%Q.
Proof.
  rewrite <- not_true_iff_false, gt_Fin. split.
  - apply Qnot_lt_le.
  - apply Qle_not_lt.
Qed.

Lemma gt_of_Z (a b : Z) : Num.gt (Num.of_Z a) (Num.of_Z b) = (b <? a).
Proof.
  unfold Num.of_Z. destruct (b <? a) eqn:H.
  - apply Z.ltb_lt in H. apply gt_Fin. now rewrite <- Zlt_Qlt.
  - apply Z.ltb_ge in H. apply gt_Fin_false. now rewrite <- Zle_Qle.
Qed.

(** What the loop leaves of [remainingBytes], for whole byte counts up
    to 2^53, where the subtraction is exact: the chunk size taken off
    once per pass, and no more than a chunk. *)
Lemma upload_chunks_remaining (chunk uploadId key : string) (data : Buffer)
    (C : Z) :
  sizeToBytes chunk = inr (Num.of_Z C) -> 0 <= C ->
  forall (fuel : nat) (r n : Z) (eTags : list string) (w w' : World)
         (st : number * Z * list string),
    r <= 2 ^ 53 ->
    upload_chunks E fuel chunk uploadId key data (Num.of_Z C) (Num.of_Z r)
      n eTags w = Done st w' ->
    exists r' : Z,
      fst (fst st) = Num.of_Z r'
      /\ r' = r - (snd (fst st) - n) * C
      /\ r' <= C
      /\ n <= snd (fst st)
      /\ (n < snd (fst st) -> 0 < r').
Proof.
  intros Hchunk HC. induction fuel as [|fuel IH];
    intros r n eTags w w' st Hr H;
    destruct (Num.gt (Num.of_Z r) (Num.of_Z C)) eqn:Hgt;
    rewrite gt_of_Z in Hgt.
  - cbn [upload_chunks] in H. rewrite gt_of_Z, Hgt in H. discriminate H.
  - rewrite upload_chunks_stop in H by (now rewrite gt_of_Z).
    apply ret_Done in H as [<- <-]. cbn [fst snd].
    exists r. apply Z.ltb_ge in Hgt. split_and!; auto with lia.
  - rewrite upload_chunks_step in H by (now rewrite gt_of_Z).
    apply bind_Done in H as (tag & w1 & _ & H). rewrite Hchunk in H.
    apply bind_Done in H as (step & w2 & Hstep & H).
    apply lift_Done in Hstep as [[= <-] ->].
    apply Z.ltb_lt in Hgt.
    rewrite sub_of_Z in H by lia.
    apply IH in H as (r' & Hst & Heq & Hle & Hn & Hpos); [|lia].
    exists r'. split_and!; auto with lia.
    intros _. destruct (Z.eq_dec (snd (fst st)) (n + 1)) as [Hone | Hmore].
    + rewrite Heq, Hone. lia.
    + apply Hpos. lia.
  - rewrite upload_chunks_stop in H by (now rewrite gt_of_Z).
    apply ret_Done in H as [<- <-]. cbn [fst snd].
    exists r. apply Z.ltb_ge in Hgt. split_and!; auto with lia.
Qed.

End PartCount.

Section PartTrace.

Variable E : Env.

Lemma multipart_fn_stages (fuel : nat) (size chunk : string) (fx : Fixture)
    (w w' : World) (u : unit) :
  multipart_fn E fuel size chunk fx w = Done u w' ->
  exists (remaining chunkSize : number) (out : InitiateOutput)
         (uploadId key : string) (h0 h1 : N * N) (t0 t1 t2 t3 : Z)
         (st : number * Z * list string) (w1 w2 w3 : World)
         (eTags : list string),
    sizeToBytes size = inr remaining /\ sizeToBytes chunk = inr chunkSize
    /\ history w1 = history w ++
         [ Hrtime (fst h0) (snd h0); Hrtime (fst h1) (snd h1);
           CreateMultipartUpload
             (key_of ("multipart-upload-" +:+ size +:+ "-" +:+ chunk)
                (fst h0) (snd h1)) (inr out) ]
    /\ upload_chunks E fuel chunk uploadId key (chunkData fx) chunkSize
         remaining 1 [] (record (DateNow t0) w1) = Done st w2
    /\ upload_last E uploadId key (lastChunkData fx) (fst (fst st))
         (snd (fst st)) (snd st) w2 = Done eTags w3
    /\ history w' = history w3 ++
         [ DateNow t1; DateNow t2;
           CompleteMultipartUpload key uploadId (parts_of eTags) (inr tt);
           DateNow t3 ].
Proof.
  unfold multipart_fn. intros H.
  apply bind_Done in H as (remaining & w2 & H1 & H).
  apply bind_Done in H as (chunkSize & w3 & H2 & H).
  apply bind_Done in H as (out & w4 & H3 & H).
  apply lift_Done in H1 as [H1 ->]. apply lift_Done in H2 as [H2 ->].
  apply initiateMultipart_Done in H3 as (h0 & h1 & Hh & _).
  destruct (truthy (UploadId out)) as [uploadId|]; [|discriminate H].
  destruct (truthy (Key out)) as [key|]; [|discriminate H].
  apply multipart_session_stages in H
    as (t0 & t1 & t2 & t3 & st & w5 & w6 & eTags & l1 & l2
        & Hloop & Hl & Hh' & _).
  exists remaining, chunkSize, out, uploadId, key, h0, h1, t0, t1, t2, t3,
    st, w4, w5, w6, eTags.
  split_and!; auto.
Qed.

Lemma bodies_replicate (ps : list PartUpload) (data : Buffer) :
  (forall i p, ps !! i = Some p -> part_body p = data) ->
  map part_body ps = replicate (length ps) data.
Proof.
  induction ps as [|p ps IH]; intros H; [reflexivity|]. cbn. f_equal.
  - exact (H 0%nat p eq_refl).
  - apply IH. intros i q Hq. exact (H (S i) q Hq).
Qed.

Lemma numbers_seqZ (ps : list PartUpload) (n : Z) :
  (forall i p, ps !! i = Some p -> part_number p = n + Z.of_nat i) ->
  map part_number ps = seqZ n (Z.of_nat (length ps)).
Proof.
  intros Hnum. apply list_eq. intros i. rewrite list_lookup_fmap.
  destruct (ps !! i) as [p|] eqn:Hp; cbn.
  - rewrite (Hnum i p Hp). symmetry. apply lookup_seqZ.
    apply lookup_lt_Some in Hp. split; lia.
  - symmetry. apply lookup_seqZ_ge. apply lookup_ge_None in Hp. lia.
Qed.

(** The part uploads of a successful iteration, whatever the sizes: the
    passes of the loop, then the last part when the loop has left
    something. *)
Lemma multipart_fn_trace (fuel : nat) (size chunk : string) (fx : Fixture)
    (w w' : World) (u : unit) :
  multipart_fn E fuel size chunk fx w = Done u w' ->
  exists (seg : list Event) (remaining chunkSize : number)
         (st : number * Z * list string) (w1 w2 : World)
         (uploadId key : string) (eTags : list string),
    sizeToBytes size = inr remaining /\ sizeToBytes chunk = inr chunkSize
    /\ upload_chunks E fuel chunk uploadId key (chunkData fx) chunkSize
         remaining 1 [] w1 = Done st w2
    /\ history w' = history w ++ seg
    /\ let k := Z.to_nat (snd (fst st) - 1) in
       let j := if Num.gt (fst (fst st)) (Num.of_Z 0) then 1%nat else 0%nat in
       put_bodies seg
       = replicate k (chunkData fx) ++ replicate j (lastChunkData fx)
       /\ signed_parts seg = seqZ 1 (Z.of_nat (k + j))
       /\ finalize_calls seg = [parts_of eTags]
       /\ length eTags = (k + j)%nat.
Proof.
  intros H.
  apply multipart_fn_stages in H
    as (remaining & chunkSize & out & uploadId & key & h0 & h1 & t0 & t1 & t2
        & t3 & st & w1 & w2 & w3 & eTags & Hs' & Hc' & Hh1 & Hloop & Hlast
        & Hh).
  pose proof Hloop as Hloop'.
  apply upload_chunks_Done in Hloop
    as (ps1 & Hh2 & _ & Htags1 & Hcount & Hps1 & _).
  apply upload_last_Done in Hlast as (ps2 & Hh3 & _ & Htags2 & Hps2 & Hlen2).
  exists ([ Hrtime (fst h0) (snd h0); Hrtime (fst h1) (snd h1);
            CreateMultipartUpload
              (key_of ("multipart-upload-" +:+ size +:+ "-" +:+ chunk)
                 (fst h0) (snd h1)) (inr out); DateNow t0 ]
          ++ concat (map (part_events key uploadId) ps1)
          ++ concat (map (part_events key uploadId) ps2)
          ++ [ DateNow t1; DateNow t2;
               CompleteMultipartUpload key uploadId (parts_of eTags) (inr tt);
               DateNow t3 ]),
    remaining, chunkSize, st, (record (DateNow t0) w1), w2, uploadId, key,
    eTags.
  split; [exact Hs'|]. split; [exact Hc'|]. split; [exact Hloop'|].
  split.
  { rewrite Hh, Hh3, Hh2. cbn [record history]. rewrite Hh1.
    rewrite <- !app_assoc. reflexivity. }
  cbv zeta. rewrite <- Hlen2.
  replace (Z.to_nat (snd (fst st) - 1)) with (length ps1) by lia.
  split_and!.
  - unfold put_bodies. rewrite !omap_app. cbn [omap app].
    fold (put_bodies (concat (map (part_events key uploadId) ps1))).
    fold (put_bodies (concat (map (part_events key uploadId) ps2))).
    rewrite !parts_bodies, app_nil_r.
    rewrite (bodies_replicate ps1 (chunkData fx)),
            (bodies_replicate ps2 (lastChunkData fx)); [reflexivity| |].
    + intros i p Hp. exact (proj2 (Hps2 i p Hp)).
    + intros i p Hp. exact (proj2 (Hps1 i p Hp)).
  - unfold signed_parts. rewrite !omap_app. cbn [omap app].
    fold (signed_parts (concat (map (part_events key uploadId) ps1))).
    fold (signed_parts (concat (map (part_events key uploadId) ps2))).
    rewrite !parts_signed, app_nil_r, <- map_app.
    rewrite <- length_app. apply numbers_seqZ.
    intros i p Hp. apply lookup_app_Some in Hp as [Hp | [Hge Hp]].
    + exact (proj1 (Hps1 i p Hp)).
    + rewrite (proj1 (Hps2 _ p Hp)), Hcount. lia.
  - unfold finalize_calls. rewrite !omap_app. cbn [omap app].
    fold (finalize_calls (concat (map (part_events key uploadId) ps1))).
    fold (finalize_calls (concat (map (part_events key uploadId) ps2))).
    rewrite !parts_no_finalize. reflexivity.
  - rewrite Htags2, Htags1. cbn [app].
    rewrite length_app, !length_map. reflexivity.
Qed.

(** The same for whole byte counts up to 2^53: [k] passes leave
    [S - k * C] bytes. *)
Lemma multipart_fn_parts (fuel : nat) (size chunk : string) (fx : Fixture)
    (S C : Z) (w w' : World) (u : unit) :
  sizeToBytes size = inr (Num.of_Z S) -> sizeToBytes chunk = inr (Num.of_Z C) ->
  0 <= C -> S <= 2 ^ 53 ->
  multipart_fn E fuel size chunk fx w = Done u w' ->
  exists (seg : list Event) (k : nat) (eTags : list string),
    history w' = history w ++ seg
    /\ S - Z.of_nat k * C <= C
    /\ (k <> 0%nat -> 0 < S - Z.of_nat k * C)
    /\ let j := if 0 <? S - Z.of_nat k * C then 1%nat else 0%nat in
       put_bodies seg
       = replicate k (chunkData fx) ++ replicate j (lastChunkData fx)
       /\ signed_parts seg = seqZ 1 (Z.of_nat (k + j))
       /\ finalize_calls seg = [parts_of eTags]
       /\ length eTags = (k + j)%nat.
Proof.
  intros Hs Hc HC HS H.
  apply multipart_fn_trace in H
    as (seg & remaining & chunkSize & st & w1 & w2 & uploadId & key & eTags
        & Hs' & Hc' & Hloop & Hh & Hrest).
  rewrite Hs in Hs'. rewrite Hc in Hc'.
  injection Hs' as <-. injection Hc' as <-.
  pose proof (upload_chunks_remaining E chunk uploadId key (chunkData fx) C
                Hc HC _ _ _ _ _ _ _ HS Hloop)
    as (r' & Hst & Heq & Hle & Hn & Hpos).
  cbv zeta in Hrest. rewrite Hst, gt_of_Z in Hrest.
  exists seg, (Z.to_nat (snd (fst st) - 1)), eTags.
  replace (Z.of_nat (Z.to_nat (snd (fst st) - 1))) with (snd (fst st) - 1)
    by lia.
  rewrite <- Heq. split_and!; auto; try apply Hrest.
  intros Hk. apply Hpos. lia.
Qed.

Lemma upload_chunks_terminates (chunk uploadId key : string) (data : Buffer)
    (C : Z) :
  sizeToBytes chunk = inr (Num.of_Z C) -> 0 <= C ->
  forall (fuel : nat) (r n : Z) (eTags : list string),
    r <= 2 ^ 53 -> r <= (Z.of_nat fuel + 1) * C ->
    terminates (upload_chunks E fuel chunk uploadId key data (Num.of_Z C)
                  (Num.of_Z r) n eTags).
Proof.
  intros Hchunk HC. induction fuel as [|fuel IH]; intros r n eTags Hb Hr;
    destruct (Num.gt (Num.of_Z r) (Num.of_Z C)) eqn:Hgt;
    try (rewrite upload_chunks_stop by exact Hgt; apply terminates_ret);
    rewrite gt_of_Z in Hgt; apply Z.ltb_lt in Hgt.
  - lia.
  - rewrite upload_chunks_step by (rewrite gt_of_Z; now apply Z.ltb_lt).
    apply terminates_bind; [apply terminates_multipartUpload|]. intros tag.
    rewrite Hchunk. apply terminates_bind_lift. intros step [= <-].
    rewrite sub_of_Z by lia. apply IH; lia.
Qed.

End PartTrace.

Lemma parts_needed_fuel (S C : Z) (fuel : nat) :
  0 < C -> parts_needed S C - 1 <= Z.of_nat fuel ->
  S <= (Z.of_nat fuel + 1) * C.
Proof.
  unfold parts_needed. intros HC Hf.
  pose proof (Z.div_mod (S + C - 1) C ltac:(lia)) as Hdiv.
  pose proof (Z.mod_pos_bound (S + C - 1) C HC) as Hmod. nia.
Qed.

Lemma parts_needed_unique (S C k : Z) :
  0 < C -> 0 < S - k * C -> S - k * C <= C -> parts_needed S C = k + 1.
Proof.
  unfold parts_needed. intros HC Hlo Hhi.
  symmetry. apply (Z.div_unique _ C (k + 1) (S - k * C - 1)); lia.
Qed.

(** The statement of X13. *)
Lemma multipart_parts (E : Env) (fuel : nat) (size chunk : string)
    (fx : Fixture) (S C : Z) :
  sizeToBytes size = inr (Num.of_Z S) -> sizeToBytes chunk = inr (Num.of_Z C) ->
  0 < C -> 0 < S -> S <= 2 ^ 53 ->
  (parts_needed S C - 1 <= Z.of_nat fuel ->
   terminates (multipart_fn E fuel size chunk fx))
  /\ forall w w',
       multipart_fn E fuel size chunk fx w = Done tt w' ->
       exists seg,
         history w' = history w ++ seg
         /\ put_bodies seg
            = replicate (Z.to_nat (parts_needed S C) - 1) (chunkData fx)
              ++ [lastChunkData fx]
         /\ signed_parts seg = seqZ 1 (parts_needed S C).
Proof.
  intros Hs Hc Hcpos Hspos Hb. split.
  - intros Hfuel. apply terminates_multipart_fn.
    intros remaining chunkSize uploadId key Hs' Hc'.
    rewrite Hs in Hs'. rewrite Hc in Hc'.
    injection Hs' as <-. injection Hc' as <-.
    apply (upload_chunks_terminates E chunk uploadId key (chunkData fx) C Hc);
      [lia | exact Hb |].
    now apply parts_needed_fuel.
  - intros w w' H.
    destruct (multipart_fn_parts E fuel size chunk fx S C w w' tt Hs Hc
                ltac:(lia) Hb H)
      as (seg & k & eTags & Hh & Hle & Hpos & Hbodies & Hn & _).
    assert (Hr : 0 < S - Z.of_nat k * C).
    { destruct k as [|k]; [cbn; lia | apply Hpos; lia]. }
    assert (Hceil : parts_needed S C = Z.of_nat k + 1)
      by now apply parts_needed_unique.
    assert (Hgt : (0 <? S - Z.of_nat k * C) = true) by now apply Z.ltb_lt.
    rewrite Hgt in Hbodies, Hn. exists seg. split; [exact Hh|].
    rewrite Hceil. split.
    + rewrite Hbodies.
      replace (Z.to_nat (Z.of_nat k + 1) - 1)%nat with k by lia.
      reflexivity.
    + rewrite Hn. f_equal. lia.
Qed.

(** X13: for whole byte counts, a size of [S > 0] up to 2^53 bytes and a
    chunk of [C > 0] bytes, an iteration with fuel for [S / C], rounded
    up, less one passes through the loop does not run out of fuel, and a
    successful iteration uploads [S / C], rounded up, parts, numbered
    from 1: all but the last with the chunk buffer, the last with the
    last-part buffer. *)
Theorem multipart_part_count (E : Env) (fuel : nat) (size chunk : string)
    (fx : Fixture) (S C : Z) :
  sizeToBytes size = inr (Num.of_Z S) -> sizeToBytes chunk = inr (Num.of_Z C) ->
  0 < C -> 0 < S -> S <= 2 ^ 53 ->
  (parts_needed S C - 1 <= Z.of_nat fuel ->
   terminates (multipart_fn E fuel size chunk fx))
  /\ forall w w',
       multipart_fn E fuel size chunk fx w = Done tt w' ->
       exists seg,
         history w' = history w ++ seg
         /\ put_bodies seg
            = replicate (Z.to_nat (parts_needed S C) - 1) (chunkData fx)
              ++ [lastChunkData fx]
         /\ signed_parts seg = seqZ 1 (parts_needed S C).
Proof. apply multipart_parts. Qed.

Lemma multipart_part_count_witness :
  (parts_needed 10485760 5242880 - 1 <= Z.of_nat 1 ->
   terminates (multipart_fn env0 1 "10m" "5m" (fixture_of "10m" "5m" 5242880 0)))
  /\ forall w w',
       multipart_fn env0 1 "10m" "5m" (fixture_of "10m" "5m" 5242880 0) w
         = Done tt w' ->
       exists seg,
         history w' = history w ++ seg
         /\ put_bodies seg
            = replicate (Z.to_nat (parts_needed 10485760 5242880) - 1)
                (chunkData (fixture_of "10m" "5m" 5242880 0))
              ++ [lastChunkData (fixture_of "10m" "5m" 5242880 0)]
         /\ signed_parts seg = seqZ 1 (parts_needed 10485760 5242880).
Proof.
  apply (multipart_part_count env0 1 "10m" "5m"
           (fixture_of "10m" "5m" 5242880 0) 10485760 5242880).
  - reflexivity.
  - reflexivity.
  - lia.
  - lia.
  - vm_compute. discriminate.
Defined.

(** X14: for a size of zero bytes or less a successful iteration uploads
    no part and finalizes the session with an empty part list. *)
Theorem empty_size_uploads_nothing (E : Env) (fuel : nat)
    (size chunk : string) (fx : Fixture) (s c : Q) (w w' : World) :
  sizeToBytes size = inr (Fin s) -> sizeToBytes chunk = inr (Fin c) ->
  (0 < c)%Q -> (s <= 0)%Q ->
  multipart_fn E fuel size chunk fx w = Done tt w' ->
  exists seg,
    history w' = history w ++ seg
    /\ put_bodies seg = [] /\ signed_parts seg = []
    /\ finalize_calls seg = [[]].
Proof.
  intros Hs Hc Hcpos Hsneg H.
  apply multipart_fn_trace in H
    as (seg & remaining & chunkSize & st & w1 & w2 & uploadId & key & eTags
        & Hs' & Hc' & Hloop & Hh & Hb & Hn & Hf & Hlen).
  rewrite Hs in Hs'. rewrite Hc in Hc'.
  injection Hs' as <-. injection Hc' as <-.
  assert (Hstop : Num.gt (Fin s) (Fin c) = false).
  { apply gt_Fin_false. apply (Qle_trans _ 0); [exact Hsneg|].
    now apply Qlt_le_weak. }
  rewrite upload_chunks_stop in Hloop by exact Hstop.
  apply ret_Done in Hloop as [<- _]. cbn [fst snd] in Hb, Hn, Hlen.
  assert (Hr : Num.gt (Fin s) (Num.of_Z 0) = false)
    by now apply (gt_Fin_false s 0).
  rewrite Hr in Hb, Hn, Hlen.
  exists seg. split_and!; auto.
  destruct eTags; [exact Hf | discriminate Hlen].
Qed.

Lemma empty_size_uploads_nothing_witness :
  exists w',
    multipart_fn env0 0 "0m" "5m" (fixture_of "0m" "5m" 5242880 0)
      (world_of "0m" "5m") = Done tt w'
    /\ exists seg,
         history w' = history (world_of "0m" "5m") ++ seg
         /\ put_bodies seg = [] /\ signed_parts seg = []
         /\ finalize_calls seg = [[]].
Proof.
  eexists. split; [vm_compute; reflexivity|].
  apply (empty_size_uploads_nothing env0 0 "0m" "5m"
           (fixture_of "0m" "5m" 5242880 0) 0 (5242880 # 1)
           (world_of "0m" "5m")).
  - reflexivity.
  - reflexivity.
  - reflexivity.
  - discriminate.
  - vm_compute. reflexivity.
Defined.

Lemma Qtrunc_positive (S C : Z) :
  0 < S -> 0 < C -> Num.Qtrunc (inject_Z S / inject_Z C) = S / C.
Proof.
  intros HS HC. unfold Num.Qtrunc, Num.Qsign_neg.
  assert (Hq : (0 < inject_Z S / inject_Z C)%Q).
  { apply Qlt_shift_div_l.
    - change 0%Q with (inject_Z 0). now rewrite <- Zlt_Qlt.
    - assert (H0 : (0 * inject_Z C == inject_Z 0)%Q) by ring.
      rewrite H0. now rewrite <- Zlt_Qlt. }
  apply Qgt_alt in Hq. rewrite Hq. symmetry. apply Zdiv_Qdiv.
Qed.

Lemma Qtrunc_comp (p q : Q) : (p == q)%Q -> Num.Qtrunc p = Num.Qtrunc q.
Proof.
  intros H. unfold Num.Qtrunc, Num.Qsign_neg.
  rewrite (Qcompare_comp p q H 0%Q 0%Q (Qeq_refl 0%Q)).
  rewrite (Qfloor_comp p q H), (Qceiling_comp p q H). reflexivity.
Qed.

Lemma bytes_replicate (k : nat) (b l : Buffer) :
  foldr Z.add 0 (map byteLength (replicate k b ++ [l]))
  = Z.of_nat k * byteLength b + byteLength l.
Proof.
  induction k as [|k IH]; [cbn; lia|].
  cbn [replicate app map foldr]. rewrite IH. lia.
Qed.

(** The statement of X15. *)
Lemma multipart_bytes (E : Env) (fuel : nat) (size chunk : string)
    (fx : Fixture) (S C : Z) (w0 w1 w w' : World) :
  sizeToBytes size = inr (Num.of_Z S) -> sizeToBytes chunk = inr (Num.of_Z C) ->
  0 < S -> S <= 2 ^ 53 ->
  multipart_setup E size chunk w0 = Done fx w1 ->
  multipart_fn E fuel size chunk fx w = Done tt w' ->
  exists seg,
    history w' = history w ++ seg
    /\ bytes_sent seg = if S mod C =? 0 then S - C else S.
Proof.
  intros Hs Hc HSpos Hb Hsetup H.
  apply multipart_setup_sizes in Hsetup
    as (s' & c' & Hs' & Hc' & Hcpos & _ & _ & Hchunk & Hlast & _).
  rewrite Hs in Hs'. rewrite Hc in Hc'.
  injection Hs' as <-. injection Hc' as <-.
  assert (HCpos : 0 < C).
  { change 0%Q with (inject_Z 0) in Hcpos.
    now rewrite <- Zlt_Qlt in Hcpos. }
  destruct (multipart_fn_parts E fuel size chunk fx S C w w' tt Hs Hc
              ltac:(lia) Hb H)
    as (seg & k & eTags & Hh & Hle & Hpos & Hbodies & _).
  assert (Hr : 0 < S - Z.of_nat k * C).
  { destruct k as [|k]; [cbn; lia | apply Hpos; lia]. }
  assert (Hgt : (0 <? S - Z.of_nat k * C) = true) by now apply Z.ltb_lt.
  rewrite Hgt in Hbodies. exists seg. split; [exact Hh|].
  unfold bytes_sent. rewrite Hbodies. cbn [replicate]. rewrite bytes_replicate.
  rewrite Hchunk, Hlast. cbn [byteLength].
  rewrite Qfloor_Z.
  assert (Hrem : (inject_Z S
                  - inject_Z C * inject_Z (Num.Qtrunc (inject_Z S / inject_Z C))
                  == inject_Z (S mod C))%Q).
  { rewrite Qtrunc_positive by assumption.
    rewrite Z.mod_eq by lia. unfold Zminus.
    rewrite inject_Z_plus, inject_Z_opp, inject_Z_mult. ring. }
  rewrite (Qfloor_comp _ _ Hrem), Qfloor_Z.
  pose proof (Z.mod_pos_bound S C HCpos) as Hbound.
  pose proof (Z.div_mod S C ltac:(lia)) as Hdiv.
  set (d := S / C) in *. set (m := S mod C) in *. set (n := Z.of_nat k) in *.
  destruct (m =? 0) eqn:Hz.
  - apply Z.eqb_eq in Hz.
    assert (Hd : d = n + 1).
    { assert (n < d) by nia. assert (d < n + 2) by nia. lia. }
    subst d. nia.
  - apply Z.eqb_neq in Hz.
    assert (Hd : d = n).
    { assert (n - 1 < d) by nia. assert (d < n + 1) by nia. lia. }
    subst d. nia.
Qed.

(** X15: for whole byte counts, a size of [S > 0] up to 2^53 bytes and
    a chunk of [C] bytes, with the buffers of the scenario's setup, the
    bodies of a successful iteration add up to [S] bytes when [C] does
    not divide [S], and to [S - C] bytes when it does: the last part is
    empty then. *)
Theorem multipart_bytes_sent (E : Env) (fuel : nat) (size chunk : string)
    (fx : Fixture) (S C : Z) (w0 w1 w w' : World) :
  sizeToBytes size = inr (Num.of_Z S) -> sizeToBytes chunk = inr (Num.of_Z C) ->
  0 < S -> S <= 2 ^ 53 ->
  multipart_setup E size chunk w0 = Done fx w1 ->
  multipart_fn E fuel size chunk fx w = Done tt w' ->
  exists seg,
    history w' = history w ++ seg
    /\ bytes_sent seg = if S mod C =? 0 then S - C else S.
Proof. apply multipart_bytes. Qed.

Lemma multipart_bytes_sent_witness :
  multipart_setup env0 "10m" "5m" world0
    = Done (fixture_of "10m" "5m" 5242880 0) (world_of "10m" "5m")
  /\ exists w',
       multipart_fn env0 1 "10m" "5m" (fixture_of "10m" "5m" 5242880 0)
         (world_of "10m" "5m") = Done tt w'
       /\ exists seg,
            history w' = history (world_of "10m" "5m") ++ seg
            /\ bytes_sent seg
               = if 10485760 mod 5242880 =? 0 then 10485760 - 5242880
                 else 10485760.
Proof.
  split; [vm_compute; reflexivity|].
  eexists. split; [vm_compute; reflexivity|].
  apply (multipart_bytes_sent env0 1 "10m" "5m"
           (fixture_of "10m" "5m" 5242880 0) 10485760 5242880
           world0 (world_of "10m" "5m") (world_of "10m" "5m")).
  - reflexivity.
  - reflexivity.
  - lia.
  - vm_compute. discriminate.
  - vm_compute. reflexivity.
  - vm_compute. reflexivity.
Defined.

Section Phases.

Variable E : Env.
Hypothesis clock : monotone_clock E.

Lemma multipart_session_clock (fuel : nat) (chunk : string) (fx : Fixture)
    (remaining chunkSize : number) (uploadId key : string) (w w' : World)
    (u : unit) :
  multipart_session E fuel chunk fx remaining chunkSize uploadId key w
    = Done u w' ->
  exists (su sc : Z) (l1 l2 : list Z),
    measures w !! uploadMeasure fx = Some l1
    /\ <[uploadMeasure fx := l1 ++ [su]]> (measures w)
         !! completeMeasure fx = Some l2
    /\ measures w' =
         <[completeMeasure fx := l2 ++ [sc]]>
           (<[uploadMeasure fx := l1 ++ [su]]> (measures w))
    /\ 0 <= su /\ 0 <= sc
    /\ su + sc <= now E (history w') - now E (history w).
Proof.
  unfold multipart_session. intros H.
  apply bind_Done in H as (t0 & w1 & H1 & H).
  apply bind_Done in H as (st & w2 & H2 & H).
  apply bind_Done in H as (eTags & w3 & H3 & H).
  apply bind_Done in H as (t1 & w4 & H4 & H).
  apply bind_Done in H as (u5 & w5 & H5 & H).
  apply bind_Done in H as (t2 & w6 & H6 & H).
  apply bind_Done in H as (u7 & w7 & H7 & H).
  apply bind_Done in H as (t3 & w8 & H8 & H).
  apply Date_now_Done in H1 as [Ht0 ->].
  apply upload_chunks_Done in H2 as (ps1 & Hh2 & Hm2 & _).
  apply upload_last_Done in H3 as (ps2 & Hh3 & Hm3 & _).
  apply Date_now_Done in H4 as [Ht1 ->].
  apply push_Done in H5 as (l1 & Hl1 & ->).
  apply Date_now_Done in H6 as [Ht2 ->].
  unfold completeMultipart in H7. apply await_Done in H7 as [_ ->].
  apply Date_now_Done in H8 as [Ht3 ->].
  apply push_Done in H as (l2 & Hl2 & ->).
  cbn [record measures history] in *.
  rewrite Hm3, Hm2 in *. cbn [record measures history] in *.
  set (h3 := history w3) in *.
  assert (H01 : t0 <= t1).
  { rewrite Ht0, Ht1. subst h3. rewrite Hh3, Hh2. cbn [record history].
    rewrite <- !app_assoc. apply clock. }
  assert (H12 : t1 <= t2) by (rewrite Ht1, Ht2; apply clock).
  assert (H23 : t2 <= t3).
  { rewrite Ht2, Ht3, <- app_assoc. apply clock. }
  assert (H3e : t3 <= now E (((h3 ++ [DateNow t1]) ++ [DateNow t2])
                             ++ [CompleteMultipartUpload key uploadId
                                   (parts_of eTags) (inr u7)]
                             ++ [DateNow t3])).
  { rewrite Ht3 at 1. rewrite (app_assoc _ _ [DateNow t3]). apply clock. }
  exists (t1 - t0), (t3 - t2), l1, l2. split_and!; auto; try lia.
  rewrite <- app_assoc in H3e. cbn [app] in H3e.
  rewrite <- Ht0. cbn [app]. rewrite <- !app_assoc. cbn [app].
  rewrite <- !app_assoc in H3e. cbn [app] in H3e. lia.
Qed.

End Phases.

Section PhasesTotal.

Variable E : Env.
Hypothesis clock : monotone_clock E.

Lemma multipart_fn_clock (fuel : nat) (size chunk : string) (fx : Fixture)
    (w w' : World) (u : unit) :
  multipart_fn E fuel size chunk fx w = Done u w' ->
  exists (su sc : Z) (l1 l2 : list Z),
    measures w !! uploadMeasure fx = Some l1
    /\ <[uploadMeasure fx := l1 ++ [su]]> (measures w)
         !! completeMeasure fx = Some l2
    /\ measures w' =
         <[completeMeasure fx := l2 ++ [sc]]>
           (<[uploadMeasure fx := l1 ++ [su]]> (measures w))
    /\ 0 <= su /\ 0 <= sc
    /\ su + sc <= now E (history w') - now E (history w).
Proof.
  unfold multipart_fn. intros H.
  apply bind_Done in H as (remaining & w2 & H1 & H).
  apply bind_Done in H as (chunkSize & w3 & H2 & H).
  apply bind_Done in H as (out & w4 & H3 & H).
  apply lift_Done in H1 as [_ ->]. apply lift_Done in H2 as [_ ->].
  apply initiateMultipart_Done in H3 as (h0 & h1 & Hh & Hm).
  destruct (truthy (UploadId out)) as [uploadId|]; [|discriminate H].
  destruct (truthy (Key out)) as [key|]; [|discriminate H].
  apply (multipart_session_clock E clock) in H
    as (su & sc & l1 & l2 & Hl1 & Hl2 & Hm' & Hsu & Hsc & Hle).
  rewrite Hm in Hl1, Hl2, Hm'.
  exists su, sc, l1, l2. split_and!; auto.
  pose proof (clock (history w)
                [ Hrtime (fst h0) (snd h0); Hrtime (fst h1) (snd h1);
                  CreateMultipartUpload
                    (key_of ("multipart-upload-" +:+ size +:+ "-" +:+ chunk)
                       (fst h0) (snd h1)) (inr out) ]) as Hc.
  rewrite <- Hh in Hc. lia.
Qed.

Lemma multipart_iteration_phases (fuel : nat) (size chunk : string)
    (fx : Fixture) (w w' : World) (u : unit) :
  uploadMeasure fx = upload_name size chunk ->
  completeMeasure fx = complete_name size chunk ->
  phases_within_total size chunk (measures w) ->
  sample_once E (total_name size chunk) (multipart_fn E fuel size chunk fx) w
    = Done u w' ->
  phases_within_total size chunk (measures w').
Proof.
  intros Hu Hc (lt & lu & lc & Hlt & Hlu & Hlc & Hall) H.
  destruct (bucket_names_distinct size chunk) as (Htu & Htc & Huc).
  unfold sample_once in H.
  apply bind_Done in H as (t & w1 & H1 & H).
  apply bind_Done in H as (u2 & w2 & H2 & H).
  apply bind_Done in H as (t' & w3 & H3 & H).
  apply Date_now_Done in H1 as [Ht ->].
  apply multipart_fn_clock in H2
    as (su & sc & l1 & l2 & Hl1 & Hl2 & Hm & Hsu & Hsc & Hle).
  apply Date_now_Done in H3 as [Ht' ->].
  apply push_clear_Done in H as (lt' & Hlt' & ->).
  rewrite Hu, Hc in *. cbn [record measures history] in *.
  rewrite Hm in Hlt'.
  rewrite lookup_insert_ne in Hlt' by congruence.
  rewrite lookup_insert_ne in Hlt' by congruence.
  rewrite lookup_insert_ne in Hl2 by congruence.
  assert (lt' = lt) as -> by congruence.
  assert (l1 = lu) as -> by congruence.
  assert (l2 = lc) as -> by congruence.
  exists (lt ++ [t' - t]), (lu ++ [su]), (lc ++ [sc]). split_and!.
  - apply lookup_insert_eq.
  - rewrite lookup_insert_ne by congruence. rewrite Hm.
    rewrite lookup_insert_ne by congruence. apply lookup_insert_eq.
  - rewrite lookup_insert_ne by congruence. rewrite Hm.
    apply lookup_insert_eq.
  - apply Forall3_app; [exact Hall|].
    constructor; [|constructor]. split_and!; auto.
    pose proof (clock (history w) [DateNow t]) as Hc0. lia.
Qed.

Lemma measure_samples_phases (fuel : nat) (size chunk : string)
    (maxTimeMs : Z) (w w' : World) (u : unit) :
  measures w !! total_name size chunk = None
  \/ measures w !! total_name size chunk = Some [] ->
  measure_samples E fuel (total_name size chunk)
    (multipart_run E fuel size chunk) maxTimeMs w = Done u w' ->
  phases_within_total size chunk (measures w').
Proof.
  intros Hempty H.
  destruct (bucket_names_distinct size chunk) as (Htu & Htc & Huc).
  apply measure_samples_start in H as (_ & _ & fx & w2 & Hs & H).
  rewrite started_own in Hs by reflexivity.
  assert (Hwi : <[total_name size chunk :=
                    default [] (measures w !! total_name size chunk)]>
                  (measures w) !! total_name size chunk = Some []).
  { rewrite lookup_insert_eq. destruct Hempty as [-> | ->]; reflexivity. }
  apply multipart_setup_Done in Hs
    as (sizeBytes & chunkBytes & _ & _ & _ & _ & Hu & Hc & _ & Hm).
  cbn [record measures] in Hm.
  apply (sampling_preserves E (phases_within_total size chunk)) in H;
    [exact H| |].
  - intros wa wb ub Hbal Hstep.
    exact (multipart_iteration_phases fuel size chunk fx wa wb ub
             Hu Hc Hbal Hstep).
  - exists [], [], []. rewrite Hm. split_and!.
    + rewrite !lookup_insert_ne by congruence. exact Hwi.
    + rewrite lookup_insert_ne by congruence. apply lookup_insert_eq.
    + apply lookup_insert_eq.
    + constructor.
Qed.

End PhasesTotal.

(** X16: under a clock that never goes back, in a multipart scenario that
    starts with an empty or missing total bucket, sample by sample the
    upload phase and the finalize phase took no negative time and
    together at most the time of the whole iteration. *)
Theorem phases_never_exceed_total (E : Env) (fuel : nat) (size chunk : string)
    (maxTimeMs : Z) (w w' : World) :
  monotone_clock E ->
  measures w !! total_name size chunk = None
  \/ measures w !! total_name size chunk = Some [] ->
  measure E fuel (total_name size chunk) (multipart_run E fuel size chunk)
    maxTimeMs w = Done tt w' ->
  phases_within_total size chunk (measures w').
Proof.
  intros Hclock Hempty H. unfold measure in H.
  apply bind_Done in H as (u1 & w1 & H1 & H).
  apply flush_measures in H. rewrite H.
  exact (measure_samples_phases E Hclock fuel size chunk maxTimeMs w w1 u1
           Hempty H1).
Qed.

Lemma phases_never_exceed_total_witness :
  exists w',
    measure env_coarse 3 (total_name "10m" "5m")
      (multipart_run env_coarse 3 "10m" "5m") 0 world0 = Done tt w'
    /\ phases_within_total "10m" "5m" (measures w').
Proof.
  eexists. split; [vm_compute; reflexivity|].
  apply (phases_never_exceed_total env_coarse 3 "10m" "5m" 0 world0).
  - intros h seg. cbn. unfold tick. rewrite length_app. lia.
  - left. reflexivity.
  - vm_compute. reflexivity.
Defined.

(** ** The reporter, in general *)

Section ReporterGeneral.

Import Chart.

Lemma byType0_empty (row size : string) :
  cell_value FullUploadStats.byType0 row size = None.
Proof.
  unfold cell_value, FullUploadStats.byType0. cbn [foldr chunk_sizes].
  repeat match goal with
  | |- context [<[?k := _]> _ !! row] =>
      destruct (decide (k = row)) as [<- | ?];
        [rewrite lookup_insert_eq; apply lookup_empty
        | rewrite lookup_insert_ne by assumption]
  end.
  rewrite lookup_empty. reflexivity.
Qed.

Lemma byType0_exact (row : string) :
  is_Some (FullUploadStats.byType0 !! row) <-> row ∈ upload_rows.
Proof.
  unfold FullUploadStats.byType0, upload_rows.
  cbn [foldr chunk_sizes map]. split.
  - repeat match goal with
    | |- is_Some (<[?k := _]> _ !! row) -> _ =>
        destruct (decide (k = row)) as [<- | ?];
          [intros _; repeat first [apply list_elem_of_here
                                  | apply list_elem_of_further]
          | rewrite lookup_insert_ne by assumption]
    end.
    rewrite lookup_empty. intros [x Hx]. discriminate Hx.
  - intros H.
    repeat (apply elem_of_cons in H as [-> | H];
            [repeat (first [rewrite lookup_insert_eq; eexists; reflexivity
                           | rewrite lookup_insert_ne by discriminate])|]).
    apply elem_of_nil in H. contradiction.
Qed.

Lemma set_cell_rows (row size : string) (v : number)
    (byType byType' : gmap string (gmap string number)) :
  FullUploadStats.set_cell row size v byType = inr byType' ->
  forall row', is_Some (byType' !! row') <-> is_Some (byType !! row').
Proof.
  unfold FullUploadStats.set_cell.
  destruct (byType !! row) as [cells|] eqn:Hrow; [|discriminate].
  intros [= <-] row'. destruct (decide (row = row')) as [<- | Hne].
  - rewrite lookup_insert_eq, Hrow. split; eauto.
  - rewrite lookup_insert_ne by assumption. reflexivity.
Qed.

Lemma set_cell_error (row size : string) (v : number)
    (byType : gmap string (gmap string number)) (e : exn) :
  FullUploadStats.set_cell row size v byType = inl e ->
  e = TypeError /\ byType !! row = None.
Proof.
  unfold FullUploadStats.set_cell.
  destruct (byType !! row); [discriminate|]. intros [= <-]. auto.
Qed.

(** The loop over the keys ends normally exactly when every key that is
    reported lies in a row that [byType] has; otherwise with a TypeError. *)
Lemma visit_all_outcome (results : Results) (keys : list string) :
  forall byType,
    (forall row, is_Some (byType !! row) <-> row ∈ upload_rows) ->
    match FullUploadStats.visit_all results keys byType with
    | inr byType' =>
        (forall row, is_Some (byType' !! row) <-> row ∈ upload_rows)
        /\ forall k row size,
             k ∈ keys -> cell_of k = Some (row, size) -> row ∈ upload_rows
    | inl e =>
        e = TypeError
        /\ exists k row size,
             k ∈ keys /\ cell_of k = Some (row, size) /\ row ∉ upload_rows
    end.
Proof.
  induction keys as [|k keys IH]; intros byType Hrows; cbn.
  - split; [exact Hrows|]. intros k row size Hk. apply elem_of_nil in Hk.
    contradiction.
  - rewrite visit_cell. destruct (cell_of k) as [[row size]|] eqn:Hcell.
    + destruct (FullUploadStats.set_cell row size _ byType)
        as [e|byType1] eqn:Hset.
      * apply set_cell_error in Hset as [-> Hnone]. split; [reflexivity|].
        exists k, row, size. split_and!; auto; [apply list_elem_of_here|].
        intros Hin. apply Hrows in Hin. rewrite Hnone in Hin.
        destruct Hin as [x Hx]. discriminate Hx.
      * pose proof (set_cell_rows _ _ _ _ _ Hset) as Hsame.
        assert (Hrows1 : forall row', is_Some (byType1 !! row')
                                      <-> row' ∈ upload_rows)
          by (intros row'; rewrite Hsame; apply Hrows).
        assert (Hrow : row ∈ upload_rows).
        { apply Hrows. unfold FullUploadStats.set_cell in Hset.
          destruct (byType !! row); [eauto | discriminate Hset]. }
        specialize (IH byType1 Hrows1).
        destruct (FullUploadStats.visit_all results keys byType1) as [e|byType'].
        -- destruct IH as [-> (k' & row' & size' & Hk' & Hc' & Hn')].
           split; [reflexivity|]. exists k', row', size'.
           split_and!; auto. now apply list_elem_of_further.
        -- destruct IH as [Hrows' Hall]. split; [exact Hrows'|].
           intros k' row' size' Hk' Hc'.
           apply elem_of_cons in Hk' as [-> | Hk'].
           ++ rewrite Hcell in Hc'. injection Hc' as <- <-. exact Hrow.
           ++ exact (Hall k' row' size' Hk' Hc').
    + specialize (IH byType Hrows).
      destruct (FullUploadStats.visit_all results keys byType) as [e|byType'].
      * destruct IH as [-> (k' & row' & size' & Hk' & Hc' & Hn')].
        split; [reflexivity|]. exists k', row', size'.
        split_and!; auto. now apply list_elem_of_further.
      * destruct IH as [Hrows' Hall]. split; [exact Hrows'|].
        intros k' row' size' Hk' Hc'.
        apply elem_of_cons in Hk' as [-> | Hk'].
        -- rewrite Hcell in Hc'. discriminate Hc'.
        -- exact (Hall k' row' size' Hk' Hc').
Qed.

Lemma upload_table (byType : gmap string (gmap string number)) (i j : nat)
    (row : string) :
  upload_rows !! i = Some row ->
  table_cell (FullUploadStats.tableValues (FullUploadStats.report byType)) 1 i j
  = FullUploadStats.tableFromRow (FullUploadStats.row_of byType row) !! j.
Proof.
  intros H.
  do 7 (destruct i as [|i]; [injection H as <-; reflexivity|]).
  discriminate H.
Qed.

Lemma upload_row_entry (byType : gmap string (gmap string number))
    (row size : string) (j : nat) :
  FullUploadStats.labels !! j = Some size ->
  FullUploadStats.dataFromRow (FullUploadStats.row_of byType row) !! j
  = Some (cell_value byType row size).
Proof.
  intros Hj. unfold FullUploadStats.dataFromRow.
  change (map ?f ?l) with (f <$> l). rewrite list_lookup_fmap, Hj. cbn.
  unfold cell_value, FullUploadStats.row_of.
  destruct (byType !! row); [reflexivity|]. cbn. now rewrite lookup_empty.
Qed.

Lemma upload_table_entry (byType : gmap string (gmap string number))
    (row size : string) (j : nat) :
  FullUploadStats.labels !! j = Some size ->
  FullUploadStats.tableFromRow (FullUploadStats.row_of byType row) !! j
  = Some (match cell_value byType row size with
          | Some x => Js.toFixed3 x
          | None => EmptyString
          end).
Proof.
  intros Hj. unfold FullUploadStats.tableFromRow.
  change (map ?f ?l) with (f <$> l).
  rewrite list_lookup_fmap, (upload_row_entry byType row size j Hj).
  reflexivity.
Qed.

End ReporterGeneral.

Section ReporterTheorems.

Import Chart.

(** X18: when [fullUploadStats] does not crash, the place of a key in the
    line chart holds the mean of the key's samples, and its table cell
    that mean with three decimals, provided no other key of the store is
    reported in the same cell. *)
Theorem fullUploadStats_reports_means (results : Results) (name : string)
    (report : FullUploadStats.Report) (row size : string) (i j : nat) :
  FullUploadStats.fullUploadStats results = inr report ->
  name ∈ map fst results ->
  cell_of name = Some (row, size) ->
  (forall k, k ∈ map fst results -> cell_of k = Some (row, size) -> k = name) ->
  upload_rows !! i = Some row ->
  FullUploadStats.labels !! j = Some size ->
  series_entry (FullUploadStats.upload_stats report) i j
  = Some (Some (amean (get results name)))
  /\ table_cell (FullUploadStats.tableValues report) 1 i j
     = Some (Js.toFixed3 (amean (get results name))).
Proof.
  unfold FullUploadStats.fullUploadStats. intros H Hin Hcell Hinj Hi Hj.
  destruct (FullUploadStats.visit_all results (map fst results)
              FullUploadStats.byType0) as [e|byType] eqn:Hvisit;
    [discriminate H|]. injection H as <-.
  pose proof (visit_all_value results name row size (map fst results) Hcell
                _ _ Hvisit Hin Hinj) as Hvalue.
  split.
  - rewrite (upload_series byType i j row Hi).
    exact (upload_data_entry byType row size j _ Hj Hvalue).
  - rewrite (upload_table byType i j row Hi),
            (upload_table_entry byType row size j Hj), Hvalue.
    reflexivity.
Qed.

Lemma fullUploadStats_reports_means_witness :
  exists report,
    FullUploadStats.fullUploadStats results_with_gaps = inr report
    /\ series_entry (FullUploadStats.upload_stats report) 0 2
       = Some (Some (amean (get results_with_gaps "traditional-upload-10m")))
    /\ table_cell (FullUploadStats.tableValues report) 1 0 2
       = Some (Js.toFixed3
                 (amean (get results_with_gaps "traditional-upload-10m"))).
Proof.
  eexists. split; [vm_compute; reflexivity|].
  apply (fullUploadStats_reports_means results_with_gaps
           "traditional-upload-10m" _ "traditional" "10m" 0 2).
  - vm_compute. reflexivity.
  - repeat first [apply list_elem_of_here | apply list_elem_of_further].
  - reflexivity.
  - intros k Hk Hc. cbn in Hk.
    repeat (apply elem_of_cons in Hk as [-> | Hk];
            [first [reflexivity | discriminate Hc]|]).
    apply elem_of_nil in Hk. contradiction.
  - reflexivity.
  - reflexivity.
Defined.

(** X19: when [fullUploadStats] does not crash and no key of the store is
    reported in a cell, the line chart has [null] at the place of the
    cell and the table an empty cell. *)
Theorem fullUploadStats_blank_without_key (results : Results)
    (report : FullUploadStats.Report) (row size : string) (i j : nat) :
  FullUploadStats.fullUploadStats results = inr report ->
  (forall k, k ∈ map fst results -> cell_of k <> Some (row, size)) ->
  upload_rows !! i = Some row ->
  FullUploadStats.labels !! j = Some size ->
  series_entry (FullUploadStats.upload_stats report) i j = Some None
  /\ table_cell (FullUploadStats.tableValues report) 1 i j = Some EmptyString.
Proof.
  unfold FullUploadStats.fullUploadStats. intros H Hnone Hi Hj.
  destruct (FullUploadStats.visit_all results (map fst results)
              FullUploadStats.byType0) as [e|byType] eqn:Hvisit;
    [discriminate H|]. injection H as <-.
  pose proof (visit_all_frame results row size (map fst results) _ _ Hvisit
                Hnone) as Hvalue.
  rewrite byType0_empty in Hvalue. split.
  - rewrite (upload_series byType i j row Hi),
            (upload_row_entry byType row size j Hj), Hvalue. reflexivity.
  - rewrite (upload_table byType i j row Hi),
            (upload_table_entry byType row size j Hj), Hvalue. reflexivity.
Qed.

Lemma fullUploadStats_blank_without_key_witness :
  exists report,
    FullUploadStats.fullUploadStats results_with_gaps = inr report
    /\ series_entry (FullUploadStats.upload_stats report) 0 0 = Some None
    /\ table_cell (FullUploadStats.tableValues report) 1 0 0
       = Some EmptyString.
Proof.
  eexists. split; [vm_compute; reflexivity|].
  apply (fullUploadStats_blank_without_key results_with_gaps _
           "traditional" "512k" 0 0).
  - vm_compute. reflexivity.
  - intros k Hk Hc. cbn in Hk.
    repeat (apply elem_of_cons in Hk as [-> | Hk]; [discriminate Hc|]).
    apply elem_of_nil in Hk. contradiction.
  - reflexivity.
  - reflexivity.
Defined.

(** X20: [fullUploadStats] crashes exactly when some key of the store
    that starts with upload-multipart-total names a chunk size for which
    [byType] has no row, and the crash is a TypeError. *)
Theorem fullUploadStats_crashes_on_unknown_row (results : Results) :
  match FullUploadStats.fullUploadStats results with
  | inr _ =>
      forall k row size,
        k ∈ map fst results -> cell_of k = Some (row, size) ->
        row ∈ upload_rows
  | inl e =>
      e = TypeError
      /\ exists k row size,
           k ∈ map fst results /\ cell_of k = Some (row, size)
           /\ row ∉ upload_rows
  end.
Proof.
  unfold FullUploadStats.fullUploadStats.
  pose proof (visit_all_outcome results (map fst results)
                FullUploadStats.byType0 byType0_exact) as H.
  destruct (FullUploadStats.visit_all results (map fst results)
              FullUploadStats.byType0) as [e|byType].
  - exact H.
  - exact (proj2 H).
Qed.

End ReporterTheorems.

Section DetailedGeneral.

Import Chart.

Lemma round64_not_NaN (q : Q) : Num.isNaN (Num.round64 q) = false.
Proof.
  unfold Num.round64.
  destruct (_ && _); [reflexivity|].
  destruct (Num.round64_pos _ _); reflexivity.
Qed.

Lemma sum_not_NaN (xs : list Z) :
  Forall (fun x => is_finite (sample x) = true) xs ->
  forall acc, Num.isNaN acc = false ->
    Num.isNaN (fold_left Num.add (map sample xs) acc) = false.
Proof.
  induction 1 as [|x xs Hx _ IH]; intros acc Hacc; [exact Hacc|].
  cbn [map fold_left]. apply IH.
  destruct (sample x) as [| |q]; try discriminate Hx.
  destruct acc as [| s |p]; try discriminate Hacc; [reflexivity|].
  apply round64_not_NaN.
Qed.

Lemma get_finite (results : Results) (key : string) (xs : list Z) :
  finite_samples results -> get results key = Some xs ->
  Forall (fun x => is_finite (sample x) = true) xs.
Proof.
  induction 1 as [|[k v] rest Hv _ IH]; [discriminate|].
  cbn [get]. destruct (String.eqb k key); [|exact IH].
  now intros [= <-].
Qed.

Lemma amean_missing (samples : option (list Z)) :
  samples = None \/ samples = Some [] -> Num.isNaN (amean samples) = true.
Proof. intros [-> | ->]; reflexivity. Qed.

(** Of samples that are finite doubles the mean is [NaN] only when there
    are none. *)
Lemma amean_NaN (results : Results) (key : string) :
  finite_samples results ->
  Num.isNaN (amean (get results key)) = true
  <-> get results key = None \/ get results key = Some [].
Proof.
  intros Hfin. split; [|apply amean_missing].
  destruct (get results key) as [[|x xs]|] eqn:Hget; auto.
  intros H. exfalso.
  pose proof (sum_not_NaN (x :: xs) (get_finite results key _ Hfin Hget)
                (Num.of_Z 0) eq_refl) as Hsum.
  unfold amean, Num.div in H.
  destruct (fold_left Num.add (map sample (x :: xs)) (Num.of_Z 0))
    as [| s |p]; try discriminate Hsum.
  - discriminate H.
  - unfold Num.of_Z in H.
    destruct (inject_Z (Z.of_nat (length (x :: xs))) ?= 0)%Q eqn:Hc.
    + apply Qeq_alt in Hc. unfold Qeq in Hc. cbn in Hc. lia.
    + now rewrite round64_not_NaN in H.
    + now rewrite round64_not_NaN in H.
Qed.

Lemma detailed_row_entry (results : Results) (chunk type size : string)
    (j : nat) :
  DetailedMultipartStats.labels !! j = Some size ->
  DetailedMultipartStats.dataFromRow results chunk type !! j
  = Some (amean (get results
                   (DetailedMultipartStats.phase_key type size chunk))).
Proof.
  intros Hj. unfold DetailedMultipartStats.dataFromRow.
  change (map ?f ?l) with (f <$> l). rewrite list_lookup_fmap, Hj.
  reflexivity.
Qed.

End DetailedGeneral.

(** X21: [processDetailedMultipartStats] gives, for every chunk size and
    size of its tables, the means of the upload phase and of the finalize
    phase, computed in JavaScript arithmetic, to the chart; when every
    sample of the store is a finite double, the table cell of a phase is
    empty exactly when the phase has no samples (no key in the store, or
    an empty list), and holds what [toFixed(3)] makes of the mean
    otherwise. *)
Theorem detailed_cell_blank_iff_no_samples (results : Chart.Results)
    (i j : nat) (chunk size : string) :
  finite_samples results ->
  Chart.chunk_sizes !! i = Some chunk ->
  Chart.DetailedMultipartStats.labels !! j = Some size ->
  let report :=
    Chart.DetailedMultipartStats.processDetailedMultipartStats results in
  let samples type :=
    Chart.get results (Chart.DetailedMultipartStats.phase_key type size chunk) in
  let missing type := samples type = None \/ samples type = Some [] in
  series_entry (Chart.DetailedMultipartStats.datasets report) (2 * i) j
    = Some (Chart.amean (samples "upload"))
  /\ series_entry (Chart.DetailedMultipartStats.datasets report) (2 * i + 1) j
     = Some (Chart.amean (samples "complete"))
  /\ table_cell (Chart.DetailedMultipartStats.tableData report) 2 (2 * i) j
     = Some (if decide (missing "upload") then EmptyString
             else Js.toFixed3 (Chart.amean (samples "upload")))
  /\ table_cell (Chart.DetailedMultipartStats.tableData report) 2 (2 * i + 1) j
     = Some (if decide (missing "complete") then EmptyString
             else Js.toFixed3 (Chart.amean (samples "complete"))).
Proof.
  intros Hfin Hi Hj report samples missing.
  destruct (detailed_places results i j chunk Hi) as (Hd1 & Hd2 & Ht1 & Ht2).
  fold report in Hd1, Hd2, Ht1, Ht2.
  assert (Hcell : forall type,
            Chart.DetailedMultipartStats.cell (Chart.amean (samples type))
            = if decide (missing type) then EmptyString
              else Js.toFixed3 (Chart.amean (samples type))).
  { intros type. unfold Chart.DetailedMultipartStats.cell.
    destruct (decide (missing type)) as [Hm | Hm].
    - apply amean_missing in Hm. now rewrite Hm.
    - destruct (Num.isNaN (Chart.amean (samples type))) eqn:Hn;
        [|reflexivity]. apply (amean_NaN results _ Hfin) in Hn.
      contradiction. }
  split_and!.
  - rewrite Hd1. exact (detailed_row_entry results chunk "upload" size j Hj).
  - rewrite Hd2. exact (detailed_row_entry results chunk "complete" size j Hj).
  - rewrite Ht1. change (map ?f ?l) with (f <$> l).
    rewrite list_lookup_fmap,
      (detailed_row_entry results chunk "upload" size j Hj).
    exact (f_equal Some (Hcell "upload")).
  - rewrite Ht2. change (map ?f ?l) with (f <$> l).
    rewrite list_lookup_fmap,
      (detailed_row_entry results chunk "complete" size j Hj).
    exact (f_equal Some (Hcell "complete")).
Qed.

Lemma detailed_cell_blank_iff_no_samples_witness :
  finite_samples results_with_gaps
  /\ let report :=
    Chart.DetailedMultipartStats.processDetailedMultipartStats
      results_with_gaps in
  let samples type :=
    Chart.get results_with_gaps
      (Chart.DetailedMultipartStats.phase_key type "5m" "25m") in
  let missing type := samples type = None \/ samples type = Some [] in
  series_entry (Chart.DetailedMultipartStats.datasets report) (2 * 1) 1
    = Some (Chart.amean (samples "upload"))
  /\ series_entry (Chart.DetailedMultipartStats.datasets report) (2 * 1 + 1) 1
     = Some (Chart.amean (samples "complete"))
  /\ table_cell (Chart.DetailedMultipartStats.tableData report) 2 (2 * 1) 1
     = Some (if decide (missing "upload") then EmptyString
             else Js.toFixed3 (Chart.amean (samples "upload")))
  /\ table_cell (Chart.DetailedMultipartStats.tableData report) 2 (2 * 1 + 1) 1
     = Some (if decide (missing "complete") then EmptyString
             else Js.toFixed3 (Chart.amean (samples "complete"))).
Proof.
  assert (Hfin : finite_samples results_with_gaps)
    by (repeat constructor).
  split; [exact Hfin|].
  apply (detailed_cell_blank_iff_no_samples results_with_gaps 1 1 "25m" "5m").
  - exact Hfin.
  - reflexivity.
  - reflexivity.
Defined.

(** ** Object keys *)

Lemma getKey_Done (E : Env) (base : string) (w w' : World) (k : string) :
  getKey E base w = Done k w' ->
  exists t0 t1 : N * N,
    k = key_of base (fst t0) (snd t1)
    /\ history w' = history w ++
         [Hrtime (fst t0) (snd t0); Hrtime (fst t1) (snd t1)].
Proof.
  unfold getKey, process_hrtime. intros H.
  apply bind_Done in H as (t0 & w1 & H0 & H).
  apply bind_Done in H as (t1 & w2 & H1 & H).
  apply ask_Done in H0 as [_ ->]. apply ask_Done in H1 as [_ ->].
  apply ret_Done in H as [<- <-].
  exists t0, t1. split; [reflexivity|]. cbn. now rewrite <- app_assoc.
Qed.

(** X17: two keys that [getKey] builds for the same base from readings
    in the same second differ as soon as their nanosecond readings
    differ. *)
Theorem getKey_distinct_within_second (E : Env) (base : string)
    (w1 w1' w2 w2' : World) (k1 k2 : string) (sec a1 b1 n1 a2 b2 n2 : N) :
  getKey E base w1 = Done k1 w1' ->
  getKey E base w2 = Done k2 w2' ->
  history w1' = history w1 ++ [Hrtime sec a1; Hrtime b1 n1] ->
  history w2' = history w2 ++ [Hrtime sec a2; Hrtime b2 n2] ->
  n1 <> n2 -> k1 <> k2.
Proof.
  intros H1 H2 Hh1 Hh2 Hn Hk.
  apply getKey_Done in H1 as (s1 & t1 & -> & Hh1').
  apply getKey_Done in H2 as (s2 & t2 & -> & Hh2').
  rewrite Hh1' in Hh1. rewrite Hh2' in Hh2.
  apply app_inv_head in Hh1, Hh2.
  injection Hh1 as Hs1 _ _ Ht1. injection Hh2 as Hs2 _ _ Ht2.
  rewrite Hs1, Hs2, Ht1, Ht2 in Hk. unfold key_of in Hk.
  do 3 apply String.app_inj in Hk. apply pretty_N_inj in Hk. contradiction.
Qed.

Lemma getKey_distinct_within_second_witness :
  exists w1' w2' k1 k2,
    getKey env0 "initiate-multipart-only" world0 = Done k1 w1'
    /\ getKey env0 "initiate-multipart-only" (record (DateNow 0) world0)
       = Done k2 w2'
    /\ k1 <> k2.
Proof.
  eexists _, _, _, _. split; [vm_compute; reflexivity|].
  split; [vm_compute; reflexivity|].
  eapply (getKey_distinct_within_second env0 "initiate-multipart-only"
            world0 _ (record (DateNow 0) world0) _ _ _ 7 0 7 1 1 7 2)%N.
  - vm_compute. reflexivity.
  - vm_compute. reflexivity.
  - reflexivity.
  - reflexivity.
  - discriminate.
Defined.

(** ** What the script sends *)

Section Emits.

Variable E : Env.
Variable P : Event -> Prop.
Hypothesis P_plain : forall ev, plain ev -> P ev.

Lemma emits_stay {A} (m : M A) :
  (forall w, match m w with
             | Done _ w' | Throw _ w' => history w' = history w
             | Timeout => True
             end) ->
  emits P m.
Proof.
  intros H w. specialize (H w).
  destruct (m w) as [a w'|e w'|]; auto;
    exists []; rewrite app_nil_r; auto.
Qed.

Lemma emits_ret {A} (a : A) : emits P (ret a).
Proof. apply emits_stay. intros w. reflexivity. Qed.

Lemma emits_throw {A} (e : exn) : emits P (throw e : M A).
Proof. apply emits_stay. intros w. reflexivity. Qed.

Lemma emits_lift {A} (r : exn + A) : emits P (lift r).
Proof. destruct r; [apply emits_throw | apply emits_ret]. Qed.

Lemma emits_push (name : string) (x : Z) : emits P (push name x).
Proof.
  apply emits_stay. intros w. unfold push, bind, samples, assign.
  destruct (measures w !! name); reflexivity.
Qed.

Lemma emits_assign (name : string) (l : list Z) : emits P (assign name l).
Proof. apply emits_stay. intros w. reflexivity. Qed.

Lemma emits_stdout_clear : emits P (stdout_clear E).
Proof.
  apply emits_stay. intros w. unfold stdout_clear.
  destruct (isTTY E); reflexivity.
Qed.

Lemma emits_summary (name : string) : emits P (summary E name).
Proof.
  apply emits_stay. intros w. unfold summary, bind, stdout_clear, samples.
  destruct (isTTY E); [|reflexivity]. cbn.
  destruct (measures w !! name); reflexivity.
Qed.

Lemma emits_init_samples (name : string) : emits P (init_samples name).
Proof.
  apply emits_stay. intros w. unfold init_samples.
  destruct (measures w !! name), (inherited name); reflexivity.
Qed.

Lemma emits_ask {R} (f : list Event -> R) (ev : R -> Event) :
  (forall r, P (ev r)) -> emits P (ask f ev).
Proof.
  intros H w. unfold ask. cbn. eexists. split; [reflexivity|].
  constructor; [apply H | constructor].
Qed.

Lemma emits_await {R} (f : list Event -> exn + R) (ev : exn + R -> Event) :
  (forall r, P (ev r)) -> emits P (await f ev).
Proof.
  intros H w. unfold await. cbn.
  destruct (f (history w)) as [e|r] eqn:Hf; cbn;
    (eexists; split; [reflexivity|]);
    (constructor; [apply H | constructor]).
Qed.

Lemma emits_bind_result {A B} (m : M A) (k : A -> M B) :
  emits P m ->
  (forall w a w', m w = Done a w' -> emits P (k a)) ->
  emits P (bind m k).
Proof.
  intros Hm Hk w. unfold bind. specialize (Hm w).
  destruct (m w) as [a w1|e w1|] eqn:Hmw; auto.
  destruct Hm as (seg1 & Hh1 & HP1).
  specialize (Hk w a w1 Hmw w1).
  destruct (k a w1) as [b w2|e w2|]; auto;
    destruct Hk as (seg2 & Hh2 & HP2);
    exists (seg1 ++ seg2); rewrite Hh2, Hh1, app_assoc;
    (split; [reflexivity | now apply Forall_app]).
Qed.

Lemma emits_bind {A B} (m : M A) (k : A -> M B) :
  emits P m -> (forall a, emits P (k a)) -> emits P (bind m k).
Proof. intros Hm Hk. apply emits_bind_result; auto. Qed.

Lemma emits_Date_now : emits P (Date_now E).
Proof. apply emits_ask. intros t. now apply P_plain. Qed.

Lemma emits_getKey (base : string) : emits P (getKey E base).
Proof.
  unfold getKey, process_hrtime.
  apply emits_bind; [apply emits_ask; intros t; now apply P_plain|]. intros t0.
  apply emits_bind; [apply emits_ask; intros t; now apply P_plain|]. intros t1.
  apply emits_ret.
Qed.

Lemma emits_getTraditionalPresignedUrl (prefix : string) :
  emits P (getTraditionalPresignedUrl E prefix).
Proof.
  unfold getTraditionalPresignedUrl.
  apply emits_bind; [apply emits_getKey|]. intros key.
  apply emits_await. intros r. now apply P_plain.
Qed.

Lemma emits_initiateMultipart (prefix : string) :
  (forall sec nsec r, P (CreateMultipartUpload (key_of prefix sec nsec) r)) ->
  emits P (initiateMultipart E prefix).
Proof.
  intros Hinit. unfold initiateMultipart.
  apply emits_bind_result; [apply emits_getKey|]. intros w key w' Hkey.
  apply getKey_Done in Hkey as (t0 & t1 & -> & _).
  apply emits_await. intros r. apply Hinit.
Qed.

Lemma emits_getMultipartPresignedUrl (key uploadId : string) (n : Z) :
  emits P (getMultipartPresignedUrl E key uploadId n).
Proof. apply emits_await. intros r. now apply P_plain. Qed.

Lemma emits_completeMultipart (uploadId key : string) (eTags : list string) :
  emits P (completeMultipart E uploadId key eTags).
Proof. apply emits_await. intros r. now apply P_plain. Qed.

Lemma emits_traditionalUpload (prefix : string) (file : Buffer) :
  (forall url r, P (HttpPut url file r)) ->
  emits P (traditionalUpload E prefix file).
Proof.
  intros Hput. unfold traditionalUpload, ky_put.
  apply emits_bind; [apply emits_getTraditionalPresignedUrl|]. intros url.
  apply emits_bind; [apply emits_await; apply Hput|]. intros _.
  apply emits_ret.
Qed.

Lemma emits_multipartUpload (uploadId key : string) (n : Z) (file : Buffer) :
  (forall url r, P (HttpPut url file r)) ->
  emits P (multipartUpload E uploadId key n file).
Proof.
  intros Hput. unfold multipartUpload, ky_put.
  apply emits_bind; [apply emits_getMultipartPresignedUrl|]. intros url.
  apply emits_bind; [apply emits_await; apply Hput|]. intros response.
  apply emits_ret.
Qed.

Lemma emits_listObjects : emits P (listObjects E).
Proof.
  unfold listObjects.
  apply emits_bind; [apply emits_await; intros r; now apply P_plain|].
  intros contents. apply emits_ret.
Qed.

Lemma emits_cleanup_loop (fuel : nat) :
  forall objects, emits P (cleanup_loop E fuel objects).
Proof.
  induction fuel as [|fuel IH]; intros [|o objects]; cbn [cleanup_loop];
    try apply emits_ret.
  - intros w. exact I.
  - apply emits_bind; [apply emits_await; intros r; now apply P_plain|].
    intros _. apply emits_bind; [apply emits_listObjects|]. exact IH.
Qed.

Lemma emits_cleanup (fuel : nat) : emits P (cleanup E fuel).
Proof.
  unfold cleanup. apply emits_bind; [apply emits_listObjects|].
  apply emits_cleanup_loop.
Qed.

Lemma emits_flush (fuel : nat) : emits P (flush E fuel).
Proof.
  unfold flush. apply emits_bind; [apply emits_cleanup|]. intros _ w.
  apply (emits_await (fun h => writeFile E h "results.json" (measures w))
           (WriteFile "results.json" (measures w))).
  intros r. now apply P_plain.
Qed.

Lemma emits_keep_sampling (name : string) (overallStart maxTimeMs : Z) :
  emits P (keep_sampling E name overallStart maxTimeMs).
Proof.
  unfold keep_sampling. apply emits_bind.
  - apply emits_stay. intros w. unfold samples_length.
    destruct (measures w !! name); [reflexivity|].
    destruct (inherited name); reflexivity.
  - intros len.
    destruct (match len with Some n => (n <? 3)%nat | None => false end);
      [apply emits_ret|].
    apply emits_bind; [apply emits_Date_now|]. intros t. apply emits_ret.
Qed.

Lemma emits_sample_once {R} (name : string) (action : M R) :
  emits P action -> emits P (sample_once E name action).
Proof.
  intros Ha. unfold sample_once.
  apply emits_bind; [apply emits_Date_now|]. intros start.
  apply emits_bind; [exact Ha|]. intros _.
  apply emits_bind; [apply emits_Date_now|]. intros stop.
  apply emits_bind; [apply emits_push|]. intros _.
  apply emits_stdout_clear.
Qed.

Lemma emits_sampling {R} (name : string) (action : M R)
    (overallStart maxTimeMs : Z) (fuel : nat) :
  emits P action ->
  emits P (sampling E fuel name action overallStart maxTimeMs).
Proof.
  intros Ha. induction fuel as [|fuel IH]; rewrite sampling_unfold;
    (apply emits_bind; [apply emits_keep_sampling|]);
    intros [|]; try apply emits_ret.
  - intros w. exact I.
  - apply emits_bind; [now apply emits_sample_once|]. intros _. exact IH.
Qed.

Lemma emits_measure (fuel : nat) (name : string) (run : Run) (maxTimeMs : Z) :
  match run with
  | WithSetup setup fn =>
      emits P setup /\ forall w res w', setup w = Done res w' -> emits P (fn res)
  | NoSetup fn => emits P fn
  end ->
  emits P (measure E fuel name run maxTimeMs).
Proof.
  intros Hrun. unfold measure, measure_samples.
  apply emits_bind; [|intros _; apply emits_flush].
  apply emits_bind; [apply emits_init_samples|].
  intros _. apply emits_bind; [apply emits_Date_now|]. intros overallStart.
  destruct run as [T R setup fn | R fn].
  - destruct Hrun as [Hs Hfn]. apply emits_bind_result; [exact Hs|].
    intros w res w' Hres.
    apply emits_bind; [|intros _; apply emits_summary].
    apply emits_sampling. exact (Hfn w res w' Hres).
  - apply emits_bind; [|intros _; apply emits_summary].
    now apply emits_sampling.
Qed.

Lemma emits_for_each {A} (l : list A) (body : A -> M unit) :
  (forall x, x ∈ l -> emits P (body x)) -> emits P (for_each l body).
Proof.
  induction l as [|x l IH]; intros Hbody; cbn [for_each];
    [apply emits_ret|].
  apply emits_bind; [apply Hbody, list_elem_of_here|]. intros _.
  apply IH. intros y Hy. now apply Hbody, list_elem_of_further.
Qed.

End Emits.

Section EmitsScenarios.

Variable E : Env.
Variable P : Event -> Prop.
Hypothesis P_plain : forall ev, plain ev -> P ev.
Hypothesis P_init : forall key r, P (CreateMultipartUpload key r).

Lemma emits_upload_chunks (chunk uploadId key : string) (data : Buffer)
    (chunkSize : number) (fuel : nat) :
  (forall url r, P (HttpPut url data r)) ->
  forall remaining n eTags,
    emits P (upload_chunks E fuel chunk uploadId key data chunkSize
               remaining n eTags).
Proof.
  intros Hput. induction fuel as [|fuel IH]; intros remaining n eTags;
    cbn [upload_chunks]; destruct (Num.gt remaining chunkSize);
    try apply emits_ret.
  - intros w. exact I.
  - apply emits_bind; [now apply emits_multipartUpload|]. intros tag.
    apply emits_bind; [apply emits_lift|]. intros step. apply IH.
Qed.

Lemma emits_upload_last (uploadId key : string) (data : Buffer)
    (remaining : number) (n : Z) (eTags : list string) :
  (forall url r, P (HttpPut url data r)) ->
  emits P (upload_last E uploadId key data remaining n eTags).
Proof.
  intros Hput. unfold upload_last.
  destruct (Num.gt remaining (Num.of_Z 0)); [|apply emits_ret].
  apply emits_bind; [now apply emits_multipartUpload|]. intros tag.
  apply emits_ret.
Qed.

Lemma emits_multipart_session (fuel : nat) (chunk : string) (fx : Fixture)
    (remaining chunkSize : number) (uploadId key : string) :
  (forall url r, P (HttpPut url (chunkData fx) r)) ->
  (forall url r, P (HttpPut url (lastChunkData fx) r)) ->
  emits P (multipart_session E fuel chunk fx remaining chunkSize uploadId key).
Proof.
  intros Hchunk Hlast. unfold multipart_session.
  apply emits_bind; [now apply emits_Date_now|]. intros start.
  apply emits_bind; [now apply emits_upload_chunks|]. intros st.
  apply emits_bind; [now apply emits_upload_last|]. intros eTags.
  apply emits_bind; [now apply emits_Date_now|]. intros stop.
  apply emits_bind; [apply emits_push|]. intros _.
  apply emits_bind; [now apply emits_Date_now|]. intros start'.
  apply emits_bind; [now apply emits_completeMultipart|]. intros _.
  apply emits_bind; [now apply emits_Date_now|]. intros stop'.
  apply emits_push.
Qed.

Lemma emits_multipart_fn (fuel : nat) (size chunk : string) (fx : Fixture) :
  (forall url r, P (HttpPut url (chunkData fx) r)) ->
  (forall url r, P (HttpPut url (lastChunkData fx) r)) ->
  emits P (multipart_fn E fuel size chunk fx).
Proof.
  intros Hchunk Hlast. unfold multipart_fn.
  apply emits_bind; [apply emits_lift|]. intros remaining.
  apply emits_bind; [apply emits_lift|]. intros chunkSize.
  apply emits_bind; [apply emits_initiateMultipart; auto|]. intros out.
  destruct (truthy (UploadId out)) as [uploadId|]; [|apply emits_throw].
  destruct (truthy (Key out)) as [key|]; [|apply emits_throw].
  now apply emits_multipart_session.
Qed.

Lemma emits_multipart_setup (size chunk : string) :
  emits P (multipart_setup E size chunk).
Proof.
  apply emits_stay. intros w. unfold multipart_setup, bind.
  destruct (sizeToBytes chunk) as [e|c]; [reflexivity|]. cbn.
  destruct (getFileOfSize (kMaxLength E) c) as [e|file]; [reflexivity|]. cbn.
  destruct (sizeToBytes size) as [e|s]; [reflexivity|]. cbn.
  destruct (getFileOfSize (kMaxLength E) (s %% c)%num) as [e|file'];
    reflexivity.
Qed.

Lemma emits_traditional_setup (size : string) :
  emits P (traditional_setup E size).
Proof.
  unfold traditional_setup. apply emits_bind; [apply emits_lift|].
  intros bytes. apply emits_lift.
Qed.

Lemma emits_presign_setup : emits P (presign_setup E).
Proof.
  unfold presign_setup.
  apply emits_bind; [apply emits_initiateMultipart; auto|]. intros out.
  destruct (truthy (Key out)); [|apply emits_throw].
  destruct (truthy (UploadId out)); [apply emits_ret | apply emits_throw].
Qed.

End EmitsScenarios.

Section Sweeps.

Variable E : Env.

Lemma bind_assoc {A B C} (m : M A) (k : A -> M B) (h : B -> M C) (w : World) :
  bind (bind m k) h w = bind m (fun a => bind (k a) h) w.
Proof. unfold bind. destruct (m w); reflexivity. Qed.

Lemma bind_ext {A B} (m : M A) (k k' : A -> M B) (w : World) :
  (forall a w', k a w' = k' a w') -> bind m k w = bind m k' w.
Proof. intros H. unfold bind. destruct (m w); auto. Qed.

Lemma run_sweep (fuel : nat) (w : World) :
  run E fuel w
  = (sweep E fuel ;; await (deleteBucket E) DeleteBucket) w.
Proof.
  unfold run, sweep, scenarios. symmetry.
  do 7 (rewrite bind_assoc; apply bind_ext; intros ? ?).
  reflexivity.
Qed.

Variable P : Event -> Prop.
Hypothesis P_plain : forall ev, plain ev -> P ev.
Hypothesis P_init : forall key r, P (CreateMultipartUpload key r).
Hypothesis P_put : forall url body r, P (HttpPut url body r).

Lemma emits_measureTraditionalUploadCases (fuel : nat) (sizes : list string) :
  emits P (measureTraditionalUploadCases E fuel sizes).
Proof.
  unfold measureTraditionalUploadCases. apply emits_for_each. intros size _.
  apply emits_measure; [exact P_plain|]. split.
  - now apply emits_traditional_setup.
  - intros w file w' _. apply emits_traditionalUpload; auto.
Qed.

Lemma emits_measureMultipartUploadCases (fuel : nat)
    (sizes chunks : list string) :
  emits P (measureMultipartUploadCases E fuel sizes chunks).
Proof.
  unfold measureMultipartUploadCases. apply emits_for_each. intros size _.
  apply emits_for_each. intros chunk _.
  apply emits_bind; [apply emits_lift|]. intros budget.
  apply emits_measure; [exact P_plain|]. split.
  - now apply emits_multipart_setup.
  - intros w fx w' _. apply emits_multipart_fn; auto.
Qed.

Lemma emits_scenarios (fuel : nat) : emits P (scenarios E fuel).
Proof.
  unfold scenarios.
  apply emits_bind; [|intros _].
  { apply emits_measure; [exact P_plain|].
    now apply emits_getTraditionalPresignedUrl. }
  apply emits_bind; [|intros _].
  { apply emits_measure; [exact P_plain|].
    apply emits_initiateMultipart; auto. }
  apply emits_bind; [|intros _].
  { apply emits_measure; [exact P_plain|]. split.
    - now apply emits_presign_setup.
    - intros w res w' _. now apply emits_getMultipartPresignedUrl. }
  apply emits_bind; [apply emits_measureTraditionalUploadCases|]. intros _.
  apply emits_bind; [apply emits_measureMultipartUploadCases|]. intros _.
  apply emits_bind; [apply emits_measureMultipartUploadCases|]. intros _.
  now apply emits_cleanup.
Qed.

Lemma emits_sweep (fuel : nat) :
  (forall r, P (CreateBucket r)) -> emits P (sweep E fuel).
Proof.
  intros P_create. unfold sweep.
  apply emits_bind; [now apply emits_await|]. intros _.
  apply emits_scenarios.
Qed.

End Sweeps.

(** ** Initiation answers without a session *)

Section Guarded.

Variable E : Env.

















End Guarded.



(** The third initiation of the script, that of the bare initiation
    micro-benchmark (l.300-304), is not among the checked ones: against a
    service that leaves the [UploadId] out of exactly its answers, three
    such answers arrive, nothing is thrown, and the sweep goes on to its
    next scenario. *)
Lemma bare_initiation_is_not_checked :
  match
    (await (createBucket env_bare_no_session) CreateBucket ;;
     measure env_bare_no_session 3 "get-traditional-presigned-url"
       (NoSetup (getTraditionalPresignedUrl env_bare_no_session
                   "traditional-presigned-url-only"))
       1000 ;;
     measure env_bare_no_session 3 "initiate-multipart-only"
       (initiate_only env_bare_no_session) 1000) world0
  with
  | Done _ w =>
      List.filter lacks_session (initiation_outputs (history w))
      = [ {| UploadId := None; Key := Some "initiate-multipart-only/723" |};
          {| UploadId := None; Key := Some "initiate-multipart-only/728" |};
          {| UploadId := None; Key := Some "initiate-multipart-only/733" |} ]
      /\ measures w !! "initiate-multipart-only" = Some [4000; 4000; 4000]
  | _ => False
  end.
Proof. vm_compute. split; reflexivity. Qed.

(** X22: [run] requests the deletion of the bucket only as its very last
    action: a sweep that ends normally ends with the one successful
    deletion request, and in a sweep that ends with an exception the
    bucket has never been deleted. *)
Theorem bucket_deleted_last_or_never (E : Env) (fuel : nat) (w : World) :
  match run E fuel w with
  | Done _ w' =>
      exists seg,
        history w' = history w ++ seg ++ [DeleteBucket (inr tt)]
        /\ Forall keeps_bucket seg
  | Throw _ w' =>
      exists seg, history w' = history w ++ seg /\ Forall keeps_bucket seg
  | Timeout => True
  end.
Proof.
  rewrite run_sweep. unfold bind.
  pose proof (emits_sweep E keeps_bucket) as Hsweep.
  specialize (Hsweep ltac:(intros [] Hev; try discriminate; destruct Hev)
                     ltac:(discriminate) ltac:(discriminate) fuel
                     ltac:(discriminate) w).
  destruct (sweep E fuel w) as [u w1|e w1|]; auto.
  destruct Hsweep as (seg & Hh & Hseg).
  unfold await. destruct (deleteBucket E (history w1)) as [e|[]]; cbn.
  - exists (seg ++ [DeleteBucket (inl e)]). rewrite Hh, app_assoc.
    split; [reflexivity|]. apply Forall_app. split; [exact Hseg|].
    constructor; [discriminate | constructor].
  - exists seg. rewrite Hh, app_assoc. auto.
Qed.

Lemma failed_sweep_example :
  exists w',
    run env_coarse_no_session 3 world0
      = Throw (Error "Key or UploadId is undefined") w'
    /\ Forall keeps_bucket (history w').
Proof.
  eexists. split; [vm_compute; reflexivity|].
  repeat (constructor; [discriminate|]). constructor.
Qed.

Lemma put_bodies_Forall (P : Event -> Prop) (Q : Buffer -> Prop)
    (seg : list Event) :
  (forall url body r, P (HttpPut url body r) -> Q body) ->
  Forall P seg -> Forall Q (put_bodies seg).
Proof.
  intros HPQ. induction 1 as [|ev seg Hev _ IH]; [constructor|].
  destruct ev; cbn; try exact IH. constructor; [|exact IH]. eauto.
Qed.

(** X23: however [measureTraditionalUploadCases] ends, every body that it
    has PUT has [floor (sizeToBytes size)] bytes for one of the sizes of
    its list. *)
Theorem traditional_uploads_have_the_size (E : Env) (fuel : nat)
    (sizes : list string) (w : World) :
  match measureTraditionalUploadCases E fuel sizes w with
  | Done _ w' | Throw _ w' =>
      exists seg,
        history w' = history w ++ seg
        /\ Forall (sized_by sizes) (put_bodies seg)
  | Timeout => True
  end.
Proof.
  set (P := fun ev => match ev with
                      | HttpPut _ body _ => sized_by sizes body
                      | _ => True
                      end).
  assert (HP : forall ev, plain ev -> P ev) by (intros [] Hev; first [exact I | destruct Hev]).
  assert (H : emits P (measureTraditionalUploadCases E fuel sizes)).
  { unfold measureTraditionalUploadCases. apply emits_for_each. intros size Hsize.
    apply emits_measure; [exact HP|]. split.
    - now apply emits_traditional_setup.
    - intros v file v' Hsetup. unfold traditional_setup in Hsetup.
      apply bind_Done in Hsetup as (bytes & v1 & Hb & Hfile).
      apply lift_Done in Hb as [Hb ->]. apply lift_Done in Hfile as [Hfile _].
      apply getFileOfSize_inr_iff in Hfile as (s & -> & _ & _ & ->).
      apply emits_traditionalUpload; [exact HP|].
      intros url r. exists size, s. auto. }
  specialize (H w).
  destruct (measureTraditionalUploadCases E fuel sizes w) as [u w'|e w'|];
    auto; destruct H as (seg & Hh & Hseg); exists seg;
    (split; [exact Hh|]); apply (put_bodies_Forall P); auto.
Qed.

Lemma cleanup_loop_stuck (E : Env) :
  (forall h, exists o objects, listObjectsV2 E h = inr (Some (o :: objects))) ->
  (forall h objects, exists u, deleteObjects E h objects = inr u) ->
  forall fuel o objects w, cleanup_loop E fuel (o :: objects) w = Timeout.
Proof.
  intros Hlist Hdelete. induction fuel as [|fuel IH]; intros o objects w;
    [reflexivity|].
  cbn [cleanup_loop]. unfold bind at 1, await.
  destruct (Hdelete (history w) (o :: objects)) as [u ->].
  unfold bind at 1, listObjects, bind, await.
  destruct (Hlist (history (record (DeleteObjects (o :: objects) (inr u)) w)))
    as (o' & objects' & ->).
  cbn. apply IH.
Qed.

(** X24: [cleanup] has no bound on its rounds: against a bucket whose
    listing never becomes empty although every deletion request is
    answered, it does not return, whatever the fuel. *)
Theorem cleanup_never_gives_up (E : Env) (fuel : nat) (w : World) :
  (forall h, exists o objects, listObjectsV2 E h = inr (Some (o :: objects))) ->
  (forall h objects, exists u, deleteObjects E h objects = inr u) ->
  cleanup E fuel w = Timeout.
Proof.
  intros Hlist Hdelete. unfold cleanup, bind at 1, listObjects, bind, await.
  destruct (Hlist (history w)) as (o & objects & ->). cbn.
  now apply cleanup_loop_stuck.
Qed.

Lemma cleanup_never_gives_up_witness :
  cleanup env_stuck 1000 world0 = Timeout.
Proof.
  apply (cleanup_never_gives_up env_stuck 1000 world0).
  - intros h. eexists _, _. reflexivity.
  - intros h objects. exists tt. reflexivity.
Defined.

(** ** The sweep runs to its end *)

Section Completion.

Variable E : Env.
Variable d : Z.
Hypothesis service : answering E.
Hypothesis ticking : clock_step E d.
Hypothesis d_nonneg : 0 <= d.

Lemma clock_advances (h seg : list Event) :
  now E h + d * Z.of_nat (length seg) <= now E (h ++ seg).
Proof.
  induction seg as [|ev seg IH] using rev_ind.
  - rewrite app_nil_r. cbn. lia.
  - rewrite app_assoc, length_app. cbn [length].
    pose proof (ticking (h ++ seg) ev). lia.
Qed.

Lemma clock_monotone : monotone_clock E.
Proof.
  intros h seg. pose proof (clock_advances h seg). nia.
Qed.

Lemma clock_moves (h seg : list Event) :
  seg <> [] -> now E h + d <= now E (h ++ seg).
Proof.
  intros Hne. pose proof (clock_advances h seg).
  destruct seg as [|ev seg]; [contradiction|]. cbn [length] in H. nia.
Qed.

Lemma steady_bind {A B} (m : M A) (k : A -> M B) :
  steady m -> (forall a, steady (k a)) -> steady (bind m k).
Proof.
  intros Hm Hk w. destruct (Hm w) as (a & w1 & seg1 & H1 & Hm1 & Hh1 & Hne1).
  destruct (Hk a w1) as (b & w2 & seg2 & H2 & Hm2 & Hh2 & Hne2).
  exists b, w2, (seg1 ++ seg2). unfold bind. rewrite H1.
  split_and!; auto; try congruence.
  - rewrite Hh2, Hh1, app_assoc. reflexivity.
  - destruct seg1; [contradiction | discriminate].
Qed.

Lemma steady_ret {A B} (m : M A) (f : A -> B) :
  steady m -> steady (let! a := m in ret (f a)).
Proof.
  intros Hm w. destruct (Hm w) as (a & w1 & seg1 & H1 & Hm1 & Hh1 & Hne1).
  exists (f a), w1, seg1. unfold bind. rewrite H1. auto.
Qed.

Lemma steady_ask {R} (f : list Event -> R) (ev : R -> Event) :
  steady (ask f ev).
Proof.
  intros w. eexists _, _, [_]. split; [reflexivity|].
  split_and!; auto; discriminate.
Qed.

Lemma steady_await {R} (f : list Event -> exn + R) (ev : exn + R -> Event) :
  (forall h, exists r, f h = inr r) -> steady (await f ev).
Proof.
  intros Hf w. destruct (Hf (history w)) as [r Hr].
  exists r, (record (ev (inr r)) w), [ev (inr r)]. unfold await.
  rewrite Hr. split_and!; auto; discriminate.
Qed.

Lemma steady_getKey (base : string) : steady (getKey E base).
Proof.
  unfold getKey, process_hrtime.
  apply steady_bind; [apply steady_ask|]. intros t0.
  apply steady_ret. apply steady_ask.
Qed.

Lemma steady_getTraditionalPresignedUrl (prefix : string) :
  steady (getTraditionalPresignedUrl E prefix).
Proof.
  unfold getTraditionalPresignedUrl.
  apply steady_bind; [apply steady_getKey|]. intros key.
  apply steady_await. intros h. apply (answers_signPutObject E service).
Qed.

Lemma key_of_nonempty (base : string) (sec nsec : N) :
  key_of base sec nsec <> EmptyString.
Proof.
  unfold key_of. destruct base; discriminate.
Qed.

Lemma initiateMultipart_answers (prefix : string) (w : World) :
  exists out w' seg,
    initiateMultipart E prefix w = Done out w'
    /\ lacks_session out = false
    /\ measures w' = measures w
    /\ history w' = history w ++ seg /\ seg <> [].
Proof.
  unfold initiateMultipart.
  destruct (steady_getKey prefix w) as (key & w1 & seg & Hk & Hm & Hh & Hne).
  rewrite (bind_step _ _ _ _ _ Hk). unfold await.
  assert (Hkey : key <> EmptyString).
  { apply getKey_Done in Hk as (t0 & t1 & -> & _). apply key_of_nonempty. }
  destruct (answers_createMultipartUpload E service (history w1) key Hkey)
    as (out & -> & Hout).
  exists out, (record (CreateMultipartUpload key (inr out)) w1),
    (seg ++ [CreateMultipartUpload key (inr out)]).
  split_and!; auto.
  - cbn. rewrite Hh, app_assoc. reflexivity.
  - destruct seg; discriminate.
Qed.

Lemma steady_initiateMultipart (prefix : string) :
  steady (initiateMultipart E prefix).
Proof.
  intros w.
  destruct (initiateMultipart_answers prefix w)
    as (out & w' & seg & H & _ & Hm & Hh & Hne).
  eauto 10.
Qed.

Lemma steady_getMultipartPresignedUrl (key uploadId : string) (n : Z) :
  steady (getMultipartPresignedUrl E key uploadId n).
Proof.
  apply steady_await. intros h. apply (answers_signUploadPart E service).
Qed.

Lemma steady_ky_put (url : string) (body : Buffer) :
  steady (ky_put E url body).
Proof.
  apply steady_await. intros h. apply (answers_httpPut E service).
Qed.

Lemma steady_traditionalUpload (prefix : string) (file : Buffer) :
  steady (traditionalUpload E prefix file).
Proof.
  unfold traditionalUpload.
  apply steady_bind; [apply steady_getTraditionalPresignedUrl|]. intros url.
  apply (steady_ret (ky_put E url file) (fun _ => tt)). apply steady_ky_put.
Qed.

Lemma steady_multipartUpload (uploadId key : string) (n : Z) (file : Buffer) :
  steady (multipartUpload E uploadId key n file).
Proof.
  unfold multipartUpload.
  apply steady_bind; [apply steady_getMultipartPresignedUrl|]. intros url.
  apply steady_ret. apply steady_ky_put.
Qed.

Lemma steady_completeMultipart (uploadId key : string) (eTags : list string) :
  steady (completeMultipart E uploadId key eTags).
Proof.
  apply steady_await. intros h.
  apply (answers_completeMultipartUpload E service).
Qed.

Lemma steady_Date_now : steady (Date_now E).
Proof. apply steady_ask. Qed.

End Completion.

Section SamplerCompletion.

Variable E : Env.
Variable d : Z.
Hypothesis service : answering E.
Hypothesis ticking : clock_step E d.
Hypothesis d_nonneg : 0 <= d.

Hypothesis terminal : isTTY E = true.

Variable I : gmap string (list Z) -> Prop.
Variable name : string.
Hypothesis I_name : forall m l, I m -> I (<[name := l]> m).
Hypothesis own_name : inherited name = None.

Lemma sample_once_completes {R} (action : M R) (w : World) (l : list Z) :
  action_ok I name action ->
  I (measures w) -> measures w !! name = Some l ->
  exists w' x,
    sample_once E name action w = Done tt w'
    /\ I (measures w') /\ measures w' !! name = Some (l ++ [x])
    /\ now E (history w) + d <= now E (history w').
Proof.
  intros Hact HI Hl.
  destruct (Hact (record (DateNow (now E (history w))) w) l HI Hl)
    as (a & wa & seg & Ha & HIa & Hla & Hha & Hne).
  exists {| measures :=
              <[name := l ++ [now E (history wa) - now E (history w)]]>
                (measures wa);
            history := history wa ++ [DateNow (now E (history wa))] |},
    (now E (history wa) - now E (history w)).
  split_and!.
  - unfold sample_once.
    rewrite (bind_step (Date_now E) _ w _ _ eq_refl).
    rewrite (bind_step _ _ _ _ _ Ha).
    rewrite (bind_step (Date_now E) _ wa _ _ eq_refl).
    unfold push, bind, samples. cbn [record measures]. rewrite Hla.
    cbn. apply (stdout_clear_Done E terminal).
  - cbn. now apply I_name.
  - cbn. apply lookup_insert_eq.
  - cbn. rewrite Hha. cbn. rewrite <- !app_assoc.
    apply (clock_moves E d ticking d_nonneg). discriminate.
Qed.

Lemma sampling_completes {R} (action : M R) (overallStart maxTimeMs : Z) :
  action_ok I name action ->
  forall (fuel : nat) (w : World) (l : list Z),
    I (measures w) -> measures w !! name = Some l ->
    (3 <= length l + fuel)%nat ->
    maxTimeMs <= now E (history w) - overallStart + Z.of_nat fuel * d ->
    exists w',
      (sampling E fuel name action overallStart maxTimeMs ;; summary E name) w
        = Done tt w'
      /\ I (measures w') /\ is_Some (measures w' !! name).
Proof.
  intros Hact. induction fuel as [|fuel IH]; intros w l HI Hl H3 Hb;
    unfold bind at 1; rewrite sampling_unfold;
    pose proof (keep_sampling_rule E name overallStart maxTimeMs w l Hl) as Hk;
    rewrite (bind_step _ _ _ _ _ Hk); clear Hk;
    set (w1 := if (length l <? 3)%nat then w
               else record (DateNow (now E (history w))) w);
    assert (Hl1 : measures w1 !! name = Some l)
      by (subst w1; destruct (length l <? 3)%nat; exact Hl);
    assert (HI1 : I (measures w1))
      by (subst w1; destruct (length l <? 3)%nat; exact HI);
    assert (Hnow1 : now E (history w) <= now E (history w1))
      by (subst w1; destruct (length l <? 3)%nat;
          [lia | apply (clock_monotone E d ticking d_nonneg)]);
    clearbody w1;
    destruct (spec_continue (length l) (now E (history w) - overallStart)
                maxTimeMs) eqn:Hc;
    unfold spec_continue in Hc;
    try (exists w1; cbn [ret]; rewrite (summary_Done E name terminal w1 l Hl1);
         split_and!; eauto; fail).
  - exfalso. apply orb_true_iff in Hc as [Hc | Hc].
    + apply Nat.ltb_lt in Hc. lia.
    + apply Z.ltb_lt in Hc. lia.
  - destruct (sample_once_completes action w1 l Hact HI1 Hl1)
      as (w2 & x & Hs & HI2 & Hl2 & Hadv).
    rewrite (bind_step _ _ _ _ _ Hs).
    apply (IH w2 (l ++ [x])); auto.
    + rewrite length_app. cbn. lia.
    + lia.
Qed.

Lemma cleanup_completes (fuel : nat) (w : World) :
  (1 <= fuel)%nat ->
  exists w', cleanup E fuel w = Done tt w' /\ measures w' = measures w.
Proof.
  intros Hfuel. unfold cleanup, bind at 1, listObjects, bind at 1, await.
  destruct (answers_listObjectsV2 E service (history w)) as [contents ->].
  cbn. destruct (default [] contents) as [|o objects].
  - exists (record (ListObjectsV2 (inr contents)) w).
    destruct fuel; auto.
  - destruct fuel as [|fuel]; [lia|]. cbn [cleanup_loop].
    unfold bind at 1, await.
    destruct (answers_deleteObjects E service
                (history (record (ListObjectsV2 (inr contents)) w))
                (o :: objects)) as [u ->].
    unfold bind at 1, listObjects, bind at 1, await.
    destruct (answers_listObjectsV2 E service
                (history (record (DeleteObjects (o :: objects) (inr u))
                            (record (ListObjectsV2 (inr contents)) w))))
      as [contents' Hc'].
    rewrite Hc'. cbn.
    rewrite (deletion_empties E service _ _ _ _ Hc').
    eexists. split; [destruct fuel; reflexivity | reflexivity].
Qed.

Lemma flush_completes (fuel : nat) (w : World) :
  (1 <= fuel)%nat ->
  exists w', flush E fuel w = Done tt w'.
Proof.
  intros Hfuel. unfold flush.
  destruct (cleanup_completes fuel w Hfuel) as (w1 & Hc & _).
  rewrite (bind_step _ _ _ _ _ Hc). unfold await.
  destruct (answers_writeFile E service (history w1) "results.json"
              (measures w1)) as [[] ->].
  eauto.
Qed.

Lemma measure_completes_with {T R} (setup : M T) (fn : T -> M R)
    (fuel : nat) (maxTimeMs : Z) (w : World) :
  (forall w l, measures w !! name = Some l ->
     exists res w' seg,
       setup w = Done res w'
       /\ I (measures w') /\ measures w' !! name = Some l
       /\ history w' = history w ++ seg
       /\ action_ok I name (fn res)) ->
  (3 <= fuel)%nat -> maxTimeMs <= Z.of_nat fuel * d ->
  exists w', measure E fuel name (WithSetup setup fn) maxTimeMs w = Done tt w'.
Proof.
  intros Hsetup H3 Hb. unfold measure.
  unfold bind at 1. rewrite measure_samples_run.
  rewrite (started_own E name w own_name).
  set (wi := record _ _).
  destruct (Hsetup wi (default [] (measures w !! name)))
    as (res & w2 & seg & Hs & HI2 & Hl2 & Hh2 & Hact).
  { subst wi. cbn. apply lookup_insert_eq. }
  unfold bind at 1. rewrite Hs.
  destruct (sampling_completes (fn res) (now E (history w)) maxTimeMs Hact
              fuel w2 _ HI2 Hl2) as (w3 & Hrun & _); [lia| |].
  { rewrite Hh2. subst wi. cbn. rewrite <- app_assoc.
    pose proof (clock_monotone E d ticking d_nonneg (history w)
                  ([DateNow (now E (history w))] ++ seg)). lia. }
  rewrite Hrun. apply flush_completes. lia.
Qed.

Lemma measure_completes {R} (fn : M R) (fuel : nat) (maxTimeMs : Z)
    (w : World) :
  I (measures w) -> action_ok I name fn ->
  (3 <= fuel)%nat -> maxTimeMs <= Z.of_nat fuel * d ->
  exists w', measure E fuel name (NoSetup fn) maxTimeMs w = Done tt w'.
Proof.
  intros HI Hact H3 Hb. unfold measure.
  unfold bind at 1. rewrite measure_samples_run.
  rewrite (started_own E name w own_name).
  set (wi := record _ _).
  destruct (sampling_completes fn (now E (history w)) maxTimeMs Hact
              fuel wi (default [] (measures w !! name)))
    as (w3 & Hrun & _).
  - subst wi. cbn. now apply I_name.
  - subst wi. cbn. apply lookup_insert_eq.
  - lia.
  - subst wi. cbn.
    pose proof (clock_monotone E d ticking d_nonneg (history w)
                  [DateNow (now E (history w))]). lia.
  - rewrite Hrun. apply flush_completes. lia.
Qed.

End SamplerCompletion.

Section ScenarioCompletion.

Variable E : Env.
Variable d : Z.
Hypothesis service : answering E.
Hypothesis ticking : clock_step E d.
Hypothesis d_nonneg : 0 <= d.

Lemma steady_action_ok {R} (I : gmap string (list Z) -> Prop) (name : string)
    (action : M R) :
  steady action -> action_ok I name action.
Proof.
  intros Hs w l HI Hl. destruct (Hs w) as (a & w' & seg & H & Hm & Hh & Hne).
  exists a, w', seg. rewrite Hm. auto.
Qed.

Lemma lacks_session_false (out : InitiateOutput) :
  lacks_session out = false ->
  exists uploadId key,
    truthy (UploadId out) = Some uploadId /\ truthy (Key out) = Some key.
Proof.
  unfold lacks_session.
  destruct (truthy (UploadId out)) as [uploadId|]; [|discriminate].
  destruct (truthy (Key out)) as [key|]; [|discriminate]. eauto.
Qed.

Lemma getFileOfSize_mono (K0 K : Z) (b : number) (file : Buffer) :
  K0 <= K -> getFileOfSize K0 b = inr file -> getFileOfSize K b = inr file.
Proof.
  intros HK. destruct b as [| |q]; try discriminate. cbn.
  destruct (Qle_bool 0 q); [|discriminate]. cbn.
  destruct (Qle_bool q (inject_Z K0)) eqn:H0; [|discriminate].
  apply Qle_bool_iff in H0.
  assert (H1 : Qle_bool q (inject_Z K) = true).
  { apply Qle_bool_iff. apply (Qle_trans _ _ _ H0). now rewrite <- Zle_Qle. }
  now rewrite H1.
Qed.

Lemma upload_chunks_completes (chunk uploadId key : string) (data : Buffer)
    (C : Z) :
  sizeToBytes chunk = inr (Num.of_Z C) -> 0 <= C ->
  forall (fuel : nat) (r n : Z) (eTags : list string) (w : World),
    r <= 2 ^ 53 -> r <= (Z.of_nat fuel + 1) * C ->
    exists st w' seg,
      upload_chunks E fuel chunk uploadId key data (Num.of_Z C) (Num.of_Z r)
        n eTags w = Done st w'
      /\ measures w' = measures w /\ history w' = history w ++ seg.
Proof.
  intros Hchunk HC. induction fuel as [|fuel IH]; intros r n eTags w Hb Hr;
    destruct (Num.gt (Num.of_Z r) (Num.of_Z C)) eqn:Hgt;
    try (rewrite upload_chunks_stop by exact Hgt;
         eexists _, w, []; rewrite app_nil_r; split_and!; reflexivity);
    pose proof Hgt as Hlt; rewrite gt_of_Z in Hlt; apply Z.ltb_lt in Hlt.
  - lia.
  - rewrite upload_chunks_step by exact Hgt.
    destruct (steady_multipartUpload E service uploadId key n data w)
      as (tag & w1 & seg1 & H1 & Hm1 & Hh1 & _).
    rewrite (bind_step _ _ _ _ _ H1). rewrite Hchunk.
    rewrite (bind_step (lift (inr (Num.of_Z C))) _ w1 w1 (Num.of_Z C) eq_refl).
    rewrite sub_of_Z by lia.
    destruct (IH (r - C) (n + 1) (eTags ++ [tag]) w1)
      as (st & w2 & seg2 & H2 & Hm2 & Hh2); [lia | lia |].
    exists st, w2, (seg1 ++ seg2). split_and!; auto; try congruence.
    rewrite Hh2, Hh1, app_assoc. reflexivity.
Qed.

Lemma upload_last_completes (uploadId key : string) (data : Buffer)
    (remaining : number) (n : Z) (eTags : list string) (w : World) :
  exists eTags' w' seg,
    upload_last E uploadId key data remaining n eTags w = Done eTags' w'
    /\ measures w' = measures w /\ history w' = history w ++ seg.
Proof.
  unfold upload_last. destruct (Num.gt remaining (Num.of_Z 0)).
  - destruct (steady_multipartUpload E service uploadId key n data w)
      as (tag & w1 & seg1 & H1 & Hm1 & Hh1 & _).
    rewrite (bind_step _ _ _ _ _ H1). eexists _, w1, seg1. auto.
  - eexists _, w, []. rewrite app_nil_r. auto.
Qed.

Lemma push_completes (name : string) (x : Z) (w : World) :
  is_Some (measures w !! name) ->
  exists l,
    push name x w
    = Done tt {| measures := <[name := l]> (measures w);
                 history := history w |}.
Proof.
  intros [l Hl]. exists (l ++ [x]). unfold push, bind, samples.
  rewrite Hl. reflexivity.
Qed.

Lemma multipart_fn_completes (fuel : nat) (size chunk : string)
    (fx : Fixture) (S C : Z) (name : string) :
  sizeToBytes size = inr (Num.of_Z S) -> sizeToBytes chunk = inr (Num.of_Z C) ->
  0 <= C -> S <= 2 ^ 53 -> S <= (Z.of_nat fuel + 1) * C ->
  name <> uploadMeasure fx -> name <> completeMeasure fx ->
  action_ok (phase_buckets fx) name (multipart_fn E fuel size chunk fx).
Proof.
  intros Hs Hc HC Hbound Hfuel Hnu Hnc w l [Hup Hcomp] Hl.
  unfold multipart_fn. rewrite Hs, Hc.
  rewrite (bind_step (lift (inr (Num.of_Z S))) _ w w (Num.of_Z S) eq_refl).
  rewrite (bind_step (lift (inr (Num.of_Z C))) _ w w (Num.of_Z C) eq_refl).
  destruct (initiateMultipart_answers E service
              ("multipart-upload-" +:+ size +:+ "-" +:+ chunk) w)
    as (out & w1 & seg1 & H1 & Hout & Hm1 & Hh1 & Hne1).
  rewrite (bind_step _ _ _ _ _ H1).
  apply lacks_session_false in Hout as (uploadId & key & -> & ->).
  unfold multipart_session.
  rewrite (bind_step (Date_now E) _ w1 _ _ eq_refl).
  destruct (upload_chunks_completes chunk uploadId key (chunkData fx) C Hc HC
              fuel S 1 [] (record (DateNow (now E (history w1))) w1)
              Hbound Hfuel)
    as (st & w2 & seg2 & H2 & Hm2 & Hh2).
  rewrite (bind_step _ _ _ _ _ H2).
  destruct (upload_last_completes uploadId key (lastChunkData fx)
              (fst (fst st)) (snd (fst st)) (snd st) w2)
    as (eTags & w3 & seg3 & H3 & Hm3 & Hh3).
  rewrite (bind_step _ _ _ _ _ H3).
  rewrite (bind_step (Date_now E) _ w3 _ _ eq_refl).
  assert (Hm : measures w3 = measures w)
    by (rewrite Hm3, Hm2; cbn; exact Hm1).
  set (stop := now E (history w3)).
  set (start := now E (history w1)).
  destruct (push_completes (uploadMeasure fx) (stop - start)
              (record (DateNow stop) w3)) as [lu Hpu].
  { cbn. rewrite Hm. exact Hup. }
  rewrite (bind_step _ _ _ _ _ Hpu).
  match goal with |- context [bind (Date_now E) _ ?v] =>
    rewrite (bind_step (Date_now E) _ v _ _ eq_refl); set (w5 := v) end.
  destruct (steady_completeMultipart E service uploadId key eTags
              (record (DateNow (now E (history w5))) w5))
    as (u & w6 & seg6 & H6 & Hm6 & Hh6 & _).
  rewrite (bind_step _ _ _ _ _ H6).
  rewrite (bind_step (Date_now E) _ w6 _ _ eq_refl).
  assert (Hm6' : measures w6 = <[uploadMeasure fx := lu]> (measures w)).
  { rewrite Hm6. subst w5. cbn. now rewrite Hm. }
  destruct (push_completes (completeMeasure fx)
              (now E (history w6) - now E (history w5))
              (record (DateNow (now E (history w6))) w6)) as [lc Hpc].
  { cbn. rewrite Hm6'.
    destruct (decide (uploadMeasure fx = completeMeasure fx)) as [<- | Hne].
    - rewrite lookup_insert_eq. eauto.
    - rewrite lookup_insert_ne by assumption. exact Hcomp. }
  rewrite Hpc. eexists _, _, _. split; [reflexivity|].
  cbn [measures history record].
  rewrite Hm6'. split_and!.
  - split.
    + destruct (decide (completeMeasure fx = uploadMeasure fx)) as [-> | Hne].
      * rewrite lookup_insert_eq. eauto.
      * rewrite lookup_insert_ne by assumption.
        rewrite lookup_insert_eq. eauto.
    + rewrite lookup_insert_eq. eauto.
  - rewrite !lookup_insert_ne by congruence. exact Hl.
  - cbn. rewrite Hh6. subst w5. cbn. rewrite Hh3, Hh2. cbn. rewrite Hh1.
    rewrite <- !app_assoc. reflexivity.
  - destruct seg1; [contradiction | discriminate].
Qed.

End ScenarioCompletion.

Section SweepCompletion.

Variable E : Env.
Variable d : Z.
Variable fuel : nat.
Hypothesis service : answering E.
Hypothesis ticking : clock_step E d.
Hypothesis d_nonneg : 0 <= d.
Hypothesis fuel_floor : (3 <= fuel)%nat.
Hypothesis fuel_budget : 10000 <= Z.of_nat fuel * d.
Hypothesis terminal : isTTY E = true.

Lemma for_each_completes {A} (l : list A) (body : A -> M unit) :
  (forall x, x ∈ l -> forall w, exists w', body x w = Done tt w') ->
  forall w, exists w', for_each l body w = Done tt w'.
Proof.
  induction l as [|x l IH]; intros Hbody w; cbn [for_each]; [eexists; reflexivity|].
  destruct (Hbody x (list_elem_of_here _ _) w) as [w1 H1].
  rewrite (bind_step _ _ _ _ _ H1). apply IH.
  intros y Hy. now apply Hbody, list_elem_of_further.
Qed.

Lemma micro_completes {R} (name : string) (fn : M R) (maxTimeMs : Z)
    (w : World) :
  inherited name = None -> steady fn -> maxTimeMs <= 10000 ->
  exists w', measure E fuel name (NoSetup fn) maxTimeMs w = Done tt w'.
Proof.
  intros Hown Hfn Hb.
  apply (measure_completes E d service ticking d_nonneg terminal
           (fun _ => True) name); auto; [|lia].
  now apply steady_action_ok.
Qed.

Lemma presign_completes (w : World) :
  exists w',
    measure E fuel "get-multipart-presigned-url-only"
      (WithSetup (presign_setup E)
         (fun s => getMultipartPresignedUrl E (fst s) (snd s) 1))
      1000 w = Done tt w'.
Proof.
  apply (measure_completes_with E d service ticking d_nonneg terminal
           (fun _ => True) "get-multipart-presigned-url-only"); auto; [|lia].
  intros v l Hl. unfold presign_setup.
  destruct (initiateMultipart_answers E service "multipart-presigned-url-only" v)
    as (out & v1 & seg & H1 & Hout & Hm1 & Hh1 & _).
  rewrite (bind_step _ _ _ _ _ H1).
  apply lacks_session_false in Hout as (uploadId & key & -> & ->).
  exists (key, uploadId), v1, seg. split_and!; auto; [congruence|].
  apply steady_action_ok. now apply steady_getMultipartPresignedUrl.
Qed.

Lemma traditional_scenario_completes (K0 : Z) (size : string) (w : World) :
  size_fits K0 size = true -> K0 <= kMaxLength E ->
  exists w',
    measure E fuel ("traditional-upload-" +:+ size)
      (WithSetup (traditional_setup E size)
         (fun file => traditionalUpload E ("traditional-upload-" +:+ size) file))
      2000 w = Done tt w'.
Proof.
  intros Hfits HK. unfold size_fits in Hfits.
  destruct (sizeToBytes size) as [e|bytes] eqn:Hs; [discriminate|].
  destruct (getFileOfSize K0 bytes) as [e|file] eqn:Hfile; [discriminate|].
  apply (getFileOfSize_mono K0 (kMaxLength E) _ _ HK) in Hfile.
  apply (measure_completes_with E d service ticking d_nonneg terminal
           (fun _ => True) ("traditional-upload-" +:+ size)); auto; [|lia].
  intros v l Hl. exists file, v, []. rewrite app_nil_r.
  split_and!; auto.
  - unfold traditional_setup. rewrite Hs.
    rewrite (bind_step (lift (inr bytes)) _ v v bytes eq_refl), Hfile.
    reflexivity.
  - apply steady_action_ok. now apply steady_traditionalUpload.
Qed.

Lemma sizeToBytes_1g : sizeToBytes "1g" = inr (Num.of_Z 1073741824).
Proof. reflexivity. Qed.

Lemma whole_Q (s : Q) : (Qden s =? 1)%positive = true -> s = inject_Z (Qnum s).
Proof.
  destruct s as [n p]. cbn. destruct p; try discriminate. reflexivity.
Qed.

Lemma multipart_setup_completes (K0 : Z) (passes : nat) (size chunk : string) :
  scenario_fits K0 passes (size, chunk) = true -> K0 <= kMaxLength E ->
  exists (S C : Z) (fx : Fixture),
    sizeToBytes size = inr (Num.of_Z S) /\ sizeToBytes chunk = inr (Num.of_Z C)
    /\ 0 < C /\ S <= 2 ^ 53 /\ S <= (Z.of_nat passes + 1) * C
    /\ uploadMeasure fx = upload_name size chunk
    /\ completeMeasure fx = complete_name size chunk
    /\ forall v,
         multipart_setup E size chunk v
         = Done fx {| measures := <[complete_name size chunk := []]>
                                   (<[upload_name size chunk := []]>
                                      (measures v));
                      history := history v |}.
Proof.
  unfold scenario_fits. cbn [fst snd]. intros Hfits HK.
  destruct (sizeToBytes size) as [e|[| |s]] eqn:Hs; try discriminate.
  destruct (sizeToBytes chunk) as [e|[| |c]] eqn:Hc; try discriminate.
  destruct (getFileOfSize K0 (Fin c)) as [e|file] eqn:Hfile;
    [now rewrite andb_false_r in Hfits|].
  destruct (getFileOfSize K0 (Fin s %% Fin c)%num) as [e|file'] eqn:Hfile';
    [now rewrite andb_false_r in Hfits|].
  rewrite andb_true_r in Hfits.
  apply andb_prop in Hfits as [Hfits Hle]. apply andb_prop in Hfits as [Hfits Hpos].
  apply andb_prop in Hfits as [Hfits Hb]. apply andb_prop in Hfits as [Hws Hwc].
  apply Z.leb_le in Hle, Hb. apply Z.ltb_lt in Hpos.
  apply whole_Q in Hws, Hwc.
  apply (getFileOfSize_mono K0 (kMaxLength E) _ _ HK) in Hfile, Hfile'.
  exists (Qnum s), (Qnum c),
    {| chunkData := file; lastChunkData := file';
       uploadMeasure := upload_name size chunk;
       completeMeasure := complete_name size chunk |}.
  unfold Num.of_Z. rewrite <- Hws, <- Hwc. split_and!; auto.
  intros v. unfold multipart_setup. rewrite Hc, Hs.
  rewrite (bind_step (lift (inr (Fin c))) _ v v (Fin c) eq_refl), Hfile.
  rewrite (bind_step (lift (inr file)) _ v v file eq_refl).
  rewrite (bind_step (lift (inr (Fin s))) _ v v (Fin s) eq_refl).
  rewrite (bind_step (lift (inr (Fin c))) _ v v (Fin c) eq_refl), Hfile'.
  rewrite (bind_step (lift (inr file')) _ v v file' eq_refl).
  reflexivity.
Qed.

(** A multipart scenario whose sizes fit: its setup puts the phase
    buckets in place and its action ends normally as long as they are
    there. *)
Lemma multipart_run_ok (K0 : Z) (passes : nat) (size chunk : string)
    (v : World) (l : list Z) :
  scenario_fits K0 passes (size, chunk) = true -> K0 <= kMaxLength E ->
  (passes <= fuel)%nat ->
  measures v !! total_name size chunk = Some l ->
  exists res w' seg,
    multipart_setup E size chunk v = Done res w'
    /\ phase_buckets (fixture_of size chunk 0 0) (measures w')
    /\ measures w' !! total_name size chunk = Some l
    /\ history w' = history v ++ seg
    /\ action_ok (phase_buckets (fixture_of size chunk 0 0))
         (total_name size chunk) (multipart_fn E fuel size chunk res).
Proof.
  intros Hfits HK Hpasses Hl.
  destruct (multipart_setup_completes K0 passes size chunk Hfits HK)
    as (S & C & fx & Hs & Hc & HC & Hb & Hle & Hu & Hcm & Hsetup).
  destruct (bucket_names_distinct size chunk) as (Htu & Htc & Huc).
  eexists fx, _, []. rewrite app_nil_r. split; [apply Hsetup|].
  split_and!.
  - split; cbn.
    + rewrite lookup_insert_ne by congruence. rewrite lookup_insert_eq. eauto.
    + rewrite lookup_insert_eq. eauto.
  - cbn. rewrite !lookup_insert_ne by congruence. exact Hl.
  - reflexivity.
  - assert (Hok : action_ok (phase_buckets fx) (total_name size chunk)
                    (multipart_fn E fuel size chunk fx)).
    { apply (multipart_fn_completes E service fuel size chunk fx S C);
        auto; try congruence; nia. }
    unfold phase_buckets in *. cbn [fixture_of uploadMeasure completeMeasure].
    rewrite Hu, Hcm in Hok. exact Hok.
Qed.

Lemma multipart_scenario_completes (K0 : Z) (passes : nat)
    (pair : string * string) (w : World) :
  scenario_fits K0 passes pair = true -> K0 <= kMaxLength E ->
  (passes <= fuel)%nat ->
  exists w', multipart_scenario E fuel pair w = Done tt w'.
Proof.
  destruct pair as [size chunk]. intros Hfits HK Hpasses.
  destruct (multipart_setup_completes K0 passes size chunk Hfits HK)
    as (S & C & fx & Hs & _).
  destruct (bucket_names_distinct size chunk) as (Htu & Htc & Huc).
  unfold multipart_scenario. cbn [fst snd].
  unfold multipart_budget. rewrite Hs, sizeToBytes_1g.
  set (budget := if Num.ge (Num.of_Z S) (Num.of_Z 1073741824)
                 then 10000 else 2000).
  rewrite (bind_step (lift (inr budget)) _ w w budget eq_refl).
  unfold multipart_run.
  apply (measure_completes_with E d service ticking d_nonneg terminal
           (phase_buckets (fixture_of size chunk 0 0))
           (total_name size chunk)); auto.
  - intros m l [Hu Hcm]. split; cbn in *.
    + destruct (decide (total_name size chunk = upload_name size chunk));
        [congruence|]. now rewrite lookup_insert_ne.
    + destruct (decide (total_name size chunk = complete_name size chunk));
        [congruence|]. now rewrite lookup_insert_ne.
  - intros v l Hl. now apply (multipart_run_ok K0 passes).
  - subst budget. destruct (Num.ge _ _); lia.
Qed.

End SweepCompletion.

Lemma sweep_sizes_fit :
  forallb (size_fits 1610612736) traditional_sizes = true
  /\ forallb (scenario_fits 1610612736 1023) sweep_pairs = true.
Proof. split; vm_compute; reflexivity. Qed.

Lemma run_completes (E : Env) (d : Z) (fuel : nat) (w : World) :
  isTTY E = true ->
  answering E -> clock_step E d -> 0 <= d ->
  (1023 <= fuel)%nat -> 10000 <= Z.of_nat fuel * d ->
  1610612736 <= kMaxLength E ->
  exists w', run E fuel w = Done tt w'.
Proof.
  intros Htty service ticking Hd Hfuel Hbudget HK.
  destruct sweep_sizes_fit as [Hsizes Hpairs].
  assert (H3 : (3 <= fuel)%nat) by lia.
  unfold run.
  destruct (steady_await (createBucket E) CreateBucket
              (answers_createBucket E service) w)
    as ([] & w1 & seg1 & H1 & _).
  rewrite (bind_step _ _ _ _ _ H1).
  destruct (micro_completes E d fuel service ticking Hd H3 Hbudget Htty
              "get-traditional-presigned-url"
              (getTraditionalPresignedUrl E "traditional-presigned-url-only")
              1000 w1) as [w2 H2];
    [reflexivity | now apply steady_getTraditionalPresignedUrl | lia |].
  rewrite (bind_step _ _ _ _ _ H2).
  destruct (micro_completes E d fuel service ticking Hd H3 Hbudget Htty
              "initiate-multipart-only"
              (initiateMultipart E "initiate-multipart-only") 1000 w2)
    as [w3 H3'];
    [reflexivity | now apply steady_initiateMultipart | lia |].
  unfold initiate_only. rewrite (bind_step _ _ _ _ _ H3').
  destruct (presign_completes E d fuel service ticking Hd H3 Hbudget Htty w3)
    as [w4 H4].
  rewrite (bind_step _ _ _ _ _ H4).
  destruct (for_each_completes traditional_sizes
              (fun size =>
                 measure E fuel ("traditional-upload-" +:+ size)
                   (WithSetup (traditional_setup E size)
                      (fun file =>
                         traditionalUpload E ("traditional-upload-" +:+ size)
                           file)) 2000)) with (w := w4) as [w5 H5].
  { intros size Hsize v.
    apply (traditional_scenario_completes E d fuel service ticking Hd H3
             Hbudget Htty 1610612736); [|exact HK].
    rewrite forallb_forall in Hsizes. apply Hsizes.
    now apply list_elem_of_In. }
  unfold measureTraditionalUploadCases at 1.
  rewrite (bind_step _ _ _ _ _ H5).
  assert (Hloop : forall v, exists v',
            for_each sweep_pairs (multipart_scenario E fuel) v = Done tt v').
  { apply for_each_completes. intros pair Hpair v.
    apply (multipart_scenario_completes E d fuel service ticking Hd H3
             Hbudget Htty 1610612736 1023); [|exact HK|exact Hfuel].
    rewrite forallb_forall in Hpairs. apply Hpairs.
    now apply list_elem_of_In. }
  destruct (Hloop w5) as [w7 H7].
  unfold sweep_pairs in H7. rewrite for_each_app in H7.
  apply bind_Done in H7 as ([] & w6 & H6 & H7).
  rewrite <- measureMultipartUploadCases_pairs in H6, H7.
  rewrite (bind_step _ _ _ _ _ H6). rewrite (bind_step _ _ _ _ _ H7).
  destruct (cleanup_completes E service fuel w7) as (w8 & H8 & _); [lia|].
  rewrite (bind_step _ _ _ _ _ H8).
  destruct (steady_await (deleteBucket E) DeleteBucket
              (answers_deleteBucket E service) w8)
    as ([] & w9 & seg9 & H9 & _).
  eauto.
Qed.

Lemma env_coarse_answering : answering env_coarse.
Proof.
  constructor; cbn; intros; eauto.
  - eexists. split; [reflexivity|]. destruct key; [contradiction | reflexivity].
  - injection H as <-. reflexivity.
Qed.

Lemma env_coarse_clock : clock_step env_coarse 1000.
Proof.
  intros h ev. cbn. unfold tick. rewrite length_app. cbn. lia.
Qed.

(** ** The sampler on the multipart scenarios *)

Lemma action_ok_ends {R} (I : gmap string (list Z) -> Prop) (name : string)
    (action : M R) :
  action_ok I name action -> ends_normally I name action.
Proof.
  intros Hok w l HI Hl.
  destruct (Hok w l HI Hl) as (a & w' & seg & H & HI' & Hl' & Hh & _).
  eauto 8.
Qed.

Lemma phase_buckets_apart (size chunk : string) :
  apart_from (total_name size chunk)
    (phase_buckets (fixture_of size chunk 0 0)).
Proof.
  destruct (bucket_names_distinct size chunk) as (Htu & Htc & _).
  intros m l [Hu Hcm]. split; cbn in *;
    rewrite lookup_insert_ne by congruence; assumption.
Qed.

Lemma multipart_run_ends (E : Env) (fuel : nat) (K0 : Z) (passes : nat)
    (size chunk : string) :
  answering E -> (3 <= fuel)%nat ->
  scenario_fits K0 passes (size, chunk) = true -> K0 <= kMaxLength E ->
  (passes <= fuel)%nat ->
  run_ends (phase_buckets (fixture_of size chunk 0 0))
    (total_name size chunk) (multipart_run E fuel size chunk).
Proof.
  intros service Hfuel Hfits HK Hpasses v l Hl.
  destruct (multipart_run_ok E fuel service Hfuel K0 passes size chunk v l
              Hfits HK Hpasses Hl)
    as (res & w' & seg & Hsetup & HI & Hl' & Hh & Hok).
  exists res, w', seg. split_and!; auto. now apply action_ok_ends.
Qed.

Lemma multipart_fn_moves (E : Env) (fuel : nat) (size chunk : string)
    (fx : Fixture) (w w' : World) (u : unit) :
  multipart_fn E fuel size chunk fx w = Done u w' ->
  exists seg, history w' = history w ++ seg /\ seg <> [].
Proof.
  intros H. apply multipart_fn_trace in H
    as (seg & remaining & chunkSize & st & w1 & w2 & uploadId & key & eTags
        & _ & _ & _ & Hh & _ & _ & Hf & _).
  exists seg. split; [exact Hh|]. intros ->. discriminate Hf.
Qed.

Lemma multipart_run_at_least (E : Env) (d : Z) (fuel : nat)
    (size chunk : string) :
  clock_step E d -> 0 <= d ->
  run_at_least E d (multipart_run E fuel size chunk).
Proof.
  intros ticking Hd fx w u w' H.
  apply multipart_fn_moves in H as (seg & -> & Hne).
  now apply (clock_moves E d).
Qed.

Lemma env_coarse_monotone : monotone_clock env_coarse.
Proof.
  apply (clock_monotone env_coarse 1000); [apply env_coarse_clock | lia].
Qed.

Lemma env_piped_answering : answering env_piped.
Proof.
  constructor; cbn; intros; eauto.
  - eexists. split; [reflexivity|]. destruct key; [contradiction | reflexivity].
  - injection H as <-. reflexivity.
Qed.

Lemma env_piped_monotone : monotone_clock env_piped.
Proof. exact env0_monotone. Qed.

Lemma env_set_back_answering : answering env_set_back.
Proof.
  constructor; cbn; intros; eauto.
  - eexists. split; [reflexivity|]. destruct key; [contradiction | reflexivity].
  - injection H as <-. reflexivity.
Qed.

Lemma env_frozen_answering : answering env_frozen.
Proof.
  constructor; cbn; intros; eauto.
  - eexists. split; [reflexivity|]. destruct key; [contradiction | reflexivity].
  - injection H as <-. reflexivity.
Qed.

Lemma fits_5m_5m : scenario_fits 4294967296 0 ("5m", "5m") = true.
Proof. vm_compute. reflexivity. Qed.

Lemma fresh_5m_5m : fresh_entry (total_name "5m" "5m") world0.
Proof. right. split; reflexivity. Qed.

(** C1, as amended: the loop of [measure] goes on exactly while fewer
    than three samples are in or less than the budget has elapsed since
    the start of the scenario, the clock being read only once three
    samples are in.  For a scenario whose entry is empty, or missing with
    nothing inherited under its name, and whose setup and action end
    normally and leave that entry alone (given the condition [I] on the
    rest of the store that the setup establishes and the action keeps, as
    the phase buckets of a multipart scenario): when the standard output
    is a terminal and the clock does not go back, a budget of 0 ms, or an
    action that alone takes longer than the budget, gives exactly three
    samples, and the rest of [measure] does not change them. *)
Theorem sampler_collects_three (E : Env) (I : gmap string (list Z) -> Prop)
    (name : string) (run : Run) (maxTimeMs : Z) (fuel : nat) (w : World) :
  isTTY E = true ->
  monotone_clock E ->
  apart_from name I ->
  run_ends I name run ->
  fresh_entry name w ->
  (3 <= fuel)%nat ->
  maxTimeMs = 0 \/ run_slow E maxTimeMs run ->
  (exists w' s1 s2 s3,
     measure_samples E fuel name run maxTimeMs w = Done tt w'
     /\ measures w' !! name = Some [s1; s2; s3]
     /\ forall w'', measure E fuel name run maxTimeMs w = Done tt w'' ->
          measures w'' !! name = Some [s1; s2; s3])
  /\ (forall overallStart w0 l,
        measures w0 !! name = Some l ->
        keep_sampling E name overallStart maxTimeMs w0
        = Done (spec_continue (length l)
                  (now E (history w0) - overallStart) maxTimeMs)
               (if (length l <? 3)%nat then w0
                else record (DateNow (now E (history w0))) w0))
  /\ (forall R (action : M R) fuel' overallStart w0 w1 continue,
        keep_sampling E name overallStart maxTimeMs w0 = Done continue w1 ->
        sampling E (S fuel') name action overallStart maxTimeMs w0
        = if continue
          then (sample_once E name action ;;
                sampling E fuel' name action overallStart maxTimeMs) w1
          else Done tt w1).
Proof.
  intros Htty Hclock HI Hrun Hempty Hfuel Hcase. split_and!.
  - now apply (sampler_three_samples E I).
  - intros overallStart w0 l Hl. now apply keep_sampling_rule.
  - intros R action fuel' overallStart w0 w1 continue Hkeep.
    rewrite sampling_unfold. unfold bind at 1. rewrite Hkeep.
    destruct continue; reflexivity.
Qed.

Lemma sampler_collects_three_witness :
  exists w' s1 s2 s3,
    measure_samples env_coarse 3 (total_name "5m" "5m")
      (multipart_run env_coarse 3 "5m" "5m") 0 world0 = Done tt w'
    /\ measures w' !! total_name "5m" "5m" = Some [s1; s2; s3].
Proof.
  destruct (sampler_collects_three env_coarse
              (phase_buckets (fixture_of "5m" "5m" 0 0))
              (total_name "5m" "5m") (multipart_run env_coarse 3 "5m" "5m")
              0 3 world0)
    as [(w' & s1 & s2 & s3 & Hrun & Hsamples & _) _].
  - reflexivity.
  - exact env_coarse_monotone.
  - apply phase_buckets_apart.
  - apply (multipart_run_ends env_coarse 3 4294967296 0);
      [exact env_coarse_answering | lia | exact fits_5m_5m | cbn; lia | lia].
  - exact fresh_5m_5m.
  - lia.
  - left. reflexivity.
  - exists w', s1, s2, s3. split; [exact Hrun | exact Hsamples].
Defined.

Lemma env_coarse_no_session_monotone : monotone_clock env_coarse_no_session.
Proof.
  apply (clock_monotone env_coarse_no_session 1000); [|lia].
  intros h ev. cbn. unfold tick. rewrite length_app. cbn. lia.
Qed.

(** C1, as stated, fails in three ways, shown on the multipart scenario
    of size "5m" and chunk "5m" with a budget of 0 ms and an entry that
    is missing at the start.  Off a terminal, with a setup and an action
    that end normally, the first pass records its sample and then fails
    to move the cursor: [measure] ends with a TypeError and one sample.
    Under a clock that is set back by 40 ms after the start of the
    scenario, again with a setup and an action that end normally, less
    than 0 ms have elapsed when three samples are in, and a fourth sample
    is taken.  And an action that ends, but with an exception, ends the
    loop: no sample is recorded. *)
Lemma three_samples_need_conditions :
  (run_ends (phase_buckets (fixture_of "5m" "5m" 0 0)) (total_name "5m" "5m")
     (multipart_run env_piped 3 "5m" "5m")
   /\ fresh_entry (total_name "5m" "5m") world0
   /\ monotone_clock env_piped
   /\ exists w' s1,
        measure_samples env_piped 3 (total_name "5m" "5m")
          (multipart_run env_piped 3 "5m" "5m") 0 world0 = Throw TypeError w'
        /\ measures w' !! total_name "5m" "5m" = Some [s1])
  /\ (run_ends (phase_buckets (fixture_of "5m" "5m" 0 0)) (total_name "5m" "5m")
        (multipart_run env_set_back 4 "5m" "5m")
      /\ fresh_entry (total_name "5m" "5m") world0
      /\ isTTY env_set_back = true
      /\ exists w' s1 s2 s3 s4,
           measure_samples env_set_back 4 (total_name "5m" "5m")
             (multipart_run env_set_back 4 "5m" "5m") 0 world0 = Done tt w'
           /\ measures w' !! total_name "5m" "5m" = Some [s1; s2; s3; s4])
  /\ (isTTY env_coarse_no_session = true
      /\ monotone_clock env_coarse_no_session
      /\ fresh_entry (total_name "5m" "5m") world0
      /\ exists w',
           measure_samples env_coarse_no_session 3 (total_name "5m" "5m")
             (multipart_run env_coarse_no_session 3 "5m" "5m") 0 world0
           = Throw (Error "UploadId or Key is undefined") w'
           /\ measures w' !! total_name "5m" "5m" = Some []).
Proof.
  split_and!.
  - apply (multipart_run_ends env_piped 3 4294967296 0);
      [exact env_piped_answering | lia | exact fits_5m_5m | cbn; lia | lia].
  - exact fresh_5m_5m.
  - exact env_piped_monotone.
  - eexists _, _. split; vm_compute; reflexivity.
  - apply (multipart_run_ends env_set_back 4 4294967296 0);
      [exact env_set_back_answering | lia | exact fits_5m_5m | cbn; lia | lia].
  - exact fresh_5m_5m.
  - reflexivity.
  - eexists _, _, _, _, _. split; vm_compute; reflexivity.
  - reflexivity.
  - exact env_coarse_no_session_monotone.
  - exact fresh_5m_5m.
  - eexists. split; vm_compute; reflexivity.
Qed.

Lemma sampling_ends_within_budget_witness :
  exists w' l,
    measure_samples env_coarse 3 (total_name "5m" "5m")
      (multipart_run env_coarse 3 "5m" "5m") 2000 world0 = Done tt w'
    /\ measures w' !! total_name "5m" "5m" = Some l
    /\ (3 <= length l <= 3)%nat
    /\ (length l = 3%nat \/ (Z.of_nat (length l) - 1) * 1000 < 2000).
Proof.
  apply (sampling_ends_within_budget env_coarse
           (phase_buckets (fixture_of "5m" "5m" 0 0))
           (total_name "5m" "5m") (multipart_run env_coarse 3 "5m" "5m")
           2000 1000 3 world0).
  - reflexivity.
  - exact env_coarse_monotone.
  - apply phase_buckets_apart.
  - apply (multipart_run_ends env_coarse 3 4294967296 0);
      [exact env_coarse_answering | lia | exact fits_5m_5m | cbn; lia | lia].
  - apply multipart_run_at_least; [exact env_coarse_clock | lia].
  - lia.
  - exact fresh_5m_5m.
  - lia.
  - lia.
Defined.

Lemma sampling_needs_the_clock_witness :
  measure env_frozen 1000 (total_name "5m" "5m")
    (multipart_run env_frozen 3 "5m" "5m") 1000 world0 = Timeout.
Proof.
  apply (sampling_needs_the_clock env_frozen
           (phase_buckets (fixture_of "5m" "5m" 0 0))
           (total_name "5m" "5m") (multipart_run env_frozen 3 "5m" "5m")
           1000 world0).
  - intros h h'. cbn. lia.
  - reflexivity.
  - apply phase_buckets_apart.
  - apply (multipart_run_ends env_frozen 3 4294967296 0);
      [exact env_frozen_answering | lia | exact fits_5m_5m | cbn; lia | lia].
  - right. reflexivity.
Defined.

(** X25: the sweep runs to its end. When the standard output is a
    terminal, against a service that answers every request, hands out
    session identifiers and lists the bucket as empty after a deletion
    request, under a clock on which every event takes [d] milliseconds
    or more, with buffers of up to 1.5 GiB allowed, and with fuel for the
    1023 passes of the largest upload and for the passes that fill the
    largest budget of 10000 ms, [run] returns normally from every
    world. *)
Theorem sweep_completes (E : Env) (d : Z) (fuel : nat) (w : World) :
  isTTY E = true ->
  answering E -> clock_step E d -> 0 <= d ->
  (1023 <= fuel)%nat -> 10000 <= Z.of_nat fuel * d ->
  1610612736 <= kMaxLength E ->
  exists w', run E fuel w = Done tt w'.
Proof.
  apply run_completes.
Qed.

Lemma sweep_completes_witness :
  exists w', run env_coarse 1023 world0 = Done tt w'.
Proof.
  apply (sweep_completes env_coarse 1000 1023 world0).
  - reflexivity.
  - exact env_coarse_answering.
  - exact env_coarse_clock.
  - lia.
  - lia.
  - lia.
  - cbn. lia.
Defined.

Section SweepResults.

Variable E : Env.

Lemma sampled_kept (names : list string) (name : string)
    (m m' : gmap string (list Z)) :
  touches_only names m m' -> name ∉ names -> sampled name m -> sampled name m'.
Proof.
  intros Ht Hn (l & Hl & H3). exists l. rewrite (Ht name Hn). auto.
Qed.

Lemma scenarios_post (fuel : nat) (pairs : list (string * string))
    (w w' : World) (u : unit) :
  NoDup (flat_map bucket_names pairs) ->
  (forall pair, pair ∈ pairs ->
     measures w !! total_name (fst pair) (snd pair) = None) ->
  for_each pairs (multipart_scenario E fuel) w = Done u w' ->
  forall pair, pair ∈ pairs ->
    balanced (fst pair) (snd pair) (measures w')
    /\ sampled (total_name (fst pair) (snd pair)) (measures w').
Proof.
  intros Hnodup Hfresh H pair Hpair.
  apply (for_each_post bucket_names
           (fun pair m => m !! total_name (fst pair) (snd pair) = None)
           (fun pair m => balanced (fst pair) (snd pair) m
                          /\ sampled (total_name (fst pair) (snd pair)) m)
           (multipart_scenario E fuel))
    with (l := pairs) (w := w) (w' := w') (u := u) (x := pair); auto.
  - intros p. apply frame_multipart_scenario.
  - intros p v u0 v' Hsc Hf. split.
    + exact (multipart_scenario_balanced E fuel p v v' u0 Hsc Hf).
    + exact (proj1 (multipart_scenario_sampled E fuel p v v' u0 Hsc)).
  - intros p m m0 Hsame Hf. rewrite Hsame; [exact Hf|].
    apply list_elem_of_here.
  - intros p m m0 Hsame
      [(lt & lu & lc & Ht & Hu & Hcm & Hlen) (l & Hl & H3)].
    unfold bucket_names in Hsame. split.
    + exists lt, lu, lc.
      rewrite !Hsame
        by (repeat first [apply list_elem_of_here | apply list_elem_of_further]).
      auto.
    + exists l. rewrite Hsame by apply list_elem_of_here. auto.
Qed.

Lemma balanced_sampled (size chunk : string) (m : gmap string (list Z)) :
  balanced size chunk m -> sampled (total_name size chunk) m ->
  forall k, k ∈ bucket_names (size, chunk) -> sampled k m.
Proof.
  intros (lt & lu & lc & Ht & Hu & Hc & Hlu & Hlc) (l & Hl & H3) k Hk.
  assert (l = lt) as -> by congruence.
  unfold bucket_names in Hk. cbn [fst snd] in Hk.
  apply elem_of_cons in Hk as [-> | Hk]; [exists lt; auto|].
  apply elem_of_cons in Hk as [-> | Hk]; [exists lu; split; [auto | lia]|].
  apply elem_of_cons in Hk as [-> | Hk]; [exists lc; split; [auto | lia]|].
  apply elem_of_nil in Hk. contradiction.
Qed.

Lemma frame_measureTraditionalUploadCases (fuel : nat) (sizes names : list string) :
  (forall size, size ∈ sizes -> "traditional-upload-" +:+ size ∈ names) ->
  frame names (measureTraditionalUploadCases E fuel sizes).
Proof.
  intros Hnames. unfold measureTraditionalUploadCases. apply frame_for_each.
  intros size Hsize. apply frame_measure; [now apply Hnames|].
  apply frame_traditional_run.
Qed.

Lemma sweep_results (fuel : nat) (w' : World) :
  run E fuel world0 = Done tt w' ->
  (forall name, name ∈ sweep_names -> sampled name (measures w'))
  /\ (forall size chunk, (size, chunk) ∈ sweep_pairs ->
        balanced size chunk (measures w'))
  /\ persisted w'.
Proof.
  intros H.
  set (trad := map (fun size => "traditional-upload-" +:+ size) traditional_sizes).
  set (buckets := flat_map bucket_names sweep_pairs).
  pose proof sweep_names_distinct as Hdistinct.
  unfold sweep_names in Hdistinct. fold trad buckets in Hdistinct.
  cbn [app] in Hdistinct.
  apply NoDup_cons in Hdistinct as [Hn1 Hdistinct].
  apply NoDup_cons in Hdistinct as [Hn2 Hdistinct].
  apply NoDup_cons in Hdistinct as [Hn3 Hdistinct].
  apply NoDup_app in Hdistinct as (_ & Hdisj & Hbuckets).
  unfold run in H.
  apply bind_Done in H as (u1 & w1 & H1 & H).
  apply bind_Done in H as (u2 & w2 & H2 & H).
  apply bind_Done in H as (u3 & w3 & H3 & H).
  apply bind_Done in H as (u4 & w4 & H4 & H).
  apply bind_Done in H as (u5 & w5 & H5 & H).
  apply bind_Done in H as (u6 & w6 & H6 & H).
  apply bind_Done in H as (u7 & w7 & H7 & H).
  apply bind_Done in H as (u8 & w8 & H8 & H).
  apply await_Done in H as [_ ->].
  pose proof (cleanup_measures E fuel w7 w8 u8 H8) as Hm8.
  assert (T01 : measures w1 = measures world0)
    by (apply await_Done in H1 as [_ ->]; reflexivity).
  assert (T12 : touches_only ["get-traditional-presigned-url"]
                  (measures w1) (measures w2)).
  { refine (frame_measure E _ fuel _ _ _ (list_elem_of_here _ _) _
              w1 u2 w2 H2).
    apply frame_getTraditionalPresignedUrl. }
  assert (T23 : touches_only ["initiate-multipart-only"]
                  (measures w2) (measures w3)).
  { refine (frame_measure E _ fuel _ _ _ (list_elem_of_here _ _) _
              w2 u3 w3 H3).
    apply frame_initiate_only. }
  assert (T34 : touches_only ["get-multipart-presigned-url-only"]
                  (measures w3) (measures w4)).
  { refine (frame_measure E _ fuel _ _ _ (list_elem_of_here _ _) _
              w3 u4 w4 H4).
    split; [apply frame_presign_setup|]. intros v res v' _. apply frame_await. }
  assert (T45 : touches_only trad (measures w4) (measures w5)).
  { apply (frame_measureTraditionalUploadCases fuel traditional_sizes trad)
      with (w := w4) (a := u5); [|exact H5].
    intros size Hsize. subst trad.
    apply list_elem_of_In, in_map, list_elem_of_In, Hsize. }
  rewrite measureMultipartUploadCases_pairs in H6, H7.
  assert (Hloop : for_each sweep_pairs (multipart_scenario E fuel) w5
                  = Done u7 w7).
  { unfold sweep_pairs. rewrite for_each_app. unfold bind. rewrite H6.
    exact H7. }
  assert (T57 : touches_only buckets (measures w5) (measures w7)).
  { apply (frame_for_each buckets sweep_pairs (multipart_scenario E fuel))
      with (w := w5) (a := u7); [|exact Hloop].
    intros pair Hpair. apply (frame_mono (bucket_names pair));
      [|apply frame_multipart_scenario].
    intros k Hk. subst buckets. apply list_elem_of_In, in_flat_map.
    exists pair. split; apply list_elem_of_In; assumption. }
  assert (Hfresh : forall pair, pair ∈ sweep_pairs ->
            measures w5 !! total_name (fst pair) (snd pair) = None).
  { intros pair Hpair.
    assert (Hb : total_name (fst pair) (snd pair) ∈ buckets).
    { subst buckets. apply list_elem_of_In, in_flat_map. exists pair.
      split; [now apply list_elem_of_In|]. cbn. now left. }
    rewrite (T45 _ (fun Hk => Hdisj _ Hk Hb)).
    rewrite (T34 _), (T23 _), (T12 _), T01; [reflexivity| | |];
      intros Hk; apply list_elem_of_singleton in Hk; rewrite <- Hk in *.
    - apply Hn1. do 2 apply list_elem_of_further. apply elem_of_app. now right.
    - apply Hn2. apply list_elem_of_further. apply elem_of_app. now right.
    - apply Hn3. apply elem_of_app. now right. }
  pose proof (scenarios_post fuel sweep_pairs w5 w7 u7 Hbuckets Hfresh Hloop)
    as Hpairs.
  cbn [record measures]. rewrite Hm8. split_and!.
  - intros name Hname. unfold sweep_names in Hname.
    fold trad buckets in Hname. cbn [app] in Hname.
    apply elem_of_cons in Hname as [-> | Hname].
    { apply (sampled_kept buckets _ _ _ T57);
        [intros Hk; apply Hn1; do 2 apply list_elem_of_further;
         apply elem_of_app; now right|].
      apply (sampled_kept trad _ _ _ T45);
        [intros Hk; apply Hn1; do 2 apply list_elem_of_further;
         apply elem_of_app; now left|].
      apply (sampled_kept _ _ _ _ T34);
        [intros Hk; apply Hn1; apply list_elem_of_singleton in Hk;
         rewrite Hk; apply list_elem_of_further, list_elem_of_here|].
      apply (sampled_kept _ _ _ _ T23);
        [intros Hk; apply Hn1; apply list_elem_of_singleton in Hk;
         rewrite Hk; apply list_elem_of_here|].
      exact (measure_floor E fuel _ _ _ _ _ _ H2). }
    apply elem_of_cons in Hname as [-> | Hname].
    { apply (sampled_kept buckets _ _ _ T57);
        [intros Hk; apply Hn2; apply list_elem_of_further;
         apply elem_of_app; now right|].
      apply (sampled_kept trad _ _ _ T45);
        [intros Hk; apply Hn2; apply list_elem_of_further;
         apply elem_of_app; now left|].
      apply (sampled_kept _ _ _ _ T34);
        [intros Hk; apply Hn2; apply list_elem_of_singleton in Hk;
         rewrite Hk; apply list_elem_of_here|].
      exact (measure_floor E fuel _ _ _ _ _ _ H3). }
    apply elem_of_cons in Hname as [-> | Hname].
    { apply (sampled_kept buckets _ _ _ T57);
        [intros Hk; apply Hn3; apply elem_of_app; now right|].
      apply (sampled_kept trad _ _ _ T45);
        [intros Hk; apply Hn3; apply elem_of_app; now left|].
      exact (measure_floor E fuel _ _ _ _ _ _ H4). }
    apply elem_of_app in Hname as [Hname | Hname].
    { apply (sampled_kept buckets _ _ _ T57);
        [intros Hk; exact (Hdisj _ Hname Hk)|].
      subst trad. apply list_elem_of_In, in_map_iff in Hname
        as (size & <- & Hsize).
      apply (proj1 (traditional_cases E fuel traditional_sizes w4 w5 u5 H5)).
      now apply list_elem_of_In. }
    subst buckets. apply list_elem_of_In, in_flat_map in Hname
      as ([size chunk] & Hpair & Hname).
    apply list_elem_of_In in Hpair, Hname.
    destruct (Hpairs _ Hpair) as [Hbal Hsam].
    exact (balanced_sampled size chunk _ Hbal Hsam name Hname).
  - intros size chunk Hpair. exact (proj1 (Hpairs _ Hpair)).
  - assert (Hp7 : persisted w7).
    { apply (for_each_last persisted (multipart_scenario E fuel))
        with (l := pairs_of multipart_big_sizes multipart_big_chunks)
             (w := w6) (u := u7); [|discriminate|exact H7].
      intros pair v u0 v' Hsc.
      exact (proj2 (multipart_scenario_sampled E fuel pair v v' u0 Hsc)). }
    apply cleanup_trace in H8 as (rounds & final & Hh8 & _ & _ & _ & _).
    unfold persisted in *. cbn [record history measures].
    rewrite Hm8, Hh8. unfold written in *. rewrite !omap_app.
    fold (written (cleanup_events rounds final)).
    rewrite written_cleanup. cbn. rewrite !app_nil_r. exact Hp7.
Qed.

End SweepResults.

(** X26: when [run], started with an empty store, returns, every
    scenario name of the sweep has three samples or more, every multipart
    scenario has its three buckets in step, and the last write to
    results.json holds the store as it is at the end. *)
Theorem sweep_leaves_every_scenario_sampled (E : Env) (fuel : nat)
    (w' : World) :
  run E fuel world0 = Done tt w' ->
  (forall name, name ∈ sweep_names -> sampled name (measures w'))
  /\ (forall size chunk, (size, chunk) ∈ sweep_pairs ->
        balanced size chunk (measures w'))
  /\ persisted w'.
Proof.
  apply sweep_results.
Qed.

Lemma sweep_leaves_every_scenario_sampled_witness :
  exists w',
    run env_coarse 1023 world0 = Done tt w'
    /\ (forall name, name ∈ sweep_names -> sampled name (measures w'))
    /\ (forall size chunk, (size, chunk) ∈ sweep_pairs ->
          balanced size chunk (measures w'))
    /\ persisted w'.
Proof.
  destruct (run_completes env_coarse 1000 1023 world0 eq_refl
              env_coarse_answering env_coarse_clock ltac:(lia) ltac:(lia)
              ltac:(lia) ltac:(cbn; lia)) as [w' Hrun].
  exists w'. split; [exact Hrun|].
  exact (sweep_leaves_every_scenario_sampled env_coarse 1023 w' Hrun).
Defined.

(** ** Where exceptions come from *)

Lemma bind_Throw_inv {A B} (m : M A) (k : A -> M B) (w w' : World) (e : exn) :
  bind m k w = Throw e w' ->
  m w = Throw e w' \/ exists a w1, m w = Done a w1 /\ k a w1 = Throw e w'.
Proof.
  unfold bind. destruct (m w) as [a w1|e1 w1|]; intros H.
  - right. eauto.
  - left. now injection H as <- <-.
  - discriminate H.
Qed.

Lemma push_Throw (name : string) (x : Z) (w w' : World) (e : exn) :
  push name x w = Throw e w' -> e = TypeError /\ measures w' !! name = None.
Proof.
  unfold push, bind, samples.
  destruct (measures w !! name) eqn:Hl; [discriminate|].
  now intros [= <- <-].
Qed.

Lemma stdout_clear_Throw (E : Env) (w w' : World) (e : exn) :
  stdout_clear E w = Throw e w' -> e = TypeError /\ isTTY E = false.
Proof.
  unfold stdout_clear. destruct (isTTY E); [discriminate|].
  now intros [= <- _].
Qed.

Lemma keep_sampling_Throw (E : Env) (name : string) (overallStart maxTimeMs : Z)
    (w w' : World) (e : exn) :
  keep_sampling E name overallStart maxTimeMs w = Throw e w' ->
  e = TypeError /\ measures w' !! name = None.
Proof.
  unfold keep_sampling, bind, samples_length.
  destruct (measures w !! name) as [l|] eqn:Hl.
  - destruct (length l <? 3)%nat; discriminate.
  - destruct (inherited name) as [[n|]|]; [| |now intros [= <- <-]].
    + destruct (n <? 3)%nat; discriminate.
    + discriminate.
Qed.

Lemma summary_Throw (E : Env) (name : string) (w w' : World) (e : exn) :
  summary E name w = Throw e w' -> own_TypeError E name e w'.
Proof.
  unfold summary. intros H.
  apply bind_Throw_inv in H as [H | (u & w1 & H1 & H)].
  - apply stdout_clear_Throw in H as [-> Ht]. split; auto.
  - apply bind_Throw_inv in H as [H | (l & w2 & _ & H)]; [|discriminate H].
    unfold samples in H. destruct (measures w1 !! name) eqn:Hl;
      [discriminate|]. injection H as <- <-. split; auto.
Qed.

Lemma sample_once_Throw (E : Env) {R} (name : string) (action : M R)
    (w w' : World) (e : exn) :
  sample_once E name action w = Throw e w' ->
  (exists v, action v = Throw e w') \/ own_TypeError E name e w'.
Proof.
  unfold sample_once. intros H.
  apply bind_Throw_inv in H as [H | (start & w1 & _ & H)]; [discriminate H|].
  apply bind_Throw_inv in H as [H | (r & w2 & _ & H)]; [left; eauto|].
  apply bind_Throw_inv in H as [H | (stop & w3 & _ & H)]; [discriminate H|].
  right. apply bind_Throw_inv in H as [H | (u & w4 & _ & H)].
  - apply push_Throw in H as [-> Hl]. split; auto.
  - apply stdout_clear_Throw in H as [-> Ht]. split; auto.
Qed.

Lemma sampling_Throw (E : Env) {R} (name : string) (action : M R)
    (overallStart maxTimeMs : Z) (fuel : nat) :
  forall (w w' : World) (e : exn),
    sampling E fuel name action overallStart maxTimeMs w = Throw e w' ->
    (exists v, action v = Throw e w') \/ own_TypeError E name e w'.
Proof.
  induction fuel as [|fuel IH]; intros w w' e H; rewrite sampling_unfold in H;
    apply bind_Throw_inv in H as [H | ([|] & w1 & _ & H)];
    try (right; apply keep_sampling_Throw in H as [-> Hl]; split; auto; fail);
    try discriminate H.
  apply bind_Throw_inv in H as [H | (u & w2 & _ & H)].
  - exact (sample_once_Throw E name action _ _ _ H).
  - exact (IH _ _ _ H).
Qed.

Lemma listObjects_Throw (E : Env) (w w' : World) (e : exn) :
  listObjects E w = Throw e w' ->
  history w' = history w ++ [ListObjectsV2 (inl e)]
  /\ listObjectsV2 E (history w) = inl e.
Proof.
  unfold listObjects, bind, await.
  destruct (listObjectsV2 E (history w)); [now intros [= <- <-] | discriminate].
Qed.

Lemma cleanup_loop_Throw (E : Env) (fuel : nat) :
  forall (objects : list string) (w w' : World) (e : exn),
    cleanup_loop E fuel objects w = Throw e w' -> rejected_in E e w'.
Proof.
  induction fuel as [|fuel IH]; intros [|o objects] w w' e H;
    cbn [cleanup_loop] in H; try discriminate H.
  apply bind_Throw_inv in H as [H | (u & w1 & _ & H)].
  - exists (history w). right. left. exists (o :: objects). unfold await in H.
    destruct (deleteObjects E (history w) (o :: objects));
      [now injection H as <- <- | discriminate H].
  - apply bind_Throw_inv in H as [H | (objects' & w2 & _ & H)].
    + exists (history w1). left. exact (listObjects_Throw E _ _ _ H).
    + exact (IH _ _ _ _ H).
Qed.

Lemma flush_Throw (E : Env) (fuel : nat) (w w' : World) (e : exn) :
  flush E fuel w = Throw e w' -> rejected_in E e w'.
Proof.
  unfold flush, cleanup. intros H.
  apply bind_Throw_inv in H as [H | (u & w1 & _ & H)].
  - apply bind_Throw_inv in H as [H | (objects & w2 & _ & H)].
    + exists (history w). left. exact (listObjects_Throw E _ _ _ H).
    + exact (cleanup_loop_Throw E fuel _ _ _ _ H).
  - exists (history w1). right. right. exists (measures w1). unfold await in H.
    destruct (writeFile E (history w1) "results.json" (measures w1));
      [now injection H as <- <- | discriminate H].
Qed.

(** The statement of X27. *)
Lemma measure_Throw (E : Env) (fuel : nat) (name : string)
    (run : Run) (maxTimeMs : Z) (w w' : World) (e : exn) :
  measure E fuel name run maxTimeMs w = Throw e w' ->
  match run with
  | WithSetup setup fn =>
      (exists v, setup v = Throw e w') \/ (exists res v, fn res v = Throw e w')
  | NoSetup fn => exists v, fn v = Throw e w'
  end
  \/ own_TypeError E name e w'
  \/ rejected_in E e w'.
Proof.
  unfold measure. intros H.
  apply bind_Throw_inv in H as [H | (u & w1 & _ & H)];
    [|right; right; exact (flush_Throw E fuel _ _ _ H)].
  rewrite measure_samples_run in H.
  destruct run as [T R setup fn | R fn].
  - apply bind_Throw_inv in H as [H | (res & w2 & _ & H)]; [eauto 6|].
    apply bind_Throw_inv in H as [H | (u & w3 & _ & H)].
    + apply sampling_Throw in H as [[v H] | H]; eauto 6.
    + right. left. exact (summary_Throw E name _ _ _ H).
  - apply bind_Throw_inv in H as [H | (u & w3 & _ & H)].
    + apply sampling_Throw in H as [[v H] | H]; eauto.
    + right. left. exact (summary_Throw E name _ _ _ H).
Qed.

(** X27: the exceptions of [measure]. When it ends with an exception [e]
    in a world [w'], then its setup or its action has ended with [e] in
    [w']; or [e] is the TypeError of [measure] itself, and then the
    standard output is no terminal or the store of [w'] has no entry
    under the name of the scenario; or the last event of [w'] is a
    listing, a deletion request or the write of results.json that the
    outside world has rejected with [e]. *)
Theorem measure_adds_no_exceptions (E : Env) (fuel : nat) (name : string)
    (run : Run) (maxTimeMs : Z) (w w' : World) (e : exn) :
  measure E fuel name run maxTimeMs w = Throw e w' ->
  match run with
  | WithSetup setup fn =>
      (exists v, setup v = Throw e w') \/ (exists res v, fn res v = Throw e w')
  | NoSetup fn => exists v, fn v = Throw e w'
  end
  \/ own_TypeError E name e w'
  \/ rejected_in E e w'.
Proof. apply measure_Throw. Qed.

Lemma measure_adds_no_exceptions_witness :
  exists w',
    measure env_coarse_no_session 3 "get-multipart-presigned-url-only"
      (WithSetup (presign_setup env_coarse_no_session)
         (fun s => getMultipartPresignedUrl env_coarse_no_session
                     (fst s) (snd s) 1))
      1000 world0 = Throw (Error "Key or UploadId is undefined") w'
    /\ (((exists v, presign_setup env_coarse_no_session v
                    = Throw (Error "Key or UploadId is undefined") w')
         \/ (exists res v,
               getMultipartPresignedUrl env_coarse_no_session
                 (fst res) (snd res) 1 v
               = Throw (Error "Key or UploadId is undefined") w'))
        \/ own_TypeError env_coarse_no_session
             "get-multipart-presigned-url-only"
             (Error "Key or UploadId is undefined") w'
        \/ rejected_in env_coarse_no_session
             (Error "Key or UploadId is undefined") w').
Proof.
  eexists. split; [vm_compute; reflexivity|].
  apply (measure_adds_no_exceptions env_coarse_no_session 3
           "get-multipart-presigned-url-only"
           (WithSetup (presign_setup env_coarse_no_session)
              (fun s => getMultipartPresignedUrl env_coarse_no_session
                          (fst s) (snd s) 1))
           1000 world0).
  vm_compute. reflexivity.
Defined.

(** X28: [run] creates the bucket first and only once. The history of a
    sweep that has ended starts with the request to create the bucket and
    has no second one; and when that request is rejected, [run] ends with
    the rejection and has done nothing else. *)
Theorem bucket_created_first (E : Env) (fuel : nat) (w : World) :
  match run E fuel w with
  | Done _ w' | Throw _ w' =>
      exists r seg,
        history w' = history w ++ CreateBucket r :: seg
        /\ Forall (fun ev => forall r', ev <> CreateBucket r') seg
        /\ match r with
           | inl e => seg = [] /\ run E fuel w = Throw e w'
           | inr _ => True
           end
  | Timeout => True
  end.
Proof.
  rewrite run_sweep. unfold sweep, bind at 1 2, await at 1.
  destruct (createBucket E (history w)) as [e|u] eqn:Hcreate.
  - exists (inl e), []. split_and!; auto.
    unfold bind, await. rewrite Hcreate. reflexivity.
  - pose proof (emits_scenarios E (fun ev => forall r', ev <> CreateBucket r'))
      as Hsc.
    specialize (Hsc ltac:(intros [] Hev r'; try discriminate; destruct Hev)
                    ltac:(discriminate) ltac:(discriminate) fuel
                    (record (CreateBucket (inr u)) w)).
    destruct (scenarios E fuel (record (CreateBucket (inr u)) w))
      as [u1 w1|e1 w1|]; auto; destruct Hsc as (seg & Hh & Hseg).
    + unfold await. destruct (deleteBucket E (history w1)) as [e|u2]; cbn;
        eexists (inr u), (seg ++ [_]);
        rewrite Hh; cbn; rewrite <- !app_assoc;
        (split; [reflexivity|]); (split; [|exact I]);
        (apply Forall_app; split; [exact Hseg|]);
        (constructor; [discriminate | constructor]).
    + exists (inr u), seg. rewrite Hh. cbn. rewrite <- app_assoc. auto.
Qed.
